(** * Lua 5.1 chunk string tools: extract.py and import.py

    A shallow embedding of [script/extract.py] and [script/import.py]:
    the header reader, the endian-aware integer and length-prefixed
    string codec, the two prototype walkers ([process_proto] of each
    script), [patch_const_string], [patch_file] and [load_mapping].

    Python values are modelled as follows.
    - [bytes], [bytearray] and [memoryview] are [list byte];
    - Python [int] is [Z];
    - [str] is a list of Unicode code points ([list Z]);
    - [Dict[int, str]] is [gmap Z (list Z)];
    - a raised exception is [Err e], a normal return is [Ok v];
    - the mutable [out] buffer and the one-element [counter] list are
      threaded through the walkers as explicit state. *)

From Stdlib Require Import ZArith List Lia.
From Stdlib.Strings Require Import Byte.
From stdpp Require Import base option list list_numbers gmap.

Local Open Scope Z_scope.

(** ** Exceptions and the result type *)

Inductive value_error :=
| NotLuaChunk            (* "not a Lua 5.1 chunk (missing \x1bLua)" *)
| HeaderTooShort         (* "header too short" *)
| UnsupportedIntSize     (* "unsupported int size" *)
| UnsupportedSizeTSize   (* "unsupported size_t size" *)
| UnknownConstantType.   (* "unknown constant type" *)

Inductive exn :=
| ValueError (why : value_error)
| StructError            (* struct.error *)
| IndexError
| UnicodeEncodeError
| UnicodeError           (* a UnicodeError that is not a UnicodeEncodeError *)
| LookupError            (* "unknown encoding: ..." *)
| RecursionError.

Inductive result (A : Type) :=
| Ok (a : A)
| Err (e : exn).
Arguments Ok {A} a.
Arguments Err {A} e.

Definition bind {A B} (r : result A) (k : A -> result B) : result B :=
  match r with
  | Ok a => k a
  | Err e => Err e
  end.

Notation "'let*' x ':=' e 'in' k" := (bind e (fun x => k))
  (at level 10, x pattern, e at level 100, k at level 200).

Definition is_ok {A} (r : result A) : bool :=
  match r with Ok _ => true | Err _ => false end.

(** [for _ in range(n): body] over a threaded state. *)
Fixpoint repeat_loop {S} (n : nat) (body : S -> result S) (s : S) : result S :=
  match n with
  | O => Ok s
  | Datatypes.S n' => let* s' := body s in repeat_loop n' body s'
  end.

Definition for_range {S} (n : Z) (body : S -> result S) (s : S) : result S :=
  repeat_loop (Z.to_nat n) body s.

(** ** Python sequence primitives *)

Definition len {A} (l : list A) : Z := Z.of_nat (length l).

(** Slice index adjustment of [seq[start:stop]]: a negative index counts
    from the end, and the result is clamped to [0, len]. *)
Definition adjust_index (n i : Z) : Z :=
  if i <? 0 then Z.max (i + n) 0 else Z.min i n.

(** [seq[start:stop]] *)
Definition py_slice {A} (l : list A) (start stop : Z) : list A :=
  let s := adjust_index (len l) start in
  let e := adjust_index (len l) stop in
  take (Z.to_nat (e - s)) (drop (Z.to_nat s) l).

(** [seq[:stop]] *)
Definition py_slice_to {A} (l : list A) (stop : Z) : list A :=
  py_slice l 0 stop.

(** [seq[start:]] *)
Definition py_slice_from {A} (l : list A) (start : Z) : list A :=
  py_slice l start (len l).

(** [data[pos]] on a memoryview: negative positions count from the end,
    anything out of range raises IndexError. *)
Definition py_index (data : list byte) (pos : Z) : result byte :=
  let i := if pos <? 0 then pos + len data else pos in
  if (i <? 0) || (len data <=? i) then Err IndexError
  else match data !! Z.to_nat i with
       | Some b => Ok b
       | None => Err IndexError
       end.

(** ** struct.pack / struct.unpack_from *)

Inductive endian := Little | Big.   (* "<" and ">" *)

#[global] Instance byte_eq_decision : EqDecision byte := Byte.byte_eq_dec.

Definition byte_to_Z (b : byte) : Z := Z.of_N (Byte.to_N b).

Definition byte_of_Z (z : Z) : byte :=
  default x00 (Byte.of_N (Z.to_N (z mod 256))).

Fixpoint le_decode (bs : list byte) : Z :=
  match bs with
  | [] => 0
  | b :: r => byte_to_Z b + 256 * le_decode r
  end.

Fixpoint le_encode (n : nat) (v : Z) : list byte :=
  match n with
  | O => []
  | S n' => byte_of_Z v :: le_encode n' (v / 256)
  end.

Definition in_order (e : endian) (bs : list byte) : list byte :=
  match e with
  | Little => bs
  | Big => rev bs
  end.

Definition unpack_unsigned (e : endian) (bs : list byte) : Z :=
  le_decode (in_order e bs).

Definition unpack_signed (e : endian) (bs : list byte) : Z :=
  let u := unpack_unsigned e bs in
  let w := 8 * len bs in
  if u <? 2 ^ (w - 1) then u else u - 2 ^ w.

(** The [n] bytes of [v] in two's complement. *)
Definition pack_bytes (e : endian) (n : nat) (v : Z) : list byte :=
  in_order e (le_encode n v).

(** The buffer window of [struct.unpack_from(fmt, data, pos)] for a format
    of [n] bytes: a negative offset counts from the end of the buffer, and
    a window that does not fit raises struct.error. *)
Definition unpack_window (n : nat) (data : list byte) (pos : Z) : result (list byte) :=
  let off := if pos <? 0 then pos + len data else pos in
  if (off <? 0) || (len data - off <? Z.of_nat n) then Err StructError
  else Ok (take n (drop (Z.to_nat off) data)).

(** [struct.pack] of an unsigned ("I", "Q") and of a signed ("i", "q")
    value of [n] bytes: a value out of range raises struct.error. *)
Definition struct_pack_unsigned (e : endian) (n : nat) (v : Z) : result (list byte) :=
  if (0 <=? v) && (v <? 2 ^ (8 * Z.of_nat n)) then Ok (pack_bytes e n v)
  else Err StructError.

Definition struct_pack_signed (e : endian) (n : nat) (v : Z) : result (list byte) :=
  if (- 2 ^ (8 * Z.of_nat n - 1) <=? v) && (v <? 2 ^ (8 * Z.of_nat n - 1))
  then Ok (pack_bytes e n v)
  else Err StructError.

(** ** The header reader (the same in both scripts) *)

Definition LUA_SIGNATURE : list byte := [x1b; x4c; x75; x61].   (* b"\x1bLua" *)

Record header := {
  h_endian : endian;
  h_int_size : Z;
  h_size_t_size : Z;
  h_instr_size : Z;
  h_number_size : Z
}.

Definition header_byte (data : list byte) (i : nat) : Z :=
  byte_to_Z (default x00 (data !! i)).

Definition read_header (data : list byte) : result header :=
  if negb (bool_decide (py_slice_to data 4 = LUA_SIGNATURE))
  then Err (ValueError NotLuaChunk)
  else if len data <? 12 then Err (ValueError HeaderTooShort)
  else Ok {| h_endian := if header_byte data 6 =? 1 then Little else Big;
             h_int_size := header_byte data 7;
             h_size_t_size := header_byte data 8;
             h_instr_size := header_byte data 9;
             h_number_size := header_byte data 10 |}.

(** ** The primitive codec of import.py *)

Definition read_int (data : list byte) (e : endian) (size pos : Z) : result (Z * Z) :=
  if size =? 4 then
    let* w := unpack_window 4 data pos in Ok (unpack_signed e w, pos + size)
  else if size =? 8 then
    let* w := unpack_window 8 data pos in Ok (unpack_signed e w, pos + size)
  else Err (ValueError UnsupportedIntSize).

Definition write_int (buf : list byte) (e : endian) (size val : Z) : result (list byte) :=
  if size =? 4 then
    let* bs := struct_pack_signed e 4 val in Ok (buf ++ bs)
  else if size =? 8 then
    let* bs := struct_pack_signed e 8 val in Ok (buf ++ bs)
  else Err (ValueError UnsupportedIntSize).

Definition read_size_t (data : list byte) (e : endian) (size pos : Z) : result (Z * Z) :=
  if size =? 4 then
    let* w := unpack_window 4 data pos in Ok (unpack_unsigned e w, pos + size)
  else if size =? 8 then
    let* w := unpack_window 8 data pos in Ok (unpack_unsigned e w, pos + size)
  else Err (ValueError UnsupportedSizeTSize).

Definition write_size_t (buf : list byte) (e : endian) (size val : Z) : result (list byte) :=
  if size =? 4 then
    let* bs := struct_pack_unsigned e 4 val in Ok (buf ++ bs)
  else if size =? 8 then
    let* bs := struct_pack_unsigned e 8 val in Ok (buf ++ bs)
  else Err (ValueError UnsupportedSizeTSize).

(** [None] is Python's [None] (stored length 0); [Some s] is the payload
    without its last byte. *)
Definition read_lstring (data : list byte) (e : endian) (size_t_size pos : Z)
  : result (option (list byte) * Z) :=
  let* (n, pos) := read_size_t data e size_t_size pos in
  if n =? 0 then Ok (None, pos)
  else
    let raw := py_slice data pos (pos + n) in
    let pos := pos + n in
    Ok (Some (py_slice_to raw (-1)), pos).

Definition write_lstring (buf : list byte) (e : endian) (size_t_size : Z)
    (s : option (list byte)) : result (list byte) :=
  match s with
  | None => write_size_t buf e size_t_size 0
  | Some s =>
      let* buf := write_size_t buf e size_t_size (len s + 1) in
      let buf := buf ++ s in
      Ok (buf ++ [x00])
  end.

(** ** Text codecs and display text *)

(** A Python text encoding, as used by [bytes.decode] and [str.encode].
    Strict decoding may raise ([None]; the scripts catch every exception
    of it) and decoding with [errors="replace"] returns.  Strict encoding
    returns the bytes or raises: UnicodeEncodeError for a character the
    encoding does not have, and with some encoding names another
    exception (LookupError for a name [str.encode] does not know, a plain
    UnicodeError from "idna"). *)
Record codec := {
  decode_strict : list byte -> option (list Z);
  decode_replace : list byte -> list Z;
  encode_strict : list Z -> result (list byte)
}.

Definition CR : Z := 13.
Definition LF : Z := 10.
Definition BACKSLASH : Z := 92.
Definition LETTER_r : Z := 114.
Definition LETTER_n : Z := 110.
Definition SPACE : Z := 32.
Definition WHITE_CIRCLE : Z := 9675.   (* U+25CB *)
Definition BLACK_CIRCLE : Z := 9679.   (* U+25CF *)

(** [s.replace(c, new)] for a one-character pattern. *)
Fixpoint replace_char (c : Z) (new : list Z) (s : list Z) : list Z :=
  match s with
  | [] => []
  | x :: r => if x =? c then new ++ replace_char c new r
              else x :: replace_char c new r
  end.

(** [s.replace(ab, new)] for a two-character pattern: occurrences are
    found from the left and do not overlap. *)
Fixpoint replace_pair (a b : Z) (new : list Z) (s : list Z) : list Z :=
  match s with
  | [] => []
  | x :: t =>
      match t with
      | [] => [x]
      | y :: r => if (x =? a) && (y =? b) then new ++ replace_pair a b new r
                  else x :: replace_pair a b new t
      end
  end.

(** [try: raw.decode(enc, errors="strict") except: raw.decode(enc, errors="replace")] *)
Definition decode_text (enc : codec) (raw : list byte) : list Z :=
  match decode_strict enc raw with
  | Some t => t
  | None => decode_replace enc raw
  end.

(** [text.replace("\r", "\\r").replace("\n", "\\n")] *)
Definition escape_text (text : list Z) : list Z :=
  replace_char LF [BACKSLASH; LETTER_n] (replace_char CR [BACKSLASH; LETTER_r] text).

(** [new.replace("\\r", "\r").replace("\\n", "\n")] *)
Definition unescape_text (new : list Z) : list Z :=
  replace_pair BACKSLASH LETTER_n [LF] (replace_pair BACKSLASH LETTER_r [CR] new).

Definition display_text (enc : codec) (raw : list byte) : list Z :=
  escape_text (decode_text enc raw).

(** ** import.py *)

Module ImportPy.

Definition patch_const_string (raw : list byte) (idx : Z) (mapping : gmap Z (list Z))
    (src_enc dst_enc : codec) : result (list byte) :=
  match mapping !! idx with
  | None => Ok raw
  | Some new =>
      let cur_text := decode_text src_enc raw in
      let cur_disp := escape_text cur_text in
      if bool_decide (new = cur_disp) then Ok raw
      else
        let new_text := unescape_text new in
        encode_strict dst_enc new_text
  end.

(** The walker's state: the read cursor [pos], the output bytearray [out]
    and [counter[0]].  [p_visits] is a ghost log of the calls
    [patch_const_string(s, counter[0], ...)], in call order; the code
    never reads it. *)
Record pstate := mk_pstate {
  p_pos : Z;
  p_out : list byte;
  p_counter : Z;
  p_visits : list (Z * list byte)
}.

Section walker.
Variables (data : list byte) (e : endian).
Variables (int_size size_t_size instr_size number_size : Z).
Variables (mapping : gmap Z (list Z)) (src_enc dst_enc : codec).

(** Body of [for _ in range(sizek)]. *)
Definition const_step (st : pstate) : result pstate :=
  let* t := py_index data (p_pos st) in
  let out := p_out st ++ [t] in
  let pos := p_pos st + 1 in
  if byte_to_Z t =? 0 then
    Ok (mk_pstate pos out (p_counter st) (p_visits st))
  else if byte_to_Z t =? 1 then
    let out := out ++ py_slice data pos (pos + 1) in
    Ok (mk_pstate (pos + 1) out (p_counter st) (p_visits st))
  else if byte_to_Z t =? 3 then
    let out := out ++ py_slice data pos (pos + number_size) in
    Ok (mk_pstate (pos + number_size) out (p_counter st) (p_visits st))
  else if byte_to_Z t =? 4 then
    let* (s, pos) := read_lstring data e size_t_size pos in
    match s with
    | Some raw =>
        let counter := p_counter st + 1 in
        let* s' := patch_const_string raw counter mapping src_enc dst_enc in
        let* out := write_lstring out e size_t_size (Some s') in
        Ok (mk_pstate pos out counter (p_visits st ++ [(counter, raw)]))
    | None =>
        let* out := write_lstring out e size_t_size None in
        Ok (mk_pstate pos out (p_counter st) (p_visits st))
    end
  else Err (ValueError UnknownConstantType).

(** Body of [for _ in range(sizelocvars)]. *)
Definition locvar_step (st : pstate) : result pstate :=
  let* (s, pos) := read_lstring data e size_t_size (p_pos st) in
  let* out := write_lstring (p_out st) e size_t_size s in
  let* (a, pos) := read_int data e int_size pos in
  let* (b, pos) := read_int data e int_size pos in
  let* out := write_int out e int_size a in
  let* out := write_int out e int_size b in
  Ok (mk_pstate pos out (p_counter st) (p_visits st)).

(** Body of [for _ in range(sizeup)]. *)
Definition upvalue_step (st : pstate) : result pstate :=
  let* (s, pos) := read_lstring data e size_t_size (p_pos st) in
  let* out := write_lstring (p_out st) e size_t_size s in
  Ok (mk_pstate pos out (p_counter st) (p_visits st)).

(** [process_proto]; [depth] is the number of nested calls the
    interpreter still allows before it raises RecursionError. *)
Fixpoint process_proto (depth : nat) (st : pstate) : result pstate :=
  match depth with
  | O => Err RecursionError
  | S depth' =>
    let counter := p_counter st in
    let visits := p_visits st in
    let* (name, pos) := read_lstring data e size_t_size (p_pos st) in
    let* out := write_lstring (p_out st) e size_t_size name in
    let* (a, pos) := read_int data e int_size pos in
    let* (b, pos) := read_int data e int_size pos in
    let* out := write_int out e int_size a in
    let* out := write_int out e int_size b in
    let out := out ++ py_slice data pos (pos + 4) in
    let pos := pos + 4 in
    let* (sizecode, pos) := read_int data e int_size pos in
    let* out := write_int out e int_size sizecode in
    let out := out ++ py_slice data pos (pos + sizecode * instr_size) in
    let pos := pos + sizecode * instr_size in
    let* (sizek, pos) := read_int data e int_size pos in
    let* out := write_int out e int_size sizek in
    let* st := for_range sizek const_step (mk_pstate pos out counter visits) in
    let* (sizep, pos) := read_int data e int_size (p_pos st) in
    let* out := write_int (p_out st) e int_size sizep in
    let* st := for_range sizep (process_proto depth')
                 (mk_pstate pos out (p_counter st) (p_visits st)) in
    let* (sizelineinfo, pos) := read_int data e int_size (p_pos st) in
    let* out := write_int (p_out st) e int_size sizelineinfo in
    let out := out ++ py_slice data pos (pos + sizelineinfo * int_size) in
    let pos := pos + sizelineinfo * int_size in
    let* (sizelocvars, pos) := read_int data e int_size pos in
    let* out := write_int out e int_size sizelocvars in
    let* st := for_range sizelocvars locvar_step
                 (mk_pstate pos out (p_counter st) (p_visits st)) in
    let* (sizeup, pos) := read_int data e int_size (p_pos st) in
    let* out := write_int (p_out st) e int_size sizeup in
    for_range sizeup upvalue_step
      (mk_pstate pos out (p_counter st) (p_visits st))
  end.
End walker.

(** What [patch_file] leaves behind: the bytes written to [out_path], a
    reported failure without output (the caught UnicodeEncodeError), or an
    exception that leaves the function (no output either). *)
Inductive outcome :=
| Written (bytes : list byte)
| NotWritten
| Raised (e : exn).

(** [patch_file] after its [if not mapping] guard: header, walk, write. *)
Definition patch_walk (recursion_limit : nat) (data : list byte)
    (mapping : gmap Z (list Z)) (src_enc dst_enc : codec) : outcome :=
  match read_header data with
  | Err ex => Raised ex
  | Ok h =>
      let out := py_slice_to data 12 in
      match process_proto data (h_endian h) (h_int_size h) (h_size_t_size h)
              (h_instr_size h) (h_number_size h) mapping src_enc dst_enc
              recursion_limit (mk_pstate 12 out (-1) []) with
      | Ok st => Written (p_out st)
      | Err UnicodeEncodeError => NotWritten
      | Err ex => Raised ex
      end
  end.

(** [patch_file]: [data] is what [in_path.read_bytes()] returned. *)
Definition patch_file (recursion_limit : nat) (data : list byte)
    (mapping : gmap Z (list Z)) (src_enc dst_enc : codec) : outcome :=
  if bool_decide (mapping = ∅) then Written data
  else patch_walk recursion_limit data mapping src_enc dst_enc.

(** *** load_mapping *)

(** [str.splitlines()]: the line boundaries are LF, CR, CR LF, VT, FF, FS,
    GS, RS, NEL, LS and PS; the boundary is dropped, and no empty last
    line is produced. [cur] is the current line, reversed. *)
Definition is_line_boundary (c : Z) : bool :=
  bool_decide (c ∈ [10; 13; 11; 12; 28; 29; 30; 133; 8232; 8233]).

Fixpoint splitlines_from (cur : list Z) (s : list Z) : list (list Z) :=
  match s with
  | [] => match cur with [] => [] | _ => [rev cur] end
  | c :: r =>
      if c =? CR then
        match r with
        | c' :: r' => if c' =? LF then rev cur :: splitlines_from [] r'
                      else rev cur :: splitlines_from [] r
        | [] => [rev cur]
        end
      else if is_line_boundary c then rev cur :: splitlines_from [] r
      else splitlines_from (c :: cur) r
  end.

Definition splitlines (s : list Z) : list (list Z) := splitlines_from [] s.

(** [s.split(sep, 1)] for a one-character separator: [None] when the
    separator does not occur (the result has one element). *)
Fixpoint split_once (sep : Z) (s : list Z) : option (list Z * list Z) :=
  match s with
  | [] => None
  | c :: r => if c =? sep then Some ([], r)
              else match split_once sep r with
                   | Some (h, t) => Some (c :: h, t)
                   | None => None
                   end
  end.

(** What [int()] takes from its environment: for a character outside
    ASCII, whether it is white space and its decimal digit value if it has
    one (the Unicode database); and the limit on the number of digits of
    a decimal string, [sys.get_int_max_str_digits()], 0 when there is
    none. *)
Record int_env := {
  uc_space : Z -> bool;
  uc_decimal : Z -> option Z;
  max_str_digits : Z
}.

Definition is_ascii_digit (c : Z) : bool := (48 <=? c) && (c <=? 57).
Definition is_ascii_space (c : Z) : bool :=
  ((9 <=? c) && (c <=? 13)) || (c =? 32).

(** [int()] first maps white space and decimal digits outside ASCII to
    ASCII; any other character outside ASCII is an error. *)
Definition to_ascii (db : int_env) (c : Z) : option Z :=
  if c <? 127 then Some c
  else if uc_space db c then Some 32
  else match uc_decimal db c with
       | Some d => Some (48 + d)
       | None => None
       end.

Fixpoint drop_spaces (s : list Z) : list Z :=
  match s with
  | c :: r => if is_ascii_space c then drop_spaces r else s
  | [] => []
  end.

(** The digits after the first one: an underscore is allowed between two
    digits only. *)
Fixpoint digits_value (acc : Z) (s : list Z) : option Z :=
  match s with
  | [] => Some acc
  | c :: r =>
      if is_ascii_digit c then digits_value (10 * acc + (c - 48)) r
      else if c =? 95 then
        match r with
        | d :: _ => if is_ascii_digit d then digits_value acc r else None
        | [] => None
        end
      else None
  end.

Fixpoint count_digits (s : list Z) : Z :=
  match s with
  | [] => 0
  | c :: r => (if is_ascii_digit c then 1 else 0) + count_digits r
  end.

(** More digits than the limit allows is an error. *)
Definition within_digit_limit (db : int_env) (s : list Z) : bool :=
  negb ((0 <? max_str_digits db) && (max_str_digits db <? count_digits s)).

Definition unsigned_value (db : int_env) (s : list Z) : option Z :=
  match s with
  | c :: _ =>
      if is_ascii_digit c && within_digit_limit db s then digits_value 0 s else None
  | [] => None
  end.

(** [int(head)]; [None] is ValueError. *)
Definition py_int (db : int_env) (head : list Z) : option Z :=
  match mapM (to_ascii db) head with
  | None => None
  | Some s =>
      let s := rev (drop_spaces (rev (drop_spaces s))) in
      match s with
      | 45 :: r => Z.opp <$> unsigned_value db r
      | 43 :: r => unsigned_value db r
      | _ => unsigned_value db s
      end
  end.

(** The body of the loop over the lines, as the entry it stores; [None]
    is [continue], taken directly or from the [except] clause. *)
Definition parse_line (db : int_env) (line : list Z) : option (Z * list Z) :=
  match line with
  | c :: rest =>
      if c =? BLACK_CIRCLE then
        match split_once BLACK_CIRCLE rest with
        | None => None
        | Some (head, txt) =>
            match py_int db head with
            | None => None
            | Some idx =>
                let txt := match txt with
                           | c' :: txt' => if c' =? SPACE then txt' else txt
                           | [] => txt
                           end in
                Some (idx, txt)
            end
        end
      else None
  | [] => None
  end.

Definition mapping_step (db : int_env) (mapping : gmap Z (list Z))
    (line : list Z) : gmap Z (list Z) :=
  match parse_line db line with
  | Some (idx, txt) => <[idx := txt]> mapping
  | None => mapping
  end.

(** [load_mapping] once the file has been decoded to [text]. *)
Definition load_mapping (db : int_env) (text : list Z) : gmap Z (list Z) :=
  fold_left (mapping_step db) (splitlines text) ∅.

End ImportPy.

(** ** extract.py *)

Module ExtractPy.

(** [read_lstring] of extract.py also returns the payload position and
    length: [(s, pos, raw_pos, raw_len)]. *)
Definition read_lstring (data : list byte) (e : endian) (size_t_size pos : Z)
  : result (option (list byte) * Z * option Z * Z) :=
  let* (n, pos) := read_size_t data e size_t_size pos in
  if n =? 0 then Ok (None, pos, None, 0)
  else
    let raw_pos := pos in
    let raw := py_slice data pos (pos + n) in
    let pos := pos + n in
    Ok (Some (py_slice_to raw (-1)), pos, Some raw_pos, n - 1).

(** An output record [f"○{idx:05d}○ {text}"] or [f"●{idx:05d}● {text}"],
    kept symbolic; [render_line] is the f-string. *)
Inductive mark := White | Black.

Record line := mk_line {
  l_mark : mark;
  l_index : Z;
  l_text : list Z
}.

Fixpoint uint_chars (d : Decimal.uint) : list Z :=
  match d with
  | Decimal.Nil => []
  | Decimal.D0 r => 48 :: uint_chars r
  | Decimal.D1 r => 49 :: uint_chars r
  | Decimal.D2 r => 50 :: uint_chars r
  | Decimal.D3 r => 51 :: uint_chars r
  | Decimal.D4 r => 52 :: uint_chars r
  | Decimal.D5 r => 53 :: uint_chars r
  | Decimal.D6 r => 54 :: uint_chars r
  | Decimal.D7 r => 55 :: uint_chars r
  | Decimal.D8 r => 56 :: uint_chars r
  | Decimal.D9 r => 57 :: uint_chars r
  end.

Definition zero_pad (width : nat) (digits : list Z) : list Z :=
  repeat 48 (width - length digits)%nat ++ digits.

(** [f"{z:05d}"]: the sign counts towards the width. *)
Definition format_05d (z : Z) : list Z :=
  if z <? 0 then 45 :: zero_pad 4 (uint_chars (N.to_uint (Z.to_N (- z))))
  else zero_pad 5 (uint_chars (N.to_uint (Z.to_N z))).

Definition mark_char (m : mark) : Z :=
  match m with White => WHITE_CIRCLE | Black => BLACK_CIRCLE end.

Definition render_line (l : line) : list Z :=
  [mark_char (l_mark l)] ++ format_05d (l_index l)
    ++ [mark_char (l_mark l); SPACE] ++ l_text l.

(** The walker's state: the cursor [pos], the list [out] and [counter[0]]. *)
Record estate := mk_estate {
  e_pos : Z;
  e_out : list line;
  e_counter : Z
}.

Section walker.
Variables (data : list byte) (e : endian).
Variables (int_size size_t_size instr_size number_size : Z).
Variable (encoding : codec).

(** Body of [for _ in range(sizek)]. *)
Definition const_step (st : estate) : result estate :=
  let* t := py_index data (e_pos st) in
  let pos := e_pos st + 1 in
  if byte_to_Z t =? 0 then Ok (mk_estate pos (e_out st) (e_counter st))
  else if byte_to_Z t =? 1 then Ok (mk_estate (pos + 1) (e_out st) (e_counter st))
  else if byte_to_Z t =? 3 then
    Ok (mk_estate (pos + number_size) (e_out st) (e_counter st))
  else if byte_to_Z t =? 4 then
    let* (s, pos, raw_pos, raw_len) := read_lstring data e size_t_size pos in
    match s with
    | Some s =>
        let counter := e_counter st + 1 in
        let text := decode_text encoding s in
        let text_disp := escape_text text in
        let out := e_out st ++ [mk_line White counter text_disp] in
        let out := out ++ [mk_line Black counter text_disp] in
        Ok (mk_estate pos out counter)
    | None => Ok (mk_estate pos (e_out st) (e_counter st))
    end
  else Err (ValueError UnknownConstantType).

(** Body of [for _ in range(sizelocvars)]. *)
Definition locvar_step (st : estate) : result estate :=
  let* (_, pos, _, _) := read_lstring data e size_t_size (e_pos st) in
  Ok (mk_estate (pos + int_size * 2) (e_out st) (e_counter st)).

(** Body of [for _ in range(sizeupvalues)]. *)
Definition upvalue_step (st : estate) : result estate :=
  let* (_, pos, _, _) := read_lstring data e size_t_size (e_pos st) in
  Ok (mk_estate pos (e_out st) (e_counter st)).

Fixpoint process_proto (depth : nat) (st : estate) : result estate :=
  match depth with
  | O => Err RecursionError
  | S depth' =>
    let* (_, pos, _, _) := read_lstring data e size_t_size (e_pos st) in
    let* (_, pos) := read_int data e int_size pos in
    let* (_, pos) := read_int data e int_size pos in
    let pos := pos + 4 in
    let* (sizecode, pos) := read_int data e int_size pos in
    let pos := pos + sizecode * instr_size in
    let* (sizek, pos) := read_int data e int_size pos in
    let* st := for_range sizek const_step
                 (mk_estate pos (e_out st) (e_counter st)) in
    let* (sizep, pos) := read_int data e int_size (e_pos st) in
    let* st := for_range sizep (process_proto depth')
                 (mk_estate pos (e_out st) (e_counter st)) in
    let* (sizelineinfo, pos) := read_int data e int_size (e_pos st) in
    let pos := pos + sizelineinfo * int_size in
    let* (sizelocvars, pos) := read_int data e int_size pos in
    let* st := for_range sizelocvars locvar_step
                 (mk_estate pos (e_out st) (e_counter st)) in
    let* (sizeupvalues, pos) := read_int data e int_size (e_pos st) in
    for_range sizeupvalues upvalue_step
      (mk_estate pos (e_out st) (e_counter st))
  end.
End walker.

(** The single-file path of [main] up to the list [strings]. *)
Definition extract_strings (recursion_limit : nat) (data : list byte)
    (encoding : codec) : result (list line) :=
  let* h := read_header data in
  let* st := process_proto data (h_endian h) (h_int_size h) (h_size_t_size h)
               (h_instr_size h) (h_number_size h) encoding
               recursion_limit (mk_estate 12 [] (-1)) in
  Ok (e_out st).

End ExtractPy.

(** ** The chunk format and well-formed chunks

    The grammar that both walkers follow, as a tree with its byte
    encoding.  It is what "a valid chunk" means in the statements below:
    the twelve header bytes followed by the encoding of one prototype. *)

Module Chunk.

(** A length-prefixed string field: absent (stored length 0), or a
    payload followed by one terminator byte. *)
Definition lstring : Type := option (list byte * byte).

Inductive constant :=
| KNil
| KBoolean (b : byte)
| KNumber (payload : list byte)
| KString (s : lstring).

Record locvar := mk_locvar {
  lv_name : lstring;
  lv_startpc : Z;
  lv_endpc : Z
}.

#[warnings="-register-all"] Inductive proto := mk_proto {
  source_name : lstring;
  line_defined : Z;
  last_line_defined : Z;
  flag_block : list byte;
  sizecode : Z;
  code : list byte;
  constants : list constant;
  children : list proto;
  sizelineinfo : Z;
  lineinfo : list byte;
  locvars : list locvar;
  upvalues : list lstring
}.

Section format.
Variable (h : header).

Definition encode_int (v : Z) : list byte :=
  pack_bytes (h_endian h) (Z.to_nat (h_int_size h)) v.

Definition encode_size_t (v : Z) : list byte :=
  pack_bytes (h_endian h) (Z.to_nat (h_size_t_size h)) v.

Definition encode_lstring (s : lstring) : list byte :=
  match s with
  | None => encode_size_t 0
  | Some (payload, terminator) =>
      encode_size_t (len payload + 1) ++ payload ++ [terminator]
  end.

Definition encode_constant (k : constant) : list byte :=
  match k with
  | KNil => [x00]
  | KBoolean b => [x01; b]
  | KNumber payload => x03 :: payload
  | KString s => x04 :: encode_lstring s
  end.

Definition encode_locvar (lv : locvar) : list byte :=
  encode_lstring (lv_name lv) ++ encode_int (lv_startpc lv)
    ++ encode_int (lv_endpc lv).

Fixpoint encode_proto (p : proto) : list byte :=
  encode_lstring (source_name p)
    ++ encode_int (line_defined p) ++ encode_int (last_line_defined p)
    ++ flag_block p
    ++ encode_int (sizecode p) ++ code p
    ++ encode_int (len (constants p)) ++ flat_map encode_constant (constants p)
    ++ encode_int (len (children p)) ++ flat_map encode_proto (children p)
    ++ encode_int (sizelineinfo p) ++ lineinfo p
    ++ encode_int (len (locvars p)) ++ flat_map encode_locvar (locvars p)
    ++ encode_int (len (upvalues p)) ++ flat_map encode_lstring (upvalues p).

(** Widths the codec supports, and values that fit them. *)
Definition wf_format : bool :=
  ((h_int_size h =? 4) || (h_int_size h =? 8))
  && ((h_size_t_size h =? 4) || (h_size_t_size h =? 8)).

Definition int_ok (v : Z) : bool :=
  (- 2 ^ (8 * h_int_size h - 1) <=? v) && (v <? 2 ^ (8 * h_int_size h - 1)).

Definition size_ok (v : Z) : bool :=
  (0 <=? v) && (v <? 2 ^ (8 * h_size_t_size h)).

Definition wf_lstring (s : lstring) : bool :=
  match s with
  | None => true
  | Some (payload, _) => size_ok (len payload + 1)
  end.

Definition wf_constant (k : constant) : bool :=
  match k with
  | KNil | KBoolean _ => true
  | KNumber payload => len payload =? h_number_size h
  | KString s => wf_lstring s
  end.

Definition wf_locvar (lv : locvar) : bool :=
  wf_lstring (lv_name lv) && int_ok (lv_startpc lv) && int_ok (lv_endpc lv).

Fixpoint wf_proto (p : proto) : bool :=
  wf_lstring (source_name p)
  && int_ok (line_defined p) && int_ok (last_line_defined p)
  && (len (flag_block p) =? 4)
  && int_ok (sizecode p) && (len (code p) =? sizecode p * h_instr_size h)
  && int_ok (len (constants p)) && forallb wf_constant (constants p)
  && int_ok (len (children p)) && forallb wf_proto (children p)
  && int_ok (sizelineinfo p)
  && (len (lineinfo p) =? sizelineinfo p * h_int_size h)
  && int_ok (len (locvars p)) && forallb wf_locvar (locvars p)
  && int_ok (len (upvalues p)) && forallb wf_lstring (upvalues p).
End format.

(** Nesting depth of a prototype: the number of nested [process_proto]
    calls a walk over it needs. *)
Fixpoint proto_depth (p : proto) : nat :=
  S (foldr Nat.max O (map proto_depth (children p))).

(** Every present string ends in a zero byte. *)
Definition zero_terminated_lstring (s : lstring) : bool :=
  match s with
  | None => true
  | Some (_, t) => bool_decide (t = x00)
  end.

Definition zero_terminated_constant (k : constant) : bool :=
  match k with
  | KString s => zero_terminated_lstring s
  | _ => true
  end.

Fixpoint zero_terminated (p : proto) : bool :=
  zero_terminated_lstring (source_name p)
  && forallb zero_terminated_constant (constants p)
  && forallb zero_terminated (children p)
  && forallb (fun lv => zero_terminated_lstring (lv_name lv)) (locvars p)
  && forallb zero_terminated_lstring (upvalues p).

(** The payloads of the present string constants, in traversal order:
    each prototype's constant table first, then its children in order. *)
Definition constant_strings (k : constant) : list (list byte) :=
  match k with
  | KString (Some (payload, _)) => [payload]
  | _ => []
  end.

Fixpoint proto_strings (p : proto) : list (list byte) :=
  flat_map constant_strings (constants p) ++ flat_map proto_strings (children p).

(** Numbering from a counter value [c]: the first item gets [c + 1]. *)
Fixpoint number_from {A} (c : Z) (l : list A) : list (Z * A) :=
  match l with
  | [] => []
  | x :: r => (c + 1, x) :: number_from (c + 1) r
  end.

(** The twelve header bytes of a chunk in format [h]. *)
Definition format_byte (v : Z) : byte := byte_of_Z v.

Definition encode_header (version format integral : byte) (h : header) : list byte :=
  LUA_SIGNATURE
    ++ [version; format;
        match h_endian h with Little => x01 | Big => x00 end;
        format_byte (h_int_size h); format_byte (h_size_t_size h);
        format_byte (h_instr_size h); format_byte (h_number_size h);
        integral].

(** The header's widths are single bytes. *)
Definition byte_sized (h : header) : bool :=
  (0 <=? h_int_size h) && (h_int_size h <? 256)
  && (0 <=? h_size_t_size h) && (h_size_t_size h <? 256)
  && (0 <=? h_instr_size h) && (h_instr_size h <? 256)
  && (0 <=? h_number_size h) && (h_number_size h <? 256).

End Chunk.

(** ** Patching as a function on the tree

    What the patch walker does to a chunk, said on the tree: every field
    is kept, a present string is written back with terminator 0, and the
    payload of a present string constant goes through
    [patch_const_string] with the next index.  The walker is proved to
    compute the encoding of this tree. *)

Module TreePatch.
Import Chunk.

(** A function applied along a list while a counter is threaded. *)
Definition thread {A B} (f : A -> Z -> result (B * Z))
  : list A -> Z -> result (list B * Z) :=
  fix go l c :=
    match l with
    | [] => Ok ([], c)
    | x :: r =>
        let* (y, c) := f x c in
        let* (ys, c) := go r c in
        Ok (y :: ys, c)
    end.

Definition normalize_lstring (s : lstring) : lstring :=
  match s with
  | None => None
  | Some (payload, _) => Some (payload, x00)
  end.

Definition normalize_locvar (lv : locvar) : locvar :=
  mk_locvar (normalize_lstring (lv_name lv)) (lv_startpc lv) (lv_endpc lv).

Section tree.
Variables (h : header) (mapping : gmap Z (list Z)) (src_enc dst_enc : codec).

Definition patch_constant (k : constant) (c : Z) : result (constant * Z) :=
  match k with
  | KString (Some (raw, _)) =>
      let* s' := ImportPy.patch_const_string raw (c + 1) mapping src_enc dst_enc in
      if size_ok h (len s' + 1) then Ok (KString (Some (s', x00)), c + 1)
      else Err StructError
  | _ => Ok (k, c)
  end.

Fixpoint patch_proto (p : proto) (c : Z) : result (proto * Z) :=
  let* (ks, c) := thread patch_constant (constants p) c in
  let* (cs, c) := thread patch_proto (children p) c in
  Ok (mk_proto (normalize_lstring (source_name p))
        (line_defined p) (last_line_defined p) (flag_block p)
        (sizecode p) (code p) ks cs (sizelineinfo p) (lineinfo p)
        (map normalize_locvar (locvars p))
        (map normalize_lstring (upvalues p)), c).
End tree.

(** The records Extraction Mode appends for the numbered strings. *)
Definition lines_of (encoding : codec) (numbered : list (Z * list byte))
  : list ExtractPy.line :=
  flat_map (fun '(idx, raw) =>
              [ExtractPy.mk_line ExtractPy.White idx (display_text encoding raw);
               ExtractPy.mk_line ExtractPy.Black idx (display_text encoding raw)])
           numbered.

End TreePatch.

(** ** Reading at a cursor *)

(** [data] continues with [rest] at position [pos]. *)
Definition at_cursor (data : list byte) (pos : Z) (rest : list byte) : Prop :=
  exists pre, data = pre ++ rest /\ pos = len pre.

(** ** Chunks: valid ones, and ones with an unknown constant tag *)

Module Valid.
Import Chunk.

Definition encode_chunk (version format integral : byte) (h : header) (p : proto)
  : list byte :=
  encode_header version format integral h ++ encode_proto h p.

(** A valid chunk in format [h]: supported widths, every count and length
    consistent with what follows it, every present string terminated by a
    zero byte. *)
Definition valid (h : header) (p : proto) : bool :=
  wf_format h && byte_sized h && wf_proto h p && zero_terminated p.

(** The tree [p] with the payload [raw] of its present string constant
    number [idx] replaced by [f idx raw], numbering from the counter
    value [c]; nothing else is touched. *)
Definition renumber {A} (g : A -> Z -> A) (strs : A -> list (list byte))
  : list A -> Z -> list A :=
  fix go l c :=
    match l with
    | [] => []
    | x :: r => g x c :: go r (c + len (strs x))
    end.

Definition substitute_constant (f : Z -> list byte -> list byte)
    (k : constant) (c : Z) : constant :=
  match k with
  | KString (Some (raw, t)) => KString (Some (f (c + 1) raw, t))
  | _ => k
  end.

Fixpoint substitute (f : Z -> list byte -> list byte) (p : proto) (c : Z) : proto :=
  mk_proto (source_name p) (line_defined p) (last_line_defined p) (flag_block p)
    (sizecode p) (code p)
    (renumber (substitute_constant f) constant_strings (constants p) c)
    (renumber (substitute f) proto_strings (children p)
       (c + len (flat_map constant_strings (constants p))))
    (sizelineinfo p) (lineinfo p) (locvars p) (upvalues p).

(** The tree [p] with the terminator of every present string set to 0. *)
Definition normalize_constant (k : constant) : constant :=
  match k with
  | KString s => KString (TreePatch.normalize_lstring s)
  | _ => k
  end.

Fixpoint normalize_proto (p : proto) : proto :=
  mk_proto (TreePatch.normalize_lstring (source_name p))
    (line_defined p) (last_line_defined p) (flag_block p) (sizecode p) (code p)
    (map normalize_constant (constants p)) (map normalize_proto (children p))
    (sizelineinfo p) (lineinfo p)
    (map TreePatch.normalize_locvar (locvars p))
    (map TreePatch.normalize_lstring (upvalues p)).

(** What [patch_const_string] makes of a payload when it returns. *)
Definition patched (mapping : gmap Z (list Z)) (src_enc dst_enc : codec)
    (idx : Z) (raw : list byte) : list byte :=
  match ImportPy.patch_const_string raw idx mapping src_enc dst_enc with
  | Ok bs => bs
  | Err _ => raw
  end.

(** The fields of a prototype that precede its constant table. *)
Definition encode_front (h : header) (src : lstring) (a b : Z)
    (flags : list byte) (szc : Z) (cd : list byte) : list byte :=
  encode_lstring h src ++ encode_int h a ++ encode_int h b ++ flags
    ++ encode_int h szc ++ cd.

Definition wf_front (h : header) (src : lstring) (a b : Z)
    (flags : list byte) (szc : Z) (cd : list byte) : bool :=
  wf_lstring h src && int_ok h a && int_ok h b && (len flags =? 4)
  && int_ok h szc && (len cd =? szc * h_instr_size h).

Definition known_tag (t : byte) : bool :=
  (byte_to_Z t =? 0) || (byte_to_Z t =? 1) || (byte_to_Z t =? 3) || (byte_to_Z t =? 4).

(** The bytes of a prototype in which the traversal meets a constant
    whose tag is not 0, 1, 3 or 4: either in the prototype's own constant
    table, after some well-formed constants, or inside one of its
    children, after the constant table and some well-formed children.
    What follows the tag byte is arbitrary. *)
Inductive unknown_tag_proto (h : header) : list byte -> Prop :=
| unknown_here src a b flags szc cd sizek ks t rest :
    wf_front h src a b flags szc cd = true ->
    int_ok h sizek = true ->
    forallb (wf_constant h) ks = true ->
    len ks < sizek ->
    known_tag t = false ->
    unknown_tag_proto h
      (encode_front h src a b flags szc cd ++ encode_int h sizek
         ++ flat_map (encode_constant h) ks ++ t :: rest)
| unknown_in_child src a b flags szc cd ks sizep cs bytes :
    wf_front h src a b flags szc cd = true ->
    int_ok h (len ks) = true ->
    forallb (wf_constant h) ks = true ->
    int_ok h sizep = true ->
    forallb (wf_proto h) cs = true ->
    len cs < sizep ->
    unknown_tag_proto h bytes ->
    unknown_tag_proto h
      (encode_front h src a b flags szc cd ++ encode_int h (len ks)
         ++ flat_map (encode_constant h) ks ++ encode_int h sizep
         ++ flat_map (encode_proto h) cs ++ bytes).

End Valid.

(** The two walkers in step: same cursor, same counter, and the records
    of the extractor are the rendering of the patcher's visitor calls. *)
Definition in_step (encoding : codec) (se : ExtractPy.estate) (sp : ImportPy.pstate)
  : Prop :=
  ExtractPy.e_pos se = ImportPy.p_pos sp
  /\ ExtractPy.e_counter se = ImportPy.p_counter sp
  /\ ExtractPy.e_out se = TreePatch.lines_of encoding (ImportPy.p_visits sp).

(** A codec for worked examples: Latin-1, where a byte is its code point. *)
Definition latin1 : codec := {|
  decode_strict := fun bs => Some (map byte_to_Z bs);
  decode_replace := fun bs => map byte_to_Z bs;
  encode_strict := fun s =>
    match mapM (fun c => if (0 <=? c) && (c <? 256) then Some (byte_of_Z c)
                         else None) s with
    | Some bs => Ok bs
    | None => Err UnicodeEncodeError
    end
|}.

(** What [read_lstring] returns for a string field. *)
Definition payload_of (s : Chunk.lstring) : option (list byte) :=
  match s with None => None | Some (p, _) => Some p end.

(** ** Index sequences *)

(** The records in [out] carry the indices 0, 0, 1, 1, ..., [counter],
    [counter]: two lines per index, counting from 0. *)
Definition numbered_lines (out : list ExtractPy.line) (counter : Z) : Prop :=
  -1 <= counter
  /\ map ExtractPy.l_index out = flat_map (fun i => [i; i]) (seqZ 0 (counter + 1)).

(** The visitor was called with the indices 0, 1, ..., [counter]. *)
Definition numbered_visits (visits : list (Z * list byte)) (counter : Z) : Prop :=
  -1 <= counter /\ map fst visits = seqZ 0 (counter + 1).

(** The index of every record of [out], one per pair of lines: the index
    on the line the importer reads. *)
Definition record_indices (out : list ExtractPy.line) : list Z :=
  flat_map (fun l => match ExtractPy.l_mark l with
                     | ExtractPy.Black => [ExtractPy.l_index l]
                     | ExtractPy.White => []
                     end) out.

Definition lines_numbered (st : ExtractPy.estate) : Prop :=
  numbered_lines (ExtractPy.e_out st) (ExtractPy.e_counter st).

Definition visits_numbered (st : ImportPy.pstate) : Prop :=
  numbered_visits (ImportPy.p_visits st) (ImportPy.p_counter st).

(** [patch_const_string] returns the payload it was given. *)
Definition keeps_payload (mapping : gmap Z (list Z)) (src_enc dst_enc : codec)
    (idx : Z) (raw : list byte) : Prop :=
  ImportPy.patch_const_string raw idx mapping src_enc dst_enc = Ok raw.

(** A format with the given byte order and the same width for [int] and
    [size_t]. *)
Definition codec_format (e : endian) (size : Z) : header :=
  {| h_endian := e; h_int_size := size; h_size_t_size := size;
     h_instr_size := 4; h_number_size := 8 |}.

(** ** Absent string constants *)

(** A string constant with stored length 0. *)
Definition is_absent (k : Chunk.constant) : bool :=
  match k with
  | Chunk.KString None => true
  | _ => false
  end.

(** Where the absent string constants of a chunk are: for every constant
    of a prototype whether it is an absent string, and the same for each
    nested prototype. *)
#[warnings="-register-all"] Inductive absent_places :=
| Places (here : list bool) (nested : list absent_places).

Fixpoint absent_shape (p : Chunk.proto) : absent_places :=
  Places (map is_absent (Chunk.constants p)) (map absent_shape (Chunk.children p)).

(** The chunk without its absent string constants. *)
Fixpoint without_absent (p : Chunk.proto) : Chunk.proto :=
  Chunk.mk_proto (Chunk.source_name p) (Chunk.line_defined p)
    (Chunk.last_line_defined p) (Chunk.flag_block p) (Chunk.sizecode p) (Chunk.code p)
    (List.filter (fun k => negb (is_absent k)) (Chunk.constants p))
    (map without_absent (Chunk.children p))
    (Chunk.sizelineinfo p) (Chunk.lineinfo p) (Chunk.locvars p) (Chunk.upvalues p).

(** ** Terminator bytes *)

(** Setting terminators to 0 by [N] keeps the length of the encoding of
    [x], and keeps its bytes only if the terminators of [x] are 0. *)
Definition same_unless_zero {A} (enc : A -> list byte) (N : A -> A) (zero : A -> bool)
    (x : A) : Prop :=
  length (enc (N x)) = length (enc x) /\ (enc (N x) = enc x -> zero x = true).

(** ** Mapping lines *)

Definition decimal_value (digits : list Z) : Z :=
  fold_left (fun acc d => 10 * acc + (d - 48)) digits 0.

(** ** Worked examples *)

Module Examples.
Import Chunk.

(** Little-endian, int 4, size_t 4, instruction 4, number 8. *)
Definition fmt : header := {|
  h_endian := Little; h_int_size := 4; h_size_t_size := 4;
  h_instr_size := 4; h_number_size := 8
|}.

Definition hello : list byte := [x48; x65; x6c; x6c; x6f].   (* b"Hello" *)
Definition hello_text : list Z := [72; 101; 108; 108; 111].  (* "Hello" *)
Definition bonjour : list byte := [x42; x6f; x6e; x6a; x6f; x75; x72].
Definition bonjour_text : list Z := [66; 111; 110; 106; 111; 117; 114].

Definition proto_with (ks : list constant) : proto :=
  mk_proto None 0 0 [x00; x00; x00; x02] 1 [x1e; x00; x80; x00]
    ks [] 0 [] [] [].

(** One string constant, "Hello". *)
Definition greeting : proto := proto_with [KString (Some (hello, x00))].

(** An absent string constant, then "Hello". *)
Definition absent_then_hello : proto :=
  proto_with [KString None; KString (Some (hello, x00))].

(** "Hello" stored with terminator byte 1. *)
Definition odd_terminator : proto := proto_with [KString (Some (hello, x01))].

Definition chunk_of (p : proto) : list byte := Valid.encode_chunk x51 x00 x00 fmt p.

(** A constant table of one entry whose tag byte is 5. *)
Definition tag5_body : list byte :=
  Valid.encode_front fmt None 0 0 [x00; x00; x00; x02] 1 [x1e; x00; x80; x00]
    ++ encode_int fmt 1 ++ flat_map (encode_constant fmt) [] ++ x05 :: [].

Definition tag5_chunk : list byte := encode_header x51 x00 x00 fmt ++ tag5_body.

Definition ascii_db : ImportPy.int_env := {|
  ImportPy.uc_space := fun _ => false;
  ImportPy.uc_decimal := fun _ => None;
  ImportPy.max_str_digits := 4300
|}.

(** "●00012●  a " and "●7●b": index 12 then index 7. *)
Definition two_entries : list Z :=
  [BLACK_CIRCLE; 48; 48; 48; 49; 50; BLACK_CIRCLE; SPACE; SPACE; 97; SPACE; LF;
   120; LF; BLACK_CIRCLE; 55; BLACK_CIRCLE; 98].

End Examples.

(** * Definitions for the further properties *)

(** ** Properties of texts *)

(** No character of [s] is [c]. *)
Definition free_of (c : Z) (s : list Z) : bool :=
  forallb (fun x => negb (x =? c)) s.

(** Somewhere in [s] the character [a] is directly followed by [b]. *)
Fixpoint has_pair (a b : Z) (s : list Z) : bool :=
  match s with
  | [] => false
  | x :: t =>
      match t with
      | [] => false
      | y :: _ => ((x =? a) && (y =? b)) || has_pair a b t
      end
  end.

(** The text holds neither of the two-character sequences that
    [unescape_text] replaces: a backslash followed by [r] or by [n]. *)
Definition no_escape_sequence (s : list Z) : bool :=
  negb (has_pair BACKSLASH LETTER_r s) && negb (has_pair BACKSLASH LETTER_n s).

(** The text holds no carriage return and no line feed. *)
Definition no_line_break (s : list Z) : bool := free_of CR s && free_of LF s.

(** No character of [s] is a line boundary of [str.splitlines]. *)
Definition no_line_boundary (s : list Z) : bool :=
  forallb (fun c => negb (ImportPy.is_line_boundary c)) s.

(** ** The output text of extract.py *)

Module ExtractMain.

(** [sep.join(parts)] *)
Fixpoint str_join (sep : list Z) (parts : list (list Z)) : list Z :=
  match parts with
  | [] => []
  | p :: rest =>
      match rest with
      | [] => p
      | _ :: _ => p ++ sep ++ str_join sep rest
      end
  end.

(** [range(0, n, 2)] *)
Definition range_by_two (n : Z) : list Z :=
  map (fun k => 2 * Z.of_nat k) (seq 0 (Z.to_nat ((n + 1) / 2))).

(** [["\n".join(strings[i : i + 2]) for i in range(0, len(strings), 2)]] *)
Definition blocks (strings : list (list Z)) : list (list Z) :=
  map (fun i => str_join [LF] (py_slice strings i (i + 2)))
      (range_by_two (len strings)).

(** [lines = "\n\n".join(blocks)]: the text that [main] writes to the
    output file, or prints, for the list [strings] of the walk. *)
Definition output_text (strings : list ExtractPy.line) : list Z :=
  str_join [LF; LF] (blocks (map ExtractPy.render_line strings)).

(** The single-file path of [main], up to the text [lines]. *)
Definition main_text (recursion_limit : nat) (data : list byte) (encoding : codec)
  : result (list Z) :=
  let* strings := ExtractPy.extract_strings recursion_limit data encoding in
  Ok (output_text strings).

End ExtractMain.

(** ** The single-file path of import.py *)

Module ImportMain.

(** U+FEFF, which a UTF-8 file with a byte order mark starts with. *)
Definition BYTE_ORDER_MARK : Z := 65279.

(** [for enc in (...): try: text = data.decode(enc); break
    except Exception: continue]: the first encoding that decodes the
    file strictly. *)
Fixpoint decode_first (candidates : list codec) (data : list byte)
  : option (list Z) :=
  match candidates with
  | [] => None
  | enc :: rest =>
      match decode_strict enc data with
      | Some text => Some text
      | None => decode_first rest data
      end
  end.

(** The text that [load_mapping] parses: the candidates are "utf-8",
    "utf-8-sig", "shift_jis" and "cp936", in this order, and UTF-8 with
    [errors="replace"] is used when none of them decodes the file. *)
Definition decode_mapping_file (utf8 utf8_sig shift_jis cp936 : codec)
    (data : list byte) : list Z :=
  match decode_first [utf8; utf8_sig; shift_jis; cp936] data with
  | Some text => text
  | None => decode_replace utf8 data
  end.

(** [load_mapping(path)], where [data] is [path.read_bytes()]. *)
Definition load_mapping_file (utf8 utf8_sig shift_jis cp936 : codec)
    (db : ImportPy.int_env) (data : list byte) : gmap Z (list Z) :=
  ImportPy.load_mapping db (decode_mapping_file utf8 utf8_sig shift_jis cp936 data).

(** [main] for one input file, once the mapping file has been decoded to
    [map_text]: [load_mapping], then [patch_file]. *)
Definition import_file (db : ImportPy.int_env) (recursion_limit : nat)
    (data : list byte) (map_text : list Z) (src_enc dst_enc : codec)
  : ImportPy.outcome :=
  ImportPy.patch_file recursion_limit data (ImportPy.load_mapping db map_text)
    src_enc dst_enc.

End ImportMain.

(** ** Records that the importer can read back *)

(** The index is not negative, and its digits as the extractor prints
    them are within the [int()] digit limit. *)
Definition index_readable (db : ImportPy.int_env) (idx : Z) : bool :=
  (0 <=? idx)
  && ((ImportPy.max_str_digits db <=? 0)
      || (len (ExtractPy.format_05d idx) <=? ImportPy.max_str_digits db)).

(** A numbered string whose index is readable and whose display text
    stays on one line. *)
Definition readable_record (db : ImportPy.int_env) (encoding : codec)
    (r : Z * list byte) : bool :=
  index_readable db (fst r) && no_line_boundary (display_text encoding (snd r)).

(** The mapping that holds the display text of every numbered string. *)
Definition mapping_of (encoding : codec) (numbered : list (Z * list byte))
  : gmap Z (list Z) :=
  fold_left (fun m r => <[fst r := display_text encoding (snd r)]> m) numbered ∅.

(** A record of an output text whose lines have been edited: the index,
    the text on the line with the white marker and the text on the line
    with the black marker. *)
Record edited := mk_edited {
  ed_index : Z;
  ed_white : list Z;
  ed_black : list Z
}.

Definition edited_lines (recs : list edited) : list ExtractPy.line :=
  flat_map (fun r => [ExtractPy.mk_line ExtractPy.White (ed_index r) (ed_white r);
                      ExtractPy.mk_line ExtractPy.Black (ed_index r) (ed_black r)])
           recs.

(** The index is readable and both texts stay on one line. *)
Definition readable_edit (db : ImportPy.int_env) (r : edited) : bool :=
  index_readable db (ed_index r) && no_line_boundary (ed_white r)
  && no_line_boundary (ed_black r).

(** The mapping that holds the text of every line with the black marker. *)
Definition mapping_of_edits (recs : list edited) : gmap Z (list Z) :=
  fold_left (fun m r => <[ed_index r := ed_black r]> m) recs ∅.

(** The record that the extractor writes for a numbered string. *)
Definition extracted (encoding : codec) (r : Z * list byte) : edited :=
  mk_edited (fst r) (display_text encoding (snd r)) (display_text encoding (snd r)).

(** The records in the state are those of some strings numbered from 0:
    two records for each, with the display text of its payload. *)
Definition records_paired (encoding : codec) (st : ExtractPy.estate) : Prop :=
  exists strings : list (list byte),
    ExtractPy.e_out st = TreePatch.lines_of encoding (Chunk.number_from (-1) strings)
    /\ ExtractPy.e_counter st = len strings - 1.

(** The text up to its first line boundary: the first line that
    [str.splitlines] makes of it. *)
Fixpoint first_line (s : list Z) : list Z :=
  match s with
  | [] => []
  | c :: r => if ImportPy.is_line_boundary c then [] else c :: first_line r
  end.

(** The index is readable and neither text holds the black marker. *)
Definition marker_free_edit (db : ImportPy.int_env) (r : edited) : bool :=
  index_readable db (ed_index r) && free_of BLACK_CIRCLE (ed_white r)
  && free_of BLACK_CIRCLE (ed_black r).

(** The mapping that holds the first line of the text of every line with
    the black marker. *)
Definition mapping_of_first_lines (recs : list edited) : gmap Z (list Z) :=
  fold_left (fun m r => <[ed_index r := first_line (ed_black r)]> m) recs ∅.

(** The record of a numbered string once the text of index [k] has been
    edited to [new] on its line with the black marker. *)
Definition edit_record (encoding : codec) (k : Z) (new : list Z)
    (r : Z * list byte) : edited :=
  mk_edited (fst r) (display_text encoding (snd r))
    (if fst r =? k then new else display_text encoding (snd r)).

(** The payload of the string of index [idx] after that edit: [bs], the
    encoding of the new text, at index [k] when the new text is not the
    display text; the payload itself otherwise. *)
Definition edited_payload (encoding : codec) (k : Z) (new : list Z) (bs : list byte)
    (idx : Z) (raw : list byte) : list byte :=
  if (idx =? k) && negb (bool_decide (new = display_text encoding raw)) then bs
  else raw.

(** For worked examples, as a destination encoding only: a name that
    [str.encode] does not know. *)
Definition unknown_encoding : codec := {|
  decode_strict := fun _ => None;
  decode_replace := fun _ => [];
  encode_strict := fun _ => Err LookupError
|}.

(** A codec for worked examples: two bytes per character, the high byte
    first. *)
Fixpoint two_byte_decode (bs : list byte) : option (list Z) :=
  match bs with
  | [] => Some []
  | hi :: rest =>
      match rest with
      | [] => None
      | lo :: rest' =>
          match two_byte_decode rest' with
          | Some text => Some (256 * byte_to_Z hi + byte_to_Z lo :: text)
          | None => None
          end
      end
  end.

Definition two_byte : codec := {|
  decode_strict := two_byte_decode;
  decode_replace := fun bs => default [] (two_byte_decode bs);
  encode_strict := fun s =>
    match mapM (fun c => if (0 <=? c) && (c <? 65536)
                         then Some [byte_of_Z (c / 256); byte_of_Z c]
                         else None) s with
    | Some parts => Ok (concat parts)
    | None => Err UnicodeEncodeError
    end
|}.

(** * Proofs *)

(** ** Bytes and integers *)

Lemma byte_to_Z_range (b : byte) : 0 <= byte_to_Z b < 256.
Proof.
  unfold byte_to_Z. pose proof (Byte.to_N_bounded b). lia.
Qed.

Lemma byte_of_to_Z (b : byte) : byte_of_Z (byte_to_Z b) = b.
Proof.
  unfold byte_of_Z, byte_to_Z.
  pose proof (Byte.to_N_bounded b).
  rewrite Z.mod_small by lia.
  rewrite N2Z.id, Byte.of_to_N. reflexivity.
Qed.

Lemma byte_to_of_Z (z : Z) : byte_to_Z (byte_of_Z z) = z mod 256.
Proof.
  unfold byte_of_Z, byte_to_Z.
  pose proof (Z.mod_pos_bound z 256 ltac:(lia)) as Hr.
  destruct (Byte.of_N (Z.to_N (z mod 256))) as [b|] eqn:Hb.
  - apply Byte.to_of_N in Hb. simpl. rewrite Hb. lia.
  - apply Byte.of_N_None_iff in Hb. lia.
Qed.

Lemma byte_of_Z_mod (z : Z) : byte_of_Z (z mod 256) = byte_of_Z z.
Proof. unfold byte_of_Z. rewrite Z.mod_mod by lia. reflexivity. Qed.

Lemma len_app {A} (l k : list A) : len (l ++ k) = len l + len k.
Proof. unfold len. rewrite length_app. lia. Qed.

Lemma len_nonneg {A} (l : list A) : 0 <= len l.
Proof. unfold len. lia. Qed.

Lemma length_le_encode n v : length (le_encode n v) = n.
Proof. revert v. induction n; intros; simpl; auto. Qed.

Lemma le_decode_range bs : 0 <= le_decode bs < 2 ^ (8 * len bs).
Proof.
  induction bs as [|b r IH].
  - simpl. unfold len. simpl. lia.
  - cbn [le_decode]. pose proof (byte_to_Z_range b).
    replace (8 * len (b :: r)) with (8 + 8 * len r) by (unfold len; simpl length; lia).
    rewrite Z.pow_add_r by (pose proof (len_nonneg r); lia).
    change (2 ^ 8) with 256. nia.
Qed.

Lemma le_decode_encode n v : le_decode (le_encode n v) = v mod 2 ^ (8 * Z.of_nat n).
Proof.
  revert v. induction n as [|n IH]; intros v.
  - simpl. rewrite Z.mod_1_r. reflexivity.
  - cbn [le_encode le_decode]. rewrite IH, byte_to_of_Z.
    replace (8 * Z.of_nat (S n)) with (8 + 8 * Z.of_nat n) by lia.
    rewrite Z.pow_add_r by lia. change (2 ^ 8) with 256.
    rewrite Z.rem_mul_r by lia. reflexivity.
Qed.

Lemma le_encode_decode bs : le_encode (length bs) (le_decode bs) = bs.
Proof.
  induction bs as [|b r IH]; [reflexivity|].
  cbn [length le_encode le_decode].
  pose proof (byte_to_Z_range b).
  f_equal.
  - rewrite <- byte_of_Z_mod.
    rewrite (Z.mul_comm 256), Z.mod_add by lia.
    rewrite Z.mod_small by lia. apply byte_of_to_Z.
  - rewrite (Z.mul_comm 256), Z.div_add by lia.
    rewrite Z.div_small by lia. exact IH.
Qed.

Lemma le_encode_mod n v : le_encode n (v mod 2 ^ (8 * Z.of_nat n)) = le_encode n v.
Proof.
  rewrite <- le_decode_encode.
  rewrite <- (length_le_encode n v) at 1.
  apply le_encode_decode.
Qed.

Lemma le_decode_rev_range bs : 0 <= le_decode (rev bs) < 2 ^ (8 * len bs).
Proof.
  pose proof (le_decode_range (rev bs)) as H.
  unfold len in *. rewrite length_rev in H. exact H.
Qed.

Lemma in_order_involutive e bs : in_order e (in_order e bs) = bs.
Proof. destruct e; simpl; [reflexivity | apply rev_involutive]. Qed.

Lemma length_in_order e bs : length (in_order e bs) = length bs.
Proof. destruct e; simpl; [reflexivity | apply length_rev]. Qed.

Lemma length_pack_bytes e n v : length (pack_bytes e n v) = n.
Proof. unfold pack_bytes. rewrite length_in_order. apply length_le_encode. Qed.

Lemma len_pack_bytes e n v : len (pack_bytes e n v) = Z.of_nat n.
Proof. unfold len. rewrite length_pack_bytes. reflexivity. Qed.

Lemma unpack_unsigned_range e bs : 0 <= unpack_unsigned e bs < 2 ^ (8 * len bs).
Proof.
  unfold unpack_unsigned. destruct e; simpl.
  - apply le_decode_range.
  - apply le_decode_rev_range.
Qed.

Lemma unpack_pack_unsigned e n v :
  0 <= v < 2 ^ (8 * Z.of_nat n) -> unpack_unsigned e (pack_bytes e n v) = v.
Proof.
  intros Hv. unfold unpack_unsigned, pack_bytes.
  rewrite in_order_involutive, le_decode_encode. apply Z.mod_small. exact Hv.
Qed.

Lemma pack_unpack_unsigned e bs :
  pack_bytes e (length bs) (unpack_unsigned e bs) = bs.
Proof.
  unfold unpack_unsigned, pack_bytes.
  rewrite <- (length_in_order e bs), le_encode_decode.
  apply in_order_involutive.
Qed.

Lemma unpack_pack_signed e n v :
  (0 < n)%nat ->
  - 2 ^ (8 * Z.of_nat n - 1) <= v < 2 ^ (8 * Z.of_nat n - 1) ->
  unpack_signed e (pack_bytes e n v) = v.
Proof.
  intros Hn Hv. unfold unpack_signed.
  rewrite len_pack_bytes.
  assert (Hp : 2 ^ (8 * Z.of_nat n) = 2 * 2 ^ (8 * Z.of_nat n - 1)).
  { rewrite <- Z.pow_succ_r by lia. f_equal. lia. }
  unfold unpack_unsigned, pack_bytes.
  rewrite in_order_involutive, le_decode_encode.
  destruct (Z_lt_le_dec v 0) as [Hneg|Hpos].
  - assert (Hm : v mod 2 ^ (8 * Z.of_nat n) = v + 2 ^ (8 * Z.of_nat n)).
    { symmetry. apply Z.mod_unique_pos with (q := -1); lia. }
    rewrite Hm.
    destruct (Z.ltb_spec (v + 2 ^ (8 * Z.of_nat n)) (2 ^ (8 * Z.of_nat n - 1))); lia.
  - rewrite Z.mod_small by lia.
    destruct (Z.ltb_spec v (2 ^ (8 * Z.of_nat n - 1))); lia.
Qed.

Lemma unpack_signed_range e bs :
  bs <> [] ->
  - 2 ^ (8 * len bs - 1) <= unpack_signed e bs < 2 ^ (8 * len bs - 1).
Proof.
  intros Hne. unfold unpack_signed.
  pose proof (unpack_unsigned_range e bs) as Hu.
  assert (0 < len bs) by (unfold len; destruct bs; simpl; [congruence | lia]).
  assert (Hp : 2 ^ (8 * len bs) = 2 * 2 ^ (8 * len bs - 1)).
  { rewrite <- Z.pow_succ_r by lia. f_equal. lia. }
  destruct (Z.ltb_spec (unpack_unsigned e bs) (2 ^ (8 * len bs - 1))); lia.
Qed.

Lemma pack_unpack_signed e bs :
  pack_bytes e (length bs) (unpack_signed e bs) = bs.
Proof.
  unfold unpack_signed.
  destruct (Z.ltb_spec (unpack_unsigned e bs) (2 ^ (8 * len bs - 1))).
  - apply pack_unpack_unsigned.
  - unfold pack_bytes. rewrite <- le_encode_mod.
    unfold len.
    rewrite <- (Z.mul_1_l (2 ^ (8 * Z.of_nat (length bs)))) at 1.
    rewrite <- Z.add_opp_r, <- Z.mul_opp_l, Z.mod_add.
    + rewrite le_encode_mod. apply pack_unpack_unsigned.
    + apply Z.pow_nonzero; lia.
Qed.

(** ** Cursor lemmas *)

Lemma at_cursor_start data : at_cursor data 0 data.
Proof. exists []. split; reflexivity. Qed.

Lemma at_cursor_app data pos bs rest :
  at_cursor data pos (bs ++ rest) -> at_cursor data (pos + len bs) rest.
Proof.
  intros (pre & -> & ->). exists (pre ++ bs).
  split; [apply app_assoc | symmetry; apply len_app].
Qed.

Lemma at_cursor_cons data pos b rest :
  at_cursor data pos (b :: rest) -> at_cursor data (pos + 1) rest.
Proof. intros H. apply (at_cursor_app data pos [b] rest). exact H. Qed.

Lemma at_cursor_nonneg data pos rest : at_cursor data pos rest -> 0 <= pos.
Proof. intros (pre & _ & ->). apply len_nonneg. Qed.

Lemma adjust_index_inside n i : 0 <= i <= n -> adjust_index n i = i.
Proof.
  intros Hi. unfold adjust_index.
  destruct (Z.ltb_spec i 0); lia.
Qed.

Lemma py_slice_at {A} (l : list A) (pre bs rest : list A) start stop :
  l = pre ++ bs ++ rest -> start = len pre -> stop = start + len bs ->
  py_slice l start stop = bs.
Proof.
  intros -> -> ->. unfold py_slice.
  rewrite !len_app.
  pose proof (len_nonneg pre). pose proof (len_nonneg bs). pose proof (len_nonneg rest).
  rewrite !adjust_index_inside by lia.
  replace (len pre + len bs - len pre) with (len bs) by lia.
  unfold len. rewrite !Nat2Z.id.
  rewrite drop_app_length. apply take_app_length.
Qed.

Lemma py_slice_cursor data pos bs rest n :
  at_cursor data pos (bs ++ rest) -> n = len bs ->
  py_slice data pos (pos + n) = bs.
Proof.
  intros (pre & Hd & Hp) ->. eapply py_slice_at; eauto.
Qed.

Lemma py_slice_to_last {A} (l : list A) (x : A) : py_slice_to (l ++ [x]) (-1) = l.
Proof.
  unfold py_slice_to, py_slice.
  pose proof (len_nonneg l) as Hl.
  assert (Hn : len (l ++ [x]) = len l + 1) by apply len_app.
  assert (H0 : adjust_index (len (l ++ [x])) 0 = 0).
  { unfold adjust_index. destruct (Z.ltb_spec 0 0); lia. }
  assert (H1 : adjust_index (len (l ++ [x])) (-1) = len l).
  { unfold adjust_index. destruct (Z.ltb_spec (-1) 0); lia. }
  rewrite H0, H1, Z.sub_0_r. simpl drop.
  unfold len. rewrite Nat2Z.id. apply take_app_length.
Qed.

Lemma py_index_cursor data pos b rest :
  at_cursor data pos (b :: rest) -> py_index data pos = Ok b.
Proof.
  intros (pre & -> & ->). unfold py_index. cbv zeta.
  pose proof (len_nonneg pre). pose proof (len_nonneg rest).
  assert (Hlt : (len pre <? 0) = false) by (apply Z.ltb_ge; lia).
  rewrite !Hlt.
  assert (Hle : (len (pre ++ b :: rest) <=? len pre) = false).
  { apply Z.leb_gt. rewrite len_app. unfold len. simpl length. lia. }
  rewrite Hle. simpl orb. cbv iota.
  unfold len. rewrite Nat2Z.id.
  rewrite list_lookup_middle by reflexivity. reflexivity.
Qed.

Lemma unpack_window_cursor n data pos bs rest :
  at_cursor data pos (bs ++ rest) -> length bs = n ->
  unpack_window n data pos = Ok bs.
Proof.
  intros (pre & -> & ->) Hn. unfold unpack_window. cbv zeta.
  pose proof (len_nonneg pre). pose proof (len_nonneg rest).
  assert (Hlt : (len pre <? 0) = false) by (apply Z.ltb_ge; lia).
  rewrite !Hlt.
  assert (Hfit : (len (pre ++ bs ++ rest) - len pre <? Z.of_nat n) = false).
  { apply Z.ltb_ge. rewrite !len_app. unfold len in *. lia. }
  rewrite Hfit. simpl orb. cbv iota.
  unfold len. rewrite Nat2Z.id, drop_app_length.
  rewrite take_app_length' by congruence. reflexivity.
Qed.

(** ** The codec at a cursor *)

Section codec.
Variable (h : header).
Hypothesis (Hfmt : Chunk.wf_format h = true).

Lemma int_size_cases : h_int_size h = 4 \/ h_int_size h = 8.
Proof.
  unfold Chunk.wf_format in Hfmt.
  apply andb_prop in Hfmt as [H1 _]. apply orb_prop in H1. lia.
Qed.

Lemma size_t_size_cases : h_size_t_size h = 4 \/ h_size_t_size h = 8.
Proof.
  unfold Chunk.wf_format in Hfmt.
  apply andb_prop in Hfmt as [_ H1]. apply orb_prop in H1. lia.
Qed.

Lemma len_encode_int v : len (Chunk.encode_int h v) = h_int_size h.
Proof.
  unfold Chunk.encode_int. rewrite len_pack_bytes.
  pose proof int_size_cases. lia.
Qed.

Lemma len_encode_size_t v : len (Chunk.encode_size_t h v) = h_size_t_size h.
Proof.
  unfold Chunk.encode_size_t. rewrite len_pack_bytes.
  pose proof size_t_size_cases. lia.
Qed.

Lemma read_int_cursor data pos v rest :
  Chunk.int_ok h v = true ->
  at_cursor data pos (Chunk.encode_int h v ++ rest) ->
  read_int data (h_endian h) (h_int_size h) pos = Ok (v, pos + h_int_size h).
Proof.
  intros Hv Hc. unfold Chunk.int_ok in Hv. apply andb_prop in Hv as [Hlo Hhi].
  apply Z.leb_le in Hlo. apply Z.ltb_lt in Hhi.
  unfold read_int, Chunk.encode_int in *.
  destruct int_size_cases as [Hs|Hs]; rewrite Hs in *; simpl Z.eqb; cbv iota.
  - rewrite (unpack_window_cursor _ _ _ _ _ Hc) by apply length_pack_bytes.
    simpl bind. rewrite unpack_pack_signed; [reflexivity | simpl; lia | exact (conj Hlo Hhi)].
  - rewrite (unpack_window_cursor _ _ _ _ _ Hc) by apply length_pack_bytes.
    simpl bind. rewrite unpack_pack_signed; [reflexivity | simpl; lia | exact (conj Hlo Hhi)].
Qed.

Lemma write_int_ok buf v :
  Chunk.int_ok h v = true ->
  write_int buf (h_endian h) (h_int_size h) v = Ok (buf ++ Chunk.encode_int h v).
Proof.
  intros Hv. unfold write_int, Chunk.encode_int, struct_pack_signed.
  unfold Chunk.int_ok in Hv.
  destruct int_size_cases as [Hs|Hs]; rewrite Hs in *; simpl Z.eqb; cbv iota.
  - change (8 * Z.of_nat 4 - 1) with (8 * 4 - 1). rewrite Hv. reflexivity.
  - change (8 * Z.of_nat 8 - 1) with (8 * 8 - 1). rewrite Hv. reflexivity.
Qed.

Lemma read_size_t_cursor data pos v rest :
  Chunk.size_ok h v = true ->
  at_cursor data pos (Chunk.encode_size_t h v ++ rest) ->
  read_size_t data (h_endian h) (h_size_t_size h) pos = Ok (v, pos + h_size_t_size h).
Proof.
  intros Hv Hc. unfold Chunk.size_ok in Hv. apply andb_prop in Hv as [Hlo Hhi].
  apply Z.leb_le in Hlo. apply Z.ltb_lt in Hhi.
  unfold read_size_t, Chunk.encode_size_t in *.
  destruct size_t_size_cases as [Hs|Hs]; rewrite Hs in *; simpl Z.eqb; cbv iota.
  - rewrite (unpack_window_cursor _ _ _ _ _ Hc) by apply length_pack_bytes.
    simpl bind. rewrite unpack_pack_unsigned; [reflexivity | exact (conj Hlo Hhi)].
  - rewrite (unpack_window_cursor _ _ _ _ _ Hc) by apply length_pack_bytes.
    simpl bind. rewrite unpack_pack_unsigned; [reflexivity | exact (conj Hlo Hhi)].
Qed.

Lemma write_size_t_ok buf v :
  Chunk.size_ok h v = true ->
  write_size_t buf (h_endian h) (h_size_t_size h) v
  = Ok (buf ++ Chunk.encode_size_t h v).
Proof.
  intros Hv. unfold write_size_t, Chunk.encode_size_t, struct_pack_unsigned.
  unfold Chunk.size_ok in Hv.
  destruct size_t_size_cases as [Hs|Hs]; rewrite Hs in *; simpl Z.eqb; cbv iota.
  - change (8 * Z.of_nat 4) with (8 * 4). rewrite Hv. reflexivity.
  - change (8 * Z.of_nat 8) with (8 * 8). rewrite Hv. reflexivity.
Qed.

Lemma write_size_t_overflow buf v :
  Chunk.size_ok h v = false ->
  write_size_t buf (h_endian h) (h_size_t_size h) v = Err StructError.
Proof.
  intros Hv. unfold write_size_t, struct_pack_unsigned.
  unfold Chunk.size_ok in Hv.
  destruct size_t_size_cases as [Hs|Hs]; rewrite Hs in *; simpl Z.eqb; cbv iota.
  - change (8 * Z.of_nat 4) with (8 * 4). rewrite Hv. reflexivity.
  - change (8 * Z.of_nat 8) with (8 * 8). rewrite Hv. reflexivity.
Qed.

Lemma size_ok_0 : Chunk.size_ok h 0 = true.
Proof.
  unfold Chunk.size_ok.
  destruct size_t_size_cases as [Hs|Hs]; rewrite Hs; reflexivity.
Qed.

Lemma read_lstring_cursor data pos s rest :
  Chunk.wf_lstring h s = true ->
  at_cursor data pos (Chunk.encode_lstring h s ++ rest) ->
  read_lstring data (h_endian h) (h_size_t_size h) pos
  = Ok (payload_of s, pos + len (Chunk.encode_lstring h s)).
Proof.
  intros Hwf Hc. unfold read_lstring.
  destruct s as [[p t]|]; simpl in Hwf, Hc |- *.
  - rewrite <- !app_assoc in Hc.
    rewrite (read_size_t_cursor _ _ _ _ Hwf Hc). simpl bind.
    pose proof (len_nonneg p).
    destruct (Z.eqb_spec (len p + 1) 0); [lia|].
    apply at_cursor_app in Hc. rewrite len_encode_size_t in Hc.
    rewrite (py_slice_cursor _ _ (p ++ [t]) rest).
    + rewrite py_slice_to_last. rewrite !len_app, len_encode_size_t.
      change (len [t]) with 1. do 2 f_equal. lia.
    + rewrite <- app_assoc. exact Hc.
    + rewrite len_app. reflexivity.
  - rewrite (read_size_t_cursor _ _ _ _ size_ok_0 Hc). simpl.
    rewrite len_encode_size_t. reflexivity.
Qed.

Lemma write_lstring_ok buf s :
  Chunk.wf_lstring h s = true ->
  write_lstring buf (h_endian h) (h_size_t_size h) (payload_of s)
  = Ok (buf ++ Chunk.encode_lstring h (TreePatch.normalize_lstring s)).
Proof.
  intros Hwf. unfold write_lstring.
  destruct s as [[p t]|]; simpl in Hwf |- *.
  - rewrite (write_size_t_ok _ _ Hwf). simpl.
    rewrite <- !app_assoc. reflexivity.
  - apply write_size_t_ok, size_ok_0.
Qed.
End codec.

Import Chunk TreePatch Valid.

(** ** Loops over encoded lists *)

Lemma to_nat_len {A} (l : list A) : Z.to_nat (len l) = length l.
Proof. unfold len. apply Nat2Z.id. Qed.

Lemma number_from_app {A} (c : Z) (l k : list A) :
  number_from c (l ++ k) = number_from c l ++ number_from (c + len l) k.
Proof.
  revert c. induction l as [|x l IH]; intros c.
  - simpl. unfold len. simpl. rewrite Z.add_0_r. reflexivity.
  - cbn [app number_from]. rewrite IH. do 3 f_equal.
    unfold len. simpl length. lia.
Qed.

Lemma len_cons {A} (x : A) (l : list A) : len (x :: l) = 1 + len l.
Proof. unfold len. simpl length. lia. Qed.

Lemma len_nil {A} : len (@nil A) = 0.
Proof. reflexivity. Qed.

Lemma proto_depth_child (p x : proto) :
  x ∈ children p -> (proto_depth x < proto_depth p)%nat.
Proof.
  destruct p as [? ? ? ? ? ? ? cs ? ? ? ?]. cbn [children proto_depth].
  induction cs as [|y cs IH]; intros Hin.
  - inversion Hin.
  - cbn [map foldr]. apply elem_of_cons in Hin as [->|Hin].
    + lia.
    + specialize (IH Hin). lia.
Qed.

Lemma forallb_elem_of {A} (f : A -> bool) (l : list A) (x : A) :
  forallb f l = true -> x ∈ l -> f x = true.
Proof.
  intros Hall Hin. rewrite forallb_forall in Hall.
  apply Hall. apply list_elem_of_In. exact Hin.
Qed.

Section patch_loops.
Variables (data : list byte).

Import ImportPy.

Lemma repeat_loop_thread {A B} (step : pstate -> result pstate)
    (enc : A -> list byte) (enc' : B -> list byte)
    (f : A -> Z -> result (B * Z)) (strs : A -> list (list byte)) (l : list A) :
  (forall x, x ∈ l -> forall pos out c vs rest,
      at_cursor data pos (enc x ++ rest) ->
      step (mk_pstate pos out c vs)
      = let* (y, c') := f x c in
        Ok (mk_pstate (pos + len (enc x)) (out ++ enc' y) c'
              (vs ++ number_from c (strs x)))) ->
  (forall x c y c', x ∈ l -> f x c = Ok (y, c') -> c' = c + len (strs x)) ->
  forall pos out c vs rest,
    at_cursor data pos (flat_map enc l ++ rest) ->
    repeat_loop (length l) step (mk_pstate pos out c vs)
    = let* (ys, c') := thread f l c in
      Ok (mk_pstate (pos + len (flat_map enc l)) (out ++ flat_map enc' ys) c'
            (vs ++ number_from c (flat_map strs l))).
Proof.
  induction l as [|x l IH]; intros Hstep Hcount pos out c vs rest Hc.
  - cbn. rewrite Z.add_0_r, !app_nil_r. reflexivity.
  - cbn [length repeat_loop flat_map thread] in *.
    rewrite <- app_assoc in Hc.
    rewrite (Hstep x (list_elem_of_here _ _) _ _ _ _ _ Hc).
    destruct (f x c) as [[y c1]|err] eqn:Hf; cbn [bind]; [|reflexivity].
    apply at_cursor_app in Hc.
    rewrite IH with (rest := rest); [| | |exact Hc].
    + fold (thread f).
      destruct (thread f l c1) as [[ys c2]|err]; cbn [bind]; [|reflexivity].
      rewrite (Hcount _ _ _ _ (list_elem_of_here _ _) Hf).
      cbn [flat_map].
      rewrite number_from_app, len_app, !app_assoc, Z.add_assoc.
      reflexivity.
    + intros x' Hin. apply Hstep. apply list_elem_of_further. exact Hin.
    + intros x' c' y' c'' Hin. apply Hcount. apply list_elem_of_further. exact Hin.
Qed.
End patch_loops.

(** ** The patch walker on an encoded tree *)

Section patch_walk.
Variables (h : header) (data : list byte).
Variables (mapping : gmap Z (list Z)) (src_enc dst_enc : codec).
Hypothesis (Hfmt : wf_format h = true).

Import ImportPy.

Lemma const_step_encoded k pos out c vs rest :
  wf_constant h k = true ->
  at_cursor data pos (encode_constant h k ++ rest) ->
  const_step data (h_endian h) (h_size_t_size h) (h_number_size h)
    mapping src_enc dst_enc (mk_pstate pos out c vs)
  = let* (k', c') := patch_constant h mapping src_enc dst_enc k c in
    Ok (mk_pstate (pos + len (encode_constant h k))
          (out ++ encode_constant h k') c'
          (vs ++ number_from c (constant_strings k))).
Proof.
  intros Hwf Hc. unfold const_step. cbn [p_pos p_out p_counter p_visits].
  destruct k as [|b|payload|s]; cbn [encode_constant app] in Hc;
    rewrite (py_index_cursor _ _ _ _ Hc); cbn [bind];
    apply at_cursor_cons in Hc.
  - cbn. rewrite app_nil_r. reflexivity.
  - change (byte_to_Z x01 =? 0) with false. change (byte_to_Z x01 =? 1) with true.
    cbv iota. rewrite (py_slice_cursor data (pos + 1) [b] rest 1 Hc eq_refl).
    cbn [patch_constant bind constant_strings number_from encode_constant].
    rewrite app_nil_r, <- app_assoc.
    do 2 f_equal. rewrite !len_cons, len_nil. lia.
  - change (byte_to_Z x03 =? 0) with false. change (byte_to_Z x03 =? 1) with false.
    change (byte_to_Z x03 =? 3) with true. cbv iota.
    cbn [wf_constant] in Hwf. apply Z.eqb_eq in Hwf.
    rewrite (py_slice_cursor data (pos + 1) payload rest _ Hc (eq_sym Hwf)).
    cbn [patch_constant bind constant_strings number_from encode_constant].
    rewrite app_nil_r, <- app_assoc.
    do 2 f_equal. rewrite len_cons. lia.
  - change (byte_to_Z x04 =? 0) with false. change (byte_to_Z x04 =? 1) with false.
    change (byte_to_Z x04 =? 3) with false. change (byte_to_Z x04 =? 4) with true.
    cbv iota. cbn [wf_constant] in Hwf.
    rewrite (read_lstring_cursor h Hfmt _ _ _ _ Hwf Hc). cbn [bind].
    destruct s as [[raw t]|]; cbn [payload_of patch_constant constant_strings].
    + destruct (patch_const_string raw (c + 1) mapping src_enc dst_enc) as [s'|err];
        cbn [bind]; [|reflexivity].
      unfold write_lstring.
      destruct (size_ok h (len s' + 1)) eqn:Hs'.
      * rewrite (write_size_t_ok h Hfmt _ _ Hs'). cbn [bind encode_constant encode_lstring number_from].
        rewrite <- !app_assoc. do 2 f_equal.
        rewrite (len_cons x04). lia.
      * rewrite (write_size_t_overflow h Hfmt _ _ Hs'). reflexivity.
    + rewrite (write_lstring_ok h Hfmt _ None eq_refl).
      cbn [bind normalize_lstring encode_constant number_from].
      rewrite app_nil_r, <- !app_assoc. do 2 f_equal.
      rewrite (len_cons x04). lia.
Qed.

Lemma patch_constant_count k c k' c' :
  patch_constant h mapping src_enc dst_enc k c = Ok (k', c') ->
  c' = c + len (constant_strings k).
Proof.
  destruct k as [|b|payload|[[raw t]|]]; cbn [patch_constant constant_strings];
    try (intros [= <- <-]; rewrite len_nil; lia).
  destruct (patch_const_string _ _ _ _ _); cbn [bind]; [|discriminate].
  destruct (size_ok _ _); [|discriminate].
  intros [= <- <-]. rewrite len_cons, len_nil. lia.
Qed.

Lemma locvar_step_encoded lv pos out c vs rest :
  wf_locvar h lv = true ->
  at_cursor data pos (encode_locvar h lv ++ rest) ->
  locvar_step data (h_endian h) (h_int_size h) (h_size_t_size h)
    (mk_pstate pos out c vs)
  = Ok (mk_pstate (pos + len (encode_locvar h lv))
          (out ++ encode_locvar h (normalize_locvar lv)) c vs).
Proof.
  intros Hwf Hc. unfold locvar_step.
  cbn [p_pos p_out p_counter p_visits].
  destruct lv as [name a b]. unfold wf_locvar, encode_locvar in *.
  cbn [lv_name lv_startpc lv_endpc normalize_locvar] in *.
  apply andb_prop in Hwf as [Hwf Hb]. apply andb_prop in Hwf as [Hname Ha].
  rewrite <- !app_assoc in Hc.
  rewrite (read_lstring_cursor h Hfmt _ _ _ _ Hname Hc). cbn [bind].
  rewrite (write_lstring_ok h Hfmt _ _ Hname). cbn [bind].
  apply at_cursor_app in Hc.
  rewrite (read_int_cursor h Hfmt _ _ _ _ Ha Hc). cbn [bind].
  apply at_cursor_app in Hc. rewrite (len_encode_int h Hfmt) in Hc.
  rewrite (read_int_cursor h Hfmt _ _ _ _ Hb Hc). cbn [bind].
  rewrite (write_int_ok h Hfmt _ _ Ha). cbn [bind].
  rewrite (write_int_ok h Hfmt _ _ Hb). cbn [bind].
  rewrite !len_app, !(len_encode_int h Hfmt), <- !app_assoc.
  do 2 f_equal. lia.
Qed.

Lemma upvalue_step_encoded s pos out c vs rest :
  wf_lstring h s = true ->
  at_cursor data pos (encode_lstring h s ++ rest) ->
  upvalue_step data (h_endian h) (h_size_t_size h) (mk_pstate pos out c vs)
  = Ok (mk_pstate (pos + len (encode_lstring h s))
          (out ++ encode_lstring h (normalize_lstring s)) c vs).
Proof.
  intros Hwf Hc. unfold upvalue_step.
  cbn [p_pos p_out p_counter p_visits].
  rewrite (read_lstring_cursor h Hfmt _ _ _ _ Hwf Hc). cbn [bind].
  rewrite (write_lstring_ok h Hfmt _ _ Hwf). reflexivity.
Qed.
End patch_walk.

Lemma thread_length {A B} (f : A -> Z -> result (B * Z)) l c ys c' :
  thread f l c = Ok (ys, c') -> length ys = length l.
Proof.
  revert c ys c'. induction l as [|x l IH]; intros c ys c'; cbn [thread].
  - intros [= <- <-]. reflexivity.
  - destruct (f x c) as [[y c1]|]; cbn [bind]; [|discriminate].
    fold (thread f). destruct (thread f l c1) as [[ys1 c2]|] eqn:Hl; cbn [bind]; [|discriminate].
    intros [= <- <-]. cbn [length]. f_equal. eapply IH. exact Hl.
Qed.

Lemma thread_count {A B} (f : A -> Z -> result (B * Z)) (strs : A -> list (list byte)) l :
  (forall x c y c', x ∈ l -> f x c = Ok (y, c') -> c' = c + len (strs x)) ->
  forall c ys c', thread f l c = Ok (ys, c') -> c' = c + len (flat_map strs l).
Proof.
  induction l as [|x l IH]; intros Hf c ys c'; cbn [thread flat_map].
  - intros [= <- <-]. rewrite len_nil. lia.
  - destruct (f x c) as [[y c1]|] eqn:Hx; cbn [bind]; [|discriminate].
    fold (thread f). destruct (thread f l c1) as [[ys1 c2]|] eqn:Hl; cbn [bind]; [|discriminate].
    intros [= <- <-].
    apply Hf in Hx; [|apply list_elem_of_here].
    apply IH in Hl; [|intros; eapply Hf; eauto using list_elem_of_further].
    rewrite len_app. lia.
Qed.

Lemma patch_proto_count h mapping src_enc dst_enc n :
  forall p c p' c', (proto_depth p <= n)%nat ->
    patch_proto h mapping src_enc dst_enc p c = Ok (p', c') ->
    c' = c + len (proto_strings p).
Proof.
  induction n as [|n IH]; intros p c p' c' Hd.
  - destruct p; cbn [proto_depth] in Hd. lia.
  - destruct p as [src a b flags szc cd ks cs szl li lvs ups].
    cbn [patch_proto proto_strings constants children].
    destruct (thread _ ks c) as [[ks' c1]|] eqn:Hks; cbn [bind]; [|discriminate].
    destruct (thread _ cs c1) as [[cs' c2]|] eqn:Hcs; cbn [bind]; [|discriminate].
    intros [= <- <-].
    apply (thread_count _ constant_strings) in Hks;
      [|intros; eapply patch_constant_count; eauto].
    apply (thread_count _ proto_strings) in Hcs.
    + rewrite len_app. lia.
    + intros x c0 y c0' Hin. apply IH.
      pose proof (proto_depth_child (mk_proto src a b flags szc cd ks cs szl li lvs ups) x Hin).
      lia.
Qed.

Section patch_walk.
Variables (h : header) (data : list byte).
Variables (mapping : gmap Z (list Z)) (src_enc dst_enc : codec).
Hypothesis (Hfmt : wf_format h = true).

Import ImportPy.

Lemma repeat_loop_copy {A} (step : pstate -> result pstate)
    (enc : A -> list byte) (g : A -> A) (l : list A) :
  (forall x, x ∈ l -> forall pos out c vs rest,
      at_cursor data pos (enc x ++ rest) ->
      step (mk_pstate pos out c vs)
      = Ok (mk_pstate (pos + len (enc x)) (out ++ enc (g x)) c vs)) ->
  forall pos out c vs rest,
    at_cursor data pos (flat_map enc l ++ rest) ->
    repeat_loop (length l) step (mk_pstate pos out c vs)
    = Ok (mk_pstate (pos + len (flat_map enc l))
            (out ++ flat_map enc (map g l)) c vs).
Proof.
  induction l as [|x l IH]; intros Hstep pos out c vs rest Hc.
  - cbn. rewrite Z.add_0_r, app_nil_r. reflexivity.
  - cbn [length repeat_loop flat_map map] in *.
    rewrite <- app_assoc in Hc.
    rewrite (Hstep x (list_elem_of_here _ _) _ _ _ _ _ Hc). cbn [bind].
    apply at_cursor_app in Hc.
    rewrite IH with (rest := rest); [| |exact Hc].
    + rewrite len_app, !app_assoc, Z.add_assoc. reflexivity.
    + intros x' Hin. apply Hstep. apply list_elem_of_further. exact Hin.
Qed.

Theorem process_proto_encoded depth :
  forall p pos out c vs rest,
    wf_proto h p = true ->
    (proto_depth p <= depth)%nat ->
    at_cursor data pos (encode_proto h p ++ rest) ->
    process_proto data (h_endian h) (h_int_size h) (h_size_t_size h)
      (h_instr_size h) (h_number_size h) mapping src_enc dst_enc
      depth (mk_pstate pos out c vs)
    = let* (p', c') := patch_proto h mapping src_enc dst_enc p c in
      Ok (mk_pstate (pos + len (encode_proto h p)) (out ++ encode_proto h p') c'
            (vs ++ number_from c (proto_strings p))).
Proof.
  induction depth as [|depth IH]; intros p pos out c vs rest Hwf Hd Hc.
  { destruct p; cbn [proto_depth] in Hd. lia. }
  pose proof (proto_depth_child p) as Hchild.
  destruct p as [src a b flags szc cd ks cs szl li lvs ups].
  cbn [wf_proto source_name line_defined last_line_defined flag_block sizecode
       code constants children sizelineinfo lineinfo locvars upvalues] in Hwf.
  cbn [children] in Hchild.
  apply andb_prop in Hwf as [Hwf Hups]. apply andb_prop in Hwf as [Hwf Hnup].
  apply andb_prop in Hwf as [Hwf Hlvs]. apply andb_prop in Hwf as [Hwf Hnlv].
  apply andb_prop in Hwf as [Hwf Hli]. apply andb_prop in Hwf as [Hwf Hszl].
  apply andb_prop in Hwf as [Hwf Hcs]. apply andb_prop in Hwf as [Hwf Hncs].
  apply andb_prop in Hwf as [Hwf Hks]. apply andb_prop in Hwf as [Hwf Hnks].
  apply andb_prop in Hwf as [Hwf Hcd]. apply andb_prop in Hwf as [Hwf Hszc].
  apply andb_prop in Hwf as [Hwf Hfl]. apply andb_prop in Hwf as [Hwf Hb].
  apply andb_prop in Hwf as [Hsrc Ha].
  apply Z.eqb_eq in Hfl, Hcd, Hli.
  cbn [encode_proto source_name line_defined last_line_defined flag_block sizecode
       code constants children sizelineinfo lineinfo locvars upvalues] in Hc.
  rewrite <- !app_assoc in Hc.
  cbn [process_proto p_pos p_out p_counter p_visits].
  (* source name *)
  rewrite (read_lstring_cursor h Hfmt _ _ _ _ Hsrc Hc). cbn [bind].
  rewrite (write_lstring_ok h Hfmt _ _ Hsrc). cbn [bind].
  apply at_cursor_app in Hc.
  (* line_defined, last_line_defined *)
  rewrite (read_int_cursor h Hfmt _ _ _ _ Ha Hc). cbn [bind].
  apply at_cursor_app in Hc. rewrite (len_encode_int h Hfmt) in Hc.
  rewrite (read_int_cursor h Hfmt _ _ _ _ Hb Hc). cbn [bind].
  apply at_cursor_app in Hc. rewrite (len_encode_int h Hfmt) in Hc.
  rewrite (write_int_ok h Hfmt _ _ Ha). cbn [bind].
  rewrite (write_int_ok h Hfmt _ _ Hb). cbn [bind].
  (* flag block *)
  rewrite (py_slice_cursor data _ flags _ 4 Hc (eq_sym Hfl)).
  apply at_cursor_app in Hc. rewrite Hfl in Hc.
  (* instructions *)
  rewrite (read_int_cursor h Hfmt _ _ _ _ Hszc Hc). cbn [bind].
  apply at_cursor_app in Hc. rewrite (len_encode_int h Hfmt) in Hc.
  rewrite (write_int_ok h Hfmt _ _ Hszc). cbn [bind].
  pose proof (py_slice_cursor data _ cd _ _ Hc (eq_sym Hcd)) as Hslice.
  rewrite Hslice. clear Hslice.
  apply at_cursor_app in Hc. rewrite Hcd in Hc.
  (* constants *)
  rewrite (read_int_cursor h Hfmt _ _ _ _ Hnks Hc). cbn [bind].
  apply at_cursor_app in Hc. rewrite (len_encode_int h Hfmt) in Hc.
  rewrite (write_int_ok h Hfmt _ _ Hnks). cbn [bind].
  unfold for_range. rewrite !to_nat_len.
  rewrite (repeat_loop_thread data _ (encode_constant h) (encode_constant h)
             (patch_constant h mapping src_enc dst_enc) constant_strings ks)
    with (rest := encode_int h (len cs) ++ flat_map (encode_proto h) cs ++
                  encode_int h szl ++ li ++ encode_int h (len lvs) ++
                  flat_map (encode_locvar h) lvs ++ encode_int h (len ups) ++
                  flat_map (encode_lstring h) ups ++ rest);
    [ | intros x Hin pos' out' c' vs' rest' Hc';
        apply (const_step_encoded h data mapping src_enc dst_enc Hfmt) with (rest := rest');
        [ exact (forallb_elem_of _ _ _ Hks Hin) | exact Hc' ]
      | intros x c0 y c0' _; apply patch_constant_count
      | exact Hc ].
  cbn [patch_proto constants children source_name line_defined last_line_defined
       flag_block sizecode code sizelineinfo lineinfo locvars upvalues].
  destruct (thread (patch_constant h mapping src_enc dst_enc) ks c)
    as [[ks' c1]|err] eqn:Eks; cbn [bind]; [|reflexivity].
  cbn [p_pos p_out p_counter p_visits].
  apply at_cursor_app in Hc.
  (* children *)
  rewrite (read_int_cursor h Hfmt _ _ _ _ Hncs Hc). cbn [bind].
  apply at_cursor_app in Hc. rewrite (len_encode_int h Hfmt) in Hc.
  rewrite (write_int_ok h Hfmt _ _ Hncs). cbn [bind].
  rewrite to_nat_len.
  rewrite (repeat_loop_thread data _ (encode_proto h) (encode_proto h)
             (patch_proto h mapping src_enc dst_enc) proto_strings cs)
    with (rest := encode_int h szl ++ li ++ encode_int h (len lvs) ++
                  flat_map (encode_locvar h) lvs ++ encode_int h (len ups) ++
                  flat_map (encode_lstring h) ups ++ rest);
    [ | intros x Hin pos' out' c' vs' rest' Hc';
        apply IH with (rest := rest');
        [ exact (forallb_elem_of _ _ _ Hcs Hin)
        | specialize (Hchild x Hin); cbn [proto_depth children] in Hchild, Hd |- *; lia
        | exact Hc' ]
      | intros x c0 y c0' _; apply (patch_proto_count _ _ _ _ (proto_depth x)); lia
      | exact Hc ].
  destruct (thread (patch_proto h mapping src_enc dst_enc) cs c1)
    as [[cs' c2]|err] eqn:Ecs; cbn [bind]; [|reflexivity].
  cbn [p_pos p_out p_counter p_visits].
  apply at_cursor_app in Hc.
  (* line info *)
  rewrite (read_int_cursor h Hfmt _ _ _ _ Hszl Hc). cbn [bind].
  apply at_cursor_app in Hc. rewrite (len_encode_int h Hfmt) in Hc.
  rewrite (write_int_ok h Hfmt _ _ Hszl). cbn [bind].
  pose proof (py_slice_cursor data _ li _ _ Hc (eq_sym Hli)) as Hslice.
  rewrite Hslice. clear Hslice.
  apply at_cursor_app in Hc. rewrite Hli in Hc.
  (* locals *)
  rewrite (read_int_cursor h Hfmt _ _ _ _ Hnlv Hc). cbn [bind].
  apply at_cursor_app in Hc. rewrite (len_encode_int h Hfmt) in Hc.
  rewrite (write_int_ok h Hfmt _ _ Hnlv). cbn [bind].
  rewrite to_nat_len.
  rewrite (repeat_loop_copy _ (encode_locvar h) normalize_locvar lvs)
    with (rest := encode_int h (len ups) ++ flat_map (encode_lstring h) ups ++ rest);
    [ | intros x Hin pos' out' c' vs' rest' Hc';
        apply (locvar_step_encoded h data Hfmt) with (rest := rest');
        [ exact (forallb_elem_of _ _ _ Hlvs Hin) | exact Hc' ]
      | exact Hc ].
  cbn [bind p_pos p_out p_counter p_visits].
  apply at_cursor_app in Hc.
  (* upvalues *)
  rewrite (read_int_cursor h Hfmt _ _ _ _ Hnup Hc). cbn [bind].
  apply at_cursor_app in Hc. rewrite (len_encode_int h Hfmt) in Hc.
  rewrite (write_int_ok h Hfmt _ _ Hnup). cbn [bind].
  rewrite to_nat_len.
  rewrite (repeat_loop_copy _ (encode_lstring h) normalize_lstring ups)
    with (rest := rest);
    [ | intros x Hin pos' out' c' vs' rest' Hc';
        apply (upvalue_step_encoded h data Hfmt) with (rest := rest');
        [ exact (forallb_elem_of _ _ _ Hups Hin) | exact Hc' ]
      | exact Hc ].
  (* the two sides agree *)
  pose proof (thread_length _ _ _ _ _ Eks) as Lks.
  pose proof (thread_length _ _ _ _ _ Ecs) as Lcs.
  pose proof (thread_count _ constant_strings ks
                (fun x c0 y c0' _ => patch_constant_count h mapping src_enc dst_enc x c0 y c0')
                _ _ _ Eks) as Cks.
  cbn [encode_proto proto_strings source_name line_defined last_line_defined
       flag_block sizecode code constants children sizelineinfo lineinfo
       locvars upvalues].
  assert (Eks' : len ks' = len ks) by (unfold len; congruence).
  assert (Ecs' : len cs' = len cs) by (unfold len; congruence).
  assert (Elvs : len (map normalize_locvar lvs) = len lvs)
    by (unfold len; rewrite length_map; reflexivity).
  assert (Eups : len (map normalize_lstring ups) = len ups)
    by (unfold len; rewrite length_map; reflexivity).
  rewrite Eks', Ecs', Elvs, Eups, number_from_app, Cks.
  f_equal. f_equal.
  - rewrite !len_app, !(len_encode_int h Hfmt), Hfl, Hcd, Hli. lia.
  - rewrite <- !app_assoc. reflexivity.
  - rewrite <- !app_assoc. reflexivity.
Qed.
End patch_walk.

(** ** The extraction walker on an encoded tree *)

(** extract.py's [read_lstring] agrees with import.py's on the string and
    the position. *)
Lemma extract_read_lstring_ok data e size_t_size pos s pos' :
  read_lstring data e size_t_size pos = Ok (s, pos') ->
  exists raw_pos raw_len,
    ExtractPy.read_lstring data e size_t_size pos = Ok (s, pos', raw_pos, raw_len).
Proof.
  unfold read_lstring, ExtractPy.read_lstring.
  destruct (read_size_t data e size_t_size pos) as [[n p]|]; cbn [bind]; [|discriminate].
  destruct (n =? 0); intros [= <- <-]; eauto.
Qed.

Lemma extract_read_lstring_err data e size_t_size pos err :
  read_lstring data e size_t_size pos = Err err ->
  ExtractPy.read_lstring data e size_t_size pos = Err err.
Proof.
  unfold read_lstring, ExtractPy.read_lstring.
  destruct (read_size_t data e size_t_size pos) as [[n p]|]; cbn [bind].
  - destruct (n =? 0); discriminate.
  - intros [= <-]. reflexivity.
Qed.

Lemma lines_of_app enc l k : lines_of enc (l ++ k) = lines_of enc l ++ lines_of enc k.
Proof. unfold lines_of. apply flat_map_app. Qed.

Section extract_walk.
Variables (h : header) (data : list byte) (encoding : codec).
Hypothesis (Hfmt : wf_format h = true).

Import ExtractPy.

Lemma repeat_loop_lines {A} (step : estate -> result estate)
    (enc : A -> list byte) (strs : A -> list (list byte)) (l : list A) :
  (forall x, x ∈ l -> forall pos out c rest,
      at_cursor data pos (enc x ++ rest) ->
      step (mk_estate pos out c)
      = Ok (mk_estate (pos + len (enc x))
              (out ++ lines_of encoding (number_from c (strs x)))
              (c + len (strs x)))) ->
  forall pos out c rest,
    at_cursor data pos (flat_map enc l ++ rest) ->
    repeat_loop (length l) step (mk_estate pos out c)
    = Ok (mk_estate (pos + len (flat_map enc l))
            (out ++ lines_of encoding (number_from c (flat_map strs l)))
            (c + len (flat_map strs l))).
Proof.
  induction l as [|x l IH]; intros Hstep pos out c rest Hc.
  - cbn. rewrite !Z.add_0_r, app_nil_r. reflexivity.
  - cbn [length repeat_loop flat_map] in *.
    rewrite <- app_assoc in Hc.
    rewrite (Hstep x (list_elem_of_here _ _) _ _ _ _ Hc). cbn [bind].
    apply at_cursor_app in Hc.
    rewrite IH with (rest := rest); [| |exact Hc].
    + rewrite number_from_app, lines_of_app, !len_app, !app_assoc, !Z.add_assoc.
      reflexivity.
    + intros x' Hin. apply Hstep. apply list_elem_of_further. exact Hin.
Qed.

Lemma extract_read_lstring_cursor pos s rest :
  wf_lstring h s = true ->
  at_cursor data pos (encode_lstring h s ++ rest) ->
  exists raw_pos raw_len,
    read_lstring data (h_endian h) (h_size_t_size h) pos
    = Ok (payload_of s, pos + len (encode_lstring h s), raw_pos, raw_len).
Proof.
  intros Hwf Hc. apply extract_read_lstring_ok.
  apply (read_lstring_cursor h Hfmt _ _ _ _ Hwf Hc).
Qed.

Lemma extract_const_step_encoded k pos out c rest :
  wf_constant h k = true ->
  at_cursor data pos (encode_constant h k ++ rest) ->
  const_step data (h_endian h) (h_size_t_size h) (h_number_size h) encoding
    (mk_estate pos out c)
  = Ok (mk_estate (pos + len (encode_constant h k))
          (out ++ lines_of encoding (number_from c (constant_strings k)))
          (c + len (constant_strings k))).
Proof.
  intros Hwf Hc. unfold const_step. cbn [e_pos e_out e_counter].
  destruct k as [|b|payload|s]; cbn [encode_constant app] in Hc;
    rewrite (py_index_cursor _ _ _ _ Hc); cbn [bind];
    apply at_cursor_cons in Hc.
  - cbn. rewrite app_nil_r, Z.add_0_r. reflexivity.
  - change (byte_to_Z x01 =? 0) with false. change (byte_to_Z x01 =? 1) with true.
    cbv iota. cbn [constant_strings number_from lines_of flat_map encode_constant].
    rewrite app_nil_r. f_equal. f_equal; unfold len in *; cbn [length]; lia.
  - change (byte_to_Z x03 =? 0) with false. change (byte_to_Z x03 =? 1) with false.
    change (byte_to_Z x03 =? 3) with true. cbv iota.
    cbn [wf_constant] in Hwf. apply Z.eqb_eq in Hwf.
    cbn [constant_strings number_from lines_of flat_map encode_constant].
    rewrite app_nil_r. f_equal. f_equal; unfold len in *; cbn [length]; lia.
  - change (byte_to_Z x04 =? 0) with false. change (byte_to_Z x04 =? 1) with false.
    change (byte_to_Z x04 =? 3) with false. change (byte_to_Z x04 =? 4) with true.
    cbv iota. cbn [wf_constant] in Hwf.
    destruct (extract_read_lstring_cursor _ _ _ Hwf Hc) as (rp & rl & ->).
    cbn [bind encode_constant].
    destruct s as [[raw t]|]; cbn [payload_of constant_strings number_from lines_of flat_map].
    + unfold display_text. rewrite <- !app_assoc. cbn [app].
      f_equal. f_equal; unfold len in *; cbn [length]; lia.
    + rewrite app_nil_r. f_equal. f_equal; unfold len in *; cbn [length]; lia.
Qed.

Lemma extract_locvar_step_encoded lv pos out c rest :
  wf_locvar h lv = true ->
  at_cursor data pos (encode_locvar h lv ++ rest) ->
  locvar_step data (h_endian h) (h_int_size h) (h_size_t_size h)
    (mk_estate pos out c)
  = Ok (mk_estate (pos + len (encode_locvar h lv))
          (out ++ lines_of encoding (number_from c [])) (c + len (@nil (list byte)))).
Proof.
  intros Hwf Hc. unfold locvar_step. cbn [e_pos e_out e_counter].
  destruct lv as [name a b]. unfold wf_locvar, encode_locvar in *.
  cbn [lv_name lv_startpc lv_endpc] in *.
  apply andb_prop in Hwf as [Hwf Hb]. apply andb_prop in Hwf as [Hname Ha].
  rewrite <- !app_assoc in Hc.
  destruct (extract_read_lstring_cursor _ _ _ Hname Hc) as (rp & rl & ->).
  cbn [bind number_from lines_of flat_map].
  rewrite !len_app, !(len_encode_int h Hfmt), app_nil_r.
  f_equal. f_equal; unfold len in *; cbn [length]; lia.
Qed.

Lemma extract_upvalue_step_encoded s pos out c rest :
  wf_lstring h s = true ->
  at_cursor data pos (encode_lstring h s ++ rest) ->
  upvalue_step data (h_endian h) (h_size_t_size h) (mk_estate pos out c)
  = Ok (mk_estate (pos + len (encode_lstring h s))
          (out ++ lines_of encoding (number_from c [])) (c + len (@nil (list byte)))).
Proof.
  intros Hwf Hc. unfold upvalue_step. cbn [e_pos e_out e_counter].
  destruct (extract_read_lstring_cursor _ _ _ Hwf Hc) as (rp & rl & ->).
  cbn [bind number_from lines_of flat_map].
  rewrite app_nil_r. f_equal. f_equal; unfold len in *; cbn [length]; lia.
Qed.
End extract_walk.

Lemma flat_map_nil_const {A B} (l : list A) : flat_map (fun _ : A => @nil B) l = [].
Proof. induction l; simpl; auto. Qed.

Section extract_walk.
Variables (h : header) (data : list byte) (encoding : codec).
Hypothesis (Hfmt : wf_format h = true).

Import ExtractPy.

Theorem extract_process_proto_encoded depth :
  forall p pos out c rest,
    wf_proto h p = true ->
    (proto_depth p <= depth)%nat ->
    at_cursor data pos (encode_proto h p ++ rest) ->
    process_proto data (h_endian h) (h_int_size h) (h_size_t_size h)
      (h_instr_size h) (h_number_size h) encoding depth (mk_estate pos out c)
    = Ok (mk_estate (pos + len (encode_proto h p))
            (out ++ lines_of encoding (number_from c (proto_strings p)))
            (c + len (proto_strings p))).
Proof.
  induction depth as [|depth IH]; intros p pos out c rest Hwf Hd Hc.
  { destruct p; cbn [proto_depth] in Hd. lia. }
  pose proof (proto_depth_child p) as Hchild.
  destruct p as [src a b flags szc cd ks cs szl li lvs ups].
  cbn [wf_proto source_name line_defined last_line_defined flag_block sizecode
       code constants children sizelineinfo lineinfo locvars upvalues] in Hwf.
  cbn [children] in Hchild.
  apply andb_prop in Hwf as [Hwf Hups]. apply andb_prop in Hwf as [Hwf Hnup].
  apply andb_prop in Hwf as [Hwf Hlvs]. apply andb_prop in Hwf as [Hwf Hnlv].
  apply andb_prop in Hwf as [Hwf Hli]. apply andb_prop in Hwf as [Hwf Hszl].
  apply andb_prop in Hwf as [Hwf Hcs]. apply andb_prop in Hwf as [Hwf Hncs].
  apply andb_prop in Hwf as [Hwf Hks]. apply andb_prop in Hwf as [Hwf Hnks].
  apply andb_prop in Hwf as [Hwf Hcd]. apply andb_prop in Hwf as [Hwf Hszc].
  apply andb_prop in Hwf as [Hwf Hfl]. apply andb_prop in Hwf as [Hwf Hb].
  apply andb_prop in Hwf as [Hsrc Ha].
  apply Z.eqb_eq in Hfl, Hcd, Hli.
  cbn [encode_proto source_name line_defined last_line_defined flag_block sizecode
       code constants children sizelineinfo lineinfo locvars upvalues] in Hc.
  rewrite <- !app_assoc in Hc.
  cbn [process_proto e_pos e_out e_counter].
  destruct (extract_read_lstring_cursor h data Hfmt _ _ _ Hsrc Hc) as (rp & rl & ->).
  cbn [bind]. apply at_cursor_app in Hc.
  rewrite (read_int_cursor h Hfmt _ _ _ _ Ha Hc). cbn [bind].
  apply at_cursor_app in Hc. rewrite (len_encode_int h Hfmt) in Hc.
  rewrite (read_int_cursor h Hfmt _ _ _ _ Hb Hc). cbn [bind].
  apply at_cursor_app in Hc. rewrite (len_encode_int h Hfmt) in Hc.
  apply at_cursor_app in Hc. rewrite Hfl in Hc.
  rewrite (read_int_cursor h Hfmt _ _ _ _ Hszc Hc). cbn [bind].
  apply at_cursor_app in Hc. rewrite (len_encode_int h Hfmt) in Hc.
  apply at_cursor_app in Hc. rewrite Hcd in Hc.
  rewrite (read_int_cursor h Hfmt _ _ _ _ Hnks Hc). cbn [bind].
  apply at_cursor_app in Hc. rewrite (len_encode_int h Hfmt) in Hc.
  unfold for_range. rewrite to_nat_len.
  rewrite (repeat_loop_lines data encoding _ (encode_constant h) constant_strings ks)
    with (rest := encode_int h (len cs) ++ flat_map (encode_proto h) cs ++
                  encode_int h szl ++ li ++ encode_int h (len lvs) ++
                  flat_map (encode_locvar h) lvs ++ encode_int h (len ups) ++
                  flat_map (encode_lstring h) ups ++ rest);
    [ | intros x Hin pos' out' c' rest' Hc';
        apply (extract_const_step_encoded h data encoding Hfmt) with (rest := rest');
        [ exact (forallb_elem_of _ _ _ Hks Hin) | exact Hc' ]
      | exact Hc ].
  cbn [bind e_pos e_out e_counter].
  apply at_cursor_app in Hc.
  rewrite (read_int_cursor h Hfmt _ _ _ _ Hncs Hc). cbn [bind].
  apply at_cursor_app in Hc. rewrite (len_encode_int h Hfmt) in Hc.
  rewrite to_nat_len.
  rewrite (repeat_loop_lines data encoding _ (encode_proto h) proto_strings cs)
    with (rest := encode_int h szl ++ li ++ encode_int h (len lvs) ++
                  flat_map (encode_locvar h) lvs ++ encode_int h (len ups) ++
                  flat_map (encode_lstring h) ups ++ rest);
    [ | intros x Hin pos' out' c' rest' Hc';
        apply IH with (rest := rest');
        [ exact (forallb_elem_of _ _ _ Hcs Hin)
        | specialize (Hchild x Hin); cbn [proto_depth children] in Hchild, Hd |- *; lia
        | exact Hc' ]
      | exact Hc ].
  cbn [bind e_pos e_out e_counter].
  apply at_cursor_app in Hc.
  rewrite (read_int_cursor h Hfmt _ _ _ _ Hszl Hc). cbn [bind].
  apply at_cursor_app in Hc. rewrite (len_encode_int h Hfmt) in Hc.
  apply at_cursor_app in Hc. rewrite Hli in Hc.
  rewrite (read_int_cursor h Hfmt _ _ _ _ Hnlv Hc). cbn [bind].
  apply at_cursor_app in Hc. rewrite (len_encode_int h Hfmt) in Hc.
  rewrite to_nat_len.
  rewrite (repeat_loop_lines data encoding _ (encode_locvar h) (fun _ => []) lvs)
    with (rest := encode_int h (len ups) ++ flat_map (encode_lstring h) ups ++ rest);
    [ | intros x Hin pos' out' c' rest' Hc';
        apply (extract_locvar_step_encoded h data encoding Hfmt) with (rest := rest');
        [ exact (forallb_elem_of _ _ _ Hlvs Hin) | exact Hc' ]
      | exact Hc ].
  cbn [bind e_pos e_out e_counter].
  apply at_cursor_app in Hc.
  rewrite (read_int_cursor h Hfmt _ _ _ _ Hnup Hc). cbn [bind].
  apply at_cursor_app in Hc. rewrite (len_encode_int h Hfmt) in Hc.
  rewrite to_nat_len.
  rewrite (repeat_loop_lines data encoding _ (encode_lstring h) (fun _ => []) ups)
    with (rest := rest);
    [ | intros x Hin pos' out' c' rest' Hc';
        apply (extract_upvalue_step_encoded h data encoding Hfmt) with (rest := rest');
        [ exact (forallb_elem_of _ _ _ Hups Hin) | exact Hc' ]
      | exact Hc ].
  rewrite !flat_map_nil_const.
  cbn [encode_proto proto_strings source_name line_defined last_line_defined
       flag_block sizecode code constants children sizelineinfo lineinfo
       locvars upvalues].
  change (lines_of encoding (number_from ?x [])) with (@nil line).
  rewrite !app_nil_r, number_from_app, lines_of_app.
  f_equal. f_equal.
  - rewrite !len_app, !(len_encode_int h Hfmt), Hfl, Hcd, Hli.
    unfold len; cbn [length]; lia.
  - rewrite <- !app_assoc. reflexivity.
  - rewrite !len_app. unfold len; cbn [length]; lia.
Qed.
End extract_walk.

(** ** The two walkers in step *)

Lemma repeat_loop_lockstep {S1 S2} (R : S1 -> S2 -> Prop)
    (step1 : S1 -> result S1) (step2 : S2 -> result S2) (n : nat) :
  (forall s1 s2 s1' s2', R s1 s2 -> step1 s1 = Ok s1' -> step2 s2 = Ok s2' -> R s1' s2') ->
  forall s1 s2 s1' s2',
    R s1 s2 -> repeat_loop n step1 s1 = Ok s1' -> repeat_loop n step2 s2 = Ok s2' ->
    R s1' s2'.
Proof.
  intros Hstep. induction n as [|n IH]; intros s1 s2 s1' s2' HR; cbn [repeat_loop].
  - intros [= <-] [= <-]. exact HR.
  - destruct (step1 s1) as [t1|] eqn:E1; cbn [bind]; [|discriminate].
    destruct (step2 s2) as [t2|] eqn:E2; cbn [bind]; [|intros _; discriminate].
    apply IH. eapply Hstep; eauto.
Qed.

Lemma extract_read_lstring_eq data e size_t_size pos :
  ExtractPy.read_lstring data e size_t_size pos
  = let* (s, pos') := read_lstring data e size_t_size pos in
    Ok (s, pos',
        match ExtractPy.read_lstring data e size_t_size pos with
        | Ok (_, _, raw_pos, _) => raw_pos
        | Err _ => None
        end,
        match ExtractPy.read_lstring data e size_t_size pos with
        | Ok (_, _, _, raw_len) => raw_len
        | Err _ => 0
        end).
Proof.
  unfold read_lstring, ExtractPy.read_lstring.
  destruct (read_size_t data e size_t_size pos) as [[n p]|]; cbn [bind]; [|reflexivity].
  destruct (n =? 0); reflexivity.
Qed.


Section lockstep.
Variables (data : list byte) (e : endian).
Variables (int_size size_t_size instr_size number_size : Z).
Variables (mapping : gmap Z (list Z)) (encoding src_enc dst_enc : codec).

Lemma const_step_lockstep se sp se' sp' :
  in_step encoding se sp ->
  ExtractPy.const_step data e size_t_size number_size encoding se = Ok se' ->
  ImportPy.const_step data e size_t_size number_size mapping src_enc dst_enc sp = Ok sp' ->
  in_step encoding se' sp'.
Proof.
  destruct se as [pos1 out1 c1], sp as [pos2 out2 c2 vs2].
  intros (Hp & Hc & Ho). cbn in Hp, Hc, Ho. subst pos1 c1 out1.
  unfold ExtractPy.const_step, ImportPy.const_step.
  cbn [ExtractPy.e_pos ExtractPy.e_out ExtractPy.e_counter
       ImportPy.p_pos ImportPy.p_out ImportPy.p_counter ImportPy.p_visits].
  destruct (py_index data pos2) as [t|]; cbn [bind]; [|discriminate].
  destruct (byte_to_Z t =? 0).
  { intros [= <-] [= <-]. repeat split. }
  destruct (byte_to_Z t =? 1).
  { intros [= <-] [= <-]. repeat split. }
  destruct (byte_to_Z t =? 3).
  { intros [= <-] [= <-]. repeat split. }
  destruct (byte_to_Z t =? 4); [|discriminate].
  rewrite extract_read_lstring_eq.
  destruct (read_lstring data e size_t_size (pos2 + 1)) as [[s p]|]; cbn [bind]; [|discriminate].
  destruct s as [raw|].
  - destruct (ImportPy.patch_const_string raw (c2 + 1) mapping src_enc dst_enc) as [s'|];
      cbn [bind]; [|intros _; discriminate].
    destruct (write_lstring _ _ _ _); cbn [bind]; [|intros _; discriminate].
    intros [= <-] [= <-]. repeat split.
    cbn [ExtractPy.e_out ImportPy.p_visits].
    rewrite lines_of_app, <- app_assoc. reflexivity.
  - destruct (write_lstring _ _ _ _); cbn [bind]; [|intros _; discriminate].
    intros [= <-] [= <-]. repeat split.
Qed.

Lemma locvar_step_lockstep se sp se' sp' :
  in_step encoding se sp ->
  ExtractPy.locvar_step data e int_size size_t_size se = Ok se' ->
  ImportPy.locvar_step data e int_size size_t_size sp = Ok sp' ->
  in_step encoding se' sp'.
Proof.
  destruct se as [pos1 out1 c1], sp as [pos2 out2 c2 vs2].
  intros (Hp & Hc & Ho). cbn in Hp, Hc, Ho. subst pos1 c1 out1.
  unfold ExtractPy.locvar_step, ImportPy.locvar_step.
  cbn [ExtractPy.e_pos ExtractPy.e_out ExtractPy.e_counter
       ImportPy.p_pos ImportPy.p_out ImportPy.p_counter ImportPy.p_visits].
  rewrite extract_read_lstring_eq.
  destruct (read_lstring data e size_t_size pos2) as [[s p]|]; cbn [bind]; [|discriminate].
  destruct (write_lstring _ _ _ _); cbn [bind]; [|intros _; discriminate].
  unfold read_int.
  destruct (int_size =? 4) eqn:E4; [|destruct (int_size =? 8) eqn:E8].
  - apply Z.eqb_eq in E4.
    destruct (unpack_window 4 data p); cbn [bind]; [|intros _; discriminate].
    destruct (unpack_window 4 data (p + int_size)); cbn [bind]; [|intros _; discriminate].
    destruct (write_int _ _ _ _); cbn [bind]; [|intros _; discriminate].
    destruct (write_int _ _ _ _); cbn [bind]; [|intros _; discriminate].
    intros [= <-] [= <-]. repeat split. cbn. lia.
  - apply Z.eqb_eq in E8.
    destruct (unpack_window 8 data p); cbn [bind]; [|intros _; discriminate].
    destruct (unpack_window 8 data (p + int_size)); cbn [bind]; [|intros _; discriminate].
    destruct (write_int _ _ _ _); cbn [bind]; [|intros _; discriminate].
    destruct (write_int _ _ _ _); cbn [bind]; [|intros _; discriminate].
    intros [= <-] [= <-]. repeat split. cbn. lia.
  - cbn [bind]. intros _; discriminate.
Qed.

Lemma upvalue_step_lockstep se sp se' sp' :
  in_step encoding se sp ->
  ExtractPy.upvalue_step data e size_t_size se = Ok se' ->
  ImportPy.upvalue_step data e size_t_size sp = Ok sp' ->
  in_step encoding se' sp'.
Proof.
  destruct se as [pos1 out1 c1], sp as [pos2 out2 c2 vs2].
  intros (Hp & Hc & Ho). cbn in Hp, Hc, Ho. subst pos1 c1 out1.
  unfold ExtractPy.upvalue_step, ImportPy.upvalue_step.
  cbn [ExtractPy.e_pos ExtractPy.e_out ExtractPy.e_counter
       ImportPy.p_pos ImportPy.p_out ImportPy.p_counter ImportPy.p_visits].
  rewrite extract_read_lstring_eq.
  destruct (read_lstring data e size_t_size pos2) as [[s p]|]; cbn [bind]; [|discriminate].
  destruct (write_lstring _ _ _ _); cbn [bind]; [|intros _; discriminate].
  intros [= <-] [= <-]. repeat split.
Qed.
End lockstep.

(** One straight-line operation of either walker: case on its result and
    drop the failing branch. *)
Ltac walk_step :=
  match goal with
  | |- context [bind ?op _] =>
      lazymatch op with
      | for_range _ _ _ => fail
      | bind _ _ => fail
      | _ =>
          let v := fresh "v" in
          destruct op as [v|?];
          [ try (destruct v as [? ?]); cbn [bind]
          | cbn [bind]; first [ discriminate | intros _; discriminate ] ]
      end
  end.

Section lockstep.
Variables (data : list byte) (e : endian).
Variables (int_size size_t_size instr_size number_size : Z).
Variables (mapping : gmap Z (list Z)) (encoding src_enc dst_enc : codec).

Theorem process_proto_lockstep depth :
  forall se sp se' sp',
    in_step encoding se sp ->
    ExtractPy.process_proto data e int_size size_t_size instr_size number_size
      encoding depth se = Ok se' ->
    ImportPy.process_proto data e int_size size_t_size instr_size number_size
      mapping src_enc dst_enc depth sp = Ok sp' ->
    in_step encoding se' sp'.
Proof.
  induction depth as [|depth IH]; intros se sp se' sp' HR; [discriminate|].
  destruct se as [pos1 out1 c1], sp as [pos2 out2 c2 vs2].
  destruct HR as (Hp & Hc & Ho).
  cbn [ExtractPy.e_pos ExtractPy.e_out ExtractPy.e_counter
       ImportPy.p_pos ImportPy.p_out ImportPy.p_counter ImportPy.p_visits] in Hp, Hc, Ho.
  subst pos1 c1 out1.
  cbn [ExtractPy.process_proto ImportPy.process_proto
       ExtractPy.e_pos ExtractPy.e_out ExtractPy.e_counter
       ImportPy.p_pos ImportPy.p_out ImportPy.p_counter ImportPy.p_visits].
  rewrite extract_read_lstring_eq.
  repeat walk_step.
  (* constants *)
  match goal with
  | |- context [bind (for_range ?n (ExtractPy.const_step ?a ?b ?c ?d ?f) ?s) _] =>
      destruct (for_range n (ExtractPy.const_step a b c d f) s) as [se1|] eqn:L1;
        cbn [bind]; [|discriminate]
  end.
  match goal with
  | |- context [bind (for_range ?n ?step ?s) _] =>
      destruct (for_range n step s) as [sp1|] eqn:L2;
        cbn [bind]; [|intros _; discriminate]
  end.
  assert (R1 : in_step encoding se1 sp1).
  { eapply (repeat_loop_lockstep (in_step encoding)); [| |exact L1|exact L2].
    - intros s1 s2 s1' s2'. apply const_step_lockstep.
    - repeat split. }
  destruct R1 as (Hp1 & Hc1 & Ho1). rewrite Hp1, Hc1, Ho1. clear L1 L2.
  repeat walk_step.
  (* children *)
  match goal with
  | |- context [bind (for_range ?n (ExtractPy.process_proto ?a ?b ?c ?d ?f ?g ?i ?j) ?s) _] =>
      destruct (for_range n (ExtractPy.process_proto a b c d f g i j) s) as [se2|] eqn:L1;
        cbn [bind]; [|discriminate]
  end.
  match goal with
  | |- context [bind (for_range ?n ?step ?s) _] =>
      destruct (for_range n step s) as [sp2|] eqn:L2;
        cbn [bind]; [|intros _; discriminate]
  end.
  assert (R2 : in_step encoding se2 sp2).
  { eapply (repeat_loop_lockstep (in_step encoding)); [| |exact L1|exact L2].
    - intros s1 s2 s1' s2'. apply IH.
    - repeat split. }
  destruct R2 as (Hp2 & Hc2 & Ho2). rewrite Hp2, Hc2, Ho2. clear L1 L2.
  repeat walk_step.
  (* locals *)
  match goal with
  | |- context [bind (for_range ?n (ExtractPy.locvar_step ?a ?b ?c ?d) ?s) _] =>
      destruct (for_range n (ExtractPy.locvar_step a b c d) s) as [se3|] eqn:L1;
        cbn [bind]; [|discriminate]
  end.
  match goal with
  | |- context [bind (for_range ?n ?step ?s) _] =>
      destruct (for_range n step s) as [sp3|] eqn:L2;
        cbn [bind]; [|intros _; discriminate]
  end.
  assert (R3 : in_step encoding se3 sp3).
  { eapply (repeat_loop_lockstep (in_step encoding)); [| |exact L1|exact L2].
    - intros s1 s2 s1' s2'. apply locvar_step_lockstep.
    - repeat split. }
  destruct R3 as (Hp3 & Hc3 & Ho3). rewrite Hp3, Hc3, Ho3. clear L1 L2.
  repeat walk_step.
  (* upvalues *)
  intros L1 L2.
  eapply (repeat_loop_lockstep (in_step encoding)); [| |exact L1|exact L2].
  - intros s1 s2 s1' s2'. apply upvalue_step_lockstep.
  - repeat split.
Qed.
End lockstep.

(** ** The header of an encoded chunk *)

Lemma byte_to_of_Z_small z : 0 <= z < 256 -> byte_to_Z (byte_of_Z z) = z.
Proof. intros Hz. rewrite byte_to_of_Z. apply Z.mod_small. exact Hz. Qed.

Lemma len_encode_header v f i h : len (encode_header v f i h) = 12.
Proof. reflexivity. Qed.

Lemma read_header_encoded v f i h body :
  byte_sized h = true ->
  read_header (encode_header v f i h ++ body) = Ok h.
Proof.
  intros Hb. unfold byte_sized in Hb.
  repeat (apply andb_prop in Hb as [Hb ?]).
  repeat match goal with
         | H : (_ <=? _) = true |- _ => apply Z.leb_le in H
         | H : (_ <? _) = true |- _ => apply Z.ltb_lt in H
         end.
  unfold read_header.
  assert (Hsig : py_slice_to (encode_header v f i h ++ body) 4 = LUA_SIGNATURE).
  { unfold py_slice_to. unfold encode_header. rewrite <- app_assoc.
    eapply (py_slice_at _ [] LUA_SIGNATURE); reflexivity. }
  rewrite Hsig. rewrite bool_decide_eq_true_2 by reflexivity. cbn [negb].
  assert (Hlen : (len (encode_header v f i h ++ body) <? 12) = false).
  { apply Z.ltb_ge. rewrite len_app, len_encode_header. pose proof (len_nonneg body). lia. }
  rewrite Hlen.
  unfold header_byte, encode_header, format_byte. cbn -[byte_to_Z byte_of_Z Z.eqb].
  rewrite !byte_to_of_Z_small by lia.
  destruct h as [en isz ssz insz nsz]. cbn [h_endian h_int_size h_size_t_size h_instr_size h_number_size].
  destruct en; reflexivity.
Qed.

Lemma header_slice v f i h body :
  py_slice_to (encode_header v f i h ++ body) 12 = encode_header v f i h.
Proof.
  unfold py_slice_to. apply (py_slice_at _ [] (encode_header v f i h) body); reflexivity.
Qed.

Lemma at_cursor_body v f i h body :
  at_cursor (encode_header v f i h ++ body) 12 body.
Proof. exists (encode_header v f i h). split; reflexivity. Qed.

(** ** Patching on the tree *)

Lemma elem_of_number_from_app_l {A} c (l k : list A) x :
  x ∈ number_from c l -> x ∈ number_from c (l ++ k).
Proof. rewrite number_from_app. intros H. apply elem_of_app. left. exact H. Qed.

Lemma elem_of_number_from_app_r {A} c (l k : list A) x :
  x ∈ number_from (c + len l) k -> x ∈ number_from c (l ++ k).
Proof. rewrite number_from_app. intros H. apply elem_of_app. right. exact H. Qed.

Lemma thread_noop {A} (f : A -> Z -> result (A * Z)) (strs : A -> list (list byte))
    (Q : Z -> list byte -> Prop) (l : list A) :
  (forall x c, x ∈ l ->
     (forall i r, (i, r) ∈ number_from c (strs x) -> Q i r) ->
     f x c = Ok (x, c + len (strs x))) ->
  forall c, (forall i r, (i, r) ∈ number_from c (flat_map strs l) -> Q i r) ->
    thread f l c = Ok (l, c + len (flat_map strs l)).
Proof.
  induction l as [|x l IH]; intros Hf c HQ; cbn [thread flat_map].
  - rewrite len_nil, Z.add_0_r. reflexivity.
  - rewrite (Hf x c (list_elem_of_here _ _)).
    2:{ intros i r Hin. apply HQ. cbn [flat_map]. apply elem_of_number_from_app_l. exact Hin. }
    cbn [bind]. fold (thread f). rewrite IH.
    + cbn [bind]. rewrite len_app, Z.add_assoc. reflexivity.
    + intros x' c' Hin. apply Hf. apply list_elem_of_further. exact Hin.
    + intros i r Hin. apply HQ. cbn [flat_map]. apply elem_of_number_from_app_r. exact Hin.
Qed.

Lemma thread_renumber {A} (f : A -> Z -> result (A * Z)) (g : A -> Z -> A)
    (strs : A -> list (list byte)) (l : list A) :
  (forall x c y c', x ∈ l -> f x c = Ok (y, c') -> y = g x c /\ c' = c + len (strs x)) ->
  forall c ys c', thread f l c = Ok (ys, c') ->
    ys = renumber g strs l c /\ c' = c + len (flat_map strs l).
Proof.
  induction l as [|x l IH]; intros Hf c ys c'; cbn [thread renumber flat_map].
  - intros [= <- <-]. rewrite len_nil. split; [reflexivity | lia].
  - destruct (f x c) as [[y c1]|] eqn:Hx; cbn [bind]; [|discriminate].
    fold (thread f). destruct (thread f l c1) as [[ys1 c2]|] eqn:Hl; cbn [bind]; [|discriminate].
    intros [= <- <-].
    apply Hf in Hx as [-> ->]; [|apply list_elem_of_here].
    apply IH in Hl as [-> ->]; [|intros; eapply Hf; eauto using list_elem_of_further].
    rewrite len_app. split; [reflexivity | lia].
Qed.

Lemma renumber_id {A} (g : A -> Z -> A) (strs : A -> list (list byte))
    (Q : Z -> list byte -> Prop) (l : list A) :
  (forall x c, x ∈ l ->
     (forall i r, (i, r) ∈ number_from c (strs x) -> Q i r) -> g x c = x) ->
  forall c, (forall i r, (i, r) ∈ number_from c (flat_map strs l) -> Q i r) ->
    renumber g strs l c = l.
Proof.
  induction l as [|x l IH]; intros Hg c HQ; cbn [renumber flat_map]; [reflexivity|].
  f_equal.
  - apply Hg; [apply list_elem_of_here|].
    intros i r Hin. apply HQ. cbn [flat_map]. apply elem_of_number_from_app_l. exact Hin.
  - apply IH.
    + intros x' c' Hin. apply Hg. apply list_elem_of_further. exact Hin.
    + intros i r Hin. apply HQ. cbn [flat_map]. apply elem_of_number_from_app_r. exact Hin.
Qed.

Lemma normalize_zero_terminated s :
  zero_terminated_lstring s = true -> normalize_lstring s = s.
Proof.
  destruct s as [[p t]|]; cbn; [|reflexivity].
  intros Ht. apply bool_decide_eq_true_1 in Ht. subst. reflexivity.
Qed.

Lemma map_id_on {A} (g : A -> A) (P : A -> bool) (l : list A) :
  (forall x, P x = true -> g x = x) -> forallb P l = true -> map g l = l.
Proof.
  intros Hg. induction l as [|x l IH]; cbn [forallb map]; [reflexivity|].
  intros Hall. apply andb_prop in Hall as [Hx Hl]. rewrite Hg, IH; auto.
Qed.

Section tree.
Variables (h : header) (mapping : gmap Z (list Z)) (src_enc dst_enc : codec).

Lemma patch_constant_noop k c :
  wf_constant h k = true -> zero_terminated_constant k = true ->
  (forall i r, (i, r) ∈ number_from c (constant_strings k) -> (keeps_payload mapping src_enc dst_enc) i r) ->
  patch_constant h mapping src_enc dst_enc k c = Ok (k, c + len (constant_strings k)).
Proof.
  intros Hwf Hz Hk.
  destruct k as [|b|payload|[[raw t]|]]; cbn [patch_constant constant_strings];
    try (rewrite len_nil, Z.add_0_r; reflexivity).
  cbn [number_from] in Hk.
  pose proof (Hk (c + 1) raw (list_elem_of_here _ _)) as Hkeep.
  unfold keeps_payload in Hkeep. rewrite Hkeep. cbn [bind].
  cbn [wf_constant wf_lstring] in Hwf. rewrite Hwf.
  cbn [zero_terminated_constant zero_terminated_lstring] in Hz.
  apply bool_decide_eq_true_1 in Hz. subst t.
  rewrite len_cons, len_nil. do 2 f_equal; lia.
Qed.

Lemma patch_proto_noop n :
  forall p c, (proto_depth p <= n)%nat ->
    wf_proto h p = true -> zero_terminated p = true ->
    (forall i r, (i, r) ∈ number_from c (proto_strings p) -> (keeps_payload mapping src_enc dst_enc) i r) ->
    patch_proto h mapping src_enc dst_enc p c = Ok (p, c + len (proto_strings p)).
Proof.
  induction n as [|n IH]; intros p c Hd Hwf Hz Hk.
  { destruct p; cbn [proto_depth] in Hd. lia. }
  pose proof (proto_depth_child p) as Hchild.
  destruct p as [src a b flags szc cd ks cs szl li lvs ups].
  cbn [wf_proto zero_terminated source_name line_defined last_line_defined
       flag_block sizecode code constants children sizelineinfo lineinfo
       locvars upvalues proto_strings patch_proto] in *.
  apply andb_prop in Hz as [Hz Hzups]. apply andb_prop in Hz as [Hz Hzlvs].
  apply andb_prop in Hz as [Hz Hzcs]. apply andb_prop in Hz as [Hzsrc Hzks].
  apply andb_prop in Hwf as [Hwf Hups]. apply andb_prop in Hwf as [Hwf Hnup].
  apply andb_prop in Hwf as [Hwf Hlvs]. apply andb_prop in Hwf as [Hwf Hnlv].
  apply andb_prop in Hwf as [Hwf Hli]. apply andb_prop in Hwf as [Hwf Hszl].
  apply andb_prop in Hwf as [Hwf Hcs]. apply andb_prop in Hwf as [Hwf Hncs].
  apply andb_prop in Hwf as [Hwf Hks]. apply andb_prop in Hwf as [Hwf Hnks].
  rewrite (thread_noop _ constant_strings (keeps_payload mapping src_enc dst_enc) ks).
  2:{ intros x c' Hin Hq. apply patch_constant_noop;
        [ exact (forallb_elem_of _ _ _ Hks Hin)
        | exact (forallb_elem_of _ _ _ Hzks Hin)
        | exact Hq ]. }
  2:{ intros i r Hin. apply Hk. apply elem_of_number_from_app_l. exact Hin. }
  cbn [bind].
  rewrite (thread_noop _ proto_strings (keeps_payload mapping src_enc dst_enc) cs).
  2:{ intros x c' Hin Hq. apply IH;
        [ specialize (Hchild x Hin); cbn [proto_depth children] in Hchild, Hd |- *; lia
        | exact (forallb_elem_of _ _ _ Hcs Hin)
        | exact (forallb_elem_of _ _ _ Hzcs Hin)
        | exact Hq ]. }
  2:{ intros i r Hin. apply Hk. apply elem_of_number_from_app_r. exact Hin. }
  cbn [bind].
  rewrite (normalize_zero_terminated src Hzsrc).
  rewrite (map_id_on normalize_lstring zero_terminated_lstring ups
             normalize_zero_terminated Hzups).
  rewrite (map_id_on normalize_locvar
             (fun lv => zero_terminated_lstring (lv_name lv)) lvs).
  - rewrite len_app, Z.add_assoc. reflexivity.
  - intros [nm s e] Hx. unfold normalize_locvar. cbn [lv_name lv_startpc lv_endpc] in *.
    rewrite (normalize_zero_terminated nm Hx). reflexivity.
  - exact Hzlvs.
Qed.

Lemma patch_constant_substitute k c k' c' :
  zero_terminated_constant k = true ->
  patch_constant h mapping src_enc dst_enc k c = Ok (k', c') ->
  k' = substitute_constant (patched mapping src_enc dst_enc) k c
  /\ c' = c + len (constant_strings k).
Proof.
  intros Hz.
  destruct k as [|b|payload|[[raw t]|]];
    cbn [patch_constant substitute_constant constant_strings];
    try (intros [= <- <-]; rewrite len_nil; split; [reflexivity | lia]).
  unfold patched.
  destruct (ImportPy.patch_const_string _ _ _ _ _) as [bs|]; cbn [bind]; [|discriminate].
  destruct (size_ok _ _); [|discriminate].
  intros [= <- <-].
  cbn [zero_terminated_constant zero_terminated_lstring] in Hz.
  apply bool_decide_eq_true_1 in Hz. subst t.
  rewrite len_cons, len_nil. split; [reflexivity | lia].
Qed.

Lemma patch_proto_substitute n :
  forall p c p' c', (proto_depth p <= n)%nat ->
    zero_terminated p = true ->
    patch_proto h mapping src_enc dst_enc p c = Ok (p', c') ->
    p' = substitute (patched mapping src_enc dst_enc) p c
    /\ c' = c + len (proto_strings p).
Proof.
  induction n as [|n IH]; intros p c p' c' Hd Hz.
  { destruct p; cbn [proto_depth] in Hd. lia. }
  pose proof (proto_depth_child p) as Hchild.
  destruct p as [src a b flags szc cd ks cs szl li lvs ups].
  cbn [zero_terminated source_name line_defined last_line_defined
       flag_block sizecode code constants children sizelineinfo lineinfo
       locvars upvalues proto_strings patch_proto substitute] in *.
  apply andb_prop in Hz as [Hz Hzups]. apply andb_prop in Hz as [Hz Hzlvs].
  apply andb_prop in Hz as [Hz Hzcs]. apply andb_prop in Hz as [Hzsrc Hzks].
  destruct (thread _ ks c) as [[ks' c1]|] eqn:Eks; cbn [bind]; [|discriminate].
  destruct (thread _ cs c1) as [[cs' c2]|] eqn:Ecs; cbn [bind]; [|discriminate].
  intros [= <- <-].
  apply (thread_renumber _ (substitute_constant (patched mapping src_enc dst_enc))
           constant_strings) in Eks as [-> ->].
  2:{ intros x c0 y c0' Hin. apply patch_constant_substitute.
      exact (forallb_elem_of _ _ _ Hzks Hin). }
  apply (thread_renumber _ (substitute (patched mapping src_enc dst_enc))
           proto_strings) in Ecs as [-> ->].
  2:{ intros x c0 y c0' Hin. apply IH.
      - specialize (Hchild x Hin). cbn [proto_depth children] in Hchild, Hd |- *. lia.
      - exact (forallb_elem_of _ _ _ Hzcs Hin). }
  rewrite (normalize_zero_terminated src Hzsrc).
  rewrite (map_id_on normalize_lstring zero_terminated_lstring ups
             normalize_zero_terminated Hzups).
  rewrite (map_id_on normalize_locvar
             (fun lv => zero_terminated_lstring (lv_name lv)) lvs).
  - rewrite len_app. split; [reflexivity | lia].
  - intros [nm s e] Hx. unfold normalize_locvar. cbn [lv_name lv_startpc lv_endpc] in *.
    rewrite (normalize_zero_terminated nm Hx). reflexivity.
  - exact Hzlvs.
Qed.
End tree.

Lemma renumber_map {A} (g : A -> Z -> A) (N : A -> A) (strs : A -> list (list byte))
    (l : list A) :
  forall c, renumber (fun x c => N (g x c)) strs l c = map N (renumber g strs l c).
Proof.
  induction l as [|x l IH]; intros c; cbn [renumber map]; [reflexivity|].
  rewrite IH. reflexivity.
Qed.

Lemma patch_constant_normalized h mapping src_enc dst_enc k c k' c' :
  patch_constant h mapping src_enc dst_enc k c = Ok (k', c') ->
  k' = normalize_constant (substitute_constant (patched mapping src_enc dst_enc) k c)
  /\ c' = c + len (constant_strings k).
Proof.
  destruct k as [|b|payload|[[raw t]|]];
    cbn [patch_constant substitute_constant constant_strings normalize_constant
         normalize_lstring];
    try (intros [= <- <-]; rewrite len_nil; split; [reflexivity | lia]).
  unfold patched.
  destruct (ImportPy.patch_const_string _ _ _ _ _) as [bs|]; cbn [bind]; [|discriminate].
  destruct (size_ok _ _); [|discriminate].
  intros [= <- <-]. rewrite len_cons, len_nil. split; [reflexivity | lia].
Qed.

Lemma patch_proto_normalized h mapping src_enc dst_enc n :
  forall p c p' c', (proto_depth p <= n)%nat ->
    patch_proto h mapping src_enc dst_enc p c = Ok (p', c') ->
    p' = normalize_proto (substitute (patched mapping src_enc dst_enc) p c)
    /\ c' = c + len (proto_strings p).
Proof.
  induction n as [|n IH]; intros p c p' c' Hd.
  { destruct p; cbn [proto_depth] in Hd. lia. }
  pose proof (proto_depth_child p) as Hchild.
  destruct p as [src a b flags szc cd ks cs szl li lvs ups].
  cbn [source_name line_defined last_line_defined
       flag_block sizecode code constants children sizelineinfo lineinfo
       locvars upvalues proto_strings patch_proto substitute normalize_proto] in *.
  destruct (thread _ ks c) as [[ks' c1]|] eqn:Eks; cbn [bind]; [|discriminate].
  destruct (thread _ cs c1) as [[cs' c2]|] eqn:Ecs; cbn [bind]; [|discriminate].
  intros [= <- <-].
  apply (thread_renumber _
           (fun x c => normalize_constant
                         (substitute_constant (patched mapping src_enc dst_enc) x c))
           constant_strings) in Eks as [-> ->].
  2:{ intros x c0 y c0' _. apply patch_constant_normalized. }
  apply (thread_renumber _
           (fun x c => normalize_proto (substitute (patched mapping src_enc dst_enc) x c))
           proto_strings) in Ecs as [-> ->].
  2:{ intros x c0 y c0' Hin. apply IH.
      specialize (Hchild x Hin). cbn [proto_depth children] in Hchild, Hd |- *. lia. }
  rewrite !renumber_map, len_app. split; [reflexivity | lia].
Qed.

Lemma substitute_constant_id f k c :
  (forall i r, (i, r) ∈ number_from c (constant_strings k) -> f i r = r) ->
  substitute_constant f k c = k.
Proof.
  destruct k as [|b|payload|[[raw t]|]]; cbn [substitute_constant constant_strings number_from];
    try reflexivity.
  intros Hk. rewrite (Hk (c + 1) raw (list_elem_of_here _ _)). reflexivity.
Qed.

Lemma substitute_id f n :
  forall p c, (proto_depth p <= n)%nat ->
    (forall i r, (i, r) ∈ number_from c (proto_strings p) -> f i r = r) ->
    substitute f p c = p.
Proof.
  induction n as [|n IH]; intros p c Hd Hk.
  { destruct p; cbn [proto_depth] in Hd. lia. }
  pose proof (proto_depth_child p) as Hchild.
  destruct p as [src a b flags szc cd ks cs szl li lvs ups].
  cbn [substitute source_name line_defined last_line_defined
       flag_block sizecode code constants children sizelineinfo lineinfo
       locvars upvalues proto_strings] in *.
  rewrite (renumber_id _ constant_strings (fun i r => f i r = r) ks).
  - rewrite (renumber_id _ proto_strings (fun i r => f i r = r) cs); [reflexivity| |].
    + intros x c' Hin Hq. apply IH; [|exact Hq].
      specialize (Hchild x Hin). cbn [proto_depth children] in Hchild, Hd |- *. lia.
    + intros i r Hin. apply Hk. apply elem_of_number_from_app_r. exact Hin.
  - intros x c' Hin Hq. apply substitute_constant_id. exact Hq.
  - intros i r Hin. apply Hk. apply elem_of_number_from_app_l. exact Hin.
Qed.

Lemma patch_const_string_keep raw idx mapping src_enc dst_enc :
  mapping !! idx = None \/ mapping !! idx = Some (display_text src_enc raw) ->
  ImportPy.patch_const_string raw idx mapping src_enc dst_enc = Ok raw.
Proof.
  unfold ImportPy.patch_const_string. intros [-> | ->]; [reflexivity|].
  unfold display_text. rewrite bool_decide_eq_true_2 by reflexivity. reflexivity.
Qed.

Lemma elem_of_lines_of enc idx raw numbered :
  (idx, raw) ∈ numbered ->
  ExtractPy.mk_line ExtractPy.Black idx (display_text enc raw) ∈ lines_of enc numbered.
Proof.
  intros Hin. unfold lines_of. apply list_elem_of_In, in_flat_map.
  exists (idx, raw). split; [apply list_elem_of_In; exact Hin|].
  cbn. right. left. reflexivity.
Qed.

Lemma valid_parts h p :
  valid h p = true ->
  wf_format h = true /\ byte_sized h = true /\ wf_proto h p = true
  /\ zero_terminated p = true.
Proof.
  unfold valid. intros H.
  apply andb_prop in H as [H ?]. apply andb_prop in H as [H ?].
  apply andb_prop in H as [? ?]. auto.
Qed.

(** ** The drivers on an encoded chunk *)

Section drivers.
Variables (v f i : byte) (h : header) (p : proto) (limit : nat).
Hypothesis (Hfmt : wf_format h = true) (Hbytes : byte_sized h = true).
Hypothesis (Hwf : wf_proto h p = true).
Hypothesis (Hdepth : (proto_depth p <= limit)%nat).

Lemma at_cursor_chunk :
  at_cursor (encode_header v f i h ++ encode_proto h p) 12 (encode_proto h p ++ []).
Proof. rewrite app_nil_r. apply at_cursor_body. Qed.

Lemma extract_strings_encoded encoding :
  ExtractPy.extract_strings limit (encode_chunk v f i h p) encoding
  = Ok (lines_of encoding (number_from (-1) (proto_strings p))).
Proof.
  unfold ExtractPy.extract_strings, encode_chunk.
  rewrite (read_header_encoded _ _ _ _ _ Hbytes). cbn [bind].
  rewrite (extract_process_proto_encoded h _ encoding Hfmt limit p 12 [] (-1) []
             Hwf Hdepth at_cursor_chunk).
  reflexivity.
Qed.

Lemma patch_walk_encoded mapping src_enc dst_enc :
  ImportPy.patch_walk limit (encode_chunk v f i h p) mapping src_enc dst_enc
  = match patch_proto h mapping src_enc dst_enc p (-1) with
    | Ok (p', _) => ImportPy.Written (encode_chunk v f i h p')
    | Err UnicodeEncodeError => ImportPy.NotWritten
    | Err ex => ImportPy.Raised ex
    end.
Proof.
  unfold ImportPy.patch_walk, encode_chunk.
  rewrite (read_header_encoded _ _ _ _ _ Hbytes), header_slice.
  rewrite (process_proto_encoded h _ mapping src_enc dst_enc Hfmt limit p 12 _ (-1) [] []
             Hwf Hdepth at_cursor_chunk).
  destruct (patch_proto h mapping src_enc dst_enc p (-1)) as [[p' c']|ex];
    reflexivity.
Qed.
End drivers.

(** C1. For a valid chunk and a mapping that gives every index the display
    text the extractor produced for it, [patch_file] writes the input back
    byte for byte. *)
Theorem roundtrip_identity v f i h p limit mapping encoding dst_enc lines :
  valid h p = true ->
  (proto_depth p <= limit)%nat ->
  ExtractPy.extract_strings limit (encode_chunk v f i h p) encoding = Ok lines ->
  (forall l, l ∈ lines -> mapping !! ExtractPy.l_index l = Some (ExtractPy.l_text l)) ->
  ImportPy.patch_file limit (encode_chunk v f i h p) mapping encoding dst_enc
  = ImportPy.Written (encode_chunk v f i h p).
Proof.
  intros Hv Hd Hex Hmap.
  destruct (valid_parts _ _ Hv) as (Hfmt & Hb & Hwf & Hz).
  unfold ImportPy.patch_file. case_bool_decide; [reflexivity|].
  rewrite (patch_walk_encoded v f i h p limit Hfmt Hb Hwf Hd).
  rewrite (extract_strings_encoded v f i h p limit Hfmt Hb Hwf Hd) in Hex.
  injection Hex as <-.
  rewrite (patch_proto_noop h mapping encoding dst_enc (proto_depth p) p (-1)
             (Nat.le_refl _) Hwf Hz); [reflexivity|].
  intros idx raw Hin. apply patch_const_string_keep. right.
  apply (Hmap _ (elem_of_lines_of encoding idx raw _ Hin)).
Qed.

(** ** A deeper recursion limit keeps a completed walk *)

Lemma repeat_loop_mono {S} (step1 step2 : S -> result S) (n : nat) :
  (forall s s', step1 s = Ok s' -> step2 s = Ok s') ->
  forall s s', repeat_loop n step1 s = Ok s' -> repeat_loop n step2 s = Ok s'.
Proof.
  intros Hstep. induction n as [|n IH]; intros s s'; cbn [repeat_loop]; [auto|].
  destruct (step1 s) as [t|] eqn:E; cbn [bind]; [|discriminate].
  rewrite (Hstep _ _ E). cbn [bind]. apply IH.
Qed.

(** One operation common to both sides of an implication between two
    runs of the same code. *)
Ltac same_step :=
  match goal with
  | |- context [bind ?op _] =>
      lazymatch op with
      | for_range _ _ _ => fail
      | bind _ _ => fail
      | _ =>
          let v := fresh "v" in
          let H := fresh "H" in
          destruct op as [v|?];
          [ repeat match goal with x : (_ * _)%type |- _ => destruct x end; cbn [bind]
          | cbn [bind]; intros H; discriminate H ]
      end
  end.

Section depth.
Variables (data : list byte) (e : endian).
Variables (int_size size_t_size instr_size number_size : Z).
Variables (mapping : gmap Z (list Z)) (src_enc dst_enc : codec).

Lemma patch_depth_mono d :
  forall d' st st', (d <= d')%nat ->
    ImportPy.process_proto data e int_size size_t_size instr_size number_size
      mapping src_enc dst_enc d st = Ok st' ->
    ImportPy.process_proto data e int_size size_t_size instr_size number_size
      mapping src_enc dst_enc d' st = Ok st'.
Proof.
  induction d as [|d IH]; intros d' st st' Hle; [discriminate|].
  destruct d' as [|d']; [lia|].
  cbn [ImportPy.process_proto].
  repeat same_step.
  match goal with
  | |- context [bind (for_range ?n ?step ?s) _] =>
      destruct (for_range n step s) as [s1|] eqn:L1; cbn [bind];
        [|intros H; discriminate H]
  end.
  repeat same_step.
  match goal with
  | |- context [bind (for_range ?n (ImportPy.process_proto ?a ?b ?c ?f ?g ?i ?j ?k ?l d) ?s) _] =>
      destruct (for_range n (ImportPy.process_proto a b c f g i j k l d) s)
        as [s2|] eqn:L2; cbn [bind]; [|intros H; discriminate H]
  end.
  unfold for_range in L2 |- *.
  rewrite (repeat_loop_mono _ _ _ (fun s s' => IH d' s s' ltac:(lia)) _ _ L2).
  cbn [bind]. auto.
Qed.

Lemma extract_depth_mono d :
  forall d' st st', (d <= d')%nat ->
    ExtractPy.process_proto data e int_size size_t_size instr_size number_size
      src_enc d st = Ok st' ->
    ExtractPy.process_proto data e int_size size_t_size instr_size number_size
      src_enc d' st = Ok st'.
Proof.
  induction d as [|d IH]; intros d' st st' Hle; [discriminate|].
  destruct d' as [|d']; [lia|].
  cbn [ExtractPy.process_proto].
  repeat same_step.
  match goal with
  | |- context [bind (for_range ?n ?step ?s) _] =>
      destruct (for_range n step s) as [s1|] eqn:L1; cbn [bind];
        [|intros H; discriminate H]
  end.
  repeat same_step.
  match goal with
  | |- context [bind (for_range ?n (ExtractPy.process_proto ?a ?b ?c ?f ?g ?i ?j d) ?s) _] =>
      destruct (for_range n (ExtractPy.process_proto a b c f g i j d) s)
        as [s2|] eqn:L2; cbn [bind]; [|intros H; discriminate H]
  end.
  unfold for_range in L2 |- *.
  rewrite (repeat_loop_mono _ _ _ (fun s s' => IH d' s s' ltac:(lia)) _ _ L2).
  cbn [bind]. auto.
Qed.
End depth.

Lemma patched_keep mapping src_enc dst_enc idx raw :
  mapping !! idx = None \/ mapping !! idx = Some (display_text src_enc raw) ->
  patched mapping src_enc dst_enc idx raw = raw.
Proof.
  intros H. unfold patched. rewrite patch_const_string_keep by exact H. reflexivity.
Qed.

(** C5 (amended). On a well-formed chunk, what [patch_file] writes is
    the encoding of the same tree with only the payloads of string
    constants replaced and, when the mapping is not empty, every string
    terminator set to 0; on a valid chunk, whose terminators are 0, only
    the payloads differ.  A payload whose index is not in the mapping,
    or is mapped to its own display text, stays. *)
Theorem patch_frame v f i h p limit mapping src_enc dst_enc out :
  wf_format h = true -> byte_sized h = true -> wf_proto h p = true ->
  ImportPy.patch_file limit (encode_chunk v f i h p) mapping src_enc dst_enc
  = ImportPy.Written out ->
  (mapping = ∅ -> out = encode_chunk v f i h p)
  /\ (mapping <> ∅ ->
      out = encode_chunk v f i h
              (normalize_proto (substitute (patched mapping src_enc dst_enc) p (-1))))
  /\ (zero_terminated p = true ->
      out = encode_chunk v f i h (substitute (patched mapping src_enc dst_enc) p (-1)))
  /\ (forall idx raw,
        mapping !! idx = None \/ mapping !! idx = Some (display_text src_enc raw) ->
        patched mapping src_enc dst_enc idx raw = raw).
Proof.
  intros Hfmt Hb Hwf Hrun.
  assert (Hwalk : mapping <> ∅ ->
            exists p' c', patch_proto h mapping src_enc dst_enc p (-1) = Ok (p', c')
                          /\ out = encode_chunk v f i h p').
  { intros Hm. unfold ImportPy.patch_file in Hrun.
    rewrite bool_decide_eq_false_2 in Hrun by exact Hm.
    set (big := Nat.max limit (proto_depth p)).
    assert (Hbig : ImportPy.patch_walk big (encode_chunk v f i h p) mapping src_enc dst_enc
                   = ImportPy.Written out).
    { revert Hrun. unfold ImportPy.patch_walk.
      destruct (read_header _) as [hd|]; [|discriminate].
      destruct (ImportPy.process_proto _ _ _ _ _ _ _ _ _ limit _) as [st|ex] eqn:E.
      - rewrite (patch_depth_mono _ _ _ _ _ _ _ _ _ limit big _ _ ltac:(lia) E). auto.
      - destruct ex; discriminate. }
    rewrite (patch_walk_encoded v f i h p big Hfmt Hb Hwf ltac:(lia)) in Hbig.
    destruct (patch_proto h mapping src_enc dst_enc p (-1)) as [[p' c']|ex] eqn:E.
    - injection Hbig as <-. eauto.
    - destruct ex; discriminate. }
  assert (Hcopy : mapping = ∅ -> out = encode_chunk v f i h p).
  { intros ->. unfold ImportPy.patch_file in Hrun.
    rewrite bool_decide_eq_true_2 in Hrun by reflexivity. congruence. }
  split; [exact Hcopy|]. split; [|split].
  - intros Hm. destruct (Hwalk Hm) as (p' & c' & E & ->).
    apply (patch_proto_normalized _ _ _ _ (proto_depth p)) in E as [-> _]; auto.
  - intros Hz. destruct (decide (mapping = ∅)) as [Hm|Hm].
    + rewrite (Hcopy Hm). subst mapping.
      rewrite (substitute_id _ (proto_depth p)); [reflexivity|lia|].
      intros idx raw _. apply patched_keep. left. apply lookup_empty.
    + destruct (Hwalk Hm) as (p' & c' & E & ->).
      apply (patch_proto_substitute _ _ _ _ (proto_depth p)) in E as [-> _]; auto.
  - intros idx raw. apply patched_keep.
Qed.

(** C8 (amended). With an empty mapping [patch_file] writes the input as
    it is, whatever the input; on a valid chunk the walk with the empty
    mapping would have written the same bytes. *)
Theorem empty_mapping_copy limit data src_enc dst_enc :
  ImportPy.patch_file limit data ∅ src_enc dst_enc = ImportPy.Written data
  /\ (forall v f i h p,
        data = encode_chunk v f i h p -> valid h p = true ->
        (proto_depth p <= limit)%nat ->
        ImportPy.patch_walk limit data ∅ src_enc dst_enc = ImportPy.Written data).
Proof.
  split.
  - unfold ImportPy.patch_file. rewrite bool_decide_eq_true_2 by reflexivity. reflexivity.
  - intros v f i h p -> Hv Hd.
    destruct (valid_parts _ _ Hv) as (Hfmt & Hb & Hwf & Hz).
    rewrite (patch_walk_encoded v f i h p limit Hfmt Hb Hwf Hd).
    rewrite (patch_proto_noop h ∅ src_enc dst_enc (proto_depth p) p (-1)
               (Nat.le_refl _) Hwf Hz); [reflexivity|].
    intros idx raw _. apply patch_const_string_keep. left. apply lookup_empty.
Qed.

(** ** A constant with an unknown tag *)

Lemma repeat_loop_add {S} (step : S -> result S) (n m : nat) (s : S) :
  repeat_loop (n + m) step s
  = let* s' := repeat_loop n step s in repeat_loop m step s'.
Proof.
  revert s. induction n as [|n IH]; intros s; cbn [Nat.add repeat_loop bind]; [reflexivity|].
  destruct (step s) as [t|]; cbn [bind]; [apply IH | reflexivity].
Qed.

Lemma depth_of_list_member (cs : list proto) (x : proto) :
  x ∈ cs -> (proto_depth x <= foldr Nat.max O (map proto_depth cs))%nat.
Proof.
  induction cs as [|y cs IH]; intros Hin.
  - inversion Hin.
  - cbn [map foldr]. apply elem_of_cons in Hin as [->|Hin].
    + lia.
    + specialize (IH Hin). lia.
Qed.

Lemma known_tag_false t :
  known_tag t = false ->
  (byte_to_Z t =? 0) = false /\ (byte_to_Z t =? 1) = false
  /\ (byte_to_Z t =? 3) = false /\ (byte_to_Z t =? 4) = false.
Proof.
  unfold known_tag. intros H.
  apply orb_false_elim in H as [H H4]. apply orb_false_elim in H as [H H3].
  apply orb_false_elim in H as [H0 H1]. auto.
Qed.

Lemma patch_const_step_unknown data e size_t_size number_size mapping src_enc dst_enc
    t rest pos out c vs :
  known_tag t = false ->
  at_cursor data pos (t :: rest) ->
  ImportPy.const_step data e size_t_size number_size mapping src_enc dst_enc
    (ImportPy.mk_pstate pos out c vs)
  = Err (ValueError UnknownConstantType).
Proof.
  intros Ht Hc. apply known_tag_false in Ht as (H0 & H1 & H3 & H4).
  unfold ImportPy.const_step. cbn [ImportPy.p_pos].
  rewrite (py_index_cursor _ _ _ _ Hc). cbn [bind].
  rewrite H0, H1, H3, H4. reflexivity.
Qed.

Lemma extract_const_step_unknown data e size_t_size number_size encoding
    t rest pos out c :
  known_tag t = false ->
  at_cursor data pos (t :: rest) ->
  ExtractPy.const_step data e size_t_size number_size encoding
    (ExtractPy.mk_estate pos out c)
  = Err (ValueError UnknownConstantType).
Proof.
  intros Ht Hc. apply known_tag_false in Ht as (H0 & H1 & H3 & H4).
  unfold ExtractPy.const_step. cbn [ExtractPy.e_pos].
  rewrite (py_index_cursor _ _ _ _ Hc). cbn [bind].
  rewrite H0, H1, H3, H4. reflexivity.
Qed.

Lemma wf_front_parts h src a b flags szc cd :
  wf_front h src a b flags szc cd = true ->
  wf_lstring h src = true /\ int_ok h a = true /\ int_ok h b = true
  /\ len flags = 4 /\ int_ok h szc = true /\ len cd = szc * h_instr_size h.
Proof.
  unfold wf_front. intros H.
  apply andb_prop in H as [H Hcd]. apply andb_prop in H as [H Hszc].
  apply andb_prop in H as [H Hfl]. apply andb_prop in H as [H Hb].
  apply andb_prop in H as [Hsrc Ha].
  apply Z.eqb_eq in Hfl, Hcd. auto 10.
Qed.

(** The fields before the constant table, for the patch walker and for
    the extraction walker. *)
Ltac patch_front h Hfmt Hc Hsrc Ha Hb Hfl Hszc Hcd :=
  rewrite (read_lstring_cursor h Hfmt _ _ _ _ Hsrc Hc); cbn [bind];
  rewrite (write_lstring_ok h Hfmt _ _ Hsrc); cbn [bind];
  apply at_cursor_app in Hc;
  rewrite (read_int_cursor h Hfmt _ _ _ _ Ha Hc); cbn [bind];
  apply at_cursor_app in Hc; rewrite (len_encode_int h Hfmt) in Hc;
  rewrite (read_int_cursor h Hfmt _ _ _ _ Hb Hc); cbn [bind];
  apply at_cursor_app in Hc; rewrite (len_encode_int h Hfmt) in Hc;
  rewrite (write_int_ok h Hfmt _ _ Ha); cbn [bind];
  rewrite (write_int_ok h Hfmt _ _ Hb); cbn [bind];
  rewrite (py_slice_cursor _ _ _ _ 4 Hc (eq_sym Hfl));
  apply at_cursor_app in Hc; rewrite Hfl in Hc;
  rewrite (read_int_cursor h Hfmt _ _ _ _ Hszc Hc); cbn [bind];
  apply at_cursor_app in Hc; rewrite (len_encode_int h Hfmt) in Hc;
  rewrite (write_int_ok h Hfmt _ _ Hszc); cbn [bind];
  (let X := fresh in
   pose proof (py_slice_cursor _ _ _ _ _ Hc (eq_sym Hcd)) as X; rewrite X; clear X);
  apply at_cursor_app in Hc; rewrite Hcd in Hc.

Ltac extract_front h Hfmt Hc Hsrc Ha Hb Hfl Hszc Hcd :=
  (let rp := fresh in let rl := fresh in let E := fresh in
   destruct (extract_read_lstring_cursor h _ Hfmt _ _ _ Hsrc Hc) as (rp & rl & E);
   rewrite E; clear E); cbn [bind];
  apply at_cursor_app in Hc;
  rewrite (read_int_cursor h Hfmt _ _ _ _ Ha Hc); cbn [bind];
  apply at_cursor_app in Hc; rewrite (len_encode_int h Hfmt) in Hc;
  rewrite (read_int_cursor h Hfmt _ _ _ _ Hb Hc); cbn [bind];
  apply at_cursor_app in Hc; rewrite (len_encode_int h Hfmt) in Hc;
  apply at_cursor_app in Hc; rewrite Hfl in Hc;
  rewrite (read_int_cursor h Hfmt _ _ _ _ Hszc Hc); cbn [bind];
  apply at_cursor_app in Hc; rewrite (len_encode_int h Hfmt) in Hc;
  apply at_cursor_app in Hc; rewrite Hcd in Hc.

Section unknown_tag.
Variables (h : header).
Hypothesis (Hfmt : wf_format h = true).

Lemma unknown_tag_patch bs :
  unknown_tag_proto h bs ->
  exists n, forall depth, (n <= depth)%nat ->
    forall data pos out c vs mapping src_enc dst_enc,
      at_cursor data pos bs ->
      is_ok (ImportPy.process_proto data (h_endian h) (h_int_size h)
               (h_size_t_size h) (h_instr_size h) (h_number_size h)
               mapping src_enc dst_enc depth (ImportPy.mk_pstate pos out c vs))
      = false.
Proof.
  induction 1 as [src a b flags szc cd sizek ks t rest Hfront Hsizek Hks Hlt Ht
                 |src a b flags szc cd ks sizep cs bytes Hfront Hnks Hks Hsizep Hcs Hlt Hbad IH].
  - exists 1%nat. intros depth Hd data pos out c vs mapping src_enc dst_enc Hc.
    destruct depth as [|depth]; [lia|].
    destruct (wf_front_parts _ _ _ _ _ _ _ Hfront) as (Hsrc & Ha & Hb & Hfl & Hszc & Hcd).
    unfold encode_front in Hc. rewrite <- !app_assoc in Hc.
    cbn [ImportPy.process_proto ImportPy.p_pos ImportPy.p_out ImportPy.p_counter
         ImportPy.p_visits].
    patch_front h Hfmt Hc Hsrc Ha Hb Hfl Hszc Hcd.
    rewrite (read_int_cursor h Hfmt _ _ _ _ Hsizek Hc). cbn [bind].
    apply at_cursor_app in Hc. rewrite (len_encode_int h Hfmt) in Hc.
    rewrite (write_int_ok h Hfmt _ _ Hsizek). cbn [bind].
    unfold for_range.
    replace (Z.to_nat sizek)
      with (length ks + S (Z.to_nat sizek - length ks - 1))%nat
      by (unfold len in Hlt; lia).
    rewrite repeat_loop_add.
    rewrite (repeat_loop_thread data _ (encode_constant h) (encode_constant h)
               (patch_constant h mapping src_enc dst_enc) constant_strings ks)
      with (rest := t :: rest);
      [ | intros x Hin pos' out' c' vs' rest' Hc';
          apply (const_step_encoded h data mapping src_enc dst_enc Hfmt) with (rest := rest');
          [ exact (forallb_elem_of _ _ _ Hks Hin) | exact Hc' ]
        | intros x c0 y c0' _; apply patch_constant_count
        | exact Hc ].
    destruct (thread _ ks c) as [[ks' c1]|]; cbn [bind]; [|reflexivity].
    apply at_cursor_app in Hc.
    cbn [repeat_loop].
    rewrite (patch_const_step_unknown _ _ _ _ _ _ _ _ _ _ _ _ _ Ht Hc). reflexivity.
  - destruct IH as [n IH].
    exists (S (Nat.max (foldr Nat.max O (map proto_depth cs)) n)).
    intros depth Hd data pos out c vs mapping src_enc dst_enc Hc.
    destruct depth as [|depth]; [lia|].
    destruct (wf_front_parts _ _ _ _ _ _ _ Hfront) as (Hsrc & Ha & Hb & Hfl & Hszc & Hcd).
    unfold encode_front in Hc. rewrite <- !app_assoc in Hc.
    cbn [ImportPy.process_proto ImportPy.p_pos ImportPy.p_out ImportPy.p_counter
         ImportPy.p_visits].
    patch_front h Hfmt Hc Hsrc Ha Hb Hfl Hszc Hcd.
    rewrite (read_int_cursor h Hfmt _ _ _ _ Hnks Hc). cbn [bind].
    apply at_cursor_app in Hc. rewrite (len_encode_int h Hfmt) in Hc.
    rewrite (write_int_ok h Hfmt _ _ Hnks). cbn [bind].
    unfold for_range. rewrite to_nat_len.
    rewrite (repeat_loop_thread data _ (encode_constant h) (encode_constant h)
               (patch_constant h mapping src_enc dst_enc) constant_strings ks)
      with (rest := encode_int h sizep ++ flat_map (encode_proto h) cs ++ bytes);
      [ | intros x Hin pos' out' c' vs' rest' Hc';
          apply (const_step_encoded h data mapping src_enc dst_enc Hfmt) with (rest := rest');
          [ exact (forallb_elem_of _ _ _ Hks Hin) | exact Hc' ]
        | intros x c0 y c0' _; apply patch_constant_count
        | exact Hc ].
    destruct (thread _ ks c) as [[ks' c1]|]; cbn [bind]; [|reflexivity].
    cbn [ImportPy.p_pos ImportPy.p_out ImportPy.p_counter ImportPy.p_visits].
    apply at_cursor_app in Hc.
    rewrite (read_int_cursor h Hfmt _ _ _ _ Hsizep Hc). cbn [bind].
    apply at_cursor_app in Hc. rewrite (len_encode_int h Hfmt) in Hc.
    rewrite (write_int_ok h Hfmt _ _ Hsizep). cbn [bind].
    replace (Z.to_nat sizep)
      with (length cs + S (Z.to_nat sizep - length cs - 1))%nat
      by (unfold len in Hlt; lia).
    rewrite repeat_loop_add.
    rewrite (repeat_loop_thread data _ (encode_proto h) (encode_proto h)
               (patch_proto h mapping src_enc dst_enc) proto_strings cs)
      with (rest := bytes);
      [ | intros x Hin pos' out' c' vs' rest' Hc';
          apply (process_proto_encoded h data mapping src_enc dst_enc Hfmt) with (rest := rest');
          [ exact (forallb_elem_of _ _ _ Hcs Hin)
          | pose proof (depth_of_list_member cs x Hin); lia
          | exact Hc' ]
        | intros x c0 y c0' _; apply (patch_proto_count _ _ _ _ (proto_depth x)); lia
        | exact Hc ].
    destruct (thread _ cs c1) as [[cs' c2]|]; cbn [bind]; [|reflexivity].
    apply at_cursor_app in Hc.
    cbn [repeat_loop].
    specialize (IH depth ltac:(lia) data _ (out ++ encode_lstring h (normalize_lstring src)
                 ++ encode_int h a ++ encode_int h b ++ flags ++ encode_int h szc ++ cd
                 ++ encode_int h (len ks) ++ flat_map (encode_constant h) ks'
                 ++ encode_int h sizep ++ flat_map (encode_proto h) cs')
                 c2 (vs ++ number_from c (flat_map constant_strings ks)
                     ++ number_from c1 (flat_map proto_strings cs))
                 mapping src_enc dst_enc Hc).
    rewrite <- !app_assoc.
    destruct (ImportPy.process_proto _ _ _ _ _ _ _ _ _ depth _); [discriminate IH|reflexivity].
Qed.
End unknown_tag.

Section unknown_tag.
Variables (h : header).
Hypothesis (Hfmt : wf_format h = true).

Lemma unknown_tag_extract bs :
  unknown_tag_proto h bs ->
  exists n, forall depth, (n <= depth)%nat ->
    forall data pos out c encoding,
      at_cursor data pos bs ->
      ExtractPy.process_proto data (h_endian h) (h_int_size h)
        (h_size_t_size h) (h_instr_size h) (h_number_size h)
        encoding depth (ExtractPy.mk_estate pos out c)
      = Err (ValueError UnknownConstantType).
Proof.
  induction 1 as [src a b flags szc cd sizek ks t rest Hfront Hsizek Hks Hlt Ht
                 |src a b flags szc cd ks sizep cs bytes Hfront Hnks Hks Hsizep Hcs Hlt Hbad IH].
  - exists 1%nat. intros depth Hd data pos out c encoding Hc.
    destruct depth as [|depth]; [lia|].
    destruct (wf_front_parts _ _ _ _ _ _ _ Hfront) as (Hsrc & Ha & Hb & Hfl & Hszc & Hcd).
    unfold encode_front in Hc. rewrite <- !app_assoc in Hc.
    cbn [ExtractPy.process_proto ExtractPy.e_pos ExtractPy.e_out ExtractPy.e_counter].
    extract_front h Hfmt Hc Hsrc Ha Hb Hfl Hszc Hcd.
    rewrite (read_int_cursor h Hfmt _ _ _ _ Hsizek Hc). cbn [bind].
    apply at_cursor_app in Hc. rewrite (len_encode_int h Hfmt) in Hc.
    unfold for_range.
    replace (Z.to_nat sizek)
      with (length ks + S (Z.to_nat sizek - length ks - 1))%nat
      by (unfold len in Hlt; lia).
    rewrite repeat_loop_add.
    rewrite (repeat_loop_lines data encoding _ (encode_constant h) constant_strings ks)
      with (rest := t :: rest);
      [ | intros x Hin pos' out' c' rest' Hc';
          apply (extract_const_step_encoded h data encoding Hfmt) with (rest := rest');
          [ exact (forallb_elem_of _ _ _ Hks Hin) | exact Hc' ]
        | exact Hc ].
    cbn [bind]. apply at_cursor_app in Hc.
    cbn [repeat_loop].
    rewrite (extract_const_step_unknown _ _ _ _ _ _ _ _ _ _ Ht Hc). reflexivity.
  - destruct IH as [n IH].
    exists (S (Nat.max (foldr Nat.max O (map proto_depth cs)) n)).
    intros depth Hd data pos out c encoding Hc.
    destruct depth as [|depth]; [lia|].
    destruct (wf_front_parts _ _ _ _ _ _ _ Hfront) as (Hsrc & Ha & Hb & Hfl & Hszc & Hcd).
    unfold encode_front in Hc. rewrite <- !app_assoc in Hc.
    cbn [ExtractPy.process_proto ExtractPy.e_pos ExtractPy.e_out ExtractPy.e_counter].
    extract_front h Hfmt Hc Hsrc Ha Hb Hfl Hszc Hcd.
    rewrite (read_int_cursor h Hfmt _ _ _ _ Hnks Hc). cbn [bind].
    apply at_cursor_app in Hc. rewrite (len_encode_int h Hfmt) in Hc.
    unfold for_range. rewrite to_nat_len.
    rewrite (repeat_loop_lines data encoding _ (encode_constant h) constant_strings ks)
      with (rest := encode_int h sizep ++ flat_map (encode_proto h) cs ++ bytes);
      [ | intros x Hin pos' out' c' rest' Hc';
          apply (extract_const_step_encoded h data encoding Hfmt) with (rest := rest');
          [ exact (forallb_elem_of _ _ _ Hks Hin) | exact Hc' ]
        | exact Hc ].
    cbn [bind ExtractPy.e_pos ExtractPy.e_out ExtractPy.e_counter].
    apply at_cursor_app in Hc.
    rewrite (read_int_cursor h Hfmt _ _ _ _ Hsizep Hc). cbn [bind].
    apply at_cursor_app in Hc. rewrite (len_encode_int h Hfmt) in Hc.
    replace (Z.to_nat sizep)
      with (length cs + S (Z.to_nat sizep - length cs - 1))%nat
      by (unfold len in Hlt; lia).
    rewrite repeat_loop_add.
    rewrite (repeat_loop_lines data encoding _ (encode_proto h) proto_strings cs)
      with (rest := bytes);
      [ | intros x Hin pos' out' c' rest' Hc';
          apply (extract_process_proto_encoded h data encoding Hfmt) with (rest := rest');
          [ exact (forallb_elem_of _ _ _ Hcs Hin)
          | pose proof (depth_of_list_member cs x Hin); lia
          | exact Hc' ]
        | exact Hc ].
    cbn [bind]. apply at_cursor_app in Hc.
    cbn [repeat_loop].
    rewrite (IH depth ltac:(lia) data _ _ _ encoding Hc). reflexivity.
Qed.
End unknown_tag.

(** C6 (amended). A chunk in which the traversal meets a constant with a
    tag other than 0, 1, 3 or 4: extraction raises; [patch_file] with a
    mapping that is not empty writes nothing; with the empty mapping it
    copies the file. *)
Theorem unknown_tag_fatal v f i h bs limit encoding mapping src_enc dst_enc :
  wf_format h = true -> byte_sized h = true ->
  unknown_tag_proto h bs ->
  (exists ex, ExtractPy.extract_strings limit (encode_header v f i h ++ bs) encoding
              = Err ex)
  /\ (mapping <> ∅ ->
      ImportPy.patch_file limit (encode_header v f i h ++ bs) mapping src_enc dst_enc
      = ImportPy.NotWritten
      \/ exists ex,
        ImportPy.patch_file limit (encode_header v f i h ++ bs) mapping src_enc dst_enc
        = ImportPy.Raised ex)
  /\ ImportPy.patch_file limit (encode_header v f i h ++ bs) ∅ src_enc dst_enc
     = ImportPy.Written (encode_header v f i h ++ bs).
Proof.
  intros Hfmt Hb Hbad. split; [|split].
  - destruct (unknown_tag_extract h Hfmt bs Hbad) as [n Hn].
    unfold ExtractPy.extract_strings.
    rewrite (read_header_encoded _ _ _ _ _ Hb). cbn [bind].
    destruct (ExtractPy.process_proto _ _ _ _ _ _ _ limit _) as [st|ex] eqn:E;
      cbn [bind]; [|eauto].
    apply (extract_depth_mono _ _ _ _ _ _ _ limit (Nat.max limit n)) in E; [|lia].
    rewrite (Hn (Nat.max limit n) ltac:(lia) _ 12 [] (-1) encoding
               (at_cursor_body v f i h bs)) in E.
    discriminate E.
  - intros Hne. destruct (unknown_tag_patch h Hfmt bs Hbad) as [n Hn].
    unfold ImportPy.patch_file. rewrite bool_decide_eq_false_2 by exact Hne.
    unfold ImportPy.patch_walk.
    rewrite (read_header_encoded _ _ _ _ _ Hb), header_slice.
    destruct (ImportPy.process_proto _ _ _ _ _ _ _ _ _ limit _) as [st|ex] eqn:E.
    + apply (patch_depth_mono _ _ _ _ _ _ _ _ _ limit (Nat.max limit n)) in E; [|lia].
      specialize (Hn (Nat.max limit n) ltac:(lia) _ 12 (encode_header v f i h) (-1) []
                    mapping src_enc dst_enc (at_cursor_body v f i h bs)).
      rewrite E in Hn. discriminate Hn.
    + destruct ex; eauto.
  - unfold ImportPy.patch_file. rewrite bool_decide_eq_true_2 by reflexivity. reflexivity.
Qed.

(** ** Indices count from 0 *)

Lemma repeat_loop_inv {S} (I : S -> Prop) (step : S -> result S) (n : nat) :
  (forall s s', I s -> step s = Ok s' -> I s') ->
  forall s s', I s -> repeat_loop n step s = Ok s' -> I s'.
Proof.
  intros Hstep. induction n as [|n IH]; intros s s' Hs; cbn [repeat_loop].
  - intros [= <-]. exact Hs.
  - destruct (step s) as [t|] eqn:E; cbn [bind]; [|discriminate].
    apply IH. eapply Hstep; eauto.
Qed.

Lemma seqZ_snoc (c : Z) : -1 <= c -> seqZ 0 (c + 1 + 1) = seqZ 0 (c + 1) ++ [c + 1].
Proof.
  intros Hc. rewrite seqZ_app by lia. reflexivity.
Qed.

Lemma numbered_lines_next out c text :
  numbered_lines out c ->
  numbered_lines
    ((out ++ [ExtractPy.mk_line ExtractPy.White (c + 1) text])
       ++ [ExtractPy.mk_line ExtractPy.Black (c + 1) text]) (c + 1).
Proof.
  intros [Hc Ho]. split; [lia|].
  rewrite !map_app, Ho, seqZ_snoc by lia.
  rewrite flat_map_app, <- app_assoc. reflexivity.
Qed.

Lemma numbered_visits_next vs c raw :
  numbered_visits vs c -> numbered_visits (vs ++ [(c + 1, raw)]) (c + 1).
Proof.
  intros [Hc Ho]. split; [lia|].
  rewrite map_app, Ho, seqZ_snoc by lia. reflexivity.
Qed.

Ltac inv_step :=
  match goal with
  | |- context [bind ?op _] =>
      lazymatch op with
      | for_range _ _ _ => fail
      | bind _ _ => fail
      | _ =>
          let v := fresh "v" in
          destruct op as [v|?];
          [ repeat match goal with x : (_ * _)%type |- _ => destruct x end; cbn [bind]
          | cbn [bind]; discriminate ]
      end
  end.

Section indices.
Variables (data : list byte) (e : endian).
Variables (int_size size_t_size instr_size number_size : Z).
Variables (mapping : gmap Z (list Z)) (encoding src_enc dst_enc : codec).

Lemma extract_const_step_numbered st st' :
  lines_numbered st ->
  ExtractPy.const_step data e size_t_size number_size encoding st = Ok st' -> lines_numbered st'.
Proof.
  unfold lines_numbered. destruct st as [pos out c]. intros HI.
  unfold ExtractPy.const_step. cbn [ExtractPy.e_pos ExtractPy.e_out ExtractPy.e_counter] in *.
  destruct (py_index data pos) as [t|]; cbn [bind]; [|discriminate].
  destruct (byte_to_Z t =? 0); [intros [= <-]; exact HI|].
  destruct (byte_to_Z t =? 1); [intros [= <-]; exact HI|].
  destruct (byte_to_Z t =? 3); [intros [= <-]; exact HI|].
  destruct (byte_to_Z t =? 4); [|discriminate].
  destruct (ExtractPy.read_lstring _ _ _ _) as [[[[s p] rp] rl]|]; cbn [bind]; [|discriminate].
  destruct s as [raw|]; intros [= <-]; cbn [ExtractPy.e_out ExtractPy.e_counter].
  - apply numbered_lines_next. exact HI.
  - exact HI.
Qed.

Lemma patch_const_step_numbered st st' :
  visits_numbered st ->
  ImportPy.const_step data e size_t_size number_size mapping src_enc dst_enc st = Ok st' ->
  visits_numbered st'.
Proof.
  unfold visits_numbered. destruct st as [pos out c vs]. intros HI.
  unfold ImportPy.const_step.
  cbn [ImportPy.p_pos ImportPy.p_out ImportPy.p_counter ImportPy.p_visits] in *.
  destruct (py_index data pos) as [t|]; cbn [bind]; [|discriminate].
  destruct (byte_to_Z t =? 0); [intros [= <-]; exact HI|].
  destruct (byte_to_Z t =? 1); [intros [= <-]; exact HI|].
  destruct (byte_to_Z t =? 3); [intros [= <-]; exact HI|].
  destruct (byte_to_Z t =? 4); [|discriminate].
  destruct (read_lstring _ _ _ _) as [[s p]|]; cbn [bind]; [|discriminate].
  destruct s as [raw|].
  - destruct (ImportPy.patch_const_string _ _ _ _ _); cbn [bind]; [|discriminate].
    destruct (write_lstring _ _ _ _); cbn [bind]; [|discriminate].
    intros [= <-]. cbn [ImportPy.p_counter ImportPy.p_visits].
    apply numbered_visits_next. exact HI.
  - destruct (write_lstring _ _ _ _); cbn [bind]; [|discriminate].
    intros [= <-]. exact HI.
Qed.

Lemma extract_numbered depth :
  forall st st', lines_numbered st ->
    ExtractPy.process_proto data e int_size size_t_size instr_size number_size
      encoding depth st = Ok st' -> lines_numbered st'.
Proof.
  induction depth as [|depth IH]; intros st st' HI; [discriminate|].
  cbn [ExtractPy.process_proto]. unfold lines_numbered in HI.
  repeat inv_step.
  match goal with
  | |- context [bind (for_range ?n ?step ?s) _] =>
      destruct (for_range n step s) as [s1|] eqn:L1; cbn [bind]; [|discriminate]
  end.
  apply (repeat_loop_inv lines_numbered) in L1; [|apply extract_const_step_numbered|exact HI].
  repeat inv_step.
  match goal with
  | |- context [bind (for_range ?n ?step ?s) _] =>
      destruct (for_range n step s) as [s2|] eqn:L2; cbn [bind]; [|discriminate]
  end.
  apply (repeat_loop_inv lines_numbered) in L2; [|apply IH|exact L1].
  repeat inv_step.
  match goal with
  | |- context [bind (for_range ?n ?step ?s) _] =>
      destruct (for_range n step s) as [s3|] eqn:L3; cbn [bind]; [|discriminate]
  end.
  apply (repeat_loop_inv lines_numbered) in L3; [| |exact L2].
  2:{ intros s s' Hs. unfold ExtractPy.locvar_step.
      destruct (ExtractPy.read_lstring _ _ _ _) as [[[[? ?] ?] ?]|]; cbn [bind]; [|discriminate].
      intros [= <-]. exact Hs. }
  repeat inv_step.
  intros L4.
  apply (repeat_loop_inv lines_numbered) in L4; [exact L4| |exact L3].
  intros s s' Hs. unfold ExtractPy.upvalue_step.
  destruct (ExtractPy.read_lstring _ _ _ _) as [[[[? ?] ?] ?]|]; cbn [bind]; [|discriminate].
  intros [= <-]. exact Hs.
Qed.

Lemma patch_numbered depth :
  forall st st', visits_numbered st ->
    ImportPy.process_proto data e int_size size_t_size instr_size number_size
      mapping src_enc dst_enc depth st = Ok st' -> visits_numbered st'.
Proof.
  induction depth as [|depth IH]; intros st st' HI; [discriminate|].
  cbn [ImportPy.process_proto]. unfold visits_numbered in HI.
  repeat inv_step.
  match goal with
  | |- context [bind (for_range ?n ?step ?s) _] =>
      destruct (for_range n step s) as [s1|] eqn:L1; cbn [bind]; [|discriminate]
  end.
  apply (repeat_loop_inv visits_numbered) in L1; [|apply patch_const_step_numbered|exact HI].
  repeat inv_step.
  match goal with
  | |- context [bind (for_range ?n ?step ?s) _] =>
      destruct (for_range n step s) as [s2|] eqn:L2; cbn [bind]; [|discriminate]
  end.
  apply (repeat_loop_inv visits_numbered) in L2; [|apply IH|exact L1].
  repeat inv_step.
  match goal with
  | |- context [bind (for_range ?n ?step ?s) _] =>
      destruct (for_range n step s) as [s3|] eqn:L3; cbn [bind]; [|discriminate]
  end.
  apply (repeat_loop_inv visits_numbered) in L3; [| |exact L2].
  2:{ intros s s' Hs. unfold ImportPy.locvar_step.
      repeat inv_step. intros [= <-]. exact Hs. }
  repeat inv_step.
  intros L4.
  apply (repeat_loop_inv visits_numbered) in L4; [exact L4| |exact L3].
  intros s s' Hs. unfold ImportPy.upvalue_step.
  repeat inv_step. intros [= <-]. exact Hs.
Qed.
End indices.

(** ** Index stability and numbering *)

Lemma record_indices_lines_of enc vs : record_indices (lines_of enc vs) = map fst vs.
Proof.
  unfold record_indices, lines_of.
  induction vs as [|[idx raw] vs IH]; [reflexivity|].
  cbn [flat_map app map fst ExtractPy.l_mark ExtractPy.l_index]. rewrite IH. reflexivity.
Qed.

(** C2. On any input on which both walkers complete, the records of the
    extractor are the rendering of the visitor calls of the patcher, in
    order: the same indices, as many of them. *)
Theorem index_stability data e int_size size_t_size instr_size number_size limit
    mapping encoding src_enc dst_enc header_bytes se sp :
  ExtractPy.process_proto data e int_size size_t_size instr_size number_size
    encoding limit (ExtractPy.mk_estate 12 [] (-1)) = Ok se ->
  ImportPy.process_proto data e int_size size_t_size instr_size number_size
    mapping src_enc dst_enc limit (ImportPy.mk_pstate 12 header_bytes (-1) []) = Ok sp ->
  ExtractPy.e_out se = lines_of encoding (ImportPy.p_visits sp)
  /\ record_indices (ExtractPy.e_out se) = map fst (ImportPy.p_visits sp).
Proof.
  intros He Hp.
  assert (R : in_step encoding se sp).
  { eapply process_proto_lockstep; [|exact He|exact Hp]. repeat split. }
  destruct R as (_ & _ & Ho). split; [exact Ho|].
  rewrite Ho. apply record_indices_lines_of.
Qed.

Lemma index_stability_witness :
  exists se sp,
    ExtractPy.process_proto (Examples.chunk_of Examples.absent_then_hello)
      Little 4 4 4 8 latin1 10 (ExtractPy.mk_estate 12 [] (-1)) = Ok se
    /\ ImportPy.process_proto (Examples.chunk_of Examples.absent_then_hello)
         Little 4 4 4 8 (<[0 := [66; 111; 110]]> ∅) latin1 latin1 10
         (ImportPy.mk_pstate 12 (encode_header x51 x00 x00 Examples.fmt) (-1) []) = Ok sp
    /\ ExtractPy.e_out se = lines_of latin1 (ImportPy.p_visits sp)
    /\ record_indices (ExtractPy.e_out se) = map fst (ImportPy.p_visits sp).
Proof.
  eexists _, _. split; [vm_compute; reflexivity|]. split; [vm_compute; reflexivity|].
  apply (index_stability (Examples.chunk_of Examples.absent_then_hello)
           Little 4 4 4 8 10 (<[0 := [66; 111; 110]]> ∅) latin1 latin1 latin1
           (encode_header x51 x00 x00 Examples.fmt));
    vm_compute; reflexivity.
Defined.

(** C3 (amended). The counter starts at -1 and the first string the
    traversal meets gets index 0: whenever a walk from the initial state
    of [main] or of [patch_file] completes, the indices it assigned are
    0, 1, ..., counter, in this order. *)
Theorem indices_from_zero data e int_size size_t_size instr_size number_size limit
    mapping encoding src_enc dst_enc header_bytes :
  (forall se,
     ExtractPy.process_proto data e int_size size_t_size instr_size number_size
       encoding limit (ExtractPy.mk_estate 12 [] (-1)) = Ok se ->
     numbered_lines (ExtractPy.e_out se) (ExtractPy.e_counter se))
  /\ (forall sp,
        ImportPy.process_proto data e int_size size_t_size instr_size number_size
          mapping src_enc dst_enc limit
          (ImportPy.mk_pstate 12 header_bytes (-1) []) = Ok sp ->
        numbered_visits (ImportPy.p_visits sp) (ImportPy.p_counter sp))
  /\ (forall lines,
        ExtractPy.extract_strings limit data encoding = Ok lines ->
        exists counter, numbered_lines lines counter).
Proof.
  split; [|split].
  - intros se H. eapply extract_numbered; [|exact H].
    split; [cbn; lia | reflexivity].
  - intros sp H. eapply patch_numbered; [|exact H].
    split; [cbn; lia | reflexivity].
  - intros lines. unfold ExtractPy.extract_strings.
    destruct (read_header data) as [hd|]; cbn [bind]; [|discriminate].
    destruct (ExtractPy.process_proto _ _ _ _ _ _ _ _ _) as [se|] eqn:H; cbn [bind];
      [|discriminate].
    intros [= <-]. exists (ExtractPy.e_counter se).
    eapply extract_numbered; [|exact H].
    split; [cbn; lia | reflexivity].
Qed.

Lemma indices_from_zero_witness :
  exists se,
    ExtractPy.process_proto (Examples.chunk_of Examples.greeting)
      Little 4 4 4 8 latin1 10 (ExtractPy.mk_estate 12 [] (-1)) = Ok se
    /\ numbered_lines (ExtractPy.e_out se) (ExtractPy.e_counter se)
    /\ ExtractPy.e_counter se = 0.
Proof.
  eexists. split; [vm_compute; reflexivity|]. split; [|reflexivity].
  apply (proj1 (indices_from_zero (Examples.chunk_of Examples.greeting)
                  Little 4 4 4 8 10 ∅ latin1 latin1 latin1 [])).
  vm_compute; reflexivity.
Defined.

(** The spec's example chunk: its one string gets index 0, not 1. *)
Lemma first_index_is_not_one :
  ExtractPy.extract_strings 10 (Examples.chunk_of Examples.greeting) latin1
  = Ok [ExtractPy.mk_line ExtractPy.White 0 Examples.hello_text;
        ExtractPy.mk_line ExtractPy.Black 0 Examples.hello_text]
  /\ ~ (exists l rest,
          ExtractPy.extract_strings 10 (Examples.chunk_of Examples.greeting) latin1
          = Ok (l :: rest) /\ ExtractPy.l_index l = 1).
Proof.
  assert (E : ExtractPy.extract_strings 10 (Examples.chunk_of Examples.greeting) latin1
              = Ok [ExtractPy.mk_line ExtractPy.White 0 Examples.hello_text;
                    ExtractPy.mk_line ExtractPy.Black 0 Examples.hello_text])
    by (vm_compute; reflexivity).
  split; [exact E|].
  intros (l & rest & H & Hi). rewrite E in H. injection H as <- _.
  discriminate Hi.
Qed.

(** ** Absent string constants *)

Lemma thread_preserves {A B} (f : A -> Z -> result (A * Z)) (F : A -> B) (l : list A) :
  (forall x c y c', x ∈ l -> f x c = Ok (y, c') -> F y = F x) ->
  forall c ys c', thread f l c = Ok (ys, c') -> map F ys = map F l.
Proof.
  induction l as [|x l IH]; intros Hf c ys c'; cbn [thread].
  - intros [= <- <-]. reflexivity.
  - destruct (f x c) as [[y c1]|] eqn:Hx; cbn [bind]; [|discriminate].
    fold (thread f). destruct (thread f l c1) as [[ys1 c2]|] eqn:Hl; cbn [bind];
      [|discriminate].
    intros [= <- <-]. cbn [map]. f_equal.
    + eapply Hf; [apply list_elem_of_here|exact Hx].
    + eapply IH; [|exact Hl]. intros; eapply Hf; eauto using list_elem_of_further.
Qed.

Lemma patch_constant_absent h mapping src_enc dst_enc k c k' c' :
  patch_constant h mapping src_enc dst_enc k c = Ok (k', c') ->
  is_absent k' = is_absent k.
Proof.
  destruct k as [|b|payload|[[raw t]|]]; cbn [patch_constant];
    try (intros [= <- <-]; reflexivity).
  destruct (ImportPy.patch_const_string _ _ _ _ _) as [bs|]; cbn [bind]; [|discriminate].
  destruct (size_ok _ _); [|discriminate].
  intros [= <- <-]. reflexivity.
Qed.

Lemma patch_proto_absent h mapping src_enc dst_enc n :
  forall p c p' c', (proto_depth p <= n)%nat ->
    patch_proto h mapping src_enc dst_enc p c = Ok (p', c') ->
    absent_shape p' = absent_shape p.
Proof.
  induction n as [|n IH]; intros p c p' c' Hd.
  { destruct p; cbn [proto_depth] in Hd. lia. }
  pose proof (proto_depth_child p) as Hchild.
  destruct p as [src a b flags szc cd ks cs szl li lvs ups].
  cbn [children] in Hchild.
  cbn [patch_proto constants children source_name line_defined last_line_defined
       flag_block sizecode code sizelineinfo lineinfo locvars upvalues].
  destruct (thread _ ks c) as [[ks' c1]|] eqn:Eks; cbn [bind]; [|discriminate].
  destruct (thread _ cs c1) as [[cs' c2]|] eqn:Ecs; cbn [bind]; [|discriminate].
  intros [= <- <-]. cbn [absent_shape constants children].
  f_equal.
  - eapply thread_preserves; [|exact Eks].
    intros x c0 y c0' _. apply patch_constant_absent.
  - eapply thread_preserves; [|exact Ecs].
    intros x c0 y c0' Hin. apply IH.
    specialize (Hchild x Hin). cbn [proto_depth children] in Hchild, Hd |- *. lia.
Qed.

Lemma int_ok_shorter h (n m : Z) : 0 <= m <= n -> int_ok h n = true -> int_ok h m = true.
Proof.
  unfold int_ok. intros Hm H. apply andb_prop in H as [Hl Hu].
  apply Z.leb_le in Hl. apply Z.ltb_lt in Hu.
  apply andb_true_intro. split; [apply Z.leb_le | apply Z.ltb_lt]; [|lia].
  pose proof (Z.pow_nonneg 2 (8 * h_int_size h - 1) ltac:(lia)). lia.
Qed.

Lemma len_filter_le {A} (P : A -> bool) (l : list A) : 0 <= len (List.filter P l) <= len l.
Proof.
  unfold len. pose proof (List.filter_length_le P l). lia.
Qed.

Lemma forallb_filter {A} (W P : A -> bool) (l : list A) :
  forallb W l = true -> forallb W (List.filter P l) = true.
Proof.
  induction l as [|x l IH]; cbn [forallb List.filter]; [reflexivity|].
  intros H. apply andb_prop in H as [Hx Hl].
  destruct (P x); cbn [forallb]; [rewrite Hx|]; auto.
Qed.

Lemma constant_strings_present ks :
  flat_map constant_strings (List.filter (fun k => negb (is_absent k)) ks)
  = flat_map constant_strings ks.
Proof.
  induction ks as [|k ks IH]; [reflexivity|].
  cbn [List.filter flat_map].
  destruct k as [|b|payload|[[raw t]|]]; cbn [is_absent negb flat_map constant_strings app];
    rewrite IH; reflexivity.
Qed.

Lemma flat_map_same {A B} (g g' : A -> list B) (N : A -> A) (l : list A) :
  (forall x, x ∈ l -> g' (N x) = g x) -> flat_map g' (map N l) = flat_map g l.
Proof.
  induction l as [|x l IH]; intros H; [reflexivity|].
  cbn [map flat_map]. rewrite H by apply list_elem_of_here.
  rewrite IH; [reflexivity|]. intros; apply H. apply list_elem_of_further. assumption.
Qed.

Lemma map_same {A B} (g : A -> B) (N : A -> A) (l : list A) :
  (forall x, x ∈ l -> g (N x) = g x) -> map g (map N l) = map g l.
Proof.
  induction l as [|x l IH]; intros H; [reflexivity|].
  cbn [map]. rewrite H by apply list_elem_of_here.
  rewrite IH; [reflexivity|]. intros; apply H. apply list_elem_of_further. assumption.
Qed.

Lemma forallb_map_same {A} (W : A -> bool) (N : A -> A) (l : list A) :
  (forall x, x ∈ l -> W x = true -> W (N x) = true) ->
  forallb W l = true -> forallb W (map N l) = true.
Proof.
  induction l as [|x l IH]; intros H; [reflexivity|].
  cbn [map forallb]. intros Hl. apply andb_prop in Hl as [Hx Hl].
  rewrite (H x (list_elem_of_here _ _) Hx).
  rewrite IH; [reflexivity| |exact Hl].
  intros; apply H; [apply list_elem_of_further|]; assumption.
Qed.

(** Removing the absent string constants leaves a well-formed chunk of
    the same depth with the same present strings. *)
Lemma without_absent_same h n :
  forall p, (proto_depth p <= n)%nat ->
    wf_proto h p = true ->
    wf_proto h (without_absent p) = true
    /\ proto_depth (without_absent p) = proto_depth p
    /\ proto_strings (without_absent p) = proto_strings p.
Proof.
  induction n as [|n IH]; intros p Hd Hwf.
  { destruct p; cbn [proto_depth] in Hd. lia. }
  pose proof (proto_depth_child p) as Hchild.
  destruct p as [src a b flags szc cd ks cs szl li lvs ups].
  cbn [children] in Hchild.
  cbn [wf_proto source_name line_defined last_line_defined flag_block sizecode
       code constants children sizelineinfo lineinfo locvars upvalues] in Hwf.
  apply andb_prop in Hwf as [Hwf Hups]. apply andb_prop in Hwf as [Hwf Hnup].
  apply andb_prop in Hwf as [Hwf Hlvs]. apply andb_prop in Hwf as [Hwf Hnlv].
  apply andb_prop in Hwf as [Hwf Hli]. apply andb_prop in Hwf as [Hwf Hszl].
  apply andb_prop in Hwf as [Hwf Hcs]. apply andb_prop in Hwf as [Hwf Hncs].
  apply andb_prop in Hwf as [Hwf Hks]. apply andb_prop in Hwf as [Hwf Hnks].
  assert (Hsub : forall x, x ∈ cs ->
            wf_proto h (without_absent x) = true
            /\ proto_depth (without_absent x) = proto_depth x
            /\ proto_strings (without_absent x) = proto_strings x).
  { intros x Hin. apply IH.
    - specialize (Hchild x Hin). cbn [proto_depth children] in Hchild, Hd |- *. lia.
    - exact (forallb_elem_of _ _ _ Hcs Hin). }
  split; [|split].
  - cbn [without_absent wf_proto source_name line_defined last_line_defined flag_block
         sizecode code constants children sizelineinfo lineinfo locvars upvalues].
    rewrite Hwf, Hszl, Hli, Hnlv, Hlvs, Hnup, Hups.
    rewrite (int_ok_shorter h _ _ (len_filter_le _ ks) Hnks).
    rewrite (forallb_filter _ _ _ Hks).
    replace (len (map without_absent cs)) with (len cs)
      by (unfold len; rewrite length_map; reflexivity).
    rewrite Hncs.
    rewrite (forallb_map_same (wf_proto h) without_absent cs); [reflexivity| |exact Hcs].
    intros x Hin _. apply (Hsub x Hin).
  - cbn [without_absent proto_depth children]. f_equal. f_equal.
    apply map_same. intros x Hin. apply (Hsub x Hin).
  - cbn [without_absent proto_strings constants children].
    rewrite constant_strings_present. f_equal.
    apply flat_map_same. intros x Hin. apply (Hsub x Hin).
Qed.

(** C4 (amended). A string constant with stored length 0 takes no index
    and is not passed to the visitor, wherever it stands in a well-formed
    chunk: the records of the extractor and the visitor calls of the
    patcher are those of the present strings, numbered from 0 in
    traversal order, and extraction gives the same records for the chunk
    without its absent constants.  The patcher writes a chunk with the
    absent constants at the same places.  When a constant table starts
    with an absent string followed by a present one, the present one gets
    index 0, in both walkers. *)
Theorem absent_string_takes_no_index v f i h p limit mapping encoding src_enc dst_enc :
  wf_format h = true -> byte_sized h = true -> wf_proto h p = true ->
  (proto_depth p <= limit)%nat ->
  ExtractPy.extract_strings limit (encode_chunk v f i h p) encoding
  = Ok (lines_of encoding (number_from (-1) (proto_strings p)))
  /\ ExtractPy.extract_strings limit (encode_chunk v f i h (without_absent p)) encoding
     = ExtractPy.extract_strings limit (encode_chunk v f i h p) encoding
  /\ (forall sp,
        ImportPy.process_proto (encode_chunk v f i h p) (h_endian h) (h_int_size h)
          (h_size_t_size h) (h_instr_size h) (h_number_size h)
          mapping src_enc dst_enc limit
          (ImportPy.mk_pstate 12 (encode_header v f i h) (-1) []) = Ok sp ->
        ImportPy.p_visits sp = number_from (-1) (proto_strings p)
        /\ ImportPy.p_counter sp = len (proto_strings p) - 1
        /\ exists p',
             ImportPy.p_out sp = encode_chunk v f i h p'
             /\ absent_shape p' = absent_shape p)
  /\ (forall out,
        ImportPy.patch_file limit (encode_chunk v f i h p) mapping src_enc dst_enc
        = ImportPy.Written out ->
        exists p',
          out = encode_chunk v f i h p'
          /\ absent_shape p' = absent_shape p
          /\ (mapping <> ∅ ->
              p' = normalize_proto
                     (substitute (patched mapping src_enc dst_enc) p (-1))))
  /\ (forall raw t ks,
        constants p = KString None :: KString (Some (raw, t)) :: ks ->
        (exists more,
           ExtractPy.extract_strings limit (encode_chunk v f i h p) encoding
           = Ok (ExtractPy.mk_line ExtractPy.White 0 (display_text encoding raw)
                 :: ExtractPy.mk_line ExtractPy.Black 0 (display_text encoding raw)
                 :: more))
        /\ (forall sp,
              ImportPy.process_proto (encode_chunk v f i h p) (h_endian h) (h_int_size h)
                (h_size_t_size h) (h_instr_size h) (h_number_size h)
                mapping src_enc dst_enc limit
                (ImportPy.mk_pstate 12 (encode_header v f i h) (-1) []) = Ok sp ->
              exists more, ImportPy.p_visits sp = (0, raw) :: more)).
Proof.
  intros Hfmt Hb Hwf Hd.
  pose proof (extract_strings_encoded v f i h p limit Hfmt Hb Hwf Hd encoding) as Hex.
  assert (Hrun : forall sp,
            ImportPy.process_proto (encode_chunk v f i h p) (h_endian h) (h_int_size h)
              (h_size_t_size h) (h_instr_size h) (h_number_size h)
              mapping src_enc dst_enc limit
              (ImportPy.mk_pstate 12 (encode_header v f i h) (-1) []) = Ok sp ->
            ImportPy.p_visits sp = number_from (-1) (proto_strings p)
            /\ ImportPy.p_counter sp = len (proto_strings p) - 1
            /\ exists p',
                 ImportPy.p_out sp = encode_chunk v f i h p'
                 /\ absent_shape p' = absent_shape p).
  { intros sp Hsp. unfold encode_chunk in Hsp.
    rewrite (process_proto_encoded h _ mapping src_enc dst_enc Hfmt limit p 12 _ (-1) [] []
               Hwf Hd (at_cursor_chunk v f i h p)) in Hsp.
    destruct (patch_proto h mapping src_enc dst_enc p (-1)) as [[p' c']|] eqn:E;
      cbn [bind] in Hsp; [|discriminate].
    injection Hsp as <-. cbn [ImportPy.p_visits ImportPy.p_counter ImportPy.p_out app].
    split; [reflexivity|]. split.
    - apply (patch_proto_count h mapping src_enc dst_enc (proto_depth p)) in E; lia.
    - exists p'. split; [reflexivity|].
      apply (patch_proto_absent h mapping src_enc dst_enc (proto_depth p) p (-1) p' c');
        [lia|exact E]. }
  split; [exact Hex|]. split; [|split; [exact Hrun|split]].
  - destruct (without_absent_same h (proto_depth p) p (Nat.le_refl _) Hwf)
      as (Hwf' & Hd' & Hs').
    rewrite Hex.
    rewrite (extract_strings_encoded v f i h (without_absent p) limit Hfmt Hb Hwf'
               ltac:(lia) encoding), Hs'.
    reflexivity.
  - intros out. unfold ImportPy.patch_file. case_bool_decide as Hm.
    + intros [= <-]. exists p. split; [reflexivity|]. split; [reflexivity|].
      intros Hne. contradiction.
    + rewrite (patch_walk_encoded v f i h p limit Hfmt Hb Hwf Hd).
      destruct (patch_proto h mapping src_enc dst_enc p (-1)) as [[p' c']|ex] eqn:E.
      * intros [= <-]. exists p'. split; [reflexivity|]. split.
        -- apply (patch_proto_absent h mapping src_enc dst_enc (proto_depth p) p (-1)
                    p' c'); [lia|exact E].
        -- intros _.
           apply (patch_proto_normalized _ _ _ _ (proto_depth p)) in E as [-> _];
             [reflexivity|lia].
      * destruct ex; discriminate.
  - intros raw t ks Hks.
    assert (Hs : exists more, number_from (-1) (proto_strings p) = (0, raw) :: more).
    { destruct p as [src a b flags szc cd ks0 cs szl li lvs ups].
      cbn [constants] in Hks. subst ks0.
      cbn [proto_strings constants children flat_map constant_strings app number_from].
      eexists. reflexivity. }
    destruct Hs as [more Hs]. split.
    + rewrite Hex, Hs. cbn [lines_of flat_map app]. eexists. reflexivity.
    + intros sp Hsp. destruct (Hrun sp Hsp) as (Hv & _). rewrite Hv, Hs. eauto.
Qed.

Lemma absent_string_takes_no_index_witness :
  wf_format Examples.fmt = true /\ byte_sized Examples.fmt = true
  /\ wf_proto Examples.fmt Examples.absent_then_hello = true
  /\ (proto_depth Examples.absent_then_hello <= 10)%nat
  /\ ExtractPy.extract_strings 10 (Examples.chunk_of Examples.absent_then_hello) latin1
     = Ok (lines_of latin1 (number_from (-1) (proto_strings Examples.absent_then_hello)))
  /\ ExtractPy.extract_strings 10 (Examples.chunk_of Examples.greeting) latin1
     = ExtractPy.extract_strings 10 (Examples.chunk_of Examples.absent_then_hello) latin1.
Proof.
  assert (H1 : wf_format Examples.fmt = true) by reflexivity.
  assert (H2 : byte_sized Examples.fmt = true) by reflexivity.
  assert (H3 : wf_proto Examples.fmt Examples.absent_then_hello = true) by (vm_compute; reflexivity).
  assert (H4 : (proto_depth Examples.absent_then_hello <= 10)%nat) by (cbn; lia).
  repeat (split; [assumption|]).
  destruct (absent_string_takes_no_index x51 x00 x00 Examples.fmt
              Examples.absent_then_hello 10 ∅ latin1 latin1 latin1 H1 H2 H3 H4)
    as (E1 & E2 & _).
  split; [exact E1 | exact E2].
Defined.

(** An absent string constant followed by "Hello": "Hello" gets index 0,
    not 2, and the visitor is called once. *)
Lemma absent_string_index_is_not_two :
  ExtractPy.extract_strings 10 (Examples.chunk_of Examples.absent_then_hello) latin1
  = Ok [ExtractPy.mk_line ExtractPy.White 0 Examples.hello_text;
        ExtractPy.mk_line ExtractPy.Black 0 Examples.hello_text]
  /\ (exists sp,
        ImportPy.process_proto (Examples.chunk_of Examples.absent_then_hello)
          Little 4 4 4 8 ∅ latin1 latin1 10
          (ImportPy.mk_pstate 12 (encode_header x51 x00 x00 Examples.fmt) (-1) []) = Ok sp
        /\ ImportPy.p_visits sp = [(0, Examples.hello)])
  /\ ~ (exists lines l,
          ExtractPy.extract_strings 10 (Examples.chunk_of Examples.absent_then_hello) latin1
          = Ok lines /\ l ∈ lines /\ ExtractPy.l_index l = 2).
Proof.
  assert (E : ExtractPy.extract_strings 10 (Examples.chunk_of Examples.absent_then_hello) latin1
              = Ok [ExtractPy.mk_line ExtractPy.White 0 Examples.hello_text;
                    ExtractPy.mk_line ExtractPy.Black 0 Examples.hello_text])
    by (vm_compute; reflexivity).
  split; [exact E|]. split.
  - eexists. split; vm_compute; reflexivity.
  - intros (lines & l & H & Hin & Hi). rewrite E in H. injection H as <-.
    apply elem_of_cons in Hin as [->|Hin]; [discriminate Hi|].
    apply elem_of_cons in Hin as [->|Hin]; [discriminate Hi|].
    inversion Hin.
Qed.

(** ** Width symmetry *)

Lemma codec_format_wf e size : size = 4 \/ size = 8 -> wf_format (codec_format e size) = true.
Proof. intros [-> | ->]; reflexivity. Qed.

Lemma at_cursor_here pre rest : at_cursor (pre ++ rest) (len pre) rest.
Proof. exists pre. split; reflexivity. Qed.

(** C7 (amended). For widths 4 and 8 and both byte orders, reading what
    was written gives the value back: for every signed value of the width
    with [read_int]/[write_int], every unsigned one with
    [read_size_t]/[write_size_t], and every string, absent or present,
    whose length plus one fits the size field. *)
Theorem width_symmetry e size pre rest :
  size = 4 \/ size = 8 ->
  (forall v, - 2 ^ (8 * size - 1) <= v < 2 ^ (8 * size - 1) ->
     exists buf, write_int pre e size v = Ok buf
                 /\ read_int (buf ++ rest) e size (len pre) = Ok (v, len buf))
  /\ (forall v, 0 <= v < 2 ^ (8 * size) ->
        exists buf, write_size_t pre e size v = Ok buf
                    /\ read_size_t (buf ++ rest) e size (len pre) = Ok (v, len buf))
  /\ (forall s, match s with
                | None => True
                | Some bs => len bs + 1 < 2 ^ (8 * size)
                end ->
        exists buf, write_lstring pre e size s = Ok buf
                    /\ read_lstring (buf ++ rest) e size (len pre) = Ok (s, len buf)).
Proof.
  intros Hsize. pose proof (codec_format_wf e size Hsize) as Hfmt.
  split; [|split].
  - intros v Hv.
    assert (Hok : int_ok (codec_format e size) v = true).
    { unfold int_ok. cbn [codec_format h_int_size].
      apply andb_true_intro. split; [apply Z.leb_le | apply Z.ltb_lt]; lia. }
    exists (pre ++ encode_int (codec_format e size) v). split.
    + apply (write_int_ok _ Hfmt _ _ Hok).
    + rewrite <- app_assoc.
      pose proof (read_int_cursor _ Hfmt _ (len pre) v rest Hok (at_cursor_here _ _)) as R.
      cbn [codec_format h_endian h_int_size] in R. rewrite R.
      rewrite len_app, (len_encode_int _ Hfmt). reflexivity.
  - intros v Hv.
    assert (Hok : size_ok (codec_format e size) v = true).
    { unfold size_ok. cbn [codec_format h_size_t_size].
      apply andb_true_intro. split; [apply Z.leb_le | apply Z.ltb_lt]; lia. }
    exists (pre ++ encode_size_t (codec_format e size) v). split.
    + apply (write_size_t_ok _ Hfmt _ _ Hok).
    + rewrite <- app_assoc.
      pose proof (read_size_t_cursor _ Hfmt _ (len pre) v rest Hok (at_cursor_here _ _)) as R.
      cbn [codec_format h_endian h_size_t_size] in R. rewrite R.
      rewrite len_app, (len_encode_size_t _ Hfmt). reflexivity.
  - intros s Hs.
    set (field := match s with None => None | Some bs => Some (bs, x00) end : lstring).
    assert (Hp : payload_of field = s) by (destruct s; reflexivity).
    assert (Hn : normalize_lstring field = field) by (destruct s; reflexivity).
    assert (Hok : wf_lstring (codec_format e size) field = true).
    { destruct s as [bs|]; [|reflexivity]. cbn [field wf_lstring].
      unfold size_ok. cbn [codec_format h_size_t_size]. pose proof (len_nonneg bs).
      apply andb_true_intro. split; [apply Z.leb_le | apply Z.ltb_lt]; lia. }
    exists (pre ++ encode_lstring (codec_format e size) field). split.
    + pose proof (write_lstring_ok _ Hfmt pre _ Hok) as W.
      rewrite Hp, Hn in W. exact W.
    + rewrite <- app_assoc.
      pose proof (read_lstring_cursor _ Hfmt _ (len pre) field rest Hok (at_cursor_here _ _)) as R.
      cbn [codec_format h_endian h_size_t_size] in R. rewrite R.
      rewrite Hp, len_app. reflexivity.
Qed.

Lemma width_symmetry_witness :
  (4 = 4 \/ 4 = 8)
  /\ (- 2 ^ (8 * 4 - 1) <= -2 < 2 ^ (8 * 4 - 1))
  /\ exists buf, write_int [x00] Big 4 (-2) = Ok buf
                 /\ read_int (buf ++ [x07]) Big 4 (len [x00]) = Ok (-2, len buf).
Proof.
  assert (H1 : 4 = 4 \/ 4 = 8) by (left; reflexivity).
  assert (H2 : - 2 ^ (8 * 4 - 1) <= -2 < 2 ^ (8 * 4 - 1)) 
    by (split; [apply Z.leb_le | apply Z.ltb_lt]; reflexivity).
  split; [exact H1|]. split; [exact H2|].
  exact (proj1 (width_symmetry Big 4 [x00] [x07] H1) (-2) H2).
Defined.

(** A string of 2^32 - 1 bytes cannot be written with a 4-byte size
    field: its stored length, 2^32, does not fit. *)
Lemma long_string_not_written :
  write_lstring [] Little 4 (Some (replicate (Z.to_nat 4294967295) x00))
  = Err StructError.
Proof.
  unfold write_lstring, write_size_t.
  change (4 =? 4) with true. cbv iota.
  unfold struct_pack_unsigned, len. rewrite length_replicate.
  rewrite Z2Nat.id by lia.
  change (8 * Z.of_nat 4) with 32.
  change ((0 <=? 4294967295 + 1) && (4294967295 + 1 <? 2 ^ 32)) with false.
  reflexivity.
Qed.

(** ** The terminator byte *)

(** *** Terminators over the whole file *)

Lemma thread_kept {A} (f : A -> Z -> result (A * Z)) (N : A -> A)
    (strs : A -> list (list byte)) (Q : Z -> list byte -> Prop) (l : list A) :
  (forall x c, x ∈ l ->
     (forall i r, (i, r) ∈ number_from c (strs x) -> Q i r) ->
     f x c = Ok (N x, c + len (strs x))) ->
  forall c, (forall i r, (i, r) ∈ number_from c (flat_map strs l) -> Q i r) ->
    thread f l c = Ok (map N l, c + len (flat_map strs l)).
Proof.
  induction l as [|x l IH]; intros Hf c HQ; cbn [thread flat_map map].
  - rewrite len_nil, Z.add_0_r. reflexivity.
  - rewrite (Hf x c (list_elem_of_here _ _)).
    2:{ intros i r Hin. apply HQ. cbn [flat_map]. apply elem_of_number_from_app_l. exact Hin. }
    cbn [bind]. fold (thread f). rewrite IH.
    + cbn [bind]. rewrite len_app, Z.add_assoc. reflexivity.
    + intros x' c' Hin. apply Hf. apply list_elem_of_further. exact Hin.
    + intros i r Hin. apply HQ. cbn [flat_map]. apply elem_of_number_from_app_r. exact Hin.
Qed.

Section kept.
Variables (h : header) (mapping : gmap Z (list Z)) (src_enc dst_enc : codec).

Lemma patch_constant_kept k c :
  wf_constant h k = true ->
  (forall i r, (i, r) ∈ number_from c (constant_strings k) ->
     keeps_payload mapping src_enc dst_enc i r) ->
  patch_constant h mapping src_enc dst_enc k c
  = Ok (normalize_constant k, c + len (constant_strings k)).
Proof.
  intros Hwf Hk.
  destruct k as [|b|payload|[[raw t]|]];
    cbn [patch_constant constant_strings normalize_constant normalize_lstring];
    try (rewrite len_nil, Z.add_0_r; reflexivity).
  cbn [number_from] in Hk.
  pose proof (Hk (c + 1) raw (list_elem_of_here _ _)) as Hkeep.
  unfold keeps_payload in Hkeep. rewrite Hkeep. cbn [bind].
  cbn [wf_constant wf_lstring] in Hwf. rewrite Hwf.
  rewrite len_cons, len_nil. do 2 f_equal; lia.
Qed.

(** When [patch_const_string] keeps every payload, the patch is the
    tree with every terminator set to 0. *)
Lemma patch_proto_kept n :
  forall p c, (proto_depth p <= n)%nat ->
    wf_proto h p = true ->
    (forall i r, (i, r) ∈ number_from c (proto_strings p) ->
       keeps_payload mapping src_enc dst_enc i r) ->
    patch_proto h mapping src_enc dst_enc p c
    = Ok (normalize_proto p, c + len (proto_strings p)).
Proof.
  induction n as [|n IH]; intros p c Hd Hwf Hk.
  { destruct p; cbn [proto_depth] in Hd. lia. }
  pose proof (proto_depth_child p) as Hchild.
  destruct p as [src a b flags szc cd ks cs szl li lvs ups].
  cbn [wf_proto source_name line_defined last_line_defined
       flag_block sizecode code constants children sizelineinfo lineinfo
       locvars upvalues proto_strings patch_proto normalize_proto] in *.
  apply andb_prop in Hwf as [Hwf Hups]. apply andb_prop in Hwf as [Hwf Hnup].
  apply andb_prop in Hwf as [Hwf Hlvs]. apply andb_prop in Hwf as [Hwf Hnlv].
  apply andb_prop in Hwf as [Hwf Hli]. apply andb_prop in Hwf as [Hwf Hszl].
  apply andb_prop in Hwf as [Hwf Hcs]. apply andb_prop in Hwf as [Hwf Hncs].
  apply andb_prop in Hwf as [Hwf Hks]. apply andb_prop in Hwf as [Hwf Hnks].
  rewrite (thread_kept _ normalize_constant constant_strings
             (keeps_payload mapping src_enc dst_enc) ks).
  2:{ intros x c' Hin Hq. apply patch_constant_kept;
        [exact (forallb_elem_of _ _ _ Hks Hin) | exact Hq]. }
  2:{ intros i r Hin. apply Hk. apply elem_of_number_from_app_l. exact Hin. }
  cbn [bind].
  rewrite (thread_kept _ normalize_proto proto_strings
             (keeps_payload mapping src_enc dst_enc) cs).
  2:{ intros x c' Hin Hq. apply IH;
        [ specialize (Hchild x Hin); cbn [proto_depth children] in Hchild, Hd |- *; lia
        | exact (forallb_elem_of _ _ _ Hcs Hin)
        | exact Hq ]. }
  2:{ intros i r Hin. apply Hk. apply elem_of_number_from_app_r. exact Hin. }
  cbn [bind]. rewrite len_app, Z.add_assoc. reflexivity.
Qed.
End kept.

Lemma forallb_map_true {A} (P : A -> bool) (N : A -> A) (l : list A) :
  (forall x, x ∈ l -> P (N x) = true) -> forallb P (map N l) = true.
Proof.
  induction l as [|x l IH]; intros H; [reflexivity|].
  cbn [map forallb]. rewrite H by apply list_elem_of_here.
  apply IH. intros; apply H. apply list_elem_of_further. assumption.
Qed.

Lemma normalized_lstring_zero s : zero_terminated_lstring (normalize_lstring s) = true.
Proof. destruct s as [[payload t]|]; reflexivity. Qed.

(** Every terminator of the normalized tree is 0. *)
Lemma normalize_proto_zero_terminated n :
  forall p, (proto_depth p <= n)%nat -> zero_terminated (normalize_proto p) = true.
Proof.
  induction n as [|n IH]; intros p Hd.
  { destruct p; cbn [proto_depth] in Hd. lia. }
  pose proof (proto_depth_child p) as Hchild.
  destruct p as [src a b flags szc cd ks cs szl li lvs ups].
  cbn [children] in Hchild.
  cbn [normalize_proto zero_terminated source_name constants children locvars upvalues].
  rewrite normalized_lstring_zero.
  rewrite (forallb_map_true zero_terminated_constant normalize_constant ks)
    by (intros [|bb|payload|s] _; try reflexivity; apply normalized_lstring_zero).
  rewrite (forallb_map_true zero_terminated normalize_proto cs).
  2:{ intros x Hin. apply IH.
      specialize (Hchild x Hin). cbn [proto_depth children] in Hchild, Hd |- *. lia. }
  rewrite (forallb_map_true (fun lv => zero_terminated_lstring (lv_name lv))
             normalize_locvar lvs)
    by (intros lv _; apply normalized_lstring_zero).
  rewrite (forallb_map_true zero_terminated_lstring normalize_lstring ups)
    by (intros s _; apply normalized_lstring_zero).
  reflexivity.
Qed.

(** A tree whose terminators are all 0 is its own normalized tree. *)
Lemma normalize_proto_fixed n :
  forall p, (proto_depth p <= n)%nat -> zero_terminated p = true -> normalize_proto p = p.
Proof.
  induction n as [|n IH]; intros p Hd Hz.
  { destruct p; cbn [proto_depth] in Hd. lia. }
  pose proof (proto_depth_child p) as Hchild.
  destruct p as [src a b flags szc cd ks cs szl li lvs ups].
  cbn [children] in Hchild.
  cbn [zero_terminated source_name constants children locvars upvalues] in Hz.
  apply andb_prop in Hz as [Hz Hzups]. apply andb_prop in Hz as [Hz Hzlvs].
  apply andb_prop in Hz as [Hz Hzcs]. apply andb_prop in Hz as [Hzsrc Hzks].
  cbn [normalize_proto source_name line_defined last_line_defined flag_block sizecode
       code constants children sizelineinfo lineinfo locvars upvalues].
  rewrite (normalize_zero_terminated src Hzsrc).
  rewrite (map_id_on normalize_constant zero_terminated_constant ks); [| |exact Hzks].
  2:{ intros [|bb|payload|s] Hs; try reflexivity.
      cbn [normalize_constant]. rewrite (normalize_zero_terminated s Hs). reflexivity. }
  rewrite (map_id_on normalize_lstring zero_terminated_lstring ups
             normalize_zero_terminated Hzups).
  rewrite (map_id_on normalize_locvar
             (fun lv => zero_terminated_lstring (lv_name lv)) lvs); [| |exact Hzlvs].
  2:{ intros [nm s0 e0] Hx. unfold normalize_locvar. cbn [lv_name lv_startpc lv_endpc] in *.
      rewrite (normalize_zero_terminated nm Hx). reflexivity. }
  f_equal.
  assert (Hall : forall x, x ∈ cs -> normalize_proto x = x).
  { intros x Hin. apply IH.
    - specialize (Hchild x Hin). cbn [proto_depth children] in Hchild, Hd |- *. lia.
    - exact (forallb_elem_of _ _ _ Hzcs Hin). }
  clear -Hall. induction cs as [|x cs IHcs]; [reflexivity|].
  cbn [map]. rewrite (Hall x (list_elem_of_here _ _)).
  rewrite IHcs; [reflexivity|]. intros; apply Hall. apply list_elem_of_further. assumption.
Qed.

Lemma lstring_same_unless_zero h s :
  same_unless_zero (encode_lstring h) normalize_lstring zero_terminated_lstring s.
Proof.
  unfold same_unless_zero.
  destruct s as [[payload t]|]; [|split; reflexivity].
  cbn [normalize_lstring encode_lstring zero_terminated_lstring]. split.
  - rewrite !length_app. reflexivity.
  - intros H. apply app_inv_head in H. apply app_inv_head in H.
    injection H as <-. reflexivity.
Qed.

Lemma constant_same_unless_zero h k :
  same_unless_zero (encode_constant h) normalize_constant zero_terminated_constant k.
Proof.
  destruct k as [|b|payload|s]; try (split; reflexivity).
  destruct (lstring_same_unless_zero h s) as [Hl He].
  unfold same_unless_zero.
  cbn [normalize_constant encode_constant zero_terminated_constant]. split.
  - cbn [length]. rewrite Hl. reflexivity.
  - intros [= H]. apply He. exact H.
Qed.

Lemma locvar_same_unless_zero h lv :
  same_unless_zero (encode_locvar h) normalize_locvar
    (fun lv => zero_terminated_lstring (lv_name lv)) lv.
Proof.
  destruct lv as [nm s e].
  destruct (lstring_same_unless_zero h nm) as [Hl He].
  unfold same_unless_zero, encode_locvar, normalize_locvar.
  cbn [lv_name lv_startpc lv_endpc]. split.
  - rewrite !length_app, Hl. reflexivity.
  - intros H. apply app_inj_1 in H as [H _]; [|exact Hl]. apply He. exact H.
Qed.

Lemma list_same_unless_zero {A} (enc : A -> list byte) (N : A -> A) (zero : A -> bool)
    (l : list A) :
  (forall x, x ∈ l -> same_unless_zero enc N zero x) ->
  same_unless_zero (flat_map enc) (map N) (forallb zero) l.
Proof.
  induction l as [|x l IH]; intros H; [split; reflexivity|].
  destruct (H x (list_elem_of_here _ _)) as [Lx Ex].
  destruct IH as [Ll El]; [intros; apply H; apply list_elem_of_further; assumption|].
  unfold same_unless_zero. cbn [map flat_map forallb]. split.
  - rewrite !length_app, Lx, Ll. reflexivity.
  - intros Heq. apply app_inj_1 in Heq as [E1 E2]; [|exact Lx].
    rewrite (Ex E1), (El E2). reflexivity.
Qed.

Lemma proto_same_unless_zero h n :
  forall p, (proto_depth p <= n)%nat ->
    same_unless_zero (encode_proto h) normalize_proto zero_terminated p.
Proof.
  induction n as [|n IH]; intros p Hd.
  { destruct p; cbn [proto_depth] in Hd. lia. }
  pose proof (proto_depth_child p) as Hchild.
  destruct p as [src a b flags szc cd ks cs szl li lvs ups].
  cbn [children] in Hchild.
  destruct (lstring_same_unless_zero h src) as [Lsrc Esrc].
  destruct (list_same_unless_zero (encode_constant h) normalize_constant
              zero_terminated_constant ks) as [Lks Eks];
    [intros; apply constant_same_unless_zero|].
  destruct (list_same_unless_zero (encode_proto h) normalize_proto zero_terminated cs)
    as [Lcs Ecs].
  { intros x Hin. apply IH.
    specialize (Hchild x Hin). cbn [proto_depth children] in Hchild, Hd |- *. lia. }
  destruct (list_same_unless_zero (encode_locvar h) normalize_locvar
              (fun lv => zero_terminated_lstring (lv_name lv)) lvs) as [Llvs Elvs];
    [intros; apply locvar_same_unless_zero|].
  destruct (list_same_unless_zero (encode_lstring h) normalize_lstring
              zero_terminated_lstring ups) as [Lups Eups];
    [intros; apply lstring_same_unless_zero|].
  assert (Hlen : forall {A} (g : A -> A) (l : list A), len (map g l) = len l)
    by (intros; unfold len; rewrite length_map; reflexivity).
  unfold same_unless_zero.
  cbn [normalize_proto encode_proto zero_terminated source_name line_defined
       last_line_defined flag_block sizecode code constants children sizelineinfo
       lineinfo locvars upvalues].
  rewrite !Hlen. split.
  - rewrite !length_app, Lsrc, Lks, Lcs, Llvs, Lups. reflexivity.
  - intros H.
    apply app_inj_1 in H as [H1 H]; [|exact Lsrc].
    do 6 apply app_inv_head in H.
    apply app_inj_1 in H as [H2 H]; [|exact Lks].
    apply app_inv_head in H.
    apply app_inj_1 in H as [H3 H]; [|exact Lcs].
    do 3 apply app_inv_head in H.
    apply app_inj_1 in H as [H4 H]; [|exact Llvs].
    apply app_inv_head in H.
    rewrite (Esrc H1), (Eks H2), (Ecs H3), (Elvs H4), (Eups H). reflexivity.
Qed.

(** The bytes of a well-formed chunk are those of its normalized tree
    exactly when every terminator is 0. *)
Lemma normalized_chunk_same v f i h p :
  encode_chunk v f i h (normalize_proto p) = encode_chunk v f i h p
  <-> zero_terminated p = true.
Proof.
  unfold encode_chunk. split.
  - intros H. apply app_inv_head in H.
    apply (proto_same_unless_zero h (proto_depth p) p (Nat.le_refl _)). exact H.
  - intros Hz. rewrite (normalize_proto_fixed (proto_depth p) p (Nat.le_refl _) Hz).
    reflexivity.
Qed.

(** What [patch_file] writes under a mapping that is not empty is the
    encoding of a patched tree. *)
Lemma patch_file_written v f i h p limit mapping src_enc dst_enc out :
  wf_format h = true -> byte_sized h = true -> wf_proto h p = true ->
  mapping <> ∅ ->
  ImportPy.patch_file limit (encode_chunk v f i h p) mapping src_enc dst_enc
  = ImportPy.Written out ->
  exists p' c', patch_proto h mapping src_enc dst_enc p (-1) = Ok (p', c')
                /\ out = encode_chunk v f i h p'.
Proof.
  intros Hfmt Hb Hwf Hm Hrun. unfold ImportPy.patch_file in Hrun.
  rewrite bool_decide_eq_false_2 in Hrun by exact Hm.
  set (big := Nat.max limit (proto_depth p)).
  assert (Hbig : ImportPy.patch_walk big (encode_chunk v f i h p) mapping src_enc dst_enc
                 = ImportPy.Written out).
  { revert Hrun. unfold ImportPy.patch_walk.
    destruct (read_header _) as [hd|]; [|discriminate].
    destruct (ImportPy.process_proto _ _ _ _ _ _ _ _ _ limit _) as [st|ex] eqn:E.
    - rewrite (patch_depth_mono _ _ _ _ _ _ _ _ _ limit big _ _ ltac:(lia) E). auto.
    - destruct ex; discriminate. }
  rewrite (patch_walk_encoded v f i h p big Hfmt Hb Hwf ltac:(lia)) in Hbig.
  destruct (patch_proto h mapping src_enc dst_enc p (-1)) as [[p' c']|ex] eqn:E.
  - injection Hbig as <-. eauto.
  - destruct ex; discriminate.
Qed.

(** C10 (amended). [read_lstring] returns the same payload whatever the
    terminator byte is; [write_lstring] ends the field with a zero byte;
    so writing back what was read gives the original field exactly when
    its terminator was zero, and the patch walker writes a zero
    terminator also for a string constant it keeps.  For the whole file:
    under a mapping that is not empty [patch_file] writes a chunk in
    which every terminator is 0, also when it substitutes nothing, and
    then its output is its input exactly when every terminator of the
    input was 0; under the empty mapping it copies the file, terminators
    included. *)
Theorem terminator_normalized h payload t pre rest out :
  wf_format h = true ->
  size_ok h (len payload + 1) = true ->
  read_lstring (pre ++ (encode_size_t h (len payload + 1) ++ payload ++ [t]) ++ rest)
    (h_endian h) (h_size_t_size h) (len pre)
  = Ok (Some payload,
        len pre + len (encode_size_t h (len payload + 1) ++ payload ++ [t]))
  /\ write_lstring out (h_endian h) (h_size_t_size h) (Some payload)
     = Ok (out ++ encode_size_t h (len payload + 1) ++ payload ++ [x00])
  /\ (encode_size_t h (len payload + 1) ++ payload ++ [x00]
      = encode_size_t h (len payload + 1) ++ payload ++ [t]
      <-> t = x00)
  /\ (forall data pos c vs mapping src_enc dst_enc,
        at_cursor data pos
          (x04 :: (encode_size_t h (len payload + 1) ++ payload ++ [t]) ++ rest) ->
        ImportPy.patch_const_string payload (c + 1) mapping src_enc dst_enc = Ok payload ->
        ImportPy.const_step data (h_endian h) (h_size_t_size h) (h_number_size h)
          mapping src_enc dst_enc (ImportPy.mk_pstate pos out c vs)
        = Ok (ImportPy.mk_pstate
                (pos + 1 + len (encode_size_t h (len payload + 1) ++ payload ++ [t]))
                (out ++ x04 :: encode_size_t h (len payload + 1) ++ payload ++ [x00])
                (c + 1) (vs ++ [(c + 1, payload)])))
  /\ (forall v f i p limit mapping src_enc dst_enc,
        byte_sized h = true -> wf_proto h p = true -> (proto_depth p <= limit)%nat ->
        mapping <> ∅ ->
        (forall idx raw,
           (idx, raw) ∈ number_from (-1) (proto_strings p) ->
           ImportPy.patch_const_string raw idx mapping src_enc dst_enc = Ok raw) ->
        ImportPy.patch_file limit (encode_chunk v f i h p) mapping src_enc dst_enc
        = ImportPy.Written (encode_chunk v f i h (normalize_proto p))
        /\ zero_terminated (normalize_proto p) = true
        /\ (encode_chunk v f i h (normalize_proto p) = encode_chunk v f i h p
            <-> zero_terminated p = true))
  /\ (forall v f i p limit mapping src_enc dst_enc written,
        byte_sized h = true -> wf_proto h p = true -> mapping <> ∅ ->
        ImportPy.patch_file limit (encode_chunk v f i h p) mapping src_enc dst_enc
        = ImportPy.Written written ->
        written = encode_chunk v f i h
                    (normalize_proto (substitute (patched mapping src_enc dst_enc) p (-1)))
        /\ zero_terminated
             (normalize_proto (substitute (patched mapping src_enc dst_enc) p (-1)))
           = true)
  /\ (forall limit data src_enc dst_enc,
        ImportPy.patch_file limit data ∅ src_enc dst_enc = ImportPy.Written data).
Proof.
  intros Hfmt Hlen.
  assert (Hwf : wf_lstring h (Some (payload, t)) = true) by exact Hlen.
  split; [|split; [|split; [|split; [|split; [|split]]]]].
  - apply (read_lstring_cursor h Hfmt _ (len pre) (Some (payload, t)) rest Hwf).
    apply at_cursor_here.
  - apply (write_lstring_ok h Hfmt out (Some (payload, t)) Hwf).
  - split.
    + intros H. apply app_inv_head in H. apply app_inv_head in H.
      injection H as <-. reflexivity.
    + intros ->. reflexivity.
  - intros data pos c vs mapping src_enc dst_enc Hc Hkeep.
    pose proof (const_step_encoded h data mapping src_enc dst_enc Hfmt
                  (KString (Some (payload, t))) pos out c vs rest Hwf Hc) as S.
    cbn [patch_constant] in S. rewrite Hkeep in S. cbn [bind] in S.
    rewrite Hlen in S. cbn [bind constant_strings number_from encode_constant
                             encode_lstring] in S.
    rewrite S. do 2 f_equal. rewrite len_cons. lia.
  - intros v f i p limit mapping src_enc dst_enc Hb Hp Hd Hm Hkeep.
    split; [|split].
    + unfold ImportPy.patch_file. rewrite bool_decide_eq_false_2 by exact Hm.
      rewrite (patch_walk_encoded v f i h p limit Hfmt Hb Hp Hd).
      rewrite (patch_proto_kept h mapping src_enc dst_enc (proto_depth p) p (-1)
                 (Nat.le_refl _) Hp Hkeep).
      reflexivity.
    + apply (normalize_proto_zero_terminated (proto_depth p)). lia.
    + apply normalized_chunk_same.
  - intros v f i p limit mapping src_enc dst_enc written Hb Hp Hm Hrun.
    destruct (patch_file_written v f i h p limit mapping src_enc dst_enc written
                Hfmt Hb Hp Hm Hrun) as (p' & c' & E & ->).
    apply (patch_proto_normalized _ _ _ _ (proto_depth p)) in E as [-> _]; [|lia].
    split; [reflexivity|].
    apply (normalize_proto_zero_terminated
             (proto_depth (substitute (patched mapping src_enc dst_enc) p (-1)))). lia.
  - intros limit data src_enc dst_enc. unfold ImportPy.patch_file.
    rewrite bool_decide_eq_true_2 by reflexivity. reflexivity.
Qed.

Lemma terminator_normalized_witness :
  wf_format Examples.fmt = true
  /\ size_ok Examples.fmt (len Examples.hello + 1) = true
  /\ write_lstring [] Little 4 (Some Examples.hello)
     = Ok ([] ++ encode_size_t Examples.fmt (len Examples.hello + 1)
              ++ Examples.hello ++ [x00])
  /\ ImportPy.patch_file 10 (Examples.chunk_of Examples.odd_terminator)
       (<[7 := [120]]> ∅) latin1 latin1
     = ImportPy.Written (Examples.chunk_of (normalize_proto Examples.odd_terminator)).
Proof.
  assert (H1 : wf_format Examples.fmt = true) by reflexivity.
  assert (H2 : size_ok Examples.fmt (len Examples.hello + 1) = true) by reflexivity.
  split; [exact H1|]. split; [exact H2|].
  destruct (terminator_normalized Examples.fmt Examples.hello x01 [] [] [] H1 H2)
    as (_ & W & _ & _ & F & _).
  split; [exact W|].
  refine (proj1 (F x51 x00 x00 Examples.odd_terminator 10%nat (<[7 := [120]]> ∅)
                   latin1 latin1 eq_refl eq_refl _ _ _)).
  - cbn. lia.
  - intros H. apply (f_equal (fun m : gmap Z (list Z) => m !! 7)) in H.
    rewrite lookup_insert_eq, lookup_empty in H. discriminate H.
  - intros idx raw Hin. cbn in Hin.
    apply list_elem_of_singleton in Hin. injection Hin as -> ->. reflexivity.
Defined.

(** "Hello" stored with terminator 1 and the empty mapping: the file is
    copied and the terminator stays 1, so the output is not the chunk
    with the terminator set to 0. *)
Lemma odd_terminator_copied :
  ImportPy.patch_file 10 (Examples.chunk_of Examples.odd_terminator) ∅ latin1 latin1
  = ImportPy.Written (Examples.chunk_of Examples.odd_terminator)
  /\ zero_terminated Examples.odd_terminator = false
  /\ Examples.chunk_of Examples.odd_terminator
     <> Examples.chunk_of (normalize_proto Examples.odd_terminator).
Proof.
  split; [vm_compute; reflexivity|]. split; [reflexivity|].
  intros H. vm_compute in H. discriminate H.
Qed.

(** ** Worked examples for the drivers *)


Lemma roundtrip_identity_witness :
  valid Examples.fmt Examples.greeting = true
  /\ (proto_depth Examples.greeting <= 10)%nat
  /\ ExtractPy.extract_strings 10 (Examples.chunk_of Examples.greeting) latin1
     = Ok [ExtractPy.mk_line ExtractPy.White 0 Examples.hello_text;
           ExtractPy.mk_line ExtractPy.Black 0 Examples.hello_text]
  /\ ImportPy.patch_file 10 (Examples.chunk_of Examples.greeting)
       (<[0 := Examples.hello_text]> ∅) latin1 latin1
     = ImportPy.Written (Examples.chunk_of Examples.greeting).
Proof.
  assert (H1 : valid Examples.fmt Examples.greeting = true) by (vm_compute; reflexivity).
  assert (H2 : (proto_depth Examples.greeting <= 10)%nat) by (cbn; lia).
  assert (H3 : ExtractPy.extract_strings 10 (Examples.chunk_of Examples.greeting) latin1
               = Ok [ExtractPy.mk_line ExtractPy.White 0 Examples.hello_text;
                     ExtractPy.mk_line ExtractPy.Black 0 Examples.hello_text])
    by (vm_compute; reflexivity).
  split; [exact H1|]. split; [exact H2|]. split; [exact H3|].
  apply (roundtrip_identity x51 x00 x00 Examples.fmt Examples.greeting 10
           (<[0 := Examples.hello_text]> ∅) latin1 latin1 _ H1 H2 H3).
  intros l Hin.
  apply elem_of_cons in Hin as [->|Hin]; [reflexivity|].
  apply elem_of_cons in Hin as [->|Hin]; [reflexivity|].
  inversion Hin.
Defined.

Lemma patch_frame_witness :
  wf_format Examples.fmt = true /\ byte_sized Examples.fmt = true
  /\ wf_proto Examples.fmt Examples.greeting = true
  /\ ImportPy.patch_file 10 (Examples.chunk_of Examples.greeting)
       (<[0 := Examples.bonjour_text]> ∅) latin1 latin1
     = ImportPy.Written
         (Examples.chunk_of (Examples.proto_with [KString (Some (Examples.bonjour, x00))]))
  /\ zero_terminated Examples.greeting = true
  /\ Examples.chunk_of (Examples.proto_with [KString (Some (Examples.bonjour, x00))])
     = encode_chunk x51 x00 x00 Examples.fmt
         (substitute (patched (<[0 := Examples.bonjour_text]> ∅) latin1 latin1)
            Examples.greeting (-1)).
Proof.
  assert (H1 : wf_format Examples.fmt = true) by reflexivity.
  assert (H2 : byte_sized Examples.fmt = true) by reflexivity.
  assert (H3 : wf_proto Examples.fmt Examples.greeting = true) by (vm_compute; reflexivity).
  assert (H4 : ImportPy.patch_file 10 (Examples.chunk_of Examples.greeting)
                 (<[0 := Examples.bonjour_text]> ∅) latin1 latin1
               = ImportPy.Written
                   (Examples.chunk_of
                      (Examples.proto_with [KString (Some (Examples.bonjour, x00))])))
    by (vm_compute; reflexivity).
  assert (H5 : zero_terminated Examples.greeting = true) by reflexivity.
  split; [exact H1|]. split; [exact H2|]. split; [exact H3|]. split; [exact H4|].
  split; [exact H5|].
  exact (proj1 (proj2 (proj2 (patch_frame x51 x00 x00 Examples.fmt Examples.greeting 10
                  (<[0 := Examples.bonjour_text]> ∅) latin1 latin1 _ H1 H2 H3 H4))) H5).
Defined.

(** "Hello" stored with terminator 1 and a mapping that has no entry for
    its index: nothing is substituted, and still the output differs from
    the input. *)
Lemma frame_fails_on_odd_terminator :
  (<[7 := [120]]> (∅ : gmap Z (list Z))) !! 0 = None
  /\ ImportPy.patch_file 10 (Examples.chunk_of Examples.odd_terminator)
       (<[7 := [120]]> ∅) latin1 latin1
     = ImportPy.Written (Examples.chunk_of Examples.greeting)
  /\ Examples.chunk_of Examples.greeting <> Examples.chunk_of Examples.odd_terminator.
Proof.
  split; [reflexivity|]. split; [vm_compute; reflexivity|].
  intros H. vm_compute in H. discriminate H.
Qed.

Lemma tag5_is_unknown : unknown_tag_proto Examples.fmt Examples.tag5_body.
Proof.
  unfold Examples.tag5_body.
  apply (unknown_here Examples.fmt None 0 0 [x00; x00; x00; x02] 1
           [x1e; x00; x80; x00] 1 [] x05 []); reflexivity.
Qed.

Lemma unknown_tag_fatal_witness :
  wf_format Examples.fmt = true /\ byte_sized Examples.fmt = true
  /\ unknown_tag_proto Examples.fmt Examples.tag5_body
  /\ exists ex, ExtractPy.extract_strings 10
                  (encode_header x51 x00 x00 Examples.fmt ++ Examples.tag5_body) latin1
                = Err ex.
Proof.
  assert (H1 : wf_format Examples.fmt = true) by reflexivity.
  assert (H2 : byte_sized Examples.fmt = true) by reflexivity.
  split; [exact H1|]. split; [exact H2|]. split; [exact tag5_is_unknown|].
  exact (proj1 (unknown_tag_fatal x51 x00 x00 Examples.fmt Examples.tag5_body 10
                  latin1 ∅ latin1 latin1 H1 H2 tag5_is_unknown)).
Defined.

(** A constant with tag 5 and the empty mapping: the file is written. *)
Lemma unknown_tag_copied :
  unknown_tag_proto Examples.fmt Examples.tag5_body
  /\ ImportPy.patch_file 10 Examples.tag5_chunk ∅ latin1 latin1
     = ImportPy.Written Examples.tag5_chunk
  /\ ImportPy.patch_file 10 Examples.tag5_chunk (<[0 := [120]]> ∅) latin1 latin1
     = ImportPy.Raised (ValueError UnknownConstantType).
Proof.
  split; [exact tag5_is_unknown|]. split; vm_compute; reflexivity.
Qed.

Lemma empty_mapping_copy_witness :
  Examples.chunk_of Examples.greeting = encode_chunk x51 x00 x00 Examples.fmt Examples.greeting
  /\ valid Examples.fmt Examples.greeting = true
  /\ (proto_depth Examples.greeting <= 10)%nat
  /\ ImportPy.patch_walk 10 (Examples.chunk_of Examples.greeting) ∅ latin1 latin1
     = ImportPy.Written (Examples.chunk_of Examples.greeting).
Proof.
  assert (H1 : valid Examples.fmt Examples.greeting = true) by (vm_compute; reflexivity).
  assert (H2 : (proto_depth Examples.greeting <= 10)%nat) by (cbn; lia).
  split; [reflexivity|]. split; [exact H1|]. split; [exact H2|].
  exact (proj2 (empty_mapping_copy 10 (Examples.chunk_of Examples.greeting) latin1 latin1)
           x51 x00 x00 Examples.fmt Examples.greeting eq_refl H1 H2).
Defined.

(** The empty file and the empty mapping: the fast path writes it, the
    walk would have raised. *)
Lemma fast_path_differs_on_non_chunk :
  ImportPy.patch_file 10 [] ∅ latin1 latin1 = ImportPy.Written []
  /\ ImportPy.patch_walk 10 [] ∅ latin1 latin1 = ImportPy.Raised (ValueError NotLuaChunk).
Proof. split; vm_compute; reflexivity. Qed.

Section mapping_file.
Import ImportPy.

(** ** The mapping file *)

Lemma ascii_digit_range c : is_ascii_digit c = true -> 48 <= c <= 57.
Proof.
  unfold is_ascii_digit. intros H. apply andb_prop in H as [H1 H2].
  apply Z.leb_le in H1, H2. lia.
Qed.

Lemma digit_not_space c : is_ascii_digit c = true -> is_ascii_space c = false.
Proof.
  intros H. apply ascii_digit_range in H. unfold is_ascii_space.
  destruct (Z.leb_spec 9 c), (Z.leb_spec c 13), (Z.eqb_spec c 32); simpl; try reflexivity; lia.
Qed.

Lemma digits_to_ascii db ds :
  forallb is_ascii_digit ds = true -> mapM (to_ascii db) ds = Some ds.
Proof.
  induction ds as [|d ds IH]; cbn [forallb]; [reflexivity|].
  intros H. apply andb_prop in H as [Hd Hds].
  apply ascii_digit_range in Hd.
  assert (Hto : to_ascii db d = Some d).
  { unfold to_ascii. destruct (Z.ltb_spec d 127); [reflexivity|lia]. }
  cbn [mapM]. rewrite Hto. cbn [mbind option_bind].
  rewrite (IH Hds). reflexivity.
Qed.

Lemma digits_value_digits ds :
  forall acc, forallb is_ascii_digit ds = true ->
    digits_value acc ds = Some (fold_left (fun a d => 10 * a + (d - 48)) ds acc).
Proof.
  induction ds as [|d ds IH]; intros acc; cbn [forallb digits_value fold_left]; [reflexivity|].
  intros H. apply andb_prop in H as [Hd Hds]. rewrite Hd. apply IH. exact Hds.
Qed.

Lemma drop_spaces_digit d ds :
  is_ascii_digit d = true -> drop_spaces (d :: ds) = d :: ds.
Proof. intros H. cbn [drop_spaces]. rewrite (digit_not_space d H). reflexivity. Qed.

Lemma last_digit (ds : list Z) :
  ds <> [] -> forallb is_ascii_digit ds = true ->
  exists d r, rev ds = d :: r /\ is_ascii_digit d = true.
Proof.
  intros Hne Hall. destruct (rev ds) as [|d r] eqn:E.
  - apply (f_equal (@rev Z)) in E. rewrite rev_involutive in E. contradiction.
  - exists d, r. split; [reflexivity|].
    rewrite forallb_forall in Hall. apply Hall.
    apply in_rev. rewrite E. left. reflexivity.
Qed.

Lemma count_digits_all ds :
  forallb is_ascii_digit ds = true -> count_digits ds = len ds.
Proof.
  induction ds as [|d ds IH]; cbn [forallb count_digits]; [reflexivity|].
  intros H. apply andb_prop in H as [Hd Hds].
  rewrite Hd, (IH Hds), len_cons. reflexivity.
Qed.

Lemma py_int_digits db ds :
  ds <> [] -> forallb is_ascii_digit ds = true ->
  max_str_digits db <= 0 \/ len ds <= max_str_digits db ->
  py_int db ds = Some (decimal_value ds).
Proof.
  intros Hne Hall Hlim. unfold py_int. rewrite (digits_to_ascii db ds Hall).
  destruct ds as [|d ds]; [contradiction|].
  pose proof Hall as Hall'. cbn [forallb] in Hall'. apply andb_prop in Hall' as [Hd Hds].
  rewrite (drop_spaces_digit d ds Hd).
  destruct (last_digit (d :: ds) Hne Hall) as (d' & r & E & Hd').
  rewrite E, (drop_spaces_digit d' r Hd'), <- E, rev_involutive.
  pose proof (ascii_digit_range d Hd) as Hr.
  assert (Hcases : d = 48 \/ d = 49 \/ d = 50 \/ d = 51 \/ d = 52 \/ d = 53 \/ d = 54
                   \/ d = 55 \/ d = 56 \/ d = 57) by lia.
  assert (Hu : unsigned_value db (d :: ds) = Some (decimal_value (d :: ds))).
  { unfold unsigned_value, within_digit_limit.
    rewrite Hd, (count_digits_all (d :: ds) Hall).
    assert (Hin : (0 <? max_str_digits db) && (max_str_digits db <? len (d :: ds)) = false).
    { destruct (Z.ltb_spec 0 (max_str_digits db)); [|reflexivity].
      destruct (Z.ltb_spec (max_str_digits db) (len (d :: ds))); [lia|reflexivity]. }
    rewrite Hin. cbn [negb andb].
    unfold decimal_value. apply (digits_value_digits (d :: ds) 0 Hall). }
  rewrite <- Hu.
  repeat (destruct Hcases as [-> | Hcases]; [reflexivity|]).
  subst d. reflexivity.
Qed.

Lemma split_once_digits ds rest :
  forallb is_ascii_digit ds = true ->
  split_once BLACK_CIRCLE (ds ++ BLACK_CIRCLE :: rest) = Some (ds, rest).
Proof.
  induction ds as [|d ds IH]; cbn [forallb app split_once].
  - intros _. reflexivity.
  - intros H. apply andb_prop in H as [Hd Hds].
    apply ascii_digit_range in Hd.
    destruct (Z.eqb_spec d BLACK_CIRCLE) as [E|_]; [unfold BLACK_CIRCLE in E; lia|].
    rewrite (IH Hds). reflexivity.
Qed.

Lemma parse_line_marked db l :
  parse_line db l <> None -> exists r, l = BLACK_CIRCLE :: r.
Proof.
  destruct l as [|c r]; cbn [parse_line]; [congruence|].
  destruct (Z.eqb_spec c BLACK_CIRCLE) as [->|_]; [eauto | congruence].
Qed.

Lemma parse_line_digits db ds txt :
  ds <> [] -> forallb is_ascii_digit ds = true ->
  max_str_digits db <= 0 \/ len ds <= max_str_digits db ->
  parse_line db (BLACK_CIRCLE :: ds ++ BLACK_CIRCLE :: txt)
  = Some (decimal_value ds,
          match txt with
          | c :: txt' => if c =? SPACE then txt' else txt
          | [] => txt
          end).
Proof.
  intros Hne Hall Hlim. cbn [parse_line]. rewrite Z.eqb_refl.
  rewrite (split_once_digits ds txt Hall), (py_int_digits db ds Hne Hall Hlim).
  reflexivity.
Qed.

(** Folding the lines: the last line that yields an index decides. *)
Lemma fold_mapping_snoc db ls l m :
  fold_left (mapping_step db) (ls ++ [l]) m
  = mapping_step db (fold_left (mapping_step db) ls m) l.
Proof. rewrite fold_left_app. reflexivity. Qed.

Lemma fold_mapping_lookup db ls :
  forall idx txt,
    fold_left (mapping_step db) ls ∅ !! idx = Some txt <->
    exists before l after,
      ls = before ++ l :: after
      /\ parse_line db l = Some (idx, txt)
      /\ forall l' txt', l' ∈ after -> parse_line db l' <> Some (idx, txt').
Proof.
  induction ls as [|l ls IH] using rev_ind; intros idx txt.
  - cbn [fold_left]. rewrite lookup_empty. split; [discriminate|].
    intros (before & l & after & E & _). destruct before; discriminate E.
  - rewrite fold_mapping_snoc. unfold mapping_step at 1.
    destruct (parse_line db l) as [[i t]|] eqn:El.
    + destruct (decide (i = idx)) as [->|Hne].
      * rewrite lookup_insert_eq. split.
        -- intros [= <-]. exists ls, l, []. split; [reflexivity|]. split; [exact El|].
           intros l' txt' Hin. inversion Hin.
        -- intros (before & l0 & after & E & Hl0 & Hafter).
           destruct after as [|a after] using rev_ind.
           ++ apply app_inj_tail in E as [_ <-]. rewrite El in Hl0. congruence.
           ++ clear IHafter. rewrite app_comm_cons, app_assoc in E.
              apply app_inj_tail in E as [_ <-].
              exfalso. apply (Hafter l t); [|exact El].
              apply elem_of_app. right. apply list_elem_of_here.
      * rewrite lookup_insert_ne by exact Hne. rewrite IH. split.
        -- intros (before & l0 & after & -> & Hl0 & Hafter).
           exists before, l0, (after ++ [l]). split; [rewrite <- app_assoc; reflexivity|].
           split; [exact Hl0|]. intros l' txt' Hin.
           apply elem_of_app in Hin as [Hin|Hin]; [apply Hafter; exact Hin|].
           apply list_elem_of_singleton in Hin as ->. rewrite El. congruence.
        -- intros (before & l0 & after & E & Hl0 & Hafter).
           destruct after as [|a after] using rev_ind.
           ++ apply app_inj_tail in E as [_ <-]. rewrite El in Hl0. congruence.
           ++ clear IHafter. rewrite app_comm_cons, app_assoc in E.
              apply app_inj_tail in E as [-> <-].
              exists before, l0, after. split; [reflexivity|]. split; [exact Hl0|].
              intros l' txt' Hin. apply Hafter. apply elem_of_app. left. exact Hin.
    + rewrite IH. split.
      * intros (before & l0 & after & -> & Hl0 & Hafter).
        exists before, l0, (after ++ [l]). split; [rewrite <- app_assoc; reflexivity|].
        split; [exact Hl0|]. intros l' txt' Hin.
        apply elem_of_app in Hin as [Hin|Hin]; [apply Hafter; exact Hin|].
        apply list_elem_of_singleton in Hin as ->. rewrite El. congruence.
      * intros (before & l0 & after & E & Hl0 & Hafter).
        destruct after as [|a after] using rev_ind.
        -- apply app_inj_tail in E as [_ <-]. rewrite El in Hl0. congruence.
        -- clear IHafter. rewrite app_comm_cons, app_assoc in E.
           apply app_inj_tail in E as [-> <-].
           exists before, l0, after. split; [reflexivity|]. split; [exact Hl0|].
           intros l' txt' Hin. apply Hafter. apply elem_of_app. left. exact Hin.
Qed.

(** C9. [load_mapping] on any text: an entry comes from a line that
    begins with the marker, and from the last such line for its index;
    the digits before the second marker are the index; one space after
    the second marker is dropped and the rest of the line is the text,
    unchanged. *)
Theorem load_mapping_lines db text :
  (forall idx txt,
     load_mapping db text !! idx = Some txt <->
     exists before l after,
       splitlines text = before ++ l :: after
       /\ parse_line db l = Some (idx, txt)
       /\ forall l' txt', l' ∈ after -> parse_line db l' <> Some (idx, txt'))
  /\ (forall l, parse_line db l <> None -> exists r, l = BLACK_CIRCLE :: r)
  /\ (forall digits txt,
        digits <> [] -> forallb is_ascii_digit digits = true ->
        max_str_digits db <= 0 \/ len digits <= max_str_digits db ->
        parse_line db (BLACK_CIRCLE :: digits ++ BLACK_CIRCLE :: SPACE :: txt)
        = Some (decimal_value digits, txt))
  /\ (forall digits txt,
        digits <> [] -> forallb is_ascii_digit digits = true ->
        max_str_digits db <= 0 \/ len digits <= max_str_digits db ->
        (forall txt', txt <> SPACE :: txt') ->
        parse_line db (BLACK_CIRCLE :: digits ++ BLACK_CIRCLE :: txt)
        = Some (decimal_value digits, txt)).
Proof.
  split; [|split; [|split]].
  - intros idx txt. unfold load_mapping. apply fold_mapping_lookup.
  - apply parse_line_marked.
  - intros ds txt Hne Hall Hlim.
    rewrite (parse_line_digits db ds (SPACE :: txt) Hne Hall Hlim).
    rewrite Z.eqb_refl. reflexivity.
  - intros ds txt Hne Hall Hlim Hns. rewrite (parse_line_digits db ds txt Hne Hall Hlim).
    destruct txt as [|c txt']; [reflexivity|].
    destruct (Z.eqb_spec c SPACE) as [->|_]; [|reflexivity].
    exfalso. apply (Hns txt'). reflexivity.
Qed.

Lemma load_mapping_lines_witness :
  [48; 48; 48; 49; 50] <> []
  /\ forallb is_ascii_digit [48; 48; 48; 49; 50] = true
  /\ (max_str_digits Examples.ascii_db <= 0
      \/ len [48; 48; 48; 49; 50] <= max_str_digits Examples.ascii_db)
  /\ parse_line Examples.ascii_db
       (BLACK_CIRCLE :: [48; 48; 48; 49; 50] ++ BLACK_CIRCLE :: SPACE :: [SPACE; 97; SPACE])
     = Some (decimal_value [48; 48; 48; 49; 50], [SPACE; 97; SPACE])
  /\ load_mapping Examples.ascii_db Examples.two_entries !! 12 = Some [SPACE; 97; SPACE].
Proof.
  assert (H1 : [48; 48; 48; 49; 50] <> ([] : list Z)) by discriminate.
  assert (H2 : forallb is_ascii_digit [48; 48; 48; 49; 50] = true) by reflexivity.
  assert (H3 : max_str_digits Examples.ascii_db <= 0
               \/ len [48; 48; 48; 49; 50] <= max_str_digits Examples.ascii_db)
    by (right; vm_compute; discriminate).
  split; [exact H1|]. split; [exact H2|]. split; [exact H3|]. split.
  - exact (proj1 (proj2 (proj2 (load_mapping_lines Examples.ascii_db Examples.two_entries)))
             [48; 48; 48; 49; 50] [SPACE; 97; SPACE] H1 H2 H3).
  - vm_compute. reflexivity.
Defined.

End mapping_file.

(** * Further properties *)

From Stdlib Require DecimalN.

(** ** Slices inside the buffer *)

Lemma py_slice_inside {A} (l : list A) a b :
  0 <= a <= b -> b <= len l ->
  py_slice l a b = take (Z.to_nat (b - a)) (drop (Z.to_nat a) l).
Proof.
  intros Hab Hb. unfold py_slice.
  rewrite !adjust_index_inside by lia. reflexivity.
Qed.

Lemma len_py_slice_inside {A} (l : list A) a b :
  0 <= a <= b -> b <= len l -> len (py_slice l a b) = b - a.
Proof.
  intros Hab Hb. rewrite py_slice_inside by assumption.
  unfold len in *. rewrite length_take, length_drop. lia.
Qed.

Lemma py_slice_join {A} (l : list A) a b c :
  0 <= a <= b -> b <= c -> c <= len l ->
  py_slice l a b ++ py_slice l b c = py_slice l a c.
Proof.
  intros Hab Hbc Hc. rewrite !py_slice_inside by lia.
  replace (Z.to_nat (c - a)) with (Z.to_nat (b - a) + Z.to_nat (c - b))%nat by lia.
  rewrite <- take_take_drop, drop_drop. do 3 f_equal. lia.
Qed.

Lemma py_slice_to_minus_one {A} (l : list A) :
  py_slice_to l (-1) = take (length l - 1) l.
Proof.
  unfold py_slice_to, py_slice, adjust_index, len. cbn [Z.ltb Z.compare].
  rewrite Z.min_l by lia. cbn [Z.to_nat drop]. f_equal. lia.
Qed.

Lemma len_py_slice_bound {A} (l : list A) a b :
  0 <= a -> a <= b -> len (py_slice l a b) <= b - a.
Proof.
  intros Ha Hab. unfold py_slice, adjust_index.
  destruct (Z.ltb_spec a 0); [lia|]. destruct (Z.ltb_spec b 0); [lia|].
  unfold len. rewrite length_take. lia.
Qed.

Lemma py_slice_to_take {A} (l : list A) k :
  0 <= k -> py_slice_to l k = take (Z.to_nat k) l.
Proof.
  intros Hk. unfold py_slice_to, py_slice, adjust_index.
  cbn [Z.ltb Z.compare]. destruct (Z.ltb_spec k 0); [lia|].
  pose proof (len_nonneg l). rewrite (Z.min_l 0) by lia.
  cbn [Z.to_nat drop]. rewrite Z.sub_0_r.
  destruct (Z.le_gt_cases k (len l)).
  - rewrite Z.min_l by lia. reflexivity.
  - rewrite Z.min_r by lia. unfold len in *.
    rewrite (take_ge l (Z.to_nat k)) by lia.
    apply take_ge. lia.
Qed.

(** ** The header reader *)

Lemma read_header_take data :
  read_header data
  = if negb (bool_decide (take 4 data = LUA_SIGNATURE))
    then Err (ValueError NotLuaChunk)
    else if len data <? 12 then Err (ValueError HeaderTooShort)
    else Ok {| h_endian := if header_byte data 6 =? 1 then Little else Big;
               h_int_size := header_byte data 7;
               h_size_t_size := header_byte data 8;
               h_instr_size := header_byte data 9;
               h_number_size := header_byte data 10 |}.
Proof. unfold read_header. rewrite py_slice_to_take by lia. reflexivity. Qed.

Lemma header_byte_range data i : 0 <= header_byte data i < 256.
Proof. apply byte_to_Z_range. Qed.

(** X1. An input of fewer than twelve bytes is rejected with ValueError
    before anything is unpacked: as "not a Lua 5.1 chunk" when it does not
    start with the four signature bytes, which includes every input of
    fewer than four bytes and the empty one, and as "header too short"
    otherwise. *)
Theorem read_header_rejects_short data :
  len data < 12 ->
  (len data < 4 -> read_header data = Err (ValueError NotLuaChunk))
  /\ (py_slice_to data 4 <> LUA_SIGNATURE ->
      read_header data = Err (ValueError NotLuaChunk))
  /\ (py_slice_to data 4 = LUA_SIGNATURE ->
      read_header data = Err (ValueError HeaderTooShort)).
Proof.
  intros Hshort. split; [|split].
  - intros H4. rewrite read_header_take. case_bool_decide as Hsig; [|reflexivity].
    apply (f_equal length) in Hsig. rewrite length_take in Hsig.
    unfold len in H4. cbn [LUA_SIGNATURE length] in Hsig. lia.
  - intros Hsig. unfold read_header. case_bool_decide; [contradiction|reflexivity].
  - intros Hsig. unfold read_header. case_bool_decide; [|contradiction].
    cbn [negb]. destruct (Z.ltb_spec (len data) 12); [reflexivity|lia].
Qed.

Lemma read_header_rejects_short_witness :
  len [x1b; x4c; x75; x61; x51] < 12
  /\ read_header [] = Err (ValueError NotLuaChunk)
  /\ read_header [x1b; x4c; x75; x61; x51] = Err (ValueError HeaderTooShort).
Proof.
  split; [reflexivity|]. split.
  - apply (proj1 (read_header_rejects_short [] eq_refl)). reflexivity.
  - apply (proj2 (proj2 (read_header_rejects_short [x1b; x4c; x75; x61; x51] eq_refl))).
    reflexivity.
Defined.

Lemma read_header_inv data h :
  read_header data = Ok h ->
  12 <= len data
  /\ py_slice_to data 4 = LUA_SIGNATURE
  /\ Chunk.byte_sized h = true
  /\ (forall other,
        py_slice_to other 12 = py_slice_to data 12 -> read_header other = Ok h).
Proof.
  intros H. pose proof H as H'. rewrite read_header_take in H'. unfold read_header in H.
  case_bool_decide as Hsig; [|discriminate]. cbn [negb] in H.
  case_bool_decide as Hsig'; [|discriminate]. cbn [negb] in H'.
  destruct (Z.ltb_spec (len data) 12) as [|Hlen]; [discriminate|].
  injection H as <-. clear H'.
  split; [exact Hlen|]. split; [exact Hsig'|]. split.
  - unfold Chunk.byte_sized. cbn [h_int_size h_size_t_size h_instr_size h_number_size].
    pose proof (header_byte_range data 7). pose proof (header_byte_range data 8).
    pose proof (header_byte_range data 9). pose proof (header_byte_range data 10).
    repeat (apply andb_true_intro; split); first [apply Z.leb_le | apply Z.ltb_lt]; lia.
  - intros other Heq. rewrite !py_slice_to_take in Heq by lia.
    change (Z.to_nat 12) with 12%nat in Heq.
    assert (Hlo : 12 <= len other).
    { apply (f_equal length) in Heq. rewrite !length_take in Heq.
      unfold len in *. lia. }
    assert (Hbyte : forall i, (i < 12)%nat -> header_byte other i = header_byte data i).
    { intros i Hi. unfold header_byte.
      rewrite <- (lookup_take_lt other 12 i), <- (lookup_take_lt data 12 i) by lia.
      rewrite Heq. reflexivity. }
    assert (H4 : take 4 other = take 4 data).
    { apply (f_equal (take 4)) in Heq. rewrite !take_take in Heq. exact Heq. }
    rewrite read_header_take, H4. rewrite bool_decide_true by exact Hsig.
    cbn [negb]. destruct (Z.ltb_spec (len other) 12); [lia|].
    rewrite !Hbyte by lia. reflexivity.
Qed.

(** X2. When [read_header] accepts its input, the input has at least
    twelve bytes and starts with the signature, every width it returns is
    a single byte (0 to 255), and the result depends on the first twelve
    bytes only. *)
Theorem read_header_accepts data h :
  read_header data = Ok h ->
  12 <= len data
  /\ py_slice_to data 4 = LUA_SIGNATURE
  /\ Chunk.byte_sized h = true
  /\ (forall other,
        py_slice_to other 12 = py_slice_to data 12 -> read_header other = Ok h).
Proof. apply read_header_inv. Qed.

Lemma read_header_accepts_witness :
  read_header (Examples.chunk_of Examples.greeting) = Ok Examples.fmt
  /\ 12 <= len (Examples.chunk_of Examples.greeting)
  /\ Chunk.byte_sized Examples.fmt = true.
Proof.
  split; [reflexivity|].
  destruct (read_header_accepts (Examples.chunk_of Examples.greeting) Examples.fmt eq_refl)
    as (H1 & _ & H3 & _).
  split; [exact H1 | exact H3].
Defined.

(** ** The integer codec on arbitrary data *)

Lemma unpack_window_inv n data pos w :
  unpack_window n data pos = Ok w ->
  length w = n
  /\ (0 <= pos ->
      pos + Z.of_nat n <= len data /\ w = py_slice data pos (pos + Z.of_nat n)).
Proof.
  unfold unpack_window. cbv zeta.
  destruct (Z.ltb_spec pos 0) as [Hneg|Hpos].
  - destruct (Z.ltb_spec (pos + len data) 0); cbn [orb]; [discriminate|].
    destruct (Z.ltb_spec (len data - (pos + len data)) (Z.of_nat n)); [discriminate|].
    intros [= <-]. split; [|lia].
    rewrite length_take, length_drop. unfold len in *. lia.
  - destruct (Z.ltb_spec pos 0); [lia|]. cbn [orb].
    destruct (Z.ltb_spec (len data - pos) (Z.of_nat n)); [discriminate|].
    intros [= <-]. split.
    { rewrite length_take, length_drop. unfold len in *. lia. }
    intros _. split; [lia|]. rewrite py_slice_inside by lia. f_equal. lia.
Qed.

Lemma read_int_inv data e size pos v pos' :
  read_int data e size pos = Ok (v, pos') ->
  (size = 4 \/ size = 8) /\ pos' = pos + size
  /\ exists w, unpack_window (Z.to_nat size) data pos = Ok w /\ v = unpack_signed e w.
Proof.
  unfold read_int.
  destruct (Z.eqb_spec size 4) as [->|?]; [|destruct (Z.eqb_spec size 8) as [->|?]].
  - destruct (unpack_window 4 data pos) as [w|] eqn:E; cbn [bind]; [|discriminate].
    intros [= <- <-]. split; [auto|]. split; [reflexivity|]. exists w. auto.
  - destruct (unpack_window 8 data pos) as [w|] eqn:E; cbn [bind]; [|discriminate].
    intros [= <- <-]. split; [auto|]. split; [reflexivity|]. exists w. auto.
  - discriminate.
Qed.

Lemma read_size_t_inv data e size pos v pos' :
  read_size_t data e size pos = Ok (v, pos') ->
  (size = 4 \/ size = 8) /\ pos' = pos + size
  /\ exists w, unpack_window (Z.to_nat size) data pos = Ok w /\ v = unpack_unsigned e w.
Proof.
  unfold read_size_t.
  destruct (Z.eqb_spec size 4) as [->|?]; [|destruct (Z.eqb_spec size 8) as [->|?]].
  - destruct (unpack_window 4 data pos) as [w|] eqn:E; cbn [bind]; [|discriminate].
    intros [= <- <-]. split; [auto|]. split; [reflexivity|]. exists w. auto.
  - destruct (unpack_window 8 data pos) as [w|] eqn:E; cbn [bind]; [|discriminate].
    intros [= <- <-]. split; [auto|]. split; [reflexivity|]. exists w. auto.
  - discriminate.
Qed.

Lemma window_len size (w : list byte) :
  size = 4 \/ size = 8 -> length w = Z.to_nat size -> len w = size.
Proof. unfold len. intros [->| ->] Hl; rewrite Hl; reflexivity. Qed.

Lemma read_int_range data e size pos v pos' :
  read_int data e size pos = Ok (v, pos') ->
  (size = 4 \/ size = 8) /\ pos' = pos + size
  /\ - 2 ^ (8 * size - 1) <= v < 2 ^ (8 * size - 1)
  /\ (0 <= pos -> pos' <= len data).
Proof.
  intros H. apply read_int_inv in H as (Hsz & -> & w & Hw & ->).
  apply unpack_window_inv in Hw as (Hl & Hin).
  assert (Hlen : len w = size) by (apply window_len; assumption).
  split; [exact Hsz|]. split; [reflexivity|]. split.
  - rewrite <- Hlen. apply unpack_signed_range.
    intros ->. cbn in Hl. destruct Hsz as [-> | ->]; discriminate.
  - intros Hp. destruct (Hin Hp) as [Hfit _]. lia.
Qed.

Lemma read_size_t_range data e size pos v pos' :
  read_size_t data e size pos = Ok (v, pos') ->
  (size = 4 \/ size = 8) /\ pos' = pos + size
  /\ 0 <= v < 2 ^ (8 * size)
  /\ (0 <= pos -> pos' <= len data).
Proof.
  intros H. apply read_size_t_inv in H as (Hsz & -> & w & Hw & ->).
  apply unpack_window_inv in Hw as (Hl & Hin).
  assert (Hlen : len w = size) by (apply window_len; assumption).
  split; [exact Hsz|]. split; [reflexivity|]. split.
  - rewrite <- Hlen. apply unpack_unsigned_range.
  - intros Hp. destruct (Hin Hp) as [Hfit _]. lia.
Qed.

(** X3. A value that [read_int] returns lies in the signed range of its
    width and one that [read_size_t] returns in the unsigned range; both
    succeed for the widths 4 and 8 only, advance the position by the
    width, and from a position that is not negative never read past the
    end of the buffer. *)
Theorem read_value_bounds data e size pos v pos' :
  (read_int data e size pos = Ok (v, pos') ->
   (size = 4 \/ size = 8) /\ pos' = pos + size
   /\ - 2 ^ (8 * size - 1) <= v < 2 ^ (8 * size - 1)
   /\ (0 <= pos -> pos' <= len data))
  /\ (read_size_t data e size pos = Ok (v, pos') ->
      (size = 4 \/ size = 8) /\ pos' = pos + size
      /\ 0 <= v < 2 ^ (8 * size)
      /\ (0 <= pos -> pos' <= len data)).
Proof. split; [apply read_int_range|apply read_size_t_range]. Qed.

Lemma read_value_bounds_witness :
  read_int [xfe; xff; xff; xff; x07] Little 4 0 = Ok (-2, 4)
  /\ - 2 ^ (8 * 4 - 1) <= -2 < 2 ^ (8 * 4 - 1)
  /\ read_size_t [xfe; xff; xff; xff; x07] Little 4 0 = Ok (4294967294, 4)
  /\ 0 <= 4294967294 < 2 ^ (8 * 4).
Proof.
  split; [reflexivity|]. split.
  - destruct (proj1 (read_value_bounds [xfe; xff; xff; xff; x07] Little 4 0 (-2) 4)
                eq_refl) as (_ & _ & H & _).
    exact H.
  - split; [reflexivity|].
    destruct (proj2 (read_value_bounds [xfe; xff; xff; xff; x07] Little 4 0 4294967294 4)
                eq_refl) as (_ & _ & H & _).
    exact H.
Defined.

(** ** Reading, then writing back *)

Lemma write_int_window buf e size w :
  size = 4 \/ size = 8 -> length w = Z.to_nat size ->
  write_int buf e size (unpack_signed e w) = Ok (buf ++ w).
Proof.
  intros Hsz Hl.
  assert (Hne : w <> []) by (intros ->; destruct Hsz as [-> | ->]; discriminate).
  pose proof (unpack_signed_range e w Hne) as Hr.
  rewrite (window_len _ _ Hsz Hl) in Hr.
  pose proof (pack_unpack_signed e w) as Hp. rewrite Hl in Hp.
  unfold write_int, struct_pack_signed.
  destruct Hsz as [-> | ->]; cbn [Z.eqb Pos.eqb].
  - change (Z.to_nat 4) with 4%nat in Hp. change (Z.of_nat 4) with 4.
    rewrite (proj2 (Z.leb_le _ _)) by lia. rewrite (proj2 (Z.ltb_lt _ _)) by lia.
    cbn [andb bind]. rewrite Hp. reflexivity.
  - change (Z.to_nat 8) with 8%nat in Hp. change (Z.of_nat 8) with 8.
    rewrite (proj2 (Z.leb_le _ _)) by lia. rewrite (proj2 (Z.ltb_lt _ _)) by lia.
    cbn [andb bind]. rewrite Hp. reflexivity.
Qed.

Lemma write_size_t_window buf e size w :
  size = 4 \/ size = 8 -> length w = Z.to_nat size ->
  write_size_t buf e size (unpack_unsigned e w) = Ok (buf ++ w).
Proof.
  intros Hsz Hl.
  pose proof (unpack_unsigned_range e w) as Hr.
  rewrite (window_len _ _ Hsz Hl) in Hr.
  pose proof (pack_unpack_unsigned e w) as Hp. rewrite Hl in Hp.
  unfold write_size_t, struct_pack_unsigned.
  destruct Hsz as [-> | ->]; cbn [Z.eqb Pos.eqb].
  - change (Z.to_nat 4) with 4%nat in Hp. change (Z.of_nat 4) with 4.
    rewrite (proj2 (Z.leb_le _ _)) by lia. rewrite (proj2 (Z.ltb_lt _ _)) by lia.
    cbn [andb bind]. rewrite Hp. reflexivity.
  - change (Z.to_nat 8) with 8%nat in Hp. change (Z.of_nat 8) with 8.
    rewrite (proj2 (Z.leb_le _ _)) by lia. rewrite (proj2 (Z.ltb_lt _ _)) by lia.
    cbn [andb bind]. rewrite Hp. reflexivity.
Qed.

Lemma read_lstring_inv data e sz pos s pos' :
  read_lstring data e sz pos = Ok (s, pos') ->
  exists n, read_size_t data e sz pos = Ok (n, pos + sz)
    /\ pos' = pos + sz + n
    /\ ((n = 0 /\ s = None)
        \/ (n <> 0
            /\ s = Some (py_slice_to (py_slice data (pos + sz) (pos + sz + n)) (-1)))).
Proof.
  unfold read_lstring.
  destruct (read_size_t data e sz pos) as [[n p]|] eqn:E; cbn [bind]; [|discriminate].
  pose proof E as E'. apply read_size_t_inv in E' as (_ & -> & _).
  destruct (Z.eqb_spec n 0) as [->|Hn]; intros [= <- <-].
  - exists 0. split; [reflexivity|]. split; [lia|]. left. auto.
  - exists n. split; [reflexivity|]. split; [lia|]. right. auto.
Qed.

Lemma payload_inside (data : list byte) p n :
  0 <= p -> 1 <= n -> p + n <= len data ->
  py_slice_to (py_slice data p (p + n)) (-1) = py_slice data p (p + n - 1).
Proof.
  intros Hp Hn Hfit. rewrite py_slice_to_minus_one.
  pose proof (len_py_slice_inside data p (p + n) ltac:(lia) Hfit) as Hl.
  unfold len in Hl. rewrite !py_slice_inside by lia.
  rewrite py_slice_inside in Hl by lia.
  rewrite take_take. f_equal. lia.
Qed.

(** X4. What is read from inside the buffer is written back as the bytes
    it was read from: an integer and a length by [write_int] and
    [write_size_t], and a string field that lies inside the buffer by
    [write_lstring], except that the last byte of a present string is
    written as zero. *)
Theorem read_then_write data e size pos buf :
  0 <= pos ->
  (forall v pos',
     read_int data e size pos = Ok (v, pos') ->
     write_int buf e size v = Ok (buf ++ py_slice data pos pos'))
  /\ (forall v pos',
        read_size_t data e size pos = Ok (v, pos') ->
        write_size_t buf e size v = Ok (buf ++ py_slice data pos pos'))
  /\ (forall s pos',
        read_lstring data e size pos = Ok (s, pos') ->
        pos' <= len data ->
        write_lstring buf e size s
        = Ok (buf ++ match s with
                     | None => py_slice data pos pos'
                     | Some _ => py_slice data pos (pos' - 1) ++ [x00]
                     end)).
Proof.
  intros Hpos. split; [|split].
  - intros v pos' H. apply read_int_inv in H as (Hsz & -> & w & Hw & ->).
    apply unpack_window_inv in Hw as (Hl & Hin). destruct (Hin Hpos) as [_ Hw].
    rewrite Z2Nat.id in Hw by (destruct Hsz; lia). rewrite <- Hw.
    apply write_int_window; assumption.
  - intros v pos' H. apply read_size_t_inv in H as (Hsz & -> & w & Hw & ->).
    apply unpack_window_inv in Hw as (Hl & Hin). destruct (Hin Hpos) as [_ Hw].
    rewrite Z2Nat.id in Hw by (destruct Hsz; lia). rewrite <- Hw.
    apply write_size_t_window; assumption.
  - intros s pos' H Hfit.
    apply read_lstring_inv in H as (n & Hn & -> & Hs).
    pose proof Hn as Hn'.
    apply read_size_t_inv in Hn' as (Hsz & _ & w & Hw & Hv).
    apply unpack_window_inv in Hw as (Hl & Hin). destruct (Hin Hpos) as [Hfit' Hw].
    rewrite Z2Nat.id in Hw, Hfit' by (destruct Hsz; lia).
    pose proof (unpack_unsigned_range e w) as Hr. rewrite <- Hv in Hr.
    destruct Hs as [[-> ->]|[Hn0 ->]].
    + cbn [write_lstring]. rewrite Z.add_0_r, <- Hw, Hv.
      apply write_size_t_window; assumption.
    + cbn [write_lstring].
      rewrite payload_inside by (destruct Hsz; lia).
      rewrite len_py_slice_inside by (destruct Hsz; lia).
      replace (pos + size + n - 1 - (pos + size) + 1) with (unpack_unsigned e w) by lia.
      rewrite write_size_t_window by assumption. cbn [bind].
      rewrite <- !app_assoc. do 2 f_equal. rewrite app_assoc. f_equal.
      rewrite Hw. apply py_slice_join; destruct Hsz; lia.
Qed.

Lemma read_then_write_witness :
  0 <= 1
  /\ read_lstring [x09; x03; x00; x00; x00; x48; x69; x07] Little 4 1
     = Ok (Some [x48; x69], 8)
  /\ 8 <= len [x09; x03; x00; x00; x00; x48; x69; x07]
  /\ write_lstring [x09] Little 4 (Some [x48; x69])
     = Ok ([x09] ++ [x03; x00; x00; x00; x48; x69] ++ [x00]).
Proof.
  split; [lia|]. split; [reflexivity|]. split; [vm_compute; discriminate|].
  exact (proj2 (proj2 (read_then_write [x09; x03; x00; x00; x00; x48; x69; x07]
                         Little 4 1 [x09] ltac:(lia)))
           (Some [x48; x69]) 8 eq_refl ltac:(vm_compute; discriminate)).
Defined.

(** X5. [read_lstring] fails exactly when the length field cannot be
    read.  It advances the position by the width of the field plus the
    stored length [n], whatever the buffer holds: a payload that the end
    of the buffer cuts short is returned shorter, without an error.  A
    present string has at most [n - 1] bytes, and exactly the [n - 1]
    bytes that follow the length field when these lie inside the buffer.
    [read_lstring] of extract.py returns the same string and position,
    with [n - 1] as the length even when the payload is cut short. *)
Theorem read_lstring_reads data e sz pos :
  0 <= pos ->
  match read_size_t data e sz pos with
  | Err ex =>
      read_lstring data e sz pos = Err ex
      /\ ExtractPy.read_lstring data e sz pos = Err ex
  | Ok (n, p) =>
      exists s,
        read_lstring data e sz pos = Ok (s, p + n)
        /\ ExtractPy.read_lstring data e sz pos
           = Ok (s, p + n, if n =? 0 then None else Some p, if n =? 0 then 0 else n - 1)
        /\ (s = None <-> n = 0)
        /\ (forall bs, s = Some bs ->
              len bs <= n - 1
              /\ (p + n <= len data ->
                  bs = py_slice data p (p + n - 1) /\ len bs = n - 1))
  end.
Proof.
  intros Hpos. unfold read_lstring, ExtractPy.read_lstring.
  destruct (read_size_t data e sz pos) as [[n p]|ex] eqn:E; cbn [bind]; [|auto].
  pose proof E as E'. apply read_size_t_range in E' as (Hsz & -> & Hn & _).
  destruct (Z.eqb_spec n 0) as [->|Hn0].
  - exists None. rewrite Z.add_0_r. repeat split; try reflexivity; discriminate.
  - eexists. split; [reflexivity|]. split; [reflexivity|]. split.
    + split; [discriminate|contradiction].
    + intros bs [= <-]. split.
      * rewrite py_slice_to_minus_one. unfold len at 1. rewrite length_take.
        pose proof (len_py_slice_bound data (pos + sz) (pos + sz + n)
                      ltac:(destruct Hsz; lia) ltac:(lia)) as Hb.
        unfold len in Hb at 1. lia.
      * intros Hfit. rewrite payload_inside by (destruct Hsz; lia).
        split; [reflexivity|].
        rewrite len_py_slice_inside by (destruct Hsz; lia). lia.
Qed.

Lemma read_lstring_reads_witness :
  0 <= 0
  /\ exists s,
       read_lstring [x05; x00; x00; x00; x48; x69] Little 4 0 = Ok (s, 4 + 5)
       /\ (s = None <-> 5 = 0)
       /\ forall bs, s = Some bs -> len bs <= 5 - 1.
Proof.
  split; [lia|].
  pose proof (read_lstring_reads [x05; x00; x00; x00; x48; x69] Little 4 0 ltac:(lia))
    as H.
  change (read_size_t [x05; x00; x00; x00; x48; x69] Little 4 0) with (Ok (5, 4)) in H.
  cbv beta iota in H. destruct H as (s & H1 & _ & H3 & H4).
  exists s. split; [exact H1|]. split; [exact H3|].
  intros bs Hbs. exact (proj1 (H4 bs Hbs)).
Defined.

(** ** Escaping and unescaping *)

Lemma free_of_app c s t : free_of c (s ++ t) = free_of c s && free_of c t.
Proof. apply forallb_app. Qed.

Lemma replace_char_free c new s :
  free_of c new = true -> free_of c (replace_char c new s) = true.
Proof.
  intros Hnew. induction s as [|x s IH]; [reflexivity|].
  cbn [replace_char]. destruct (Z.eqb_spec x c) as [->|Hx].
  - rewrite free_of_app, Hnew, IH. reflexivity.
  - cbn [free_of forallb]. fold (free_of c (replace_char c new s)).
    rewrite IH. destruct (Z.eqb_spec x c); [contradiction|reflexivity].
Qed.

Lemma replace_char_keeps_free d c new s :
  free_of d new = true -> free_of d s = true ->
  free_of d (replace_char c new s) = true.
Proof.
  intros Hnew. induction s as [|x s IH]; [reflexivity|].
  cbn [free_of forallb]. fold (free_of d s). intros H.
  apply andb_prop in H as [Hx Hs]. cbn [replace_char].
  destruct (x =? c).
  - rewrite free_of_app, Hnew, (IH Hs). reflexivity.
  - cbn [free_of forallb]. fold (free_of d (replace_char c new s)).
    rewrite Hx, (IH Hs). reflexivity.
Qed.

Lemma replace_char_id c new s : free_of c s = true -> replace_char c new s = s.
Proof.
  induction s as [|x s IH]; [reflexivity|].
  cbn [free_of forallb]. fold (free_of c s). intros H.
  apply andb_prop in H as [Hx Hs]. cbn [replace_char].
  destruct (x =? c); [discriminate|]. rewrite (IH Hs). reflexivity.
Qed.

(** X6. The display text of a string holds no carriage return and no
    line feed, whatever the string, and a text that held none is
    displayed as it is. *)
Theorem escape_text_no_line_break t :
  no_line_break (escape_text t) = true
  /\ (no_line_break t = true -> escape_text t = t).
Proof.
  unfold no_line_break, escape_text. split.
  - apply andb_true_intro. split.
    + apply replace_char_keeps_free; [reflexivity|].
      apply replace_char_free. reflexivity.
    + apply replace_char_free. reflexivity.
  - intros H. apply andb_prop in H as [Hcr Hlf].
    rewrite (replace_char_id CR) by exact Hcr. apply replace_char_id. exact Hlf.
Qed.

Lemma escape_text_no_line_break_witness :
  no_line_break [72; 105] = true /\ escape_text [72; 105] = [72; 105].
Proof.
  split; [reflexivity|].
  apply (proj2 (escape_text_no_line_break [72; 105])). reflexivity.
Defined.

Lemma replace_pair_cons a b new x y r :
  replace_pair a b new (x :: y :: r)
  = if (x =? a) && (y =? b) then new ++ replace_pair a b new r
    else x :: replace_pair a b new (y :: r).
Proof. reflexivity. Qed.

Lemma has_pair_cons a b x y r :
  has_pair a b (x :: y :: r) = ((x =? a) && (y =? b)) || has_pair a b (y :: r).
Proof. reflexivity. Qed.

Lemma has_pair_tail a b x r : has_pair a b (x :: r) = false -> has_pair a b r = false.
Proof.
  destruct r as [|y r]; [reflexivity|]. rewrite has_pair_cons.
  intros H. apply orb_false_elim in H as [_ H]. exact H.
Qed.

(** Replacing [c] by the pair and the pair by [c] again. *)
Lemma replace_pair_char a b c s :
  a <> b -> has_pair a b s = false ->
  replace_pair a b [c] (replace_char c [a; b] s) = s.
Proof.
  intros Hab. induction s as [|x r IH]; [reflexivity|]. intros Hp.
  specialize (IH (has_pair_tail _ _ _ _ Hp)).
  cbn [replace_char]. destruct (Z.eqb_spec x c) as [->|Hx].
  - cbn [app]. rewrite replace_pair_cons, !Z.eqb_refl. cbn [andb app].
    rewrite IH. reflexivity.
  - destruct r as [|z r']; [reflexivity|].
    rewrite has_pair_cons in Hp. apply orb_false_elim in Hp as [Hxz _].
    cbn [replace_char] in IH |- *. destruct (Z.eqb_spec z c) as [->|Hz].
    + cbn [app] in IH |- *. rewrite replace_pair_cons.
      destruct (Z.eqb_spec a b) as [|_]; [contradiction|].
      rewrite andb_false_r. rewrite IH. reflexivity.
    + rewrite replace_pair_cons, Hxz, IH. reflexivity.
Qed.

(** Replacing the pair by [c] and [c] by the pair again. *)
Lemma replace_char_pair a b c :
  forall n s, (length s <= n)%nat -> free_of c s = true ->
    replace_char c [a; b] (replace_pair a b [c] s) = s.
Proof.
  induction n as [|n IH]; intros s Hn Hs.
  { destruct s; [reflexivity|cbn in Hn; lia]. }
  destruct s as [|x [|y r]]; [reflexivity| |].
  - cbn [free_of forallb] in Hs. cbn [replace_pair replace_char].
    destruct (x =? c); [discriminate|reflexivity].
  - rewrite replace_pair_cons.
    cbn [free_of forallb] in Hs. fold (free_of c r) in Hs.
    apply andb_prop in Hs as [Hx Hs]. apply andb_prop in Hs as [Hy Hs].
    cbn [length] in Hn.
    destruct ((x =? a) && (y =? b)) eqn:E.
    + apply andb_prop in E as [Ea Eb].
      apply Z.eqb_eq in Ea as ->. apply Z.eqb_eq in Eb as ->.
      cbn [app replace_char]. rewrite Z.eqb_refl. cbn [app].
      rewrite IH by (try lia; exact Hs). reflexivity.
    + cbn [replace_char]. destruct (x =? c); [discriminate|].
      rewrite IH; [reflexivity|cbn [length]; lia|].
      cbn [free_of forallb]. fold (free_of c r). rewrite Hy, Hs. reflexivity.
Qed.

Lemma replace_pair_keeps_free d a b c :
  d <> c ->
  forall n s, (length s <= n)%nat -> free_of d s = true ->
    free_of d (replace_pair a b [c] s) = true.
Proof.
  intros Hd. induction n as [|n IH]; intros s Hn Hs.
  { destruct s; [reflexivity|cbn in Hn; lia]. }
  destruct s as [|x [|y r]]; [reflexivity|exact Hs|].
  rewrite replace_pair_cons.
  cbn [free_of forallb] in Hs. fold (free_of d r) in Hs.
  apply andb_prop in Hs as [Hx Hs]. apply andb_prop in Hs as [Hy Hs].
  cbn [length] in Hn.
  destruct ((x =? a) && (y =? b)).
  - cbn [app free_of forallb]. fold (free_of d (replace_pair a b [c] r)).
    rewrite IH by (try lia; exact Hs).
    destruct (Z.eqb_spec c d); [congruence|reflexivity].
  - cbn [free_of forallb]. fold (free_of d (replace_pair a b [c] (y :: r))).
    rewrite Hx, IH; [reflexivity|cbn [length]; lia|].
    cbn [free_of forallb]. fold (free_of d r). rewrite Hy, Hs. reflexivity.
Qed.

(** The two replacements of [escape_text] in either order. *)
Lemma escape_text_swap t :
  escape_text t
  = replace_char CR [BACKSLASH; LETTER_r] (replace_char LF [BACKSLASH; LETTER_n] t).
Proof.
  unfold escape_text. induction t as [|x t IH]; [reflexivity|].
  cbn [replace_char].
  destruct (Z.eqb_spec x CR) as [->|Hcr];
    [|destruct (Z.eqb_spec x LF) as [->|Hlf]].
  - change (CR =? LF) with false. cbn [replace_char app].
    change (BACKSLASH =? LF) with false. change (LETTER_r =? LF) with false.
    change (CR =? CR) with true. cbn [app]. rewrite IH. reflexivity.
  - cbn [replace_char app].
    change (BACKSLASH =? CR) with false. change (LETTER_n =? CR) with false.
    change (LF =? LF) with true. cbn [app]. rewrite IH. reflexivity.
  - cbn [replace_char].
    destruct (Z.eqb_spec x CR); [contradiction|].
    destruct (Z.eqb_spec x LF); [contradiction|]. rewrite IH. reflexivity.
Qed.

(** Escaping a line feed creates no backslash-r sequence. *)
Lemma escape_lf_keeps_no_pair s :
  has_pair BACKSLASH LETTER_r s = false ->
  has_pair BACKSLASH LETTER_r (replace_char LF [BACKSLASH; LETTER_n] s) = false.
Proof.
  induction s as [|x r IH]; [reflexivity|]. intros Hp.
  specialize (IH (has_pair_tail _ _ _ _ Hp)).
  cbn [replace_char]. destruct (Z.eqb_spec x LF) as [->|Hx].
  - cbn [app]. rewrite has_pair_cons. change (LETTER_n =? LETTER_r) with false.
    rewrite andb_false_r. cbn [orb].
    destruct (replace_char LF [BACKSLASH; LETTER_n] r) as [|y r'] eqn:E; [reflexivity|].
    rewrite has_pair_cons, IH. change (LETTER_n =? BACKSLASH) with false. reflexivity.
  - destruct r as [|z r']; [reflexivity|].
    rewrite has_pair_cons in Hp. apply orb_false_elim in Hp as [Hxz _].
    cbn [replace_char] in IH |- *. destruct (Z.eqb_spec z LF) as [->|Hz].
    + cbn [app] in IH |- *. rewrite has_pair_cons, IH.
      change (BACKSLASH =? LETTER_r) with false. rewrite andb_false_r. reflexivity.
    + rewrite has_pair_cons, Hxz, IH. reflexivity.
Qed.

(** X7. Unescaping the display text of a text gives the text back,
    provided the text holds no backslash directly followed by [r] or by
    [n]. *)
Theorem unescape_escape t :
  no_escape_sequence t = true -> unescape_text (escape_text t) = t.
Proof.
  unfold no_escape_sequence. intros H. apply andb_prop in H as [Hr Hn].
  apply negb_true_iff in Hr, Hn.
  unfold unescape_text. rewrite escape_text_swap.
  rewrite replace_pair_char; [|discriminate|apply escape_lf_keeps_no_pair; exact Hr].
  apply replace_pair_char; [discriminate|exact Hn].
Qed.

Lemma unescape_escape_witness :
  no_escape_sequence [72; CR; LF; 92; 105] = true
  /\ unescape_text (escape_text [72; CR; LF; 92; 105]) = [72; CR; LF; 92; 105].
Proof.
  split; [reflexivity|]. apply (unescape_escape [72; CR; LF; 92; 105]). reflexivity.
Defined.

Lemma escape_after_unescape s :
  no_line_break s = true -> escape_text (unescape_text s) = s.
Proof.
  unfold no_line_break. intros H. apply andb_prop in H as [Hcr Hlf].
  rewrite escape_text_swap. unfold unescape_text.
  rewrite (replace_char_pair BACKSLASH LETTER_n LF _ _ (Nat.le_refl _)).
  - apply (replace_char_pair BACKSLASH LETTER_r CR _ _ (Nat.le_refl _)). exact Hcr.
  - apply (replace_pair_keeps_free LF BACKSLASH LETTER_r CR ltac:(discriminate)
             _ _ (Nat.le_refl _)).
    exact Hlf.
Qed.

(** X8. Escaping the unescaped form of a text gives the text back,
    provided the text holds no carriage return and no line feed. *)
Theorem escape_unescape s :
  no_line_break s = true -> escape_text (unescape_text s) = s.
Proof. apply escape_after_unescape. Qed.

Lemma escape_unescape_witness :
  no_line_break [72; 92; 110; 92; 92; 114] = true
  /\ escape_text (unescape_text [72; 92; 110; 92; 92; 114]) = [72; 92; 110; 92; 92; 114].
Proof.
  split; [reflexivity|]. apply (escape_unescape [72; 92; 110; 92; 92; 114]). reflexivity.
Defined.

Section printed_index.
Import ImportPy.

(** ** The printed index *)

Lemma uint_chars_digits d : forallb is_ascii_digit (ExtractPy.uint_chars d) = true.
Proof. induction d; cbn [ExtractPy.uint_chars forallb]; try rewrite IHd; reflexivity. Qed.

Lemma uint_chars_acc d :
  forall acc,
    fold_left (fun a c => 10 * a + (c - 48)) (ExtractPy.uint_chars d) (Z.pos acc)
    = Z.pos (Pos.of_uint_acc d acc).
Proof.
  induction d; intros acc; cbn [ExtractPy.uint_chars fold_left Pos.of_uint_acc];
    [reflexivity|..];
    match goal with
    | |- fold_left _ _ ?z = Z.pos (Pos.of_uint_acc _ ?q) =>
        replace z with (Z.pos q) by lia
    end; apply IHd.
Qed.

Lemma uint_chars_value d :
  decimal_value (ExtractPy.uint_chars d) = Z.of_N (Pos.of_uint d).
Proof.
  unfold decimal_value.
  induction d; cbn [ExtractPy.uint_chars fold_left Pos.of_uint];
    [reflexivity|exact IHd|..];
    match goal with
    | |- fold_left _ _ ?z = Z.of_N (N.pos (Pos.of_uint_acc _ ?q)) =>
        change z with (Z.pos q)
    end; apply uint_chars_acc.
Qed.

Lemma decimal_value_zeros k ds :
  decimal_value (repeat 48 k ++ ds) = decimal_value ds.
Proof.
  unfold decimal_value. induction k as [|k IH]; [reflexivity|].
  cbn [repeat app fold_left]. exact IH.
Qed.

Lemma zeros_digits k : forallb is_ascii_digit (repeat 48 k) = true.
Proof. induction k as [|k IH]; [reflexivity|]. cbn [repeat forallb]. rewrite IH. reflexivity. Qed.

Lemma format_05d_nonneg z :
  0 <= z ->
  ExtractPy.format_05d z
  = ExtractPy.zero_pad 5 (ExtractPy.uint_chars (N.to_uint (Z.to_N z))).
Proof.
  intros Hz. unfold ExtractPy.format_05d.
  destruct (Z.ltb_spec z 0); [lia|reflexivity].
Qed.

Lemma format_05d_digits z :
  0 <= z ->
  forallb is_ascii_digit (ExtractPy.format_05d z) = true
  /\ 5 <= len (ExtractPy.format_05d z)
  /\ decimal_value (ExtractPy.format_05d z) = z.
Proof.
  intros Hz. rewrite format_05d_nonneg by exact Hz. unfold ExtractPy.zero_pad.
  remember (ExtractPy.uint_chars (N.to_uint (Z.to_N z))) as ds eqn:Eds.
  split; [|split].
  - rewrite forallb_app, zeros_digits, Eds. apply uint_chars_digits.
  - unfold len. rewrite length_app, repeat_length. lia.
  - rewrite decimal_value_zeros, Eds, uint_chars_value.
    change (Pos.of_uint (N.to_uint (Z.to_N z))) with (N.of_uint (N.to_uint (Z.to_N z))).
    rewrite DecimalN.Unsigned.of_to. lia.
Qed.

Lemma format_05d_nonempty z : 0 <= z -> ExtractPy.format_05d z <> [].
Proof.
  intros Hz E. destruct (format_05d_digits z Hz) as (_ & Hl & _).
  rewrite E in Hl. unfold len in Hl. cbn [length] in Hl. lia.
Qed.

Lemma py_int_format_05d db z :
  0 <= z ->
  max_str_digits db <= 0 \/ len (ExtractPy.format_05d z) <= max_str_digits db ->
  py_int db (ExtractPy.format_05d z) = Some z.
Proof.
  intros Hz Hlim. destruct (format_05d_digits z Hz) as (Hd & _ & Hv).
  rewrite py_int_digits; [rewrite Hv; reflexivity| |exact Hd|exact Hlim].
  apply format_05d_nonempty. exact Hz.
Qed.

(** X9. For an index that is not negative, the digits that the
    extractor prints are ASCII digits, at least five of them, whose
    decimal value is the index; [int()] reads them back as the index
    when their number is within its digit limit. *)
Theorem format_05d_reads_back db z :
  0 <= z ->
  forallb is_ascii_digit (ExtractPy.format_05d z) = true
  /\ 5 <= len (ExtractPy.format_05d z)
  /\ decimal_value (ExtractPy.format_05d z) = z
  /\ (max_str_digits db <= 0 \/ len (ExtractPy.format_05d z) <= max_str_digits db ->
      py_int db (ExtractPy.format_05d z) = Some z).
Proof.
  intros Hz. destruct (format_05d_digits z Hz) as (Hd & Hl & Hv).
  split; [exact Hd|]. split; [exact Hl|]. split; [exact Hv|].
  apply py_int_format_05d. exact Hz.
Qed.

Lemma format_05d_reads_back_witness :
  0 <= 123456
  /\ decimal_value (ExtractPy.format_05d 123456) = 123456
  /\ py_int Examples.ascii_db (ExtractPy.format_05d 7) = Some 7.
Proof.
  split; [lia|]. split.
  - destruct (format_05d_reads_back Examples.ascii_db 123456 ltac:(lia))
      as (_ & _ & H & _).
    exact H.
  - destruct (format_05d_reads_back Examples.ascii_db 7 ltac:(lia)) as (_ & _ & _ & H).
    apply H. right. vm_compute. discriminate.
Defined.

(** ** A record line, written and read *)

Lemma render_black idx text :
  ExtractPy.render_line (ExtractPy.mk_line ExtractPy.Black idx text)
  = BLACK_CIRCLE :: ExtractPy.format_05d idx ++ BLACK_CIRCLE :: SPACE :: text.
Proof. reflexivity. Qed.

Lemma render_white idx text :
  ExtractPy.render_line (ExtractPy.mk_line ExtractPy.White idx text)
  = WHITE_CIRCLE :: ExtractPy.format_05d idx ++ WHITE_CIRCLE :: SPACE :: text.
Proof. reflexivity. Qed.

Lemma index_readable_parts db idx :
  index_readable db idx = true ->
  0 <= idx
  /\ (max_str_digits db <= 0 \/ len (ExtractPy.format_05d idx) <= max_str_digits db).
Proof.
  unfold index_readable. intros H. apply andb_prop in H as [H0 H1].
  apply Z.leb_le in H0. split; [exact H0|].
  apply orb_prop in H1 as [H1|H1]; apply Z.leb_le in H1; auto.
Qed.

Lemma parse_black_line db idx text :
  index_readable db idx = true ->
  parse_line db (ExtractPy.render_line (ExtractPy.mk_line ExtractPy.Black idx text))
  = Some (idx, text).
Proof.
  intros H. apply index_readable_parts in H as [Hz Hlim].
  destruct (format_05d_digits idx Hz) as (Hd & _ & Hv).
  rewrite render_black, parse_line_digits;
    [|apply format_05d_nonempty; exact Hz|exact Hd|exact Hlim].
  rewrite Hv. reflexivity.
Qed.

Lemma parse_white_line db idx text :
  parse_line db (ExtractPy.render_line (ExtractPy.mk_line ExtractPy.White idx text))
  = None.
Proof. reflexivity. Qed.

(** X10. The line that the extractor writes with the black marker for an
    index and a text is read by [load_mapping] as the entry of that index
    with that text, whatever the text; the line with the white marker is
    skipped. *)
Theorem render_then_parse db idx text :
  index_readable db idx = true ->
  parse_line db (ExtractPy.render_line (ExtractPy.mk_line ExtractPy.Black idx text))
  = Some (idx, text)
  /\ parse_line db (ExtractPy.render_line (ExtractPy.mk_line ExtractPy.White idx text))
     = None.
Proof.
  intros H. split; [apply parse_black_line; exact H|apply parse_white_line].
Qed.

Lemma render_then_parse_witness :
  index_readable Examples.ascii_db 12 = true
  /\ parse_line Examples.ascii_db
       (ExtractPy.render_line (ExtractPy.mk_line ExtractPy.Black 12 [SPACE; 97]))
     = Some (12, [SPACE; 97]).
Proof.
  split; [reflexivity|].
  apply (proj1 (render_then_parse Examples.ascii_db 12 [SPACE; 97] eq_refl)).
Defined.

End printed_index.

Section output_file.
Import ImportPy.

(** ** The blocks of the output text *)

Lemma py_slice_shift_two {A} (a b : A) (rest : list A) i j :
  0 <= i -> 0 <= j ->
  py_slice (a :: b :: rest) (i + 2) (j + 2) = py_slice rest i j.
Proof.
  intros Hi Hj. unfold py_slice, adjust_index.
  destruct (Z.ltb_spec (i + 2) 0); [lia|]. destruct (Z.ltb_spec (j + 2) 0); [lia|].
  destruct (Z.ltb_spec i 0); [lia|]. destruct (Z.ltb_spec j 0); [lia|].
  rewrite !len_cons. pose proof (len_nonneg rest).
  replace (Z.min (i + 2) (1 + (1 + len rest))) with (Z.min i (len rest) + 2) by lia.
  replace (Z.min (j + 2) (1 + (1 + len rest))) with (Z.min j (len rest) + 2) by lia.
  replace (Z.to_nat (Z.min i (len rest) + 2)) with (S (S (Z.to_nat (Z.min i (len rest)))))
    by lia.
  cbn [drop]. f_equal. lia.
Qed.

Lemma range_by_two_step n :
  0 <= n ->
  ExtractMain.range_by_two (n + 2)
  = 0 :: map (fun i => i + 2) (ExtractMain.range_by_two n).
Proof.
  intros Hn. unfold ExtractMain.range_by_two.
  replace ((n + 2 + 1) / 2) with ((n + 1) / 2 + 1)
    by (rewrite <- (Z.div_add _ 1 2) by lia; f_equal; lia).
  rewrite Z2Nat.inj_add by (try apply Z.div_pos; lia).
  rewrite Nat.add_comm. change (Z.to_nat 1) with 1%nat. cbn [Nat.add seq map].
  f_equal. rewrite <- seq_shift, !map_map. apply map_ext. intros k. lia.
Qed.

Lemma blocks_nil : ExtractMain.blocks [] = [].
Proof. reflexivity. Qed.

Lemma py_slice_first_two {A} (a b : A) (rest : list A) :
  py_slice (a :: b :: rest) 0 (0 + 2) = [a; b].
Proof.
  unfold py_slice, adjust_index. cbn [Z.ltb Z.compare Z.add].
  rewrite !len_cons. pose proof (len_nonneg rest).
  rewrite (Z.min_l 0), (Z.min_l 2) by lia. reflexivity.
Qed.

Lemma blocks_pair a b rest :
  ExtractMain.blocks (a :: b :: rest) = (a ++ [LF] ++ b) :: ExtractMain.blocks rest.
Proof.
  unfold ExtractMain.blocks. rewrite !len_cons.
  replace (1 + (1 + len rest)) with (len rest + 2) by lia.
  rewrite range_by_two_step by apply len_nonneg. cbn [map]. f_equal; [rewrite py_slice_first_two; reflexivity|].
  rewrite map_map. apply map_ext_in. intros i Hin.
  assert (Hi : 0 <= i).
  { unfold ExtractMain.range_by_two in Hin. apply in_map_iff in Hin as (k & <- & _). lia. }
  rewrite (py_slice_shift_two a b rest i (i + 2)); [reflexivity|lia|lia].
Qed.

Lemma str_join_cons sep p q rest :
  ExtractMain.str_join sep (p :: q :: rest)
  = p ++ sep ++ ExtractMain.str_join sep (q :: rest).
Proof. reflexivity. Qed.

(** ** Lines *)

Lemma boundary_not_cr c : is_line_boundary c = false -> (c =? CR) = false.
Proof.
  intros H. destruct (Z.eqb_spec c CR) as [->|]; [|reflexivity].
  vm_compute in H. discriminate.
Qed.

Lemma splitlines_from_nonboundary c cur rest :
  is_line_boundary c = false ->
  splitlines_from cur (c :: rest) = splitlines_from (c :: cur) rest.
Proof.
  intros Hc. cbn [splitlines_from]. rewrite (boundary_not_cr c Hc), Hc. reflexivity.
Qed.

Lemma no_line_boundary_app s t :
  no_line_boundary (s ++ t) = no_line_boundary s && no_line_boundary t.
Proof. apply forallb_app. Qed.

Lemma splitlines_from_line l :
  forall cur rest,
    no_line_boundary l = true ->
    splitlines_from cur (l ++ LF :: rest) = (rev cur ++ l) :: splitlines_from [] rest.
Proof.
  induction l as [|c l IH]; intros cur rest Hl.
  - cbn [app splitlines_from]. change (LF =? CR) with false.
    change (is_line_boundary LF) with true. cbn iota. rewrite app_nil_r. reflexivity.
  - cbn [no_line_boundary forallb] in Hl. fold (no_line_boundary l) in Hl.
    apply andb_prop in Hl as [Hc Hl]. apply negb_true_iff in Hc.
    cbn [app splitlines_from]. rewrite (boundary_not_cr c Hc), Hc.
    rewrite IH by exact Hl. cbn [rev]. rewrite <- app_assoc. reflexivity.
Qed.

Lemma splitlines_from_last l :
  forall cur,
    no_line_boundary l = true -> rev cur ++ l <> [] ->
    splitlines_from cur l = [rev cur ++ l].
Proof.
  induction l as [|c l IH]; intros cur Hl Hne.
  - rewrite app_nil_r in *. cbn [splitlines_from].
    destruct cur as [|x cur]; [contradiction|reflexivity].
  - cbn [no_line_boundary forallb] in Hl. fold (no_line_boundary l) in Hl.
    apply andb_prop in Hl as [Hc Hl]. apply negb_true_iff in Hc.
    cbn [splitlines_from]. rewrite (boundary_not_cr c Hc), Hc.
    rewrite IH; [cbn [rev]; rewrite <- app_assoc; reflexivity|exact Hl|].
    cbn [rev]. rewrite <- app_assoc. cbn [app]. intros E.
    apply app_eq_nil in E as [_ E]. discriminate.
Qed.

Lemma digit_not_boundary c : is_ascii_digit c = true -> is_line_boundary c = false.
Proof.
  intros H. apply ascii_digit_range in H. unfold is_line_boundary.
  apply bool_decide_eq_false. intros Hin.
  repeat (apply elem_of_cons in Hin as [->|Hin]; [lia|]).
  apply elem_of_nil in Hin. exact Hin.
Qed.

Lemma digits_no_line_boundary ds :
  forallb is_ascii_digit ds = true -> no_line_boundary ds = true.
Proof.
  induction ds as [|d ds IH]; [reflexivity|]. cbn [forallb]. intros H.
  apply andb_prop in H as [Hd Hds].
  cbn [no_line_boundary forallb]. fold (no_line_boundary ds).
  rewrite (digit_not_boundary d Hd), (IH Hds). reflexivity.
Qed.

Lemma render_line_no_line_boundary m idx text :
  0 <= idx -> no_line_boundary text = true ->
  no_line_boundary (ExtractPy.render_line (ExtractPy.mk_line m idx text)) = true.
Proof.
  intros Hz Ht. unfold ExtractPy.render_line.
  cbn [ExtractPy.l_mark ExtractPy.l_index ExtractPy.l_text].
  destruct (format_05d_digits idx Hz) as (Hd & _).
  rewrite !no_line_boundary_app, (digits_no_line_boundary _ Hd), Ht.
  destruct m; reflexivity.
Qed.

Lemma render_line_nonempty l : ExtractPy.render_line l <> [].
Proof. unfold ExtractPy.render_line. discriminate. Qed.

(** ** The output text, read as a mapping file *)

Section output_text.
Variables (db : int_env).

Lemma edited_lines_cons r rest :
  edited_lines (r :: rest)
  = ExtractPy.mk_line ExtractPy.White (ed_index r) (ed_white r)
    :: ExtractPy.mk_line ExtractPy.Black (ed_index r) (ed_black r)
    :: edited_lines rest.
Proof. reflexivity. Qed.

Lemma output_text_cons r rest :
  ExtractMain.output_text (edited_lines (r :: rest))
  = ExtractPy.render_line (ExtractPy.mk_line ExtractPy.White (ed_index r) (ed_white r))
    ++ LF :: ExtractPy.render_line
               (ExtractPy.mk_line ExtractPy.Black (ed_index r) (ed_black r))
    ++ match rest with
       | [] => []
       | _ :: _ => LF :: LF :: ExtractMain.output_text (edited_lines rest)
       end.
Proof.
  unfold ExtractMain.output_text. rewrite edited_lines_cons. cbn [map].
  rewrite blocks_pair. destruct rest as [|r' rest].
  - cbn [edited_lines flat_map map]. rewrite blocks_nil. cbn [ExtractMain.str_join].
    rewrite app_nil_r. reflexivity.
  - rewrite edited_lines_cons. cbn [map]. rewrite blocks_pair, str_join_cons.
    rewrite <- app_assoc. reflexivity.
Qed.

Lemma mapping_step_white m i text :
  mapping_step db m
    (ExtractPy.render_line (ExtractPy.mk_line ExtractPy.White i text)) = m.
Proof. reflexivity. Qed.

Lemma mapping_step_black m i text :
  index_readable db i = true ->
  mapping_step db m
    (ExtractPy.render_line (ExtractPy.mk_line ExtractPy.Black i text))
  = <[i := text]> m.
Proof. intros H. unfold mapping_step. rewrite parse_black_line by exact H. reflexivity. Qed.

Lemma fold_output_text recs :
  forallb (readable_edit db) recs = true ->
  forall m,
    fold_left (mapping_step db)
      (splitlines (ExtractMain.output_text (edited_lines recs))) m
    = fold_left (fun m r => <[ed_index r := ed_black r]> m) recs m.
Proof.
  unfold splitlines.
  induction recs as [|r rest IH]; intros Hall m; [reflexivity|].
  cbn [forallb] in Hall. apply andb_prop in Hall as [Hr Hrest].
  unfold readable_edit in Hr.
  apply andb_prop in Hr as [Hr Hb]. apply andb_prop in Hr as [Hi Hw].
  pose proof (proj1 (index_readable_parts db _ Hi)) as Hz.
  rewrite output_text_cons.
  rewrite splitlines_from_line by (apply render_line_no_line_boundary; assumption).
  cbn [rev app fold_left]. rewrite mapping_step_white.
  destruct rest as [|r' rest'].
  - rewrite app_nil_r.
    rewrite splitlines_from_last;
      [|apply render_line_no_line_boundary; assumption|apply render_line_nonempty].
    cbn [rev app fold_left]. rewrite mapping_step_black by exact Hi.
    reflexivity.
  - rewrite splitlines_from_line by (apply render_line_no_line_boundary; assumption).
    cbn [rev app fold_left]. rewrite mapping_step_black by exact Hi.
    rewrite (splitlines_from_line [] [] _ eq_refl : splitlines_from [] (LF :: _) = _).
    cbn [rev app fold_left]. change (mapping_step db ?x []) with x.
    apply IH. exact Hrest.
Qed.

Lemma load_mapping_edited recs :
  forallb (readable_edit db) recs = true ->
  load_mapping db (ExtractMain.output_text (edited_lines recs))
  = mapping_of_edits recs.
Proof. intros H. apply fold_output_text. exact H. Qed.

Variable (encoding : codec).

Lemma lines_of_edited numbered :
  lines_of encoding numbered = edited_lines (map (extracted encoding) numbered).
Proof.
  induction numbered as [|[i raw] rest IH]; [reflexivity|].
  cbn [map]. rewrite edited_lines_cons, <- IH. reflexivity.
Qed.

Lemma mapping_of_extracted numbered :
  mapping_of encoding numbered = mapping_of_edits (map (extracted encoding) numbered).
Proof.
  unfold mapping_of, mapping_of_edits. generalize (∅ : gmap Z (list Z)).
  induction numbered as [|[i raw] rest IH]; intros m; [reflexivity|].
  cbn [map fold_left]. apply IH.
Qed.

Lemma readable_extracted numbered :
  forallb (readable_record db encoding) numbered = true ->
  forallb (readable_edit db) (map (extracted encoding) numbered) = true.
Proof.
  induction numbered as [|[i raw] rest IH]; [reflexivity|].
  cbn [forallb map]. intros H. apply andb_prop in H as [Hr Hrest].
  rewrite (IH Hrest), andb_true_r.
  unfold readable_record in Hr. unfold readable_edit, extracted.
  cbn [ed_index ed_white ed_black fst snd] in *.
  apply andb_prop in Hr as [-> ->]. reflexivity.
Qed.

Lemma load_mapping_output_text numbered :
  forallb (readable_record db encoding) numbered = true ->
  load_mapping db (ExtractMain.output_text (lines_of encoding numbered))
  = mapping_of encoding numbered.
Proof.
  intros H. rewrite lines_of_edited, mapping_of_extracted.
  apply load_mapping_edited. apply readable_extracted. exact H.
Qed.
End output_text.

(** X11. A text in the layout that the extractor writes, with any text
    on each line, is read by [load_mapping] as the mapping that gives
    every index the text of its line with the black marker, a later
    record replacing an earlier one of the same index: the lines with the
    white marker and the empty lines between the blocks add nothing.
    This holds when no index is negative, the printed indices are within
    the digit limit of [int()], and no text holds a line boundary.  In
    particular the output for a list of numbered strings is read as the
    mapping of their display texts. *)
Theorem load_mapping_of_output db recs :
  forallb (readable_edit db) recs = true ->
  load_mapping db (ExtractMain.output_text (edited_lines recs)) = mapping_of_edits recs
  /\ (forall encoding numbered,
        recs = map (extracted encoding) numbered ->
        load_mapping db (ExtractMain.output_text (lines_of encoding numbered))
        = mapping_of encoding numbered).
Proof.
  intros H. split; [apply load_mapping_edited; exact H|].
  intros encoding numbered ->.
  rewrite lines_of_edited, mapping_of_extracted. apply load_mapping_edited. exact H.
Qed.

Lemma load_mapping_of_output_witness :
  forallb (readable_edit Examples.ascii_db)
    [mk_edited 0 Examples.hello_text Examples.bonjour_text;
     mk_edited 1 Examples.bonjour_text [SPACE; 97]] = true
  /\ load_mapping Examples.ascii_db
       (ExtractMain.output_text
          (edited_lines [mk_edited 0 Examples.hello_text Examples.bonjour_text;
                         mk_edited 1 Examples.bonjour_text [SPACE; 97]]))
     = mapping_of_edits [mk_edited 0 Examples.hello_text Examples.bonjour_text;
                         mk_edited 1 Examples.bonjour_text [SPACE; 97]].
Proof.
  split; [reflexivity|].
  apply (proj1 (load_mapping_of_output Examples.ascii_db
                  [mk_edited 0 Examples.hello_text Examples.bonjour_text;
                   mk_edited 1 Examples.bonjour_text [SPACE; 97]] eq_refl)).
Defined.

End output_file.

(** ** From the chunk to the text and back *)

Lemma mapping_of_below encoding (l : list (list byte)) :
  forall c (m : gmap Z (list Z)) i, i <= c ->
    fold_left (fun m r => <[fst r := display_text encoding (snd r)]> m)
      (number_from c l) m !! i = m !! i.
Proof.
  induction l as [|x l IH]; intros c m i Hi; [reflexivity|].
  cbn [number_from fold_left fst snd]. rewrite IH by lia.
  apply lookup_insert_ne. lia.
Qed.

Lemma mapping_of_lookup encoding (l : list (list byte)) :
  forall c (m : gmap Z (list Z)) i raw, (i, raw) ∈ number_from c l ->
    fold_left (fun m r => <[fst r := display_text encoding (snd r)]> m)
      (number_from c l) m !! i = Some (display_text encoding raw).
Proof.
  induction l as [|x l IH]; intros c m i raw Hin.
  - apply elem_of_nil in Hin. contradiction.
  - cbn [number_from] in Hin. cbn [number_from fold_left fst snd].
    apply elem_of_cons in Hin as [[= -> ->]|Hin].
    + rewrite mapping_of_below by lia. apply lookup_insert_eq.
    + apply IH. exact Hin.
Qed.

Lemma roundtrip_text v f i h p limit db encoding dst_enc :
  valid h p = true ->
  (proto_depth p <= limit)%nat ->
  forallb (readable_record db encoding) (number_from (-1) (proto_strings p)) = true ->
  exists text,
    ExtractMain.main_text limit (encode_chunk v f i h p) encoding = Ok text
    /\ ImportMain.import_file db limit (encode_chunk v f i h p) text encoding dst_enc
       = ImportPy.Written (encode_chunk v f i h p).
Proof.
  intros Hv Hd Hread.
  destruct (valid_parts _ _ Hv) as (Hfmt & Hb & Hwf & Hz).
  unfold ExtractMain.main_text.
  rewrite (extract_strings_encoded v f i h p limit Hfmt Hb Hwf Hd). cbn [bind].
  eexists. split; [reflexivity|].
  unfold ImportMain.import_file.
  rewrite (load_mapping_output_text db encoding _ Hread).
  unfold ImportPy.patch_file. case_bool_decide; [reflexivity|].
  rewrite (patch_walk_encoded v f i h p limit Hfmt Hb Hwf Hd).
  rewrite (patch_proto_noop h _ encoding dst_enc (proto_depth p) p (-1)
             (Nat.le_refl _) Hwf Hz); [reflexivity|].
  intros idx raw Hin. apply patch_const_string_keep. right.
  apply mapping_of_lookup. exact Hin.
Qed.

(** X12. Extraction to the text file and import of that file compose to
    the identity on a valid chunk: [main] of extract.py produces a text,
    and [main] of import.py, given the chunk and that text as its
    mapping file, writes the chunk back byte for byte.  This holds when
    the printed indices are within the digit limit of [int()] and no
    display text holds a line boundary of [str.splitlines]. *)
Theorem roundtrip_through_text v f i h p limit db encoding dst_enc :
  valid h p = true ->
  (proto_depth p <= limit)%nat ->
  forallb (readable_record db encoding) (number_from (-1) (proto_strings p)) = true ->
  exists text,
    ExtractMain.main_text limit (encode_chunk v f i h p) encoding = Ok text
    /\ ImportMain.import_file db limit (encode_chunk v f i h p) text encoding dst_enc
       = ImportPy.Written (encode_chunk v f i h p).
Proof. apply roundtrip_text. Qed.

Lemma roundtrip_through_text_witness :
  valid Examples.fmt Examples.absent_then_hello = true
  /\ (proto_depth Examples.absent_then_hello <= 10)%nat
  /\ forallb (readable_record Examples.ascii_db latin1)
       (number_from (-1) (proto_strings Examples.absent_then_hello)) = true
  /\ exists text,
       ExtractMain.main_text 10 (Examples.chunk_of Examples.absent_then_hello) latin1
       = Ok text
       /\ ImportMain.import_file Examples.ascii_db 10
            (Examples.chunk_of Examples.absent_then_hello) text latin1 latin1
          = ImportPy.Written (Examples.chunk_of Examples.absent_then_hello).
Proof.
  split; [reflexivity|]. split; [vm_compute; lia|]. split; [reflexivity|].
  apply (roundtrip_through_text x51 x00 x00 Examples.fmt Examples.absent_then_hello 10
           Examples.ascii_db latin1 latin1);
    [reflexivity|vm_compute; lia|reflexivity].
Defined.

Section mapping_entries.
Import ImportPy.

(** ** The entries of a loaded mapping *)

Lemma no_line_boundary_rev s : no_line_boundary (rev s) = no_line_boundary s.
Proof.
  induction s as [|c s IH]; [reflexivity|].
  cbn [rev]. rewrite no_line_boundary_app, IH.
  cbn [no_line_boundary forallb]. fold (no_line_boundary s).
  rewrite andb_true_r. apply andb_comm.
Qed.

Lemma splitlines_from_lines n :
  forall s cur, (length s <= n)%nat -> no_line_boundary cur = true ->
    Forall (fun l => no_line_boundary l = true) (splitlines_from cur s).
Proof.
  induction n as [|n IH]; intros s cur Hn Hcur.
  { destruct s; [|cbn in Hn; lia]. cbn [splitlines_from].
    destruct cur; [constructor|].
    constructor; [rewrite no_line_boundary_rev; exact Hcur|constructor]. }
  assert (Hrev : no_line_boundary (rev cur) = true)
    by (rewrite no_line_boundary_rev; exact Hcur).
  destruct s as [|c r].
  { cbn [splitlines_from]. destruct cur; [constructor|].
    constructor; [exact Hrev|constructor]. }
  cbn [length] in Hn. cbn [splitlines_from].
  destruct (c =? CR).
  - destruct r as [|c' r']; [constructor; [exact Hrev|constructor]|].
    cbn [length] in Hn.
    destruct (c' =? LF);
      (constructor; [exact Hrev|apply IH; [cbn [length]; lia|reflexivity]]).
  - destruct (is_line_boundary c) eqn:Ec.
    + constructor; [exact Hrev|apply IH; [lia|reflexivity]].
    + apply IH; [lia|]. cbn [no_line_boundary forallb]. fold (no_line_boundary cur).
      rewrite Ec, Hcur. reflexivity.
Qed.

Lemma split_once_parts sep s h t :
  split_once sep s = Some (h, t) -> s = h ++ sep :: t.
Proof.
  revert h. induction s as [|c r IH]; intros h; [discriminate|].
  cbn [split_once]. destruct (Z.eqb_spec c sep) as [->|_].
  - intros [= <- <-]. reflexivity.
  - destruct (split_once sep r) as [[h' t']|]; [|discriminate].
    intros [= <- <-]. cbn [app]. f_equal. apply IH. reflexivity.
Qed.

Lemma parse_line_suffix db l idx txt :
  parse_line db l = Some (idx, txt) -> exists pre, l = pre ++ txt.
Proof.
  unfold parse_line. destruct l as [|c rest]; [discriminate|].
  destruct (c =? BLACK_CIRCLE); [|discriminate].
  destruct (split_once BLACK_CIRCLE rest) as [[head t]|] eqn:E; [|discriminate].
  apply split_once_parts in E as ->.
  destruct (py_int db head) as [k|]; [|discriminate].
  destruct t as [|c' t'].
  - intros [= <- <-]. exists (c :: head ++ [BLACK_CIRCLE]).
    cbn [app]. rewrite <- app_assoc. reflexivity.
  - destruct (c' =? SPACE); intros [= <- <-].
    + exists (c :: head ++ [BLACK_CIRCLE; c']).
      cbn [app]. rewrite <- app_assoc. reflexivity.
    + exists (c :: head ++ [BLACK_CIRCLE]).
      cbn [app]. rewrite <- app_assoc. reflexivity.
Qed.

Lemma no_line_boundary_no_line_break s :
  no_line_boundary s = true -> no_line_break s = true.
Proof.
  unfold no_line_break. induction s as [|c s IH]; [reflexivity|].
  cbn [no_line_boundary forallb]. fold (no_line_boundary s). intros H.
  apply andb_prop in H as [Hc Hs]. apply IH in Hs. apply andb_prop in Hs as [Hcr Hlf].
  cbn [free_of forallb]. fold (free_of CR s) (free_of LF s). rewrite Hcr, Hlf.
  destruct (Z.eqb_spec c CR) as [->|_]; [discriminate|].
  destruct (Z.eqb_spec c LF) as [->|_]; [discriminate|]. reflexivity.
Qed.

Lemma load_mapping_entry_lines db text idx txt :
  load_mapping db text !! idx = Some txt -> no_line_boundary txt = true.
Proof.
  intros H. apply fold_mapping_lookup in H as (before & l & after & Hs & Hp & _).
  pose proof (splitlines_from_lines (length text) text [] (Nat.le_refl _) eq_refl) as Hall.
  fold (splitlines text) in Hall. rewrite Hs in Hall.
  apply Forall_app in Hall as [_ Hall]. apply Forall_cons in Hall as [Hl _].
  apply parse_line_suffix in Hp as (pre & ->).
  rewrite no_line_boundary_app in Hl. apply andb_prop in Hl as [_ Hl]. exact Hl.
Qed.

(** X13. Every text of a loaded mapping is a single line: it holds no
    line boundary of [str.splitlines], so no carriage return and no line
    feed, and unescaping it and escaping the result gives it back.  A
    replacement can hold a line break only as an escape sequence. *)
Theorem load_mapping_single_line db text idx txt :
  load_mapping db text !! idx = Some txt ->
  no_line_boundary txt = true
  /\ no_line_break txt = true
  /\ escape_text (unescape_text txt) = txt.
Proof.
  intros H. apply load_mapping_entry_lines in H.
  pose proof (no_line_boundary_no_line_break txt H) as Hb.
  split; [exact H|]. split; [exact Hb|].
  apply escape_after_unescape. exact Hb.
Qed.

Lemma load_mapping_single_line_witness :
  load_mapping Examples.ascii_db Examples.two_entries !! 12 = Some [SPACE; 97; SPACE]
  /\ no_line_boundary [SPACE; 97; SPACE] = true
  /\ escape_text (unescape_text [SPACE; 97; SPACE]) = [SPACE; 97; SPACE].
Proof.
  split; [reflexivity|].
  destruct (load_mapping_single_line Examples.ascii_db Examples.two_entries 12
              [SPACE; 97; SPACE] eq_refl) as (H1 & _ & H3).
  split; [exact H1 | exact H3].
Defined.

End mapping_entries.

(** ** What a successful patch leaves behind *)

Lemma patch_const_string_again raw idx mapping src_enc dst_enc bs :
  ImportPy.patch_const_string raw idx mapping src_enc dst_enc = Ok bs ->
  ImportPy.patch_const_string bs idx mapping src_enc dst_enc = Ok bs.
Proof.
  unfold ImportPy.patch_const_string.
  destruct (mapping !! idx) as [new|]; [|intros [= <-]; reflexivity].
  case_bool_decide as Hsame.
  - intros [= <-]. rewrite bool_decide_eq_true_2 by exact Hsame. reflexivity.
  - destruct (encode_strict dst_enc (unescape_text new)) as [bs'|] eqn:E; [|discriminate].
    intros [= <-]. case_bool_decide; reflexivity.
Qed.

Lemma thread_results {A} (f : A -> Z -> result (A * Z)) (strs : A -> list (list byte))
    (g : Z -> list byte -> list byte) (W R : A -> bool) (dpt : A -> nat) (l : list A) :
  (forall x c y c', x ∈ l -> W x = true -> f x c = Ok (y, c') ->
     W y = true /\ R y = true /\ dpt y = dpt x /\ c' = c + len (strs x)
     /\ strs y = map (fun ir => g (fst ir) (snd ir)) (number_from c (strs x))
     /\ f y c = Ok (y, c')) ->
  forall c ys c', forallb W l = true -> thread f l c = Ok (ys, c') ->
    forallb W ys = true /\ forallb R ys = true /\ map dpt ys = map dpt l
    /\ length ys = length l /\ c' = c + len (flat_map strs l)
    /\ flat_map strs ys
       = map (fun ir => g (fst ir) (snd ir)) (number_from c (flat_map strs l))
    /\ thread f ys c = Ok (ys, c').
Proof.
  induction l as [|x l IH]; intros Hf c ys c' Hw; cbn [thread flat_map].
  - intros [= <- <-]. rewrite len_nil. repeat split; first [reflexivity | lia].
  - cbn [forallb] in Hw. apply andb_prop in Hw as [Hwx Hwl].
    destruct (f x c) as [[y c1]|] eqn:Hx; cbn [bind]; [|discriminate].
    fold (thread f). destruct (thread f l c1) as [[ys1 c2]|] eqn:Hl; cbn [bind];
      [|discriminate].
    intros [= <- <-].
    apply Hf in Hx as (Wy & Ry & Dy & -> & Sy & Fy); [|apply list_elem_of_here|exact Hwx].
    apply IH in Hl as (Wys & Rys & Dys & Lys & -> & Sys & Fys);
      [|intros; eapply Hf; eauto using list_elem_of_further|exact Hwl].
    cbn [forallb map length flat_map thread]. fold (thread f).
    rewrite Wy, Ry, Wys, Rys, Dy, Dys, Lys, Fy. cbn [bind]. rewrite Fys. cbn [bind].
    rewrite number_from_app, map_app, Sy, Sys, len_app.
    repeat split; first [reflexivity | lia].
Qed.

Section results.
Variables (h : header) (mapping : gmap Z (list Z)) (src_enc dst_enc : codec).

Lemma patch_constant_results k c k' c' :
  wf_constant h k = true ->
  patch_constant h mapping src_enc dst_enc k c = Ok (k', c') ->
  wf_constant h k' = true /\ zero_terminated_constant k' = true
  /\ O = O /\ c' = c + len (constant_strings k)
  /\ constant_strings k'
     = map (fun ir => patched mapping src_enc dst_enc (fst ir) (snd ir))
         (number_from c (constant_strings k))
  /\ patch_constant h mapping src_enc dst_enc k' c = Ok (k', c').
Proof.
  intros Hwf.
  destruct k as [|b|payload|[[raw t]|]];
    cbn [patch_constant constant_strings];
    try (intros [= <- <-]; rewrite len_nil;
         repeat split; first [reflexivity | exact Hwf | lia]).
  destruct (ImportPy.patch_const_string raw (c + 1) mapping src_enc dst_enc)
    as [bs|] eqn:E; cbn [bind]; [|discriminate].
  destruct (size_ok h (len bs + 1)) eqn:Hs; [|discriminate].
  intros [= <- <-]. rewrite len_cons, len_nil.
  cbn [wf_constant wf_lstring zero_terminated_constant zero_terminated_lstring
       constant_strings number_from map fst snd patch_constant].
  unfold patched. rewrite E, (patch_const_string_again _ _ _ _ _ _ E). cbn [bind].
  rewrite Hs. repeat split; first [reflexivity | lia].
Qed.

Lemma wf_normalize_lstring s : wf_lstring h (normalize_lstring s) = wf_lstring h s.
Proof. destruct s as [[? ?]|]; reflexivity. Qed.

Lemma zero_terminated_normalize s :
  zero_terminated_lstring (normalize_lstring s) = true.
Proof. destruct s as [[? ?]|]; reflexivity. Qed.

Lemma normalize_lstring_twice s :
  normalize_lstring (normalize_lstring s) = normalize_lstring s.
Proof. destruct s as [[? ?]|]; reflexivity. Qed.

Lemma forallb_map {A B} (P : B -> bool) (g : A -> B) (l : list A) :
  forallb P (map g l) = forallb (fun x => P (g x)) l.
Proof. induction l as [|x l IH]; [reflexivity|]. cbn [map forallb]. rewrite IH. reflexivity. Qed.

Lemma forallb_same {A} (P Q : A -> bool) (l : list A) :
  (forall x, P x = Q x) -> forallb P l = forallb Q l.
Proof.
  intros H. induction l as [|x l IH]; [reflexivity|].
  cbn [forallb]. rewrite H, IH. reflexivity.
Qed.

Lemma forallb_true {A} (l : list A) : forallb (fun _ => true) l = true.
Proof. induction l as [|x l IH]; [reflexivity|exact IH]. Qed.

Lemma len_map {A B} (g : A -> B) (l : list A) : len (map g l) = len l.
Proof. unfold len. rewrite length_map. reflexivity. Qed.

Lemma patch_proto_results n :
  forall p c p' c', (proto_depth p <= n)%nat ->
    wf_proto h p = true ->
    patch_proto h mapping src_enc dst_enc p c = Ok (p', c') ->
    wf_proto h p' = true /\ zero_terminated p' = true
    /\ proto_depth p' = proto_depth p /\ c' = c + len (proto_strings p)
    /\ proto_strings p'
       = map (fun ir => patched mapping src_enc dst_enc (fst ir) (snd ir))
           (number_from c (proto_strings p))
    /\ patch_proto h mapping src_enc dst_enc p' c = Ok (p', c').
Proof.
  induction n as [|n IH]; intros p c p' c' Hd Hwf.
  { destruct p; cbn [proto_depth] in Hd. lia. }
  pose proof (proto_depth_child p) as Hchild.
  destruct p as [src a b flags szc cd ks cs szl li lvs ups].
  cbn [wf_proto source_name line_defined last_line_defined flag_block sizecode
       code constants children sizelineinfo lineinfo locvars upvalues] in Hwf.
  cbn [children] in Hchild.
  apply andb_prop in Hwf as [Hwf Hups]. apply andb_prop in Hwf as [Hwf Hnup].
  apply andb_prop in Hwf as [Hwf Hlvs]. apply andb_prop in Hwf as [Hwf Hnlv].
  apply andb_prop in Hwf as [Hwf Hli]. apply andb_prop in Hwf as [Hwf Hszl].
  apply andb_prop in Hwf as [Hwf Hcs]. apply andb_prop in Hwf as [Hwf Hncs].
  apply andb_prop in Hwf as [Hwf Hks]. apply andb_prop in Hwf as [Hwf Hnks].
  apply andb_prop in Hwf as [Hwf Hcd]. apply andb_prop in Hwf as [Hwf Hszc].
  apply andb_prop in Hwf as [Hwf Hfl]. apply andb_prop in Hwf as [Hwf Hb].
  apply andb_prop in Hwf as [Hsrc Ha].
  cbn [patch_proto constants children source_name line_defined last_line_defined
       flag_block sizecode code sizelineinfo lineinfo locvars upvalues].
  destruct (thread _ ks c) as [[ks' c1]|] eqn:Eks; cbn [bind]; [|discriminate].
  destruct (thread _ cs c1) as [[cs' c2]|] eqn:Ecs; cbn [bind]; [|discriminate].
  intros [= <- <-].
  apply (thread_results _ constant_strings (patched mapping src_enc dst_enc)
           (wf_constant h) zero_terminated_constant (fun _ => O)) in Eks
    as (Wks & Rks & _ & Lks & -> & Sks & Fks); [| |exact Hks].
  2:{ intros x c0 y c0' _. apply patch_constant_results. }
  apply (thread_results _ proto_strings (patched mapping src_enc dst_enc)
           (wf_proto h) zero_terminated proto_depth) in Ecs
    as (Wcs & Rcs & Dcs & Lcs & -> & Scs & Fcs); [| |exact Hcs].
  2:{ intros x c0 y c0' Hin. apply IH.
      specialize (Hchild x Hin). cbn [proto_depth children] in Hchild, Hd |- *. lia. }
  assert (Hlk : len ks' = len ks) by (unfold len; rewrite Lks; reflexivity).
  assert (Hlc : len cs' = len cs) by (unfold len; rewrite Lcs; reflexivity).
  split; [|split; [|split; [|split; [|split]]]].
  - cbn [wf_proto source_name line_defined last_line_defined flag_block sizecode
         code constants children sizelineinfo lineinfo locvars upvalues].
    rewrite wf_normalize_lstring, Hsrc, Ha, Hb, Hfl, Hszc, Hcd, Hlk, Hnks, Wks,
      Hlc, Hncs, Wcs, Hszl, Hli, !len_map, Hnlv, Hnup.
    rewrite !forallb_map.
    rewrite (forallb_same _ (wf_locvar h)), Hlvs
      by (intros lv; unfold wf_locvar, normalize_locvar;
          cbn [lv_name lv_startpc lv_endpc]; rewrite wf_normalize_lstring; reflexivity).
    rewrite (forallb_same _ (wf_lstring h)), Hups
      by (intros s; apply wf_normalize_lstring).
    reflexivity.
  - cbn [zero_terminated source_name constants children locvars upvalues].
    rewrite zero_terminated_normalize, Rks, Rcs, !forallb_map.
    rewrite (forallb_same _ (fun _ => true)), forallb_true
      by (intros lv; cbn [normalize_locvar lv_name]; apply zero_terminated_normalize).
    rewrite (forallb_same _ (fun _ => true)), forallb_true
      by (intros s; apply zero_terminated_normalize).
    reflexivity.
  - cbn [proto_depth children]. rewrite Dcs. reflexivity.
  - cbn [proto_strings constants children]. rewrite len_app. lia.
  - cbn [proto_strings constants children].
    rewrite number_from_app, map_app, Sks, Scs. reflexivity.
  - cbn [patch_proto constants children source_name line_defined last_line_defined
         flag_block sizecode code sizelineinfo lineinfo locvars upvalues].
    rewrite Fks. cbn [bind]. rewrite Fcs. cbn [bind].
    rewrite normalize_lstring_twice, !map_map.
    rewrite (map_ext (fun x => normalize_locvar (normalize_locvar x)) normalize_locvar)
      by (intros lv; unfold normalize_locvar; cbn [lv_name lv_startpc lv_endpc];
          rewrite normalize_lstring_twice; reflexivity).
    rewrite (map_ext (fun x => normalize_lstring (normalize_lstring x))
               normalize_lstring) by (intros s; apply normalize_lstring_twice).
    reflexivity.
Qed.
End results.

(** ** The output of a patch *)

Lemma number_from_patched {A} (g : Z -> A -> A) (l : list A) :
  forall c,
    number_from c (map (fun ir => g (fst ir) (snd ir)) (number_from c l))
    = map (fun ir => (fst ir, g (fst ir) (snd ir))) (number_from c l).
Proof.
  induction l as [|x l IH]; intros c; [reflexivity|].
  cbn [number_from map fst snd]. rewrite IH. reflexivity.
Qed.

Lemma number_from_fst {A B} (g : Z * A -> B) (l : list A) :
  forall c, map fst (map (fun ir => (fst ir, g ir)) (number_from c l))
            = map fst (number_from c l).
Proof.
  intros c. rewrite map_map. reflexivity.
Qed.

Lemma number_from_snd {A} (l : list A) :
  forall c, map snd (number_from c l) = l.
Proof.
  induction l as [|x l IH]; intros c; [reflexivity|].
  cbn [number_from map snd]. rewrite IH. reflexivity.
Qed.

Lemma patched_empty src_enc dst_enc idx raw : patched ∅ src_enc dst_enc idx raw = raw.
Proof. apply patched_keep. left. apply lookup_empty. Qed.

Section written.
Variables (v f i : byte) (h : header) (p : proto) (limit : nat).
Variables (mapping : gmap Z (list Z)) (src_enc dst_enc : codec).
Hypothesis (Hfmt : wf_format h = true) (Hbytes : byte_sized h = true).
Hypothesis (Hwf : wf_proto h p = true).
Hypothesis (Hdepth : (proto_depth p <= limit)%nat).

Lemma patch_file_walk :
  mapping <> ∅ ->
  ImportPy.patch_file limit (encode_chunk v f i h p) mapping src_enc dst_enc
  = match patch_proto h mapping src_enc dst_enc p (-1) with
    | Ok (p', _) => ImportPy.Written (encode_chunk v f i h p')
    | Err UnicodeEncodeError => ImportPy.NotWritten
    | Err ex => ImportPy.Raised ex
    end.
Proof.
  intros Hm. unfold ImportPy.patch_file.
  rewrite bool_decide_eq_false_2 by exact Hm.
  apply patch_walk_encoded; assumption.
Qed.

Lemma patch_file_tree out :
  ImportPy.patch_file limit (encode_chunk v f i h p) mapping src_enc dst_enc
  = ImportPy.Written out ->
  exists p',
    out = encode_chunk v f i h p'
    /\ wf_proto h p' = true
    /\ proto_depth p' = proto_depth p
    /\ proto_strings p'
       = map (fun ir => patched mapping src_enc dst_enc (fst ir) (snd ir))
           (number_from (-1) (proto_strings p))
    /\ (mapping <> ∅ ->
        zero_terminated p' = true
        /\ exists c', patch_proto h mapping src_enc dst_enc p' (-1) = Ok (p', c')).
Proof.
  destruct (decide (mapping = ∅)) as [Hm|Hm].
  - unfold ImportPy.patch_file. rewrite bool_decide_eq_true_2 by exact Hm.
    intros [= <-]. exists p. split; [reflexivity|]. split; [exact Hwf|].
    split; [reflexivity|]. split; [|contradiction].
    subst mapping.
    rewrite (map_ext _ snd) by (intros [? ?]; apply patched_empty).
    symmetry. apply number_from_snd.
  - rewrite (patch_file_walk Hm).
    destruct (patch_proto h mapping src_enc dst_enc p (-1)) as [[p' c']|ex] eqn:E.
    + intros [= <-].
      apply (patch_proto_results h mapping src_enc dst_enc (proto_depth p)) in E
        as (W & R & D & _ & S & F); [|lia|exact Hwf].
      exists p'. split; [reflexivity|]. split; [exact W|]. split; [exact D|].
      split; [exact S|]. intros _. split; [exact R|]. exists c'. exact F.
    + destruct ex; discriminate.
Qed.
End written.

(** X14. A file that [patch_file] writes for a well-formed chunk is again
    a well-formed chunk in the same format, of the same nesting depth,
    whose string constants are the patched payloads of the input's, in
    the same order; under a mapping that is not empty every string of the
    output ends in a zero byte, so the output is a valid chunk. *)
Theorem patch_output_well_formed v f i h p limit mapping src_enc dst_enc out :
  wf_format h = true -> byte_sized h = true -> wf_proto h p = true ->
  (proto_depth p <= limit)%nat ->
  ImportPy.patch_file limit (encode_chunk v f i h p) mapping src_enc dst_enc
  = ImportPy.Written out ->
  exists p',
    out = encode_chunk v f i h p'
    /\ wf_proto h p' = true
    /\ proto_depth p' = proto_depth p
    /\ proto_strings p'
       = map (fun ir => patched mapping src_enc dst_enc (fst ir) (snd ir))
           (number_from (-1) (proto_strings p))
    /\ (mapping <> ∅ -> valid h p' = true).
Proof.
  intros Hfmt Hb Hwf Hd Hrun.
  destruct (patch_file_tree v f i h p limit mapping src_enc dst_enc Hfmt Hb Hwf Hd
              out Hrun) as (p' & Hout & W & D & S & Z).
  exists p'. split; [exact Hout|]. split; [exact W|]. split; [exact D|].
  split; [exact S|]. intros Hm. destruct (Z Hm) as [R _].
  unfold valid. rewrite Hfmt, Hb, W, R. reflexivity.
Qed.

Lemma patch_output_well_formed_witness :
  wf_format Examples.fmt = true /\ byte_sized Examples.fmt = true
  /\ wf_proto Examples.fmt Examples.odd_terminator = true
  /\ (proto_depth Examples.odd_terminator <= 10)%nat
  /\ ImportPy.patch_file 10 (Examples.chunk_of Examples.odd_terminator)
       (<[0 := Examples.bonjour_text]> ∅) latin1 latin1
     = ImportPy.Written
         (Examples.chunk_of (Examples.proto_with [KString (Some (Examples.bonjour, x00))]))
  /\ exists p',
       Examples.chunk_of (Examples.proto_with [KString (Some (Examples.bonjour, x00))])
       = encode_chunk x51 x00 x00 Examples.fmt p'
       /\ wf_proto Examples.fmt p' = true
       /\ valid Examples.fmt p' = true.
Proof.
  assert (H1 : wf_format Examples.fmt = true) by reflexivity.
  assert (H2 : byte_sized Examples.fmt = true) by reflexivity.
  assert (H3 : wf_proto Examples.fmt Examples.odd_terminator = true)
    by (vm_compute; reflexivity).
  assert (H4 : (proto_depth Examples.odd_terminator <= 10)%nat) by (cbn; lia).
  assert (H5 : ImportPy.patch_file 10 (Examples.chunk_of Examples.odd_terminator)
                 (<[0 := Examples.bonjour_text]> ∅) latin1 latin1
               = ImportPy.Written
                   (Examples.chunk_of
                      (Examples.proto_with [KString (Some (Examples.bonjour, x00))])))
    by (vm_compute; reflexivity).
  split; [exact H1|]. split; [exact H2|]. split; [exact H3|]. split; [exact H4|].
  split; [exact H5|].
  destruct (patch_output_well_formed x51 x00 x00 Examples.fmt Examples.odd_terminator 10
              (<[0 := Examples.bonjour_text]> ∅) latin1 latin1 _ H1 H2 H3 H4 H5)
    as (p' & E & W & _ & _ & V).
  exists p'. split; [exact E|]. split; [exact W|].
  apply V. intros Hm. apply (f_equal (fun m => m !! 0)) in Hm.
  rewrite lookup_insert_eq, lookup_empty in Hm. discriminate.
Defined.


(** X15. Patching the output of a patch again with the same mapping
    writes that output back byte for byte. *)
Theorem patch_file_idempotent v f i h p limit mapping src_enc dst_enc out :
  wf_format h = true -> byte_sized h = true -> wf_proto h p = true ->
  (proto_depth p <= limit)%nat ->
  ImportPy.patch_file limit (encode_chunk v f i h p) mapping src_enc dst_enc
  = ImportPy.Written out ->
  ImportPy.patch_file limit out mapping src_enc dst_enc = ImportPy.Written out.
Proof.
  intros Hfmt Hb Hwf Hd Hrun.
  destruct (decide (mapping = ∅)) as [Hm|Hm].
  { unfold ImportPy.patch_file. rewrite bool_decide_eq_true_2 by exact Hm. reflexivity. }
  destruct (patch_file_tree v f i h p limit mapping src_enc dst_enc Hfmt Hb Hwf Hd
              out Hrun) as (p' & -> & W & D & _ & Z).
  destruct (Z Hm) as (_ & c' & F).
  rewrite (patch_file_walk v f i h p' limit mapping src_enc dst_enc Hfmt Hb W
             ltac:(lia) Hm), F.
  reflexivity.
Qed.

Lemma patch_file_idempotent_witness :
  wf_format Examples.fmt = true /\ byte_sized Examples.fmt = true
  /\ wf_proto Examples.fmt Examples.greeting = true
  /\ (proto_depth Examples.greeting <= 10)%nat
  /\ ImportPy.patch_file 10 (Examples.chunk_of Examples.greeting)
       (<[0 := Examples.bonjour_text]> ∅) latin1 latin1
     = ImportPy.Written
         (Examples.chunk_of (Examples.proto_with [KString (Some (Examples.bonjour, x00))]))
  /\ ImportPy.patch_file 10
       (Examples.chunk_of (Examples.proto_with [KString (Some (Examples.bonjour, x00))]))
       (<[0 := Examples.bonjour_text]> ∅) latin1 latin1
     = ImportPy.Written
         (Examples.chunk_of (Examples.proto_with [KString (Some (Examples.bonjour, x00))])).
Proof.
  assert (H1 : wf_format Examples.fmt = true) by reflexivity.
  assert (H2 : byte_sized Examples.fmt = true) by reflexivity.
  assert (H3 : wf_proto Examples.fmt Examples.greeting = true) by (vm_compute; reflexivity).
  assert (H4 : (proto_depth Examples.greeting <= 10)%nat) by (cbn; lia).
  assert (H5 : ImportPy.patch_file 10 (Examples.chunk_of Examples.greeting)
                 (<[0 := Examples.bonjour_text]> ∅) latin1 latin1
               = ImportPy.Written
                   (Examples.chunk_of
                      (Examples.proto_with [KString (Some (Examples.bonjour, x00))])))
    by (vm_compute; reflexivity).
  split; [exact H1|]. split; [exact H2|]. split; [exact H3|]. split; [exact H4|].
  split; [exact H5|].
  exact (patch_file_idempotent x51 x00 x00 Examples.fmt Examples.greeting 10
           (<[0 := Examples.bonjour_text]> ∅) latin1 latin1 _ H1 H2 H3 H4 H5).
Defined.


(** X16. Extraction from the output of a patch gives the records of the
    patched payloads under the indices that extraction from the input
    gives: patching changes no index and adds or removes no record. *)
Theorem extract_after_patch v f i h p limit mapping src_enc dst_enc encoding out :
  wf_format h = true -> byte_sized h = true -> wf_proto h p = true ->
  (proto_depth p <= limit)%nat ->
  ImportPy.patch_file limit (encode_chunk v f i h p) mapping src_enc dst_enc
  = ImportPy.Written out ->
  exists before after,
    ExtractPy.extract_strings limit (encode_chunk v f i h p) encoding = Ok before
    /\ ExtractPy.extract_strings limit out encoding = Ok after
    /\ after
       = lines_of encoding
           (map (fun ir => (fst ir, patched mapping src_enc dst_enc (fst ir) (snd ir)))
              (number_from (-1) (proto_strings p)))
    /\ record_indices after = record_indices before.
Proof.
  intros Hfmt Hb Hwf Hd Hrun.
  destruct (patch_file_tree v f i h p limit mapping src_enc dst_enc Hfmt Hb Hwf Hd
              out Hrun) as (p' & -> & W & D & S & _).
  exists (lines_of encoding (number_from (-1) (proto_strings p))). eexists.
  split; [apply extract_strings_encoded; assumption|].
  split; [apply extract_strings_encoded; [assumption..|lia]|].
  rewrite S, number_from_patched. split; [reflexivity|].
  rewrite !record_indices_lines_of. apply number_from_fst.
Qed.

Lemma extract_after_patch_witness :
  wf_format Examples.fmt = true /\ byte_sized Examples.fmt = true
  /\ wf_proto Examples.fmt Examples.absent_then_hello = true
  /\ (proto_depth Examples.absent_then_hello <= 10)%nat
  /\ ImportPy.patch_file 10 (Examples.chunk_of Examples.absent_then_hello)
       (<[0 := Examples.bonjour_text]> ∅) latin1 latin1
     = ImportPy.Written
         (Examples.chunk_of
            (Examples.proto_with [KString None; KString (Some (Examples.bonjour, x00))]))
  /\ exists before after,
       ExtractPy.extract_strings 10 (Examples.chunk_of Examples.absent_then_hello) latin1
       = Ok before
       /\ ExtractPy.extract_strings 10
            (Examples.chunk_of
               (Examples.proto_with
                  [KString None; KString (Some (Examples.bonjour, x00))])) latin1
          = Ok after
       /\ record_indices after = record_indices before.
Proof.
  assert (H1 : wf_format Examples.fmt = true) by reflexivity.
  assert (H2 : byte_sized Examples.fmt = true) by reflexivity.
  assert (H3 : wf_proto Examples.fmt Examples.absent_then_hello = true)
    by (vm_compute; reflexivity).
  assert (H4 : (proto_depth Examples.absent_then_hello <= 10)%nat) by (cbn; lia).
  assert (H5 : ImportPy.patch_file 10 (Examples.chunk_of Examples.absent_then_hello)
                 (<[0 := Examples.bonjour_text]> ∅) latin1 latin1
               = ImportPy.Written
                   (Examples.chunk_of
                      (Examples.proto_with
                         [KString None; KString (Some (Examples.bonjour, x00))])))
    by (vm_compute; reflexivity).
  split; [exact H1|]. split; [exact H2|]. split; [exact H3|]. split; [exact H4|].
  split; [exact H5|].
  destruct (extract_after_patch x51 x00 x00 Examples.fmt Examples.absent_then_hello 10
              (<[0 := Examples.bonjour_text]> ∅) latin1 latin1 latin1 _ H1 H2 H3 H4 H5)
    as (before & after & E1 & E2 & _ & E4).
  exists before, after. split; [exact E1|]. split; [exact E2|]. exact E4.
Defined.

(** ** How a patch can fail *)

Lemma thread_error {A} (f : A -> Z -> result (A * Z)) (strs : A -> list (list byte))
    (P : exn -> Z -> list byte -> Prop) (l : list A) :
  (forall x c y c', x ∈ l -> f x c = Ok (y, c') -> c' = c + len (strs x)) ->
  (forall x c ex, x ∈ l -> f x c = Err ex ->
     exists i r, (i, r) ∈ number_from c (strs x) /\ P ex i r) ->
  forall c ex, thread f l c = Err ex ->
    exists i r, (i, r) ∈ number_from c (flat_map strs l) /\ P ex i r.
Proof.
  induction l as [|x l IH]; intros Hok Herr c ex; cbn [thread flat_map]; [discriminate|].
  destruct (f x c) as [[y c1]|ex1] eqn:Hx; cbn [bind].
  - fold (thread f). destruct (thread f l c1) as [[ys c2]|ex2] eqn:Hl; cbn [bind];
      [discriminate|].
    intros [= <-].
    apply Hok in Hx as ->; [|apply list_elem_of_here].
    apply IH in Hl as (i & r & Hin & HP);
      [|intros; eapply Hok; eauto using list_elem_of_further
       |intros; eapply Herr; eauto using list_elem_of_further].
    exists i, r. split; [|exact HP]. apply elem_of_number_from_app_r. exact Hin.
  - intros [= <-].
    apply Herr in Hx as (i & r & Hin & HP); [|apply list_elem_of_here].
    exists i, r. split; [|exact HP]. apply elem_of_number_from_app_l. exact Hin.
Qed.

(** With a lower recursion limit a walk either runs out of depth or
    ends as with the higher limit. *)
Lemma repeat_loop_short {S} (step1 step2 : S -> result S) (n : nat) :
  (forall s, step1 s = Err RecursionError \/ step1 s = step2 s) ->
  forall s, repeat_loop n step1 s = Err RecursionError
            \/ repeat_loop n step1 s = repeat_loop n step2 s.
Proof.
  intros Hstep. induction n as [|n IH]; intros s; cbn [repeat_loop]; [right; reflexivity|].
  destruct (Hstep s) as [E|E]; rewrite E; [left; reflexivity|].
  destruct (step2 s) as [s'|ex]; cbn [bind]; [apply IH | right; reflexivity].
Qed.

Ltac short_step :=
  match goal with
  | |- context [bind ?op _] =>
      lazymatch op with
      | for_range _ _ _ => fail
      | bind _ _ => fail
      | _ =>
          let v := fresh "v" in
          destruct op as [v|?];
          [ repeat match goal with x : (_ * _)%type |- _ => destruct x end; cbn [bind]
          | cbn [bind]; right; reflexivity ]
      end
  end.

Section short.
Variables (data : list byte) (e : endian).
Variables (int_size size_t_size instr_size number_size : Z).
Variables (mapping : gmap Z (list Z)) (src_enc dst_enc : codec).

Lemma patch_depth_short d :
  forall d' st, (d <= d')%nat ->
    ImportPy.process_proto data e int_size size_t_size instr_size number_size
      mapping src_enc dst_enc d st = Err RecursionError
    \/ ImportPy.process_proto data e int_size size_t_size instr_size number_size
         mapping src_enc dst_enc d st
       = ImportPy.process_proto data e int_size size_t_size instr_size number_size
           mapping src_enc dst_enc d' st.
Proof.
  induction d as [|d IH]; intros d' st Hle; [left; reflexivity|].
  destruct d' as [|d']; [lia|].
  cbn [ImportPy.process_proto].
  repeat short_step.
  match goal with
  | |- context [bind (for_range ?n ?step ?s) _] =>
      destruct (for_range n step s) as [s1|]; cbn [bind]; [|right; reflexivity]
  end.
  repeat short_step.
  match goal with
  | |- context [bind (for_range ?n (ImportPy.process_proto ?a ?b ?c ?f ?g ?i ?j ?k ?l d) ?s) _] =>
      destruct (repeat_loop_short
                  (ImportPy.process_proto a b c f g i j k l d)
                  (ImportPy.process_proto a b c f g i j k l d')
                  (Z.to_nat n) (fun s0 => IH d' s0 ltac:(lia)) s) as [E|E];
        unfold for_range; rewrite E; cbn [bind]; [left|right]; reflexivity
  end.
Qed.
End short.

Section failures.
Variables (h : header) (mapping : gmap Z (list Z)) (src_enc dst_enc : codec).

(** [patch_const_string] raises only what the encoder raises. *)
Lemma patch_const_string_error raw idx ex :
  ImportPy.patch_const_string raw idx mapping src_enc dst_enc = Err ex ->
  exists new,
    mapping !! idx = Some new
    /\ new <> display_text src_enc raw
    /\ encode_strict dst_enc (unescape_text new) = Err ex.
Proof.
  unfold ImportPy.patch_const_string.
  destruct (mapping !! idx) as [new|]; [|discriminate].
  case_bool_decide as Hsame; [discriminate|].
  intros E. exists new. auto.
Qed.

Lemma patch_constant_error k c ex :
  patch_constant h mapping src_enc dst_enc k c = Err ex ->
  exists i r,
    (i, r) ∈ number_from c (constant_strings k)
    /\ (ImportPy.patch_const_string r i mapping src_enc dst_enc = Err ex
        \/ (ex = StructError
            /\ exists bs,
                 ImportPy.patch_const_string r i mapping src_enc dst_enc = Ok bs
                 /\ size_ok h (len bs + 1) = false)).
Proof.
  destruct k as [|b|payload|[[raw t]|]]; cbn [patch_constant]; try discriminate.
  destruct (ImportPy.patch_const_string raw (c + 1) mapping src_enc dst_enc)
    as [bs|ex'] eqn:E; cbn [bind].
  - destruct (size_ok h (len bs + 1)) eqn:Hs; [discriminate|].
    intros [= <-]. exists (c + 1), raw. split; [apply list_elem_of_here|].
    right. split; [reflexivity|]. exists bs. auto.
  - intros [= <-]. exists (c + 1), raw. split; [apply list_elem_of_here|].
    left. exact E.
Qed.

Lemma patch_proto_error n :
  forall p c ex, (proto_depth p <= n)%nat ->
    patch_proto h mapping src_enc dst_enc p c = Err ex ->
    exists i r,
      (i, r) ∈ number_from c (proto_strings p)
      /\ (ImportPy.patch_const_string r i mapping src_enc dst_enc = Err ex
          \/ (ex = StructError
              /\ exists bs,
                   ImportPy.patch_const_string r i mapping src_enc dst_enc = Ok bs
                   /\ size_ok h (len bs + 1) = false)).
Proof.
  pose (P := fun (ex : exn) (i : Z) (r : list byte) =>
               ImportPy.patch_const_string r i mapping src_enc dst_enc = Err ex
               \/ (ex = StructError
                   /\ exists bs,
                        ImportPy.patch_const_string r i mapping src_enc dst_enc = Ok bs
                        /\ size_ok h (len bs + 1) = false)).
  induction n as [|n IH]; intros p c ex Hd.
  { destruct p; cbn [proto_depth] in Hd. lia. }
  pose proof (proto_depth_child p) as Hchild.
  destruct p as [src a b flags szc cd ks cs szl li lvs ups].
  cbn [children] in Hchild.
  cbn [patch_proto proto_strings constants children source_name line_defined
       last_line_defined flag_block sizecode code sizelineinfo lineinfo locvars
       upvalues].
  destruct (thread _ ks c) as [[ks' c1]|ex1] eqn:Eks; cbn [bind].
  - destruct (thread _ cs c1) as [[cs' c2]|ex2] eqn:Ecs; cbn [bind]; [discriminate|].
    intros [= <-].
    apply (thread_count _ constant_strings) in Eks.
    2:{ intros x c0 y c0' _ Hx. apply patch_constant_normalized in Hx as [_ Hx].
        exact Hx. }
    subst c1.
    apply (thread_error _ proto_strings P) in Ecs as (i & r & Hin & HP).
    + exists i, r. split; [|exact HP]. apply elem_of_number_from_app_r. exact Hin.
    + intros x c0 y c0' Hin Hx.
      apply (patch_proto_count _ _ _ _ n) in Hx; [exact Hx|].
      specialize (Hchild x Hin). cbn [proto_depth children] in Hchild, Hd |- *. lia.
    + intros x c0 ex0 Hin. apply IH.
      specialize (Hchild x Hin). cbn [proto_depth children] in Hchild, Hd |- *. lia.
  - intros [= <-].
    apply (thread_error _ constant_strings P) in Eks as (i & r & Hin & HP).
    + exists i, r. split; [|exact HP]. apply elem_of_number_from_app_l. exact Hin.
    + intros x c0 y c0' _ Hx. apply patch_constant_normalized in Hx as [_ Hx].
      exact Hx.
    + intros x c0 ex0 _. apply patch_constant_error.
Qed.
End failures.

(** The walk of [patch_file] on a well-formed chunk, whatever the
    recursion limit is. *)
Lemma patch_walk_any_limit v f i h p limit mapping src_enc dst_enc :
  wf_format h = true -> byte_sized h = true -> wf_proto h p = true ->
  (ImportPy.patch_walk limit (encode_chunk v f i h p) mapping src_enc dst_enc
   = ImportPy.Raised RecursionError
   /\ (limit < proto_depth p)%nat)
  \/ ImportPy.patch_walk limit (encode_chunk v f i h p) mapping src_enc dst_enc
     = match patch_proto h mapping src_enc dst_enc p (-1) with
       | Ok (p', _) => ImportPy.Written (encode_chunk v f i h p')
       | Err UnicodeEncodeError => ImportPy.NotWritten
       | Err ex => ImportPy.Raised ex
       end.
Proof.
  intros Hfmt Hb Hwf.
  destruct (le_lt_dec (proto_depth p) limit) as [Hd|Hd].
  { right. apply patch_walk_encoded; assumption. }
  rewrite <- (patch_walk_encoded v f i h p (proto_depth p) Hfmt Hb Hwf (Nat.le_refl _)
                mapping src_enc dst_enc).
  unfold ImportPy.patch_walk.
  destruct (read_header (encode_chunk v f i h p)) as [hd|]; [|right; reflexivity].
  match goal with
  | |- context [ImportPy.process_proto ?a ?b ?c ?d ?e ?g ?m ?s ?t limit ?st] =>
      destruct (patch_depth_short a b c d e g m s t limit (proto_depth p) st ltac:(lia))
        as [E|E]; rewrite E; [left; split; [reflexivity|exact Hd] | right; reflexivity]
  end.
Qed.

(** X17. How [patch_file] can end on a well-formed chunk.  It reports a
    failure and writes nothing only when encoding the replacement of
    some string constant raised UnicodeEncodeError.  An exception leaves
    it only as RecursionError, when the chunk nests deeper than the
    recursion limit; as the exception, other than UnicodeEncodeError,
    that encoding the replacement of some string constant raised; or as
    struct.error, when the replacement of some string constant is too
    long for the length field.  Within the recursion limit it writes its
    output when every replacement can be encoded and fits.  Whatever
    [patch_const_string] raises was raised by the encoder for the
    unescaped text of a mapping entry that differs from the display
    text. *)
Theorem patch_file_outcomes v f i h p limit mapping src_enc dst_enc :
  wf_format h = true -> byte_sized h = true -> wf_proto h p = true ->
  (ImportPy.patch_file limit (encode_chunk v f i h p) mapping src_enc dst_enc
   = ImportPy.NotWritten ->
   exists idx raw,
     (idx, raw) ∈ number_from (-1) (proto_strings p)
     /\ ImportPy.patch_const_string raw idx mapping src_enc dst_enc
        = Err UnicodeEncodeError)
  /\ (forall ex,
        ImportPy.patch_file limit (encode_chunk v f i h p) mapping src_enc dst_enc
        = ImportPy.Raised ex ->
        (ex = RecursionError /\ (limit < proto_depth p)%nat)
        \/ (ex <> UnicodeEncodeError
            /\ exists idx raw,
                 (idx, raw) ∈ number_from (-1) (proto_strings p)
                 /\ ImportPy.patch_const_string raw idx mapping src_enc dst_enc = Err ex)
        \/ (ex = StructError
            /\ exists idx raw bs,
                 (idx, raw) ∈ number_from (-1) (proto_strings p)
                 /\ ImportPy.patch_const_string raw idx mapping src_enc dst_enc = Ok bs
                 /\ size_ok h (len bs + 1) = false))
  /\ ((proto_depth p <= limit)%nat ->
      (forall idx raw,
         (idx, raw) ∈ number_from (-1) (proto_strings p) ->
         exists bs,
           ImportPy.patch_const_string raw idx mapping src_enc dst_enc = Ok bs
           /\ size_ok h (len bs + 1) = true) ->
      exists out,
        ImportPy.patch_file limit (encode_chunk v f i h p) mapping src_enc dst_enc
        = ImportPy.Written out)
  /\ (forall idx raw ex,
        ImportPy.patch_const_string raw idx mapping src_enc dst_enc = Err ex ->
        exists new,
          mapping !! idx = Some new
          /\ new <> display_text src_enc raw
          /\ encode_strict dst_enc (unescape_text new) = Err ex).
Proof.
  intros Hfmt Hb Hwf.
  split; [|split; [|split; [|intros idx raw ex; apply patch_const_string_error]]].
  - unfold ImportPy.patch_file. case_bool_decide as Hm; [discriminate|].
    destruct (patch_walk_any_limit v f i h p limit mapping src_enc dst_enc Hfmt Hb Hwf)
      as [[E _]|E]; rewrite E; [discriminate|].
    destruct (patch_proto h mapping src_enc dst_enc p (-1)) as [[p' c']|ex] eqn:Ep;
      [discriminate|].
    intros Hn. assert (ex = UnicodeEncodeError) as -> by (destruct ex; congruence).
    apply (patch_proto_error _ _ _ _ (proto_depth p)) in Ep
      as (idx & raw & Hin & [Hu|[Hs _]]); [eauto|discriminate Hs|lia].
  - intros ex. unfold ImportPy.patch_file. case_bool_decide as Hm; [discriminate|].
    destruct (patch_walk_any_limit v f i h p limit mapping src_enc dst_enc Hfmt Hb Hwf)
      as [[E Hd]|E]; rewrite E.
    { intros [= <-]. left. auto. }
    destruct (patch_proto h mapping src_enc dst_enc p (-1)) as [[p' c']|ex'] eqn:Ep;
      [discriminate|].
    intros Hr. assert (ex' = ex /\ ex <> UnicodeEncodeError) as [-> Hne]
      by (destruct ex'; try discriminate Hr; injection Hr as <-;
          (split; [reflexivity|discriminate])).
    right.
    apply (patch_proto_error _ _ _ _ (proto_depth p)) in Ep
      as (idx & raw & Hin & [Hu|[-> (bs & Hbs & Hs)]]); [| |lia].
    + left. split; [exact Hne|]. eauto.
    + right. split; [reflexivity|]. eauto 6.
  - intros Hd Hall. unfold ImportPy.patch_file. case_bool_decide as Hm; [eauto|].
    rewrite (patch_walk_encoded v f i h p limit Hfmt Hb Hwf Hd).
    destruct (patch_proto h mapping src_enc dst_enc p (-1)) as [[p' c']|ex] eqn:Ep;
      [eauto|].
    apply (patch_proto_error _ _ _ _ (proto_depth p)) in Ep
      as (idx & raw & Hin & [Hu|[_ (bs & Hbs & Hs)]]); [| |lia];
      destruct (Hall idx raw Hin) as (bs' & Hbs' & Hs'); congruence.
Qed.

Lemma patch_file_outcomes_witness :
  wf_format Examples.fmt = true /\ byte_sized Examples.fmt = true
  /\ wf_proto Examples.fmt Examples.greeting = true
  /\ ImportPy.patch_file 10 (Examples.chunk_of Examples.greeting)
       (<[0 := [BLACK_CIRCLE]]> ∅) latin1 latin1
     = ImportPy.NotWritten
  /\ ImportPy.patch_file 10 (Examples.chunk_of Examples.greeting)
       (<[0 := Examples.bonjour_text]> ∅) latin1 unknown_encoding
     = ImportPy.Raised LookupError
  /\ exists idx raw,
       (idx, raw) ∈ number_from (-1) (proto_strings Examples.greeting)
       /\ ImportPy.patch_const_string raw idx (<[0 := [BLACK_CIRCLE]]> ∅) latin1 latin1
          = Err UnicodeEncodeError.
Proof.
  assert (H1 : wf_format Examples.fmt = true) by reflexivity.
  assert (H2 : byte_sized Examples.fmt = true) by reflexivity.
  assert (H3 : wf_proto Examples.fmt Examples.greeting = true) by (vm_compute; reflexivity).
  assert (H5 : ImportPy.patch_file 10 (Examples.chunk_of Examples.greeting)
                 (<[0 := [BLACK_CIRCLE]]> ∅) latin1 latin1
               = ImportPy.NotWritten) by (vm_compute; reflexivity).
  split; [exact H1|]. split; [exact H2|]. split; [exact H3|].
  split; [exact H5|]. split; [vm_compute; reflexivity|].
  exact (proj1 (patch_file_outcomes x51 x00 x00 Examples.fmt Examples.greeting 10
                  (<[0 := [BLACK_CIRCLE]]> ∅) latin1 latin1 H1 H2 H3) H5).
Defined.

(** ** The output buffer only grows *)

Lemma write_int_extends buf e size v buf' :
  write_int buf e size v = Ok buf' -> exists w, buf' = buf ++ w.
Proof.
  unfold write_int. destruct (size =? 4); [|destruct (size =? 8); [|discriminate]].
  - destruct (struct_pack_signed e 4 v) as [bs|]; cbn [bind]; [|discriminate].
    intros [= <-]. eauto.
  - destruct (struct_pack_signed e 8 v) as [bs|]; cbn [bind]; [|discriminate].
    intros [= <-]. eauto.
Qed.

Lemma write_size_t_extends buf e size v buf' :
  write_size_t buf e size v = Ok buf' -> exists w, buf' = buf ++ w.
Proof.
  unfold write_size_t. destruct (size =? 4); [|destruct (size =? 8); [|discriminate]].
  - destruct (struct_pack_unsigned e 4 v) as [bs|]; cbn [bind]; [|discriminate].
    intros [= <-]. eauto.
  - destruct (struct_pack_unsigned e 8 v) as [bs|]; cbn [bind]; [|discriminate].
    intros [= <-]. eauto.
Qed.

Lemma write_lstring_extends buf e size s buf' :
  write_lstring buf e size s = Ok buf' -> exists w, buf' = buf ++ w.
Proof.
  destruct s as [s|]; cbn [write_lstring]; [|apply write_size_t_extends].
  destruct (write_size_t buf e size (len s + 1)) as [b1|] eqn:E; cbn [bind];
    [|discriminate].
  apply write_size_t_extends in E as [w ->]. intros [= <-].
  exists (w ++ s ++ [x00]). rewrite <- !app_assoc. reflexivity.
Qed.

Lemma repeat_loop_extends (step : ImportPy.pstate -> result ImportPy.pstate) (n : nat) :
  (forall s s', step s = Ok s' -> exists w, ImportPy.p_out s' = ImportPy.p_out s ++ w) ->
  forall s s', repeat_loop n step s = Ok s' ->
    exists w, ImportPy.p_out s' = ImportPy.p_out s ++ w.
Proof.
  intros Hstep. induction n as [|n IH]; intros s s'; cbn [repeat_loop].
  - intros [= <-]. exists []. rewrite app_nil_r. reflexivity.
  - destruct (step s) as [s1|] eqn:E; cbn [bind]; [|discriminate].
    intros H. apply Hstep in E as [w1 E]. apply IH in H as [w2 H].
    exists (w1 ++ w2). rewrite H, E, app_assoc. reflexivity.
Qed.

Ltac ext_step :=
  match goal with
  | |- context [bind ?op _] =>
      lazymatch op with
      | for_range _ _ _ => fail
      | bind _ _ => fail
      | write_int _ _ _ _ =>
          let E := fresh "E" in
          let w := fresh "w" in
          destruct op as [?|?] eqn:E;
          [ apply write_int_extends in E as [w ->]; cbn [bind]
          | cbn [bind]; discriminate ]
      | write_lstring _ _ _ _ =>
          let E := fresh "E" in
          let w := fresh "w" in
          destruct op as [?|?] eqn:E;
          [ apply write_lstring_extends in E as [w ->]; cbn [bind]
          | cbn [bind]; discriminate ]
      | _ =>
          let v := fresh "v" in
          destruct op as [v|?];
          [ repeat match goal with x : (_ * _)%type |- _ => destruct x end; cbn [bind]
          | cbn [bind]; discriminate ]
      end
  end.

Ltac ext_done :=
  intros [= <-]; cbn [ImportPy.p_out]; eexists; rewrite <- ?app_assoc; reflexivity.

Ltac ext_loop lemma :=
  match goal with
  | |- context [bind (for_range ?n ?step ?s) _] =>
      let st := fresh "st" in
      let L := fresh "L" in
      let w := fresh "w" in
      destruct (for_range n step s) as [st|] eqn:L; cbn [bind]; [|discriminate];
      apply (repeat_loop_extends step) in L as [w L]; [|exact lemma];
      destruct st; cbn [ImportPy.p_out ImportPy.p_pos ImportPy.p_counter
                        ImportPy.p_visits] in L |- *;
      subst
  end.

Section extends.
Variables (data : list byte) (e : endian).
Variables (int_size size_t_size instr_size number_size : Z).
Variables (mapping : gmap Z (list Z)) (src_enc dst_enc : codec).

Lemma const_step_extends st st' :
  ImportPy.const_step data e size_t_size number_size mapping src_enc dst_enc st = Ok st' ->
  exists w, ImportPy.p_out st' = ImportPy.p_out st ++ w.
Proof.
  destruct st as [pos out c vs]. unfold ImportPy.const_step.
  cbn [ImportPy.p_pos ImportPy.p_out ImportPy.p_counter ImportPy.p_visits].
  destruct (py_index data pos) as [t|]; cbn [bind]; [|discriminate].
  destruct (byte_to_Z t =? 0); [ext_done|].
  destruct (byte_to_Z t =? 1); [ext_done|].
  destruct (byte_to_Z t =? 3); [ext_done|].
  destruct (byte_to_Z t =? 4); [|discriminate].
  ext_step. destruct o as [raw|].
  - repeat ext_step. ext_done.
  - repeat ext_step. ext_done.
Qed.

Lemma locvar_step_extends st st' :
  ImportPy.locvar_step data e int_size size_t_size st = Ok st' ->
  exists w, ImportPy.p_out st' = ImportPy.p_out st ++ w.
Proof.
  destruct st as [pos out c vs]. unfold ImportPy.locvar_step.
  cbn [ImportPy.p_pos ImportPy.p_out ImportPy.p_counter ImportPy.p_visits].
  repeat ext_step. ext_done.
Qed.

Lemma upvalue_step_extends st st' :
  ImportPy.upvalue_step data e size_t_size st = Ok st' ->
  exists w, ImportPy.p_out st' = ImportPy.p_out st ++ w.
Proof.
  destruct st as [pos out c vs]. unfold ImportPy.upvalue_step.
  cbn [ImportPy.p_pos ImportPy.p_out ImportPy.p_counter ImportPy.p_visits].
  repeat ext_step. ext_done.
Qed.

Lemma process_proto_extends depth :
  forall st st',
    ImportPy.process_proto data e int_size size_t_size instr_size number_size
      mapping src_enc dst_enc depth st = Ok st' ->
    exists w, ImportPy.p_out st' = ImportPy.p_out st ++ w.
Proof.
  induction depth as [|depth IH]; intros st st'; [discriminate|].
  destruct st as [pos out c vs].
  cbn [ImportPy.process_proto ImportPy.p_pos ImportPy.p_out ImportPy.p_counter
       ImportPy.p_visits].
  repeat ext_step. ext_loop const_step_extends.
  repeat ext_step. ext_loop IH.
  repeat ext_step. ext_loop locvar_step_extends.
  repeat ext_step.
  intros L. apply (repeat_loop_extends _ _ upvalue_step_extends) in L as [w' L].
  cbn [ImportPy.p_out] in L. rewrite L. eexists. rewrite <- ?app_assoc. reflexivity.
Qed.
End extends.

Lemma patch_walk_extends limit data mapping src_enc dst_enc out :
  ImportPy.patch_walk limit data mapping src_enc dst_enc = ImportPy.Written out ->
  exists h w, read_header data = Ok h /\ out = py_slice_to data 12 ++ w.
Proof.
  unfold ImportPy.patch_walk.
  destruct (read_header data) as [h|] eqn:Eh; [|discriminate].
  destruct (ImportPy.process_proto _ _ _ _ _ _ _ _ _ limit _) as [st|ex] eqn:E.
  - intros [= <-]. apply process_proto_extends in E as [w E].
    cbn [ImportPy.p_out] in E. eauto.
  - destruct ex; discriminate.
Qed.

(** X18. Whatever the input is, a file that [patch_file] writes starts
    with the twelve header bytes of the input, and [read_header] reads
    the same format from it: under a mapping that is not empty the output
    is these twelve bytes followed by what the walk appended. *)
Theorem patch_keeps_header limit data mapping src_enc dst_enc out :
  ImportPy.patch_file limit data mapping src_enc dst_enc = ImportPy.Written out ->
  py_slice_to out 12 = py_slice_to data 12
  /\ read_header out = read_header data
  /\ (mapping <> ∅ ->
      exists h w, read_header data = Ok h /\ out = py_slice_to data 12 ++ w).
Proof.
  unfold ImportPy.patch_file. case_bool_decide as Hm.
  { intros [= <-]. split; [reflexivity|]. split; [reflexivity|]. contradiction. }
  intros H. apply patch_walk_extends in H as (h & w & Hh & ->).
  destruct (read_header_inv data h Hh) as (Hlen & _ & _ & Hpre).
  assert (Hsame : py_slice_to (py_slice_to data 12 ++ w) 12 = py_slice_to data 12).
  { rewrite !py_slice_to_take by lia. change (Z.to_nat 12) with 12%nat.
    rewrite take_app_le by (rewrite length_take; unfold len in Hlen; lia).
    rewrite take_take. reflexivity. }
  split; [exact Hsame|]. split; [rewrite Hh; apply Hpre; exact Hsame|].
  intros _. eauto.
Qed.

Lemma patch_keeps_header_witness :
  ImportPy.patch_file 10 (Examples.chunk_of Examples.greeting)
    (<[0 := Examples.bonjour_text]> ∅) latin1 latin1
  = ImportPy.Written
      (Examples.chunk_of (Examples.proto_with [KString (Some (Examples.bonjour, x00))]))
  /\ py_slice_to
       (Examples.chunk_of (Examples.proto_with [KString (Some (Examples.bonjour, x00))]))
       12
     = py_slice_to (Examples.chunk_of Examples.greeting) 12.
Proof.
  assert (H : ImportPy.patch_file 10 (Examples.chunk_of Examples.greeting)
                (<[0 := Examples.bonjour_text]> ∅) latin1 latin1
              = ImportPy.Written
                  (Examples.chunk_of
                     (Examples.proto_with [KString (Some (Examples.bonjour, x00))])))
    by (vm_compute; reflexivity).
  split; [exact H|].
  exact (proj1 (patch_keeps_header 10 _ _ latin1 latin1 _ H)).
Defined.

(** ** Extraction follows the patch walk *)

Lemma repeat_loop_follows {S T} (R : S -> T -> Prop)
    (step1 : S -> result S) (step2 : T -> result T) (n : nat) :
  (forall s t t', R s t -> step2 t = Ok t' -> exists s', step1 s = Ok s' /\ R s' t') ->
  forall s t t', R s t -> repeat_loop n step2 t = Ok t' ->
    exists s', repeat_loop n step1 s = Ok s' /\ R s' t'.
Proof.
  intros Hstep. induction n as [|n IH]; intros s t t' HR; cbn [repeat_loop].
  - intros [= <-]. eauto.
  - destruct (step2 t) as [t1|] eqn:E2; cbn [bind]; [|discriminate].
    intros H. destruct (Hstep s t t1 HR E2) as (s1 & E1 & HR1).
    rewrite E1. cbn [bind]. eapply IH; eauto.
Qed.

Ltac follow_step H :=
  match type of H with
  | context [bind ?op _] =>
      lazymatch op with
      | for_range _ _ _ => fail
      | bind _ _ => fail
      | _ =>
          let v := fresh "v" in
          destruct op as [v|?];
          [ repeat match goal with x : (_ * _)%type |- _ => destruct x end;
            cbn [bind] in H |- *
          | cbn [bind] in H; discriminate H ]
      end
  end.

Section follows.
Variables (data : list byte) (e : endian).
Variables (int_size size_t_size instr_size number_size : Z).
Variables (mapping : gmap Z (list Z)) (encoding src_enc dst_enc : codec).

Lemma const_step_follows se sp sp' :
  in_step encoding se sp ->
  ImportPy.const_step data e size_t_size number_size mapping src_enc dst_enc sp = Ok sp' ->
  exists se',
    ExtractPy.const_step data e size_t_size number_size encoding se = Ok se'
    /\ in_step encoding se' sp'.
Proof.
  destruct se as [pos1 out1 c1], sp as [pos2 out2 c2 vs2].
  intros (Hp & Hc & Ho). cbn in Hp, Hc, Ho. subst pos1 c1 out1.
  unfold ExtractPy.const_step, ImportPy.const_step.
  cbn [ExtractPy.e_pos ExtractPy.e_out ExtractPy.e_counter
       ImportPy.p_pos ImportPy.p_out ImportPy.p_counter ImportPy.p_visits].
  destruct (py_index data pos2) as [t|]; cbn [bind]; [|discriminate].
  destruct (byte_to_Z t =? 0).
  { intros [= <-]. eexists. split; [reflexivity|]. repeat split. }
  destruct (byte_to_Z t =? 1).
  { intros [= <-]. eexists. split; [reflexivity|]. repeat split. }
  destruct (byte_to_Z t =? 3).
  { intros [= <-]. eexists. split; [reflexivity|]. repeat split. }
  destruct (byte_to_Z t =? 4); [|discriminate].
  rewrite extract_read_lstring_eq.
  destruct (read_lstring data e size_t_size (pos2 + 1)) as [[s p]|]; cbn [bind];
    [|discriminate].
  destruct s as [raw|].
  - destruct (ImportPy.patch_const_string raw (c2 + 1) mapping src_enc dst_enc) as [s'|];
      cbn [bind]; [|discriminate].
    destruct (write_lstring _ _ _ _); cbn [bind]; [|discriminate].
    intros [= <-]. eexists. split; [reflexivity|]. repeat split.
    cbn [ExtractPy.e_out ImportPy.p_visits].
    rewrite lines_of_app, <- app_assoc. reflexivity.
  - destruct (write_lstring _ _ _ _); cbn [bind]; [|discriminate].
    intros [= <-]. eexists. split; [reflexivity|]. repeat split.
Qed.

Lemma locvar_step_follows se sp sp' :
  in_step encoding se sp ->
  ImportPy.locvar_step data e int_size size_t_size sp = Ok sp' ->
  exists se',
    ExtractPy.locvar_step data e int_size size_t_size se = Ok se'
    /\ in_step encoding se' sp'.
Proof.
  destruct se as [pos1 out1 c1], sp as [pos2 out2 c2 vs2].
  intros (Hp & Hc & Ho). cbn in Hp, Hc, Ho. subst pos1 c1 out1.
  unfold ExtractPy.locvar_step, ImportPy.locvar_step.
  cbn [ExtractPy.e_pos ExtractPy.e_out ExtractPy.e_counter
       ImportPy.p_pos ImportPy.p_out ImportPy.p_counter ImportPy.p_visits].
  rewrite extract_read_lstring_eq.
  destruct (read_lstring data e size_t_size pos2) as [[s p]|]; cbn [bind];
    [|discriminate].
  destruct (write_lstring _ _ _ _); cbn [bind]; [|discriminate].
  destruct (read_int data e int_size p) as [[va p1]|] eqn:E1; cbn [bind];
    [|discriminate].
  destruct (read_int data e int_size p1) as [[vb p2]|] eqn:E2; cbn [bind];
    [|discriminate].
  apply read_int_inv in E1 as (_ & -> & _). apply read_int_inv in E2 as (_ & -> & _).
  destruct (write_int _ _ _ _); cbn [bind]; [|discriminate].
  destruct (write_int _ _ _ _); cbn [bind]; [|discriminate].
  intros [= <-]. eexists. split; [reflexivity|]. repeat split. cbn. lia.
Qed.

Lemma upvalue_step_follows se sp sp' :
  in_step encoding se sp ->
  ImportPy.upvalue_step data e size_t_size sp = Ok sp' ->
  exists se',
    ExtractPy.upvalue_step data e size_t_size se = Ok se'
    /\ in_step encoding se' sp'.
Proof.
  destruct se as [pos1 out1 c1], sp as [pos2 out2 c2 vs2].
  intros (Hp & Hc & Ho). cbn in Hp, Hc, Ho. subst pos1 c1 out1.
  unfold ExtractPy.upvalue_step, ImportPy.upvalue_step.
  cbn [ExtractPy.e_pos ExtractPy.e_out ExtractPy.e_counter
       ImportPy.p_pos ImportPy.p_out ImportPy.p_counter ImportPy.p_visits].
  rewrite extract_read_lstring_eq.
  destruct (read_lstring data e size_t_size pos2) as [[s p]|]; cbn [bind];
    [|discriminate].
  destruct (write_lstring _ _ _ _); cbn [bind]; [|discriminate].
  intros [= <-]. eexists. split; [reflexivity|]. repeat split.
Qed.

Ltac follow_loop H lemma :=
  match type of H with
  | context [bind (for_range ?n ?step ?s) _] =>
      let sp1 := fresh "sp" in
      let L := fresh "L" in
      destruct (for_range n step s) as [sp1|] eqn:L; cbn [bind] in H;
      [|discriminate H];
      match goal with
      | |- context [bind (for_range n ?step1 ?s1) _] =>
          let se1 := fresh "se" in
          let L1 := fresh "L" in
          let Hp := fresh "Hp" in
          let Hc := fresh "Hc" in
          let Ho := fresh "Ho" in
          destruct (repeat_loop_follows (in_step encoding) step1 step (Z.to_nat n)
                      lemma s1 s sp1 ltac:(repeat split) L)
            as (se1 & L1 & (Hp & Hc & Ho));
          change (for_range n step1 s1) with (repeat_loop (Z.to_nat n) step1 s1);
          rewrite L1; cbn [bind]; rewrite Hp, Hc, Ho; clear L L1
      end
  end.

Lemma process_proto_follows depth :
  forall se sp sp',
    in_step encoding se sp ->
    ImportPy.process_proto data e int_size size_t_size instr_size number_size
      mapping src_enc dst_enc depth sp = Ok sp' ->
    exists se',
      ExtractPy.process_proto data e int_size size_t_size instr_size number_size
        encoding depth se = Ok se'
      /\ in_step encoding se' sp'.
Proof.
  induction depth as [|depth IH]; intros se sp sp' HR H; [discriminate|].
  destruct se as [pos1 out1 c1], sp as [pos2 out2 c2 vs2].
  destruct HR as (Hp & Hc & Ho).
  cbn [ExtractPy.e_pos ExtractPy.e_out ExtractPy.e_counter
       ImportPy.p_pos ImportPy.p_out ImportPy.p_counter ImportPy.p_visits] in Hp, Hc, Ho.
  subst pos1 c1 out1.
  cbn [ExtractPy.process_proto ImportPy.process_proto
       ExtractPy.e_pos ExtractPy.e_out ExtractPy.e_counter
       ImportPy.p_pos ImportPy.p_out ImportPy.p_counter ImportPy.p_visits] in H |- *.
  rewrite extract_read_lstring_eq.
  repeat follow_step H. follow_loop H const_step_follows.
  repeat follow_step H. follow_loop H IH.
  repeat follow_step H. follow_loop H locvar_step_follows.
  repeat follow_step H.
  eapply (repeat_loop_follows (in_step encoding)); [| |exact H].
  - apply upvalue_step_follows.
  - repeat split.
Qed.
End follows.

(** X19. Extraction accepts every input that the patch walk accepts, with
    any mapping and any encodings: when [process_proto] of import.py
    returns, [process_proto] of extract.py returns on the same data, at
    the same position and counter, with the records of the strings the
    patch walk visited.  So when [patch_file] writes an output under a
    mapping that is not empty, extraction from its input succeeds. *)
Theorem extract_follows_patch limit data mapping encoding src_enc dst_enc :
  (forall e int_size size_t_size instr_size number_size header_bytes sp,
     ImportPy.process_proto data e int_size size_t_size instr_size number_size
       mapping src_enc dst_enc limit (ImportPy.mk_pstate 12 header_bytes (-1) []) = Ok sp ->
     exists se,
       ExtractPy.process_proto data e int_size size_t_size instr_size number_size
         encoding limit (ExtractPy.mk_estate 12 [] (-1)) = Ok se
       /\ ExtractPy.e_pos se = ImportPy.p_pos sp
       /\ ExtractPy.e_counter se = ImportPy.p_counter sp
       /\ ExtractPy.e_out se = lines_of encoding (ImportPy.p_visits sp))
  /\ (forall out,
        mapping <> ∅ ->
        ImportPy.patch_file limit data mapping src_enc dst_enc = ImportPy.Written out ->
        exists lines, ExtractPy.extract_strings limit data encoding = Ok lines).
Proof.
  split.
  - intros e int_size size_t_size instr_size number_size header_bytes sp H.
    apply (process_proto_follows data e int_size size_t_size instr_size number_size
             mapping encoding src_enc dst_enc limit (ExtractPy.mk_estate 12 [] (-1)))
      in H as (se & Hse & HR); [|repeat split].
    exists se. split; [exact Hse|]. exact HR.
  - intros out Hm. unfold ImportPy.patch_file.
    rewrite bool_decide_eq_false_2 by exact Hm.
    unfold ImportPy.patch_walk, ExtractPy.extract_strings.
    destruct (read_header data) as [h|]; [|discriminate]. cbn [bind].
    destruct (ImportPy.process_proto _ _ _ _ _ _ _ _ _ limit _) as [sp|ex] eqn:E.
    + intros _.
      apply (process_proto_follows _ _ _ _ _ _ mapping encoding src_enc dst_enc limit
               (ExtractPy.mk_estate 12 [] (-1))) in E as (se & Hse & _); [|repeat split].
      rewrite Hse. cbn [bind]. eauto.
    + destruct ex; discriminate.
Qed.

Lemma extract_follows_patch_witness :
  <[0 := Examples.bonjour_text]> (∅ : gmap Z (list Z)) <> ∅
  /\ ImportPy.patch_file 10 (Examples.chunk_of Examples.greeting)
       (<[0 := Examples.bonjour_text]> ∅) latin1 latin1
     = ImportPy.Written
         (Examples.chunk_of (Examples.proto_with [KString (Some (Examples.bonjour, x00))]))
  /\ exists lines,
       ExtractPy.extract_strings 10 (Examples.chunk_of Examples.greeting) latin1
       = Ok lines.
Proof.
  assert (Hm : <[0 := Examples.bonjour_text]> (∅ : gmap Z (list Z)) <> ∅).
  { intros Hm. apply (f_equal (fun m => m !! 0)) in Hm.
    rewrite lookup_insert_eq, lookup_empty in Hm. discriminate. }
  assert (H : ImportPy.patch_file 10 (Examples.chunk_of Examples.greeting)
                (<[0 := Examples.bonjour_text]> ∅) latin1 latin1
              = ImportPy.Written
                  (Examples.chunk_of
                     (Examples.proto_with [KString (Some (Examples.bonjour, x00))])))
    by (vm_compute; reflexivity).
  split; [exact Hm|]. split; [exact H|].
  exact (proj2 (extract_follows_patch 10 _ _ latin1 latin1 latin1) _ Hm H).
Defined.

(** ** Bytes after the prototype *)

Section trailing.
Variables (v f i : byte) (h : header) (p : proto) (limit : nat) (extra : list byte).
Hypothesis (Hfmt : wf_format h = true) (Hbytes : byte_sized h = true).
Hypothesis (Hwf : wf_proto h p = true).
Hypothesis (Hdepth : (proto_depth p <= limit)%nat).

Lemma at_cursor_chunk_extra :
  at_cursor (encode_header v f i h ++ encode_proto h p ++ extra) 12
    (encode_proto h p ++ extra).
Proof. apply at_cursor_body. Qed.

Lemma extract_strings_extra encoding :
  ExtractPy.extract_strings limit (encode_chunk v f i h p ++ extra) encoding
  = Ok (lines_of encoding (number_from (-1) (proto_strings p))).
Proof.
  unfold ExtractPy.extract_strings, encode_chunk. rewrite <- app_assoc.
  rewrite (read_header_encoded _ _ _ _ _ Hbytes). cbn [bind].
  rewrite (extract_process_proto_encoded h _ encoding Hfmt limit p 12 [] (-1) extra
             Hwf Hdepth at_cursor_chunk_extra).
  reflexivity.
Qed.

Lemma patch_walk_extra mapping src_enc dst_enc :
  ImportPy.patch_walk limit (encode_chunk v f i h p ++ extra) mapping src_enc dst_enc
  = match patch_proto h mapping src_enc dst_enc p (-1) with
    | Ok (p', _) => ImportPy.Written (encode_chunk v f i h p')
    | Err UnicodeEncodeError => ImportPy.NotWritten
    | Err ex => ImportPy.Raised ex
    end.
Proof.
  unfold ImportPy.patch_walk, encode_chunk. rewrite <- app_assoc.
  rewrite (read_header_encoded _ _ _ _ _ Hbytes), header_slice.
  rewrite (process_proto_encoded h _ mapping src_enc dst_enc Hfmt limit p 12 _ (-1) []
             extra Hwf Hdepth at_cursor_chunk_extra).
  destruct (patch_proto h mapping src_enc dst_enc p (-1)) as [[p' c']|ex];
    reflexivity.
Qed.
End trailing.

(** X20. Bytes that follow the top-level prototype of a well-formed chunk
    are never read: extraction gives the same records with them as
    without them, and under a mapping that is not empty [patch_file]
    gives the same outcome, so a file it writes does not hold them. *)
Theorem trailing_bytes_dropped v f i h p limit extra mapping src_enc dst_enc encoding :
  wf_format h = true -> byte_sized h = true -> wf_proto h p = true ->
  (proto_depth p <= limit)%nat ->
  ExtractPy.extract_strings limit (encode_chunk v f i h p ++ extra) encoding
  = ExtractPy.extract_strings limit (encode_chunk v f i h p) encoding
  /\ (mapping <> ∅ ->
      ImportPy.patch_file limit (encode_chunk v f i h p ++ extra) mapping src_enc dst_enc
      = ImportPy.patch_file limit (encode_chunk v f i h p) mapping src_enc dst_enc).
Proof.
  intros Hfmt Hb Hwf Hd. split.
  - rewrite extract_strings_extra by assumption.
    symmetry. apply extract_strings_encoded; assumption.
  - intros Hm. unfold ImportPy.patch_file.
    rewrite !bool_decide_eq_false_2 by exact Hm.
    rewrite patch_walk_extra by assumption.
    symmetry. apply patch_walk_encoded; assumption.
Qed.

Lemma trailing_bytes_dropped_witness :
  wf_format Examples.fmt = true /\ byte_sized Examples.fmt = true
  /\ wf_proto Examples.fmt Examples.greeting = true
  /\ (proto_depth Examples.greeting <= 10)%nat
  /\ ExtractPy.extract_strings 10 (Examples.chunk_of Examples.greeting ++ [x07; x08]) latin1
     = ExtractPy.extract_strings 10 (Examples.chunk_of Examples.greeting) latin1.
Proof.
  assert (H1 : wf_format Examples.fmt = true) by reflexivity.
  assert (H2 : byte_sized Examples.fmt = true) by reflexivity.
  assert (H3 : wf_proto Examples.fmt Examples.greeting = true) by (vm_compute; reflexivity).
  assert (H4 : (proto_depth Examples.greeting <= 10)%nat) by (cbn; lia).
  split; [exact H1|]. split; [exact H2|]. split; [exact H3|]. split; [exact H4|].
  exact (proj1 (trailing_bytes_dropped x51 x00 x00 Examples.fmt Examples.greeting 10
                  [x07; x08] ∅ latin1 latin1 latin1 H1 H2 H3 H4)).
Defined.

(** ** What extraction lists *)

(** X21. From a well-formed chunk extraction returns, and lists exactly
    the string constants that are present: those of a prototype's
    constant table in order, then those of its nested prototypes in
    order.  They are numbered from 0 without gaps, each gives one record
    with the white marker followed by one with the black marker, and both
    carry the display text of the payload. *)
Theorem extraction_lists_strings v f i h p limit encoding :
  wf_format h = true -> byte_sized h = true -> wf_proto h p = true ->
  (proto_depth p <= limit)%nat ->
  ExtractPy.extract_strings limit (encode_chunk v f i h p) encoding
  = Ok (lines_of encoding (number_from (-1) (proto_strings p)))
  /\ map fst (number_from (-1) (proto_strings p)) = seqZ 0 (len (proto_strings p))
  /\ ExtractMain.main_text limit (encode_chunk v f i h p) encoding
     = Ok (ExtractMain.output_text
             (lines_of encoding (number_from (-1) (proto_strings p)))).
Proof.
  intros Hfmt Hb Hwf Hd.
  pose proof (extract_strings_encoded v f i h p limit Hfmt Hb Hwf Hd encoding) as E.
  split; [exact E|]. split.
  - generalize (proto_strings p). intros l.
    change 0 with (-1 + 1). generalize (-1). induction l as [|x l IH]; intros c.
    + reflexivity.
    + cbn [number_from map fst]. rewrite len_cons, IH.
      rewrite (seqZ_cons (c + 1)) by (pose proof (len_nonneg l); lia).
      f_equal. f_equal; lia.
  - unfold ExtractMain.main_text. rewrite E. reflexivity.
Qed.

Lemma extraction_lists_strings_witness :
  wf_format Examples.fmt = true /\ byte_sized Examples.fmt = true
  /\ wf_proto Examples.fmt Examples.absent_then_hello = true
  /\ (proto_depth Examples.absent_then_hello <= 10)%nat
  /\ ExtractPy.extract_strings 10 (Examples.chunk_of Examples.absent_then_hello) latin1
     = Ok (lines_of latin1 (number_from (-1) (proto_strings Examples.absent_then_hello))).
Proof.
  assert (H1 : wf_format Examples.fmt = true) by reflexivity.
  assert (H2 : byte_sized Examples.fmt = true) by reflexivity.
  assert (H3 : wf_proto Examples.fmt Examples.absent_then_hello = true)
    by (vm_compute; reflexivity).
  assert (H4 : (proto_depth Examples.absent_then_hello <= 10)%nat) by (cbn; lia).
  split; [exact H1|]. split; [exact H2|]. split; [exact H3|]. split; [exact H4|].
  exact (proj1 (extraction_lists_strings x51 x00 x00 Examples.fmt
                  Examples.absent_then_hello 10 latin1 H1 H2 H3 H4)).
Defined.

(** ** The entries of the mapping that matter *)

Lemma number_from_range {A} (l : list A) :
  forall c i x, (i, x) ∈ number_from c l -> c < i <= c + len l.
Proof.
  induction l as [|y l IH]; intros c i x Hin.
  - apply elem_of_nil in Hin. contradiction.
  - cbn [number_from] in Hin. rewrite len_cons. pose proof (len_nonneg l).
    apply elem_of_cons in Hin as [[= -> ->]|Hin]; [lia|].
    apply IH in Hin. lia.
Qed.

Lemma thread_same {A B} (f1 f2 : A -> Z -> result (B * Z)) (strs : A -> list (list byte))
    (Q : Z -> Prop) (l : list A) :
  (forall x c y c', x ∈ l -> f1 x c = Ok (y, c') -> c' = c + len (strs x)) ->
  (forall x c, x ∈ l ->
     (forall i r, (i, r) ∈ number_from c (strs x) -> Q i) -> f1 x c = f2 x c) ->
  forall c, (forall i r, (i, r) ∈ number_from c (flat_map strs l) -> Q i) ->
    thread f1 l c = thread f2 l c.
Proof.
  induction l as [|x l IH]; intros Hcount Hsame c HQ; [reflexivity|].
  cbn [thread flat_map] in *.
  rewrite <- (Hsame x c (list_elem_of_here _ _)).
  2:{ intros j r Hin. apply (HQ j r). apply elem_of_number_from_app_l. exact Hin. }
  destruct (f1 x c) as [[y c1]|] eqn:Hx; cbn [bind]; [|reflexivity].
  apply Hcount in Hx as ->; [|apply list_elem_of_here].
  fold (thread f1) (thread f2). rewrite IH; [reflexivity| | |].
  - intros; eapply Hcount; eauto using list_elem_of_further.
  - intros; eapply Hsame; eauto using list_elem_of_further.
  - intros j r Hin. apply (HQ j r). apply elem_of_number_from_app_r. exact Hin.
Qed.

Section same_entries.
Variables (h : header) (m1 m2 : gmap Z (list Z)) (src_enc dst_enc : codec).

Lemma patch_const_string_same raw idx :
  m1 !! idx = m2 !! idx ->
  ImportPy.patch_const_string raw idx m1 src_enc dst_enc
  = ImportPy.patch_const_string raw idx m2 src_enc dst_enc.
Proof. unfold ImportPy.patch_const_string. intros ->. reflexivity. Qed.

Lemma patch_constant_same k c :
  (forall i r, (i, r) ∈ number_from c (constant_strings k) -> m1 !! i = m2 !! i) ->
  patch_constant h m1 src_enc dst_enc k c = patch_constant h m2 src_enc dst_enc k c.
Proof.
  destruct k as [|b|payload|[[raw t]|]]; cbn [patch_constant constant_strings];
    try reflexivity.
  intros H. rewrite (patch_const_string_same raw (c + 1)); [reflexivity|].
  apply (H (c + 1) raw). apply list_elem_of_here.
Qed.

Lemma patch_proto_same n :
  forall p c, (proto_depth p <= n)%nat ->
    (forall i r, (i, r) ∈ number_from c (proto_strings p) -> m1 !! i = m2 !! i) ->
    patch_proto h m1 src_enc dst_enc p c = patch_proto h m2 src_enc dst_enc p c.
Proof.
  induction n as [|n IH]; intros p c Hd.
  { destruct p; cbn [proto_depth] in Hd. lia. }
  pose proof (proto_depth_child p) as Hchild.
  destruct p as [src a b flags szc cd ks cs szl li lvs ups].
  cbn [children] in Hchild.
  cbn [patch_proto proto_strings constants children source_name line_defined
       last_line_defined flag_block sizecode code sizelineinfo lineinfo locvars
       upvalues].
  intros HQ.
  rewrite <- (thread_same (patch_constant h m1 src_enc dst_enc)
                (patch_constant h m2 src_enc dst_enc) constant_strings
                (fun i => m1 !! i = m2 !! i) ks).
  2:{ intros x c0 y c0' _ Hx. apply patch_constant_normalized in Hx as [_ Hx].
      exact Hx. }
  2:{ intros x c0 _. apply patch_constant_same. }
  2:{ intros j r Hin. apply (HQ j r). apply elem_of_number_from_app_l. exact Hin. }
  destruct (thread (patch_constant h m1 src_enc dst_enc) ks c) as [[ks' c1]|] eqn:Eks;
    cbn [bind]; [|reflexivity].
  apply (thread_count _ constant_strings) in Eks.
  2:{ intros x c0 y c0' _ Hx. apply patch_constant_normalized in Hx as [_ Hx].
      exact Hx. }
  subst c1.
  rewrite <- (thread_same (patch_proto h m1 src_enc dst_enc)
                (patch_proto h m2 src_enc dst_enc) proto_strings
                (fun i => m1 !! i = m2 !! i) cs); [reflexivity| | |].
  - intros x c0 y c0' Hin Hx.
    apply (patch_proto_count _ _ _ _ n) in Hx; [exact Hx|].
    specialize (Hchild x Hin). cbn [proto_depth children] in Hchild, Hd |- *. lia.
  - intros x c0 Hin. apply IH.
    specialize (Hchild x Hin). cbn [proto_depth children] in Hchild, Hd |- *. lia.
  - intros j r Hin. apply (HQ j r). apply elem_of_number_from_app_r. exact Hin.
Qed.
End same_entries.

Lemma patch_file_same v f i h p limit m1 m2 src_enc dst_enc :
  valid h p = true ->
  (proto_depth p <= limit)%nat ->
  (forall idx, 0 <= idx < len (proto_strings p) -> m1 !! idx = m2 !! idx) ->
  ImportPy.patch_file limit (encode_chunk v f i h p) m1 src_enc dst_enc
  = ImportPy.patch_file limit (encode_chunk v f i h p) m2 src_enc dst_enc.
Proof.
  intros Hv Hd Hsame.
  destruct (valid_parts _ _ Hv) as (Hfmt & Hb & Hwf & Hz).
  assert (Hin : forall j (r : list byte),
            (j, r) ∈ number_from (-1) (proto_strings p) -> m1 !! j = m2 !! j).
  { intros j r H. apply number_from_range in H. apply Hsame. lia. }
  assert (Hwalk : forall m,
            (forall j (r : list byte),
               (j, r) ∈ number_from (-1) (proto_strings p) -> m !! j = None) ->
            ImportPy.patch_file limit (encode_chunk v f i h p) m src_enc dst_enc
            = ImportPy.Written (encode_chunk v f i h p)).
  { intros m Hnone. unfold ImportPy.patch_file. case_bool_decide; [reflexivity|].
    rewrite (patch_walk_encoded v f i h p limit Hfmt Hb Hwf Hd).
    rewrite (patch_proto_noop h m src_enc dst_enc (proto_depth p) p (-1)
               (Nat.le_refl _) Hwf Hz); [reflexivity|].
    intros j r Hjr. apply patch_const_string_keep. left. exact (Hnone j r Hjr). }
  destruct (decide (m1 = ∅)) as [E1|N1]; [|destruct (decide (m2 = ∅)) as [E2|N2]].
  - rewrite (Hwalk m1), (Hwalk m2); [reflexivity| |].
    + intros j r H. rewrite <- (Hin j r H), E1. apply lookup_empty.
    + intros j r H. rewrite E1. apply lookup_empty.
  - rewrite (Hwalk m1), (Hwalk m2); [reflexivity| |].
    + intros j r H. rewrite E2. apply lookup_empty.
    + intros j r H. rewrite (Hin j r H), E2. apply lookup_empty.
  - rewrite !patch_file_walk by assumption.
    rewrite (patch_proto_same h m1 m2 src_enc dst_enc (proto_depth p) p (-1)
               (Nat.le_refl _) Hin).
    reflexivity.
Qed.

(** X22. On a valid chunk with [n] string constants the outcome of
    [patch_file] depends on the entries 0 to [n - 1] of the mapping only:
    two mappings that agree on these indices give the same outcome, so an
    entry with any other index has no effect and is never reported. *)
Theorem stray_entries_ignored v f i h p limit m1 m2 src_enc dst_enc :
  valid h p = true ->
  (proto_depth p <= limit)%nat ->
  (forall idx, 0 <= idx < len (proto_strings p) -> m1 !! idx = m2 !! idx) ->
  ImportPy.patch_file limit (encode_chunk v f i h p) m1 src_enc dst_enc
  = ImportPy.patch_file limit (encode_chunk v f i h p) m2 src_enc dst_enc.
Proof. apply patch_file_same. Qed.

Lemma stray_entries_ignored_witness :
  valid Examples.fmt Examples.greeting = true
  /\ (proto_depth Examples.greeting <= 10)%nat
  /\ ImportPy.patch_file 10 (Examples.chunk_of Examples.greeting)
       (<[0 := Examples.bonjour_text]> ∅) latin1 latin1
     = ImportPy.patch_file 10 (Examples.chunk_of Examples.greeting)
         (<[7 := Examples.hello_text]> (<[0 := Examples.bonjour_text]> ∅)) latin1 latin1.
Proof.
  split; [reflexivity|]. split; [cbn; lia|].
  apply (stray_entries_ignored x51 x00 x00 Examples.fmt Examples.greeting 10
           (<[0 := Examples.bonjour_text]> ∅)
           (<[7 := Examples.hello_text]> (<[0 := Examples.bonjour_text]> ∅))
           latin1 latin1); [reflexivity|cbn; lia|].
  intros idx Hidx. change (len (proto_strings Examples.greeting)) with 1 in Hidx.
  assert (idx = 0) as -> by lia. reflexivity.
Defined.

Section mapping_decoding.
Import ImportPy.

(** ** The decoding of the mapping file *)

Lemma load_mapping_after_mark db line rest :
  no_line_boundary line = true ->
  load_mapping db (ImportMain.BYTE_ORDER_MARK :: line ++ LF :: rest)
  = load_mapping db rest.
Proof.
  intros Hl. unfold load_mapping, splitlines.
  rewrite splitlines_from_nonboundary by reflexivity.
  rewrite splitlines_from_line by exact Hl. reflexivity.
Qed.

(** X23. [load_mapping] takes the first of its candidate encodings that
    decodes the file, and "utf-8" comes before "utf-8-sig".  So when the
    file decodes as UTF-8 to a text that starts with the byte order mark
    U+FEFF, the mark stays in the text, the first line does not start
    with the black marker, and the mapping is that of the remaining
    lines: a record on the first line is lost. *)
Theorem first_line_after_mark_skipped utf8 utf8_sig shift_jis cp936 db data line rest :
  decode_strict utf8 data = Some (ImportMain.BYTE_ORDER_MARK :: line ++ LF :: rest) ->
  no_line_boundary line = true ->
  ImportMain.load_mapping_file utf8 utf8_sig shift_jis cp936 db data
  = load_mapping db rest.
Proof.
  intros Hdec Hl. unfold ImportMain.load_mapping_file, ImportMain.decode_mapping_file.
  cbn [ImportMain.decode_first]. rewrite Hdec.
  apply load_mapping_after_mark. exact Hl.
Qed.

Lemma first_line_after_mark_skipped_witness :
  decode_strict two_byte
    [xfe; xff; x25; xcf; x00; x30; x25; xcf; x00; x61; x00; x0a;
     x25; xcf; x00; x31; x25; xcf; x00; x62]
  = Some (ImportMain.BYTE_ORDER_MARK :: [BLACK_CIRCLE; 48; BLACK_CIRCLE; 97]
            ++ LF :: [BLACK_CIRCLE; 49; BLACK_CIRCLE; 98])
  /\ no_line_boundary [BLACK_CIRCLE; 48; BLACK_CIRCLE; 97] = true
  /\ ImportMain.load_mapping_file two_byte latin1 latin1 latin1 Examples.ascii_db
       [xfe; xff; x25; xcf; x00; x30; x25; xcf; x00; x61; x00; x0a;
        x25; xcf; x00; x31; x25; xcf; x00; x62]
     = load_mapping Examples.ascii_db [BLACK_CIRCLE; 49; BLACK_CIRCLE; 98].
Proof.
  split; [reflexivity|]. split; [reflexivity|].
  apply (first_line_after_mark_skipped two_byte latin1 latin1 latin1 Examples.ascii_db _
           [BLACK_CIRCLE; 48; BLACK_CIRCLE; 97] [BLACK_CIRCLE; 49; BLACK_CIRCLE; 98]);
    reflexivity.
Defined.

End mapping_decoding.

(** ** The imported text, extracted again *)

Lemma elem_of_lines_of_white enc idx raw numbered :
  (idx, raw) ∈ numbered ->
  ExtractPy.mk_line ExtractPy.White idx (display_text enc raw) ∈ lines_of enc numbered.
Proof.
  intros Hin. unfold lines_of. apply list_elem_of_In, in_flat_map.
  exists (idx, raw). split; [apply list_elem_of_In; exact Hin|]. cbn. left. reflexivity.
Qed.

(** X24. What was imported is what extraction shows afterwards.  When
    [patch_file] has written its output for a well-formed chunk and the
    mapping gives the index of a string constant a text without carriage
    return and line feed, extraction from the output with the destination
    encoding has the two records of that index with that very text,
    provided the destination encoding decodes the patched payload to the
    unescaped text. *)
Theorem imported_text_extracted v f i h p limit mapping src_enc dst_enc out idx raw new :
  wf_format h = true -> byte_sized h = true -> wf_proto h p = true ->
  (proto_depth p <= limit)%nat ->
  ImportPy.patch_file limit (encode_chunk v f i h p) mapping src_enc dst_enc
  = ImportPy.Written out ->
  (idx, raw) ∈ number_from (-1) (proto_strings p) ->
  mapping !! idx = Some new ->
  no_line_break new = true ->
  decode_text dst_enc (patched mapping src_enc dst_enc idx raw) = unescape_text new ->
  exists lines,
    ExtractPy.extract_strings limit out dst_enc = Ok lines
    /\ ExtractPy.mk_line ExtractPy.White idx new ∈ lines
    /\ ExtractPy.mk_line ExtractPy.Black idx new ∈ lines.
Proof.
  intros Hfmt Hb Hwf Hd Hrun Hin Hnew Hline Hdec.
  destruct (patch_file_tree v f i h p limit mapping src_enc dst_enc Hfmt Hb Hwf Hd
              out Hrun) as (p' & -> & W & D & S & _).
  eexists. split; [apply extract_strings_encoded; [assumption..|lia]|].
  rewrite S, number_from_patched.
  assert (Hdisp : display_text dst_enc (patched mapping src_enc dst_enc idx raw) = new).
  { unfold display_text. rewrite Hdec. apply escape_after_unescape. exact Hline. }
  assert (Hin' : (idx, patched mapping src_enc dst_enc idx raw)
                 ∈ map (fun ir => (fst ir, patched mapping src_enc dst_enc (fst ir) (snd ir)))
                     (number_from (-1) (proto_strings p))).
  { apply list_elem_of_In, in_map_iff. exists (idx, raw).
    split; [reflexivity|apply list_elem_of_In; exact Hin]. }
  rewrite <- Hdisp. split.
  - apply elem_of_lines_of_white. exact Hin'.
  - apply elem_of_lines_of. exact Hin'.
Qed.

Lemma imported_text_extracted_witness :
  wf_format Examples.fmt = true /\ byte_sized Examples.fmt = true
  /\ wf_proto Examples.fmt Examples.greeting = true
  /\ (proto_depth Examples.greeting <= 10)%nat
  /\ ImportPy.patch_file 10 (Examples.chunk_of Examples.greeting)
       (<[0 := [66; 92; 110]]> ∅) latin1 latin1
     = ImportPy.Written
         (Examples.chunk_of (Examples.proto_with [KString (Some ([x42; x0a], x00))]))
  /\ (0, Examples.hello) ∈ number_from (-1) (proto_strings Examples.greeting)
  /\ (<[0 := [66; 92; 110]]> ∅ : gmap Z (list Z)) !! 0 = Some [66; 92; 110]
  /\ no_line_break [66; 92; 110] = true
  /\ decode_text latin1 (patched (<[0 := [66; 92; 110]]> ∅) latin1 latin1 0 Examples.hello)
     = unescape_text [66; 92; 110]
  /\ exists lines,
       ExtractPy.extract_strings 10
         (Examples.chunk_of (Examples.proto_with [KString (Some ([x42; x0a], x00))]))
         latin1 = Ok lines
       /\ ExtractPy.mk_line ExtractPy.Black 0 [66; 92; 110] ∈ lines.
Proof.
  assert (H1 : wf_format Examples.fmt = true) by reflexivity.
  assert (H2 : byte_sized Examples.fmt = true) by reflexivity.
  assert (H3 : wf_proto Examples.fmt Examples.greeting = true) by (vm_compute; reflexivity).
  assert (H4 : (proto_depth Examples.greeting <= 10)%nat) by (cbn; lia).
  assert (H5 : ImportPy.patch_file 10 (Examples.chunk_of Examples.greeting)
                 (<[0 := [66; 92; 110]]> ∅) latin1 latin1
               = ImportPy.Written
                   (Examples.chunk_of
                      (Examples.proto_with [KString (Some ([x42; x0a], x00))])))
    by (vm_compute; reflexivity).
  assert (H6 : (0, Examples.hello) ∈ number_from (-1) (proto_strings Examples.greeting))
    by (apply list_elem_of_here).
  assert (H7 : (<[0 := [66; 92; 110]]> ∅ : gmap Z (list Z)) !! 0 = Some [66; 92; 110])
    by reflexivity.
  assert (H8 : no_line_break [66; 92; 110] = true) by reflexivity.
  assert (H9 : decode_text latin1
                 (patched (<[0 := [66; 92; 110]]> ∅) latin1 latin1 0 Examples.hello)
               = unescape_text [66; 92; 110]) by (vm_compute; reflexivity).
  split; [exact H1|]. split; [exact H2|]. split; [exact H3|]. split; [exact H4|].
  split; [exact H5|]. split; [exact H6|]. split; [exact H7|]. split; [exact H8|].
  split; [exact H9|].
  destruct (imported_text_extracted x51 x00 x00 Examples.fmt Examples.greeting 10
              (<[0 := [66; 92; 110]]> ∅) latin1 latin1 _ 0 Examples.hello [66; 92; 110]
              H1 H2 H3 H4 H5 H6 H7 H8 H9) as (lines & E & _ & Hb).
  exists lines. split; [exact E | exact Hb].
Defined.

(** ** One edited line *)

Lemma renumber_same {A} (g1 g2 : A -> Z -> A) (strs : A -> list (list byte))
    (Q : Z -> list byte -> Prop) (l : list A) :
  (forall x c, x ∈ l ->
     (forall i r, (i, r) ∈ number_from c (strs x) -> Q i r) -> g1 x c = g2 x c) ->
  forall c, (forall i r, (i, r) ∈ number_from c (flat_map strs l) -> Q i r) ->
    renumber g1 strs l c = renumber g2 strs l c.
Proof.
  induction l as [|x l IH]; intros Hg c HQ; cbn [renumber flat_map]; [reflexivity|].
  f_equal.
  - apply Hg; [apply list_elem_of_here|].
    intros i r Hin. apply HQ. cbn [flat_map]. apply elem_of_number_from_app_l. exact Hin.
  - apply IH.
    + intros x' c' Hin. apply Hg. apply list_elem_of_further. exact Hin.
    + intros i r Hin. apply HQ. cbn [flat_map]. apply elem_of_number_from_app_r. exact Hin.
Qed.

Lemma substitute_constant_same f g k c :
  (forall i r, (i, r) ∈ number_from c (constant_strings k) -> f i r = g i r) ->
  substitute_constant f k c = substitute_constant g k c.
Proof.
  destruct k as [|b|payload|[[raw t]|]];
    cbn [substitute_constant constant_strings number_from]; try reflexivity.
  intros Hk. rewrite (Hk (c + 1) raw (list_elem_of_here _ _)). reflexivity.
Qed.

Lemma substitute_same f g n :
  forall p c, (proto_depth p <= n)%nat ->
    (forall i r, (i, r) ∈ number_from c (proto_strings p) -> f i r = g i r) ->
    substitute f p c = substitute g p c.
Proof.
  induction n as [|n IH]; intros p c Hd Hk.
  { destruct p; cbn [proto_depth] in Hd. lia. }
  pose proof (proto_depth_child p) as Hchild.
  destruct p as [src a b flags szc cd ks cs szl li lvs ups].
  cbn [substitute source_name line_defined last_line_defined
       flag_block sizecode code constants children sizelineinfo lineinfo
       locvars upvalues proto_strings] in *.
  rewrite (renumber_same (substitute_constant f) (substitute_constant g)
             constant_strings (fun i r => f i r = g i r) ks).
  - rewrite (renumber_same (substitute f) (substitute g) proto_strings
               (fun i r => f i r = g i r) cs); [reflexivity| |].
    + intros x c' Hin Hq. apply IH; [|exact Hq].
      specialize (Hchild x Hin). cbn [proto_depth children] in Hchild, Hd |- *. lia.
    + intros i r Hin. apply Hk. apply elem_of_number_from_app_r. exact Hin.
  - intros x c' Hin Hq. apply substitute_constant_same. exact Hq.
  - intros i r Hin. apply Hk. apply elem_of_number_from_app_l. exact Hin.
Qed.

Lemma strings_fit h n :
  forall p raw, (proto_depth p <= n)%nat ->
    wf_proto h p = true -> In raw (proto_strings p) ->
    size_ok h (len raw + 1) = true.
Proof.
  induction n as [|n IH]; intros p raw Hd Hwf Hin.
  { destruct p; cbn [proto_depth] in Hd. lia. }
  pose proof (proto_depth_child p) as Hchild.
  destruct p as [src a b flags szc cd ks cs szl li lvs ups].
  cbn [wf_proto source_name line_defined last_line_defined flag_block sizecode
       code constants children sizelineinfo lineinfo locvars upvalues] in Hwf.
  cbn [children] in Hchild.
  apply andb_prop in Hwf as [Hwf Hups]. apply andb_prop in Hwf as [Hwf Hnup].
  apply andb_prop in Hwf as [Hwf Hlvs]. apply andb_prop in Hwf as [Hwf Hnlv].
  apply andb_prop in Hwf as [Hwf Hli]. apply andb_prop in Hwf as [Hwf Hszl].
  apply andb_prop in Hwf as [Hwf Hcs]. apply andb_prop in Hwf as [Hwf Hncs].
  apply andb_prop in Hwf as [Hwf Hks]. apply andb_prop in Hwf as [_ _].
  cbn [proto_strings constants children] in Hin.
  apply in_app_iff in Hin as [Hin|Hin]; apply in_flat_map in Hin as (x & Hx & Hin).
  - apply list_elem_of_In in Hx. pose proof (forallb_elem_of _ _ _ Hks Hx) as Hk.
    destruct x as [|?|?|[[raw' t]|]]; cbn [constant_strings] in Hin;
      try contradiction.
    destruct Hin as [<-|[]]. exact Hk.
  - apply list_elem_of_In in Hx. apply (IH x); [|exact (forallb_elem_of _ _ _ Hcs Hx)|exact Hin].
    specialize (Hchild x Hx). cbn [proto_depth children] in Hchild, Hd |- *. lia.
Qed.

Lemma number_from_member {A} (l : list A) :
  forall c i x, (i, x) ∈ number_from c l -> In x l.
Proof.
  induction l as [|y l IH]; intros c i x Hin.
  - apply elem_of_nil in Hin. contradiction.
  - cbn [number_from] in Hin. apply elem_of_cons in Hin as [[= -> ->]|Hin].
    + left. reflexivity.
    + right. eapply IH. exact Hin.
Qed.

Section one_edit.
Variables (encoding : codec) (k : Z) (new : list Z).

Lemma edits_below (l : list (list byte)) :
  forall c (m : gmap Z (list Z)) i, i <= c ->
    fold_left (fun m r => <[ed_index r := ed_black r]> m)
      (map (edit_record encoding k new) (number_from c l)) m !! i = m !! i.
Proof.
  induction l as [|x l IH]; intros c m i Hi; [reflexivity|].
  cbn [number_from map fold_left]. rewrite IH by lia.
  apply lookup_insert_ne. cbn [edit_record ed_index fst]. lia.
Qed.

Lemma edits_lookup (l : list (list byte)) :
  forall c (m : gmap Z (list Z)) i raw, (i, raw) ∈ number_from c l ->
    fold_left (fun m r => <[ed_index r := ed_black r]> m)
      (map (edit_record encoding k new) (number_from c l)) m !! i
    = Some (if i =? k then new else display_text encoding raw).
Proof.
  induction l as [|x l IH]; intros c m i raw Hin.
  - apply elem_of_nil in Hin. contradiction.
  - cbn [number_from] in Hin. cbn [number_from map fold_left].
    apply elem_of_cons in Hin as [[= -> ->]|Hin].
    + rewrite edits_below by lia. cbn [edit_record ed_index ed_black fst snd].
      apply lookup_insert_eq.
    + apply IH. exact Hin.
Qed.

Lemma edits_readable db numbered :
  no_line_boundary new = true ->
  forallb (readable_record db encoding) numbered = true ->
  forallb (readable_edit db) (map (edit_record encoding k new) numbered) = true.
Proof.
  intros Hnew. induction numbered as [|[i raw] rest IH]; [reflexivity|].
  cbn [forallb map]. intros H. apply andb_prop in H as [Hr Hrest].
  rewrite (IH Hrest), andb_true_r.
  unfold readable_record in Hr. unfold readable_edit, edit_record.
  cbn [ed_index ed_white ed_black fst snd] in *.
  apply andb_prop in Hr as [-> Ht]. rewrite Ht. cbn [andb].
  destruct (i =? k); assumption.
Qed.

Lemma edited_patch_const_string dst_enc bs (m : gmap Z (list Z)) j raw :
  m !! j = Some (if j =? k then new else display_text encoding raw) ->
  encode_strict dst_enc (unescape_text new) = Ok bs ->
  ImportPy.patch_const_string raw j m encoding dst_enc
  = Ok (edited_payload encoding k new bs j raw).
Proof.
  intros Hm Henc. unfold ImportPy.patch_const_string, edited_payload. rewrite Hm.
  fold (display_text encoding raw).
  destruct (j =? k); cbn [andb].
  - case_bool_decide; cbn [negb]; [reflexivity|]. rewrite Henc. reflexivity.
  - rewrite bool_decide_eq_true_2 by reflexivity. reflexivity.
Qed.
End one_edit.

Lemma one_edit_imported v f i h p limit db encoding dst_enc k new bs :
  valid h p = true ->
  (proto_depth p <= limit)%nat ->
  forallb (readable_record db encoding) (number_from (-1) (proto_strings p)) = true ->
  no_line_boundary new = true ->
  encode_strict dst_enc (unescape_text new) = Ok bs ->
  size_ok h (len bs + 1) = true ->
  ImportMain.import_file db limit (encode_chunk v f i h p)
    (ExtractMain.output_text
       (edited_lines (map (edit_record encoding k new)
                        (number_from (-1) (proto_strings p)))))
    encoding dst_enc
  = ImportPy.Written
      (encode_chunk v f i h (substitute (edited_payload encoding k new bs) p (-1))).
Proof.
  intros Hv Hd Hread Hnew Henc Hfit.
  destruct (valid_parts _ _ Hv) as (Hfmt & Hb & Hwf & Hz).
  unfold ImportMain.import_file.
  rewrite (load_mapping_edited db _ (edits_readable encoding k new db _ Hnew Hread)).
  set (m := mapping_of_edits _).
  assert (Hm : forall j raw, (j, raw) ∈ number_from (-1) (proto_strings p) ->
                 m !! j = Some (if j =? k then new else display_text encoding raw)).
  { intros j raw Hin. apply edits_lookup. exact Hin. }
  assert (Hpatch : forall j raw, (j, raw) ∈ number_from (-1) (proto_strings p) ->
                     ImportPy.patch_const_string raw j m encoding dst_enc
                     = Ok (edited_payload encoding k new bs j raw)).
  { intros j raw Hin. apply edited_patch_const_string; [apply Hm; exact Hin|exact Henc]. }
  destruct (decide (m = ∅)) as [He|Hne].
  - unfold ImportPy.patch_file. rewrite bool_decide_eq_true_2 by exact He.
    rewrite (substitute_id _ (proto_depth p)); [reflexivity|lia|].
    intros j raw Hin. apply Hm in Hin. rewrite He, lookup_empty in Hin. discriminate.
  - rewrite (patch_file_walk v f i h p limit m encoding dst_enc Hfmt Hb Hwf Hd Hne).
    destruct (patch_proto h m encoding dst_enc p (-1)) as [[p' c']|ex] eqn:E.
    + apply (patch_proto_substitute _ _ _ _ (proto_depth p)) in E as [-> _];
        [|lia|exact Hz].
      do 2 f_equal. apply (substitute_same _ _ (proto_depth p)); [lia|].
      intros j raw Hin. unfold patched. rewrite (Hpatch j raw Hin). reflexivity.
    + apply (patch_proto_error _ _ _ _ (proto_depth p)) in E
        as (j & raw & Hin & [Hu|[_ (bs' & Hbs & Hs)]]); [| |lia].
      * rewrite (Hpatch j raw Hin) in Hu. discriminate.
      * rewrite (Hpatch j raw Hin) in Hbs. injection Hbs as <-.
        unfold edited_payload in Hs.
        destruct ((j =? k) && negb (bool_decide (new = display_text encoding raw))).
        -- congruence.
        -- rewrite (strings_fit h (proto_depth p) p raw (Nat.le_refl _) Hwf) in Hs;
             [discriminate|].
           eapply number_from_member. exact Hin.
Qed.

(** X25. Editing one line and importing changes one string.  Take a
    valid chunk in which the display text of every string stays on one
    line (it holds no line boundary of [str.splitlines]) and every index
    is within the digit limit of [int()].  In the text that extraction
    writes for it, replace the text on the line with the black marker of
    index [k] by a new single-line text that the destination encoding
    can encode and whose encoding fits the length field.  Importing this
    text writes the chunk in which the payload of string [k] is the
    encoding of the unescaped new text, and every other byte, all other
    strings included, is as in the input; if the new text is the display
    text, or [k] is the index of no string, the input is written back
    unchanged. *)
Theorem edited_line_imported v f i h p limit db encoding dst_enc k new bs :
  valid h p = true ->
  (proto_depth p <= limit)%nat ->
  forallb (readable_record db encoding) (number_from (-1) (proto_strings p)) = true ->
  no_line_boundary new = true ->
  encode_strict dst_enc (unescape_text new) = Ok bs ->
  size_ok h (len bs + 1) = true ->
  ImportMain.import_file db limit (encode_chunk v f i h p)
    (ExtractMain.output_text
       (edited_lines (map (edit_record encoding k new)
                        (number_from (-1) (proto_strings p)))))
    encoding dst_enc
  = ImportPy.Written
      (encode_chunk v f i h (substitute (edited_payload encoding k new bs) p (-1)))
  /\ ((forall raw, (k, raw) ∈ number_from (-1) (proto_strings p) ->
         new = display_text encoding raw) ->
      substitute (edited_payload encoding k new bs) p (-1) = p).
Proof.
  intros Hv Hd Hread Hnew Henc Hfit. split.
  - apply one_edit_imported; assumption.
  - intros Hsame. apply (substitute_id _ (proto_depth p)); [lia|].
    intros j raw Hin. unfold edited_payload.
    destruct (Z.eqb_spec j k) as [->|_]; [|reflexivity].
    rewrite bool_decide_eq_true_2 by (apply Hsame; exact Hin). reflexivity.
Qed.

Lemma edited_line_imported_witness :
  valid Examples.fmt Examples.absent_then_hello = true
  /\ (proto_depth Examples.absent_then_hello <= 10)%nat
  /\ forallb (readable_record Examples.ascii_db latin1)
       (number_from (-1) (proto_strings Examples.absent_then_hello)) = true
  /\ no_line_boundary Examples.bonjour_text = true
  /\ encode_strict latin1 (unescape_text Examples.bonjour_text) = Ok Examples.bonjour
  /\ size_ok Examples.fmt (len Examples.bonjour + 1) = true
  /\ ImportMain.import_file Examples.ascii_db 10
       (Examples.chunk_of Examples.absent_then_hello)
       (ExtractMain.output_text
          (edited_lines (map (edit_record latin1 0 Examples.bonjour_text)
                           (number_from (-1) (proto_strings Examples.absent_then_hello)))))
       latin1 latin1
     = ImportPy.Written
         (encode_chunk x51 x00 x00 Examples.fmt
            (substitute (edited_payload latin1 0 Examples.bonjour_text Examples.bonjour)
               Examples.absent_then_hello (-1))).
Proof.
  split; [reflexivity|]. split; [cbn; lia|]. split; [reflexivity|].
  split; [reflexivity|]. split; [reflexivity|]. split; [reflexivity|].
  apply (proj1 (edited_line_imported x51 x00 x00 Examples.fmt Examples.absent_then_hello
                  10 Examples.ascii_db latin1 latin1 0 Examples.bonjour_text
                  Examples.bonjour eq_refl ltac:(cbn; lia) eq_refl eq_refl eq_refl
                  eq_refl)).
Defined.

Section line_boundaries.
Import ImportPy.

(** ** Texts that hold a line boundary *)

Lemma splitlines_from_at_lf n :
  forall s cur rest, (length s <= n)%nat ->
    splitlines_from cur (s ++ LF :: rest)
    = splitlines_from cur (s ++ [LF]) ++ splitlines_from [] rest.
Proof.
  induction n as [|n IH]; intros s cur rest Hn.
  { destruct s; [reflexivity|cbn in Hn; lia]. }
  destruct s as [|c r]; [reflexivity|].
  cbn [length] in Hn. cbn [app splitlines_from].
  destruct (c =? CR).
  - destruct r as [|c' r']; cbn [app].
    + change (LF =? LF) with true. cbn iota. reflexivity.
    + cbn [length] in Hn. destruct (c' =? LF).
      * rewrite IH by lia. reflexivity.
      * rewrite <- app_comm_cons. f_equal. apply (IH (c' :: r')). cbn [length]. lia.
  - destruct (is_line_boundary c).
    + rewrite IH by lia. reflexivity.
    + apply IH. lia.
Qed.

Lemma free_of_rev c s : free_of c (rev s) = free_of c s.
Proof.
  induction s as [|x s IH]; [reflexivity|].
  cbn [rev]. rewrite free_of_app, IH. cbn [free_of forallb]. fold (free_of c s).
  rewrite andb_true_r. apply andb_comm.
Qed.

Lemma splitlines_from_free c n :
  forall s cur, (length s <= n)%nat -> free_of c cur = true -> free_of c s = true ->
    Forall (fun l => free_of c l = true) (splitlines_from cur s).
Proof.
  induction n as [|n IH]; intros s cur Hn Hcur Hs.
  { destruct s; [|cbn in Hn; lia]. cbn [splitlines_from].
    destruct cur; [constructor|].
    constructor; [rewrite free_of_rev; exact Hcur|constructor]. }
  assert (Hrev : free_of c (rev cur) = true) by (rewrite free_of_rev; exact Hcur).
  destruct s as [|x r].
  { cbn [splitlines_from]. destruct cur; [constructor|].
    constructor; [exact Hrev|constructor]. }
  cbn [length] in Hn. cbn [free_of forallb] in Hs. fold (free_of c r) in Hs.
  apply andb_prop in Hs as [Hx Hr]. cbn [splitlines_from].
  destruct (x =? CR).
  - destruct r as [|x' r']; [constructor; [exact Hrev|constructor]|].
    cbn [length] in Hn. cbn [free_of forallb] in Hr. fold (free_of c r') in Hr.
    pose proof Hr as Hr0. apply andb_prop in Hr as [Hx' Hr'].
    destruct (x' =? LF).
    + constructor; [exact Hrev|apply IH; [lia|reflexivity|exact Hr']].
    + constructor; [exact Hrev|apply IH; [cbn [length]; lia|reflexivity|]].
      cbn [free_of forallb]. fold (free_of c r'). exact Hr0.
  - destruct (is_line_boundary x).
    + constructor; [exact Hrev|apply IH; [lia|reflexivity|exact Hr]].
    + apply IH; [lia| |exact Hr]. cbn [free_of forallb]. fold (free_of c cur).
      rewrite Hx, Hcur. reflexivity.
Qed.

Lemma splitlines_from_first_line t :
  forall cur, free_of BLACK_CIRCLE t = true ->
    exists more,
      splitlines_from cur (t ++ [LF]) = (rev cur ++ first_line t) :: more
      /\ Forall (fun l => free_of BLACK_CIRCLE l = true) more.
Proof.
  induction t as [|c r IH]; intros cur Ht.
  - exists []. split; [|constructor]. cbn [app splitlines_from first_line].
    change (LF =? CR) with false. change (is_line_boundary LF) with true. cbn iota.
    rewrite app_nil_r. reflexivity.
  - cbn [free_of forallb] in Ht. fold (free_of BLACK_CIRCLE r) in Ht.
    apply andb_prop in Ht as [Hc Hr].
    assert (Hr1 : free_of BLACK_CIRCLE (r ++ [LF]) = true).
    { rewrite free_of_app, Hr. reflexivity. }
    cbn [app splitlines_from first_line].
    destruct (Z.eqb_spec c CR) as [->|Hcr].
    + change (is_line_boundary CR) with true. cbn iota. rewrite app_nil_r.
      destruct r as [|c' r']; cbn [app].
      * change (LF =? LF) with true. cbn iota. exists []. split; [reflexivity|constructor].
      * destruct (c' =? LF).
        -- eexists. split; [reflexivity|].
           apply (splitlines_from_free _ (length (r' ++ [LF]))); [lia|reflexivity|].
           cbn [app free_of forallb] in Hr1. fold (free_of BLACK_CIRCLE (r' ++ [LF])) in Hr1.
           apply andb_prop in Hr1 as [_ Hr1]. exact Hr1.
        -- eexists. split; [reflexivity|].
           apply (splitlines_from_free _ (length (c' :: r' ++ [LF]))); [lia|reflexivity|].
           exact Hr1.
    + destruct (is_line_boundary c).
      * rewrite app_nil_r. eexists. split; [reflexivity|].
        apply (splitlines_from_free _ (length (r ++ [LF]))); [lia|reflexivity|exact Hr1].
      * destruct (IH (c :: cur) Hr) as (more & E & Hmore).
        exists more. split; [|exact Hmore]. rewrite E. cbn [rev].
        rewrite <- app_assoc. reflexivity.
Qed.

Lemma splitlines_from_first_line_end t :
  forall cur, free_of BLACK_CIRCLE t = true -> cur <> [] ->
    exists more,
      splitlines_from cur t = (rev cur ++ first_line t) :: more
      /\ Forall (fun l => free_of BLACK_CIRCLE l = true) more.
Proof.
  induction t as [|c r IH]; intros cur Ht Hne.
  - exists []. split; [|constructor]. cbn [splitlines_from first_line].
    rewrite app_nil_r. destruct cur; [contradiction|reflexivity].
  - cbn [free_of forallb] in Ht. fold (free_of BLACK_CIRCLE r) in Ht.
    apply andb_prop in Ht as [Hc Hr].
    cbn [splitlines_from first_line].
    destruct (Z.eqb_spec c CR) as [->|Hcr].
    + change (is_line_boundary CR) with true. cbn iota. rewrite app_nil_r.
      destruct r as [|c' r'].
      * exists []. split; [reflexivity|constructor].
      * cbn [free_of forallb] in Hr. fold (free_of BLACK_CIRCLE r') in Hr.
        pose proof Hr as Hr0. apply andb_prop in Hr as [_ Hr'].
        destruct (c' =? LF).
        -- eexists. split; [reflexivity|].
           apply (splitlines_from_free _ (length r')); [lia|reflexivity|exact Hr'].
        -- eexists. split; [reflexivity|].
           apply (splitlines_from_free _ (length (c' :: r'))); [lia|reflexivity|].
           cbn [free_of forallb]. fold (free_of BLACK_CIRCLE r'). exact Hr0.
    + destruct (is_line_boundary c).
      * rewrite app_nil_r. eexists. split; [reflexivity|].
        apply (splitlines_from_free _ (length r)); [lia|reflexivity|exact Hr].
      * destruct (IH (c :: cur) Hr ltac:(discriminate)) as (more & E & Hmore).
        exists more. split; [|exact Hmore]. rewrite E. cbn [rev].
        rewrite <- app_assoc. reflexivity.
Qed.

Lemma splitlines_from_head l :
  forall cur s, no_line_boundary l = true ->
    splitlines_from cur (l ++ s) = splitlines_from (rev l ++ cur) s.
Proof.
  induction l as [|c l IH]; intros cur s Hl; [reflexivity|].
  cbn [no_line_boundary forallb] in Hl. fold (no_line_boundary l) in Hl.
  apply andb_prop in Hl as [Hc Hl]. apply negb_true_iff in Hc.
  cbn [app]. rewrite splitlines_from_nonboundary by exact Hc.
  rewrite IH by exact Hl. cbn [rev]. rewrite <- app_assoc. reflexivity.
Qed.

Lemma render_line_head mk idx text :
  ExtractPy.render_line (ExtractPy.mk_line mk idx text)
  = (ExtractPy.mark_char mk
       :: ExtractPy.format_05d idx ++ [ExtractPy.mark_char mk; SPACE]) ++ text.
Proof.
  unfold ExtractPy.render_line.
  cbn [ExtractPy.l_mark ExtractPy.l_index ExtractPy.l_text app].
  rewrite <- app_assoc. reflexivity.
Qed.

Lemma head_no_line_boundary mk idx :
  0 <= idx ->
  no_line_boundary
    (ExtractPy.mark_char mk :: ExtractPy.format_05d idx ++ [ExtractPy.mark_char mk; SPACE])
  = true.
Proof.
  intros Hz.
  pose proof (render_line_no_line_boundary mk idx [] Hz eq_refl) as H.
  rewrite render_line_head, app_nil_r in H. exact H.
Qed.

Lemma mapping_step_free db m l :
  free_of BLACK_CIRCLE l = true -> mapping_step db m l = m.
Proof.
  unfold mapping_step, parse_line. destruct l as [|c l]; [reflexivity|].
  cbn [free_of forallb]. intros H. apply andb_prop in H as [Hc _].
  apply negb_true_iff in Hc. rewrite Hc. reflexivity.
Qed.

Lemma fold_free_lines db lines :
  Forall (fun l => free_of BLACK_CIRCLE l = true) lines ->
  forall m, fold_left (mapping_step db) lines m = m.
Proof.
  induction 1 as [|l lines Hl _ IH]; intros m; [reflexivity|].
  cbn [fold_left]. rewrite (mapping_step_free db m l Hl). apply IH.
Qed.

Section first_lines.
Variable (db : int_env).

(** A rendered line that is followed by a line feed. *)
Lemma fold_rendered_line mk idx text rest m :
  0 <= idx -> free_of BLACK_CIRCLE text = true ->
  fold_left (mapping_step db)
    (splitlines_from []
       (ExtractPy.render_line (ExtractPy.mk_line mk idx text) ++ LF :: rest)) m
  = fold_left (mapping_step db) (splitlines_from [] rest)
      (mapping_step db m
         (ExtractPy.render_line (ExtractPy.mk_line mk idx (first_line text)))).
Proof.
  intros Hz Ht.
  rewrite (splitlines_from_at_lf _ _ _ _ (Nat.le_refl _)).
  rewrite !render_line_head, <- app_assoc.
  rewrite splitlines_from_head by (apply head_no_line_boundary; exact Hz).
  destruct (splitlines_from_first_line text
              (rev (ExtractPy.mark_char mk
                      :: ExtractPy.format_05d idx ++ [ExtractPy.mark_char mk; SPACE])
                 ++ []) Ht) as (more & E & Hmore).
  rewrite E, app_nil_r, rev_involutive.
  cbn [app fold_left]. rewrite fold_left_app.
  rewrite (fold_free_lines db more Hmore). reflexivity.
Qed.

(** A rendered line at the end of the text. *)
Lemma fold_rendered_line_end mk idx text m :
  0 <= idx -> free_of BLACK_CIRCLE text = true ->
  fold_left (mapping_step db)
    (splitlines_from [] (ExtractPy.render_line (ExtractPy.mk_line mk idx text))) m
  = mapping_step db m
      (ExtractPy.render_line (ExtractPy.mk_line mk idx (first_line text))).
Proof.
  intros Hz Ht. rewrite !render_line_head.
  rewrite splitlines_from_head by (apply head_no_line_boundary; exact Hz).
  destruct (splitlines_from_first_line_end text
              (rev (ExtractPy.mark_char mk
                      :: ExtractPy.format_05d idx ++ [ExtractPy.mark_char mk; SPACE])
                 ++ []) Ht) as (more & E & Hmore).
  { rewrite app_nil_r. cbn [rev]. intros H. apply app_eq_nil in H as [_ H].
    discriminate. }
  rewrite E, app_nil_r, rev_involutive.
  cbn [fold_left]. apply fold_free_lines. exact Hmore.
Qed.

Lemma fold_first_lines recs :
  forallb (marker_free_edit db) recs = true ->
  forall m,
    fold_left (mapping_step db)
      (splitlines (ExtractMain.output_text (edited_lines recs))) m
    = fold_left (fun m r => <[ed_index r := first_line (ed_black r)]> m) recs m.
Proof.
  unfold splitlines.
  induction recs as [|r rest IH]; intros Hall m; [reflexivity|].
  cbn [forallb] in Hall. apply andb_prop in Hall as [Hr Hrest].
  unfold marker_free_edit in Hr.
  apply andb_prop in Hr as [Hr Hb]. apply andb_prop in Hr as [Hi Hw].
  pose proof (proj1 (index_readable_parts db _ Hi)) as Hz.
  rewrite output_text_cons.
  rewrite fold_rendered_line by assumption. rewrite mapping_step_white.
  destruct rest as [|r' rest'].
  - rewrite app_nil_r. rewrite fold_rendered_line_end by assumption.
    rewrite mapping_step_black by exact Hi. reflexivity.
  - rewrite fold_rendered_line by assumption.
    rewrite mapping_step_black by exact Hi.
    rewrite (splitlines_from_line [] [] _ eq_refl : splitlines_from [] (LF :: _) = _).
    cbn [rev app fold_left]. change (mapping_step db ?x []) with x.
    apply IH. exact Hrest.
Qed.

Lemma first_line_prefix pre c post :
  no_line_boundary pre = true -> is_line_boundary c = true ->
  first_line (pre ++ c :: post) = pre.
Proof.
  intros Hpre Hc. induction pre as [|x pre IH].
  - cbn [app first_line]. rewrite Hc. reflexivity.
  - cbn [no_line_boundary forallb] in Hpre. fold (no_line_boundary pre) in Hpre.
    apply andb_prop in Hpre as [Hx Hpre]. apply negb_true_iff in Hx.
    cbn [app first_line]. rewrite Hx, (IH Hpre). reflexivity.
Qed.
End first_lines.

Lemma first_lines_below encoding (l : list (list byte)) :
  forall c (m : gmap Z (list Z)) i, i <= c ->
    fold_left (fun m r => <[ed_index r := first_line (ed_black r)]> m)
      (map (extracted encoding) (number_from c l)) m !! i = m !! i.
Proof.
  induction l as [|x l IH]; intros c m i Hi; [reflexivity|].
  cbn [number_from map fold_left]. rewrite IH by lia.
  apply lookup_insert_ne. cbn [extracted ed_index fst]. lia.
Qed.

Lemma first_lines_lookup encoding (l : list (list byte)) :
  forall c (m : gmap Z (list Z)) i raw, (i, raw) ∈ number_from c l ->
    fold_left (fun m r => <[ed_index r := first_line (ed_black r)]> m)
      (map (extracted encoding) (number_from c l)) m !! i
    = Some (first_line (display_text encoding raw)).
Proof.
  induction l as [|x l IH]; intros c m i raw Hin.
  - apply elem_of_nil in Hin. contradiction.
  - cbn [number_from] in Hin. cbn [number_from map fold_left].
    apply elem_of_cons in Hin as [[= -> ->]|Hin].
    + rewrite first_lines_below by lia. cbn [extracted ed_index ed_black fst snd].
      apply lookup_insert_eq.
    + apply IH. exact Hin.
Qed.

(** X26. A text that holds a line boundary is read back cut at it.  For a
    text in the layout that the extractor writes, whose texts do not
    hold the black marker but may hold line boundaries of
    [str.splitlines], [load_mapping] gives every index the first line
    only of the text of its line with the black marker.  The extractor
    escapes carriage return and line feed only, so for a string whose
    display text holds another line boundary, such as a form feed, the
    unedited output maps its index to the part before that boundary. *)
Theorem text_cut_at_line_boundary db recs :
  forallb (marker_free_edit db) recs = true ->
  load_mapping db (ExtractMain.output_text (edited_lines recs))
  = mapping_of_first_lines recs
  /\ (forall encoding strings idx raw,
        recs = map (extracted encoding) (number_from (-1) strings) ->
        (idx, raw) ∈ number_from (-1) strings ->
        load_mapping db
          (ExtractMain.output_text (lines_of encoding (number_from (-1) strings))) !! idx
        = Some (first_line (display_text encoding raw)))
  /\ (forall pre c post,
        no_line_boundary pre = true -> is_line_boundary c = true ->
        first_line (pre ++ c :: post) = pre).
Proof.
  intros H. split; [apply fold_first_lines; exact H|]. split.
  - intros encoding strings idx raw -> Hin.
    rewrite (lines_of_edited encoding). unfold load_mapping.
    rewrite (fold_first_lines db _ H ∅). apply first_lines_lookup. exact Hin.
  - apply first_line_prefix.
Qed.

Lemma text_cut_at_line_boundary_witness :
  forallb (marker_free_edit Examples.ascii_db)
    (map (extracted latin1) (number_from (-1) [[x41; x0c; x42]])) = true
  /\ (0, [x41; x0c; x42]) ∈ number_from (-1) [[x41; x0c; x42]]
  /\ load_mapping Examples.ascii_db
       (ExtractMain.output_text (lines_of latin1 (number_from (-1) [[x41; x0c; x42]])))
       !! 0
     = Some (first_line (display_text latin1 [x41; x0c; x42]))
  /\ first_line (display_text latin1 [x41; x0c; x42]) = [65].
Proof.
  assert (H : forallb (marker_free_edit Examples.ascii_db)
                (map (extracted latin1) (number_from (-1) [[x41; x0c; x42]])) = true)
    by reflexivity.
  assert (Hin : (0, [x41; x0c; x42]) ∈ number_from (-1) [[x41; x0c; x42]])
    by apply list_elem_of_here.
  split; [exact H|]. split; [exact Hin|]. split.
  - exact (proj1 (proj2 (text_cut_at_line_boundary Examples.ascii_db _ H))
             latin1 [[x41; x0c; x42]] 0 [x41; x0c; x42] eq_refl Hin).
  - apply (proj2 (proj2 (text_cut_at_line_boundary Examples.ascii_db _ H))
             [65] 12 [66]); reflexivity.
Defined.

End line_boundaries.

(** ** The records of any extraction *)

Lemma records_paired_next encoding pos out c raw pos' :
  records_paired encoding (ExtractPy.mk_estate pos out c) ->
  records_paired encoding
    (ExtractPy.mk_estate pos'
       ((out ++ [ExtractPy.mk_line ExtractPy.White (c + 1)
                   (escape_text (decode_text encoding raw))])
          ++ [ExtractPy.mk_line ExtractPy.Black (c + 1)
                (escape_text (decode_text encoding raw))])
       (c + 1)).
Proof.
  intros (strings & Ho & Hc). cbn [ExtractPy.e_out ExtractPy.e_counter] in *.
  assert (Hi : -1 + len strings + 1 = c + 1) by (clear Ho; lia).
  assert (Hl : c + 1 = len (strings ++ [raw]) - 1).
  { clear Ho Hi. rewrite len_app. unfold len at 2. cbn [length]. lia. }
  exists (strings ++ [raw]). split; [|exact Hl].
  rewrite number_from_app, lines_of_app, Ho, <- app_assoc.
  cbn [number_from lines_of flat_map app]. rewrite Hi. reflexivity.
Qed.

Lemma records_paired_moved encoding pos pos' out c :
  records_paired encoding (ExtractPy.mk_estate pos out c) ->
  records_paired encoding (ExtractPy.mk_estate pos' out c).
Proof. intros H. exact H. Qed.

Section paired.
Variables (data : list byte) (e : endian).
Variables (int_size size_t_size instr_size number_size : Z).
Variables (encoding : codec).

Lemma const_step_paired st st' :
  records_paired encoding st ->
  ExtractPy.const_step data e size_t_size number_size encoding st = Ok st' ->
  records_paired encoding st'.
Proof.
  destruct st as [pos out c]. intros HI.
  unfold ExtractPy.const_step.
  cbn [ExtractPy.e_pos ExtractPy.e_out ExtractPy.e_counter].
  destruct (py_index data pos) as [t|]; cbn [bind]; [|discriminate].
  destruct (byte_to_Z t =? 0); [intros [= <-]; exact HI|].
  destruct (byte_to_Z t =? 1); [intros [= <-]; exact HI|].
  destruct (byte_to_Z t =? 3); [intros [= <-]; exact HI|].
  destruct (byte_to_Z t =? 4); [|discriminate].
  destruct (ExtractPy.read_lstring _ _ _ _) as [[[[s p] rp] rl]|]; cbn [bind];
    [|discriminate].
  destruct s as [raw|]; intros [= <-].
  - apply (records_paired_next encoding pos). exact HI.
  - exact HI.
Qed.

Lemma process_proto_paired depth :
  forall st st', records_paired encoding st ->
    ExtractPy.process_proto data e int_size size_t_size instr_size number_size
      encoding depth st = Ok st' -> records_paired encoding st'.
Proof.
  induction depth as [|depth IH]; intros st st' HI; [discriminate|].
  destruct st as [pos out c].
  cbn [ExtractPy.process_proto ExtractPy.e_pos ExtractPy.e_out ExtractPy.e_counter].
  repeat inv_step.
  match goal with
  | |- context [bind (for_range ?n ?step ?s) _] =>
      destruct (for_range n step s) as [s1|] eqn:L1; cbn [bind]; [|discriminate]
  end.
  apply (repeat_loop_inv (records_paired encoding)) in L1;
    [|apply const_step_paired|exact HI].
  destruct s1 as [pos1 out1 c1].
  cbn [ExtractPy.e_pos ExtractPy.e_out ExtractPy.e_counter].
  repeat inv_step.
  match goal with
  | |- context [bind (for_range ?n ?step ?s) _] =>
      destruct (for_range n step s) as [s2|] eqn:L2; cbn [bind]; [|discriminate]
  end.
  apply (repeat_loop_inv (records_paired encoding)) in L2; [|apply IH|exact L1].
  destruct s2 as [pos2 out2 c2].
  cbn [ExtractPy.e_pos ExtractPy.e_out ExtractPy.e_counter].
  repeat inv_step.
  match goal with
  | |- context [bind (for_range ?n ?step ?s) _] =>
      destruct (for_range n step s) as [s3|] eqn:L3; cbn [bind]; [|discriminate]
  end.
  apply (repeat_loop_inv (records_paired encoding)) in L3; [| |exact L2].
  2:{ intros [ps os cs] s' Hs. unfold ExtractPy.locvar_step.
      destruct (ExtractPy.read_lstring _ _ _ _) as [[[[? ?] ?] ?]|]; cbn [bind];
        [|discriminate].
      intros [= <-]. exact Hs. }
  destruct s3 as [pos3 out3 c3].
  cbn [ExtractPy.e_pos ExtractPy.e_out ExtractPy.e_counter].
  repeat inv_step.
  intros L4.
  apply (repeat_loop_inv (records_paired encoding)) in L4; [exact L4| |exact L3].
  intros [ps os cs] s' Hs. unfold ExtractPy.upvalue_step.
  destruct (ExtractPy.read_lstring _ _ _ _) as [[[[? ?] ?] ?]|]; cbn [bind];
    [|discriminate].
  intros [= <-]. exact Hs.
Qed.
End paired.

Lemma extract_strings_paired limit data encoding lines :
  ExtractPy.extract_strings limit data encoding = Ok lines ->
  exists strings : list (list byte),
    lines = lines_of encoding (number_from (-1) strings).
Proof.
  unfold ExtractPy.extract_strings.
  destruct (read_header data) as [h|]; cbn [bind]; [|discriminate].
  destruct (ExtractPy.process_proto _ _ _ _ _ _ _ limit _) as [st|] eqn:E; cbn [bind];
    [|discriminate].
  intros [= <-].
  apply (process_proto_paired _ _ _ _ _ _ encoding) in E as (strings & Ho & _).
  - exists strings. exact Ho.
  - exists []. split; reflexivity.
Qed.

(** X27. Whatever the input is, the records that extraction returns are
    those of a list of strings numbered from 0: for each string a record
    with the white marker directly followed by one with the black marker,
    both with its index and its display text.  So the text that [main]
    writes is read by [load_mapping] as the mapping of these display
    texts, when they hold no line boundary and the printed indices are
    within the digit limit of [int()]. *)
Theorem extraction_records_paired limit data encoding lines :
  ExtractPy.extract_strings limit data encoding = Ok lines ->
  exists strings : list (list byte),
    lines = lines_of encoding (number_from (-1) strings)
    /\ ExtractMain.main_text limit data encoding
       = Ok (ExtractMain.output_text (lines_of encoding (number_from (-1) strings)))
    /\ (forall db,
          forallb (readable_record db encoding) (number_from (-1) strings) = true ->
          ImportPy.load_mapping db (ExtractMain.output_text lines)
          = mapping_of encoding (number_from (-1) strings)).
Proof.
  intros H. destruct (extract_strings_paired limit data encoding lines H) as (strings & ->).
  exists strings. split; [reflexivity|]. split.
  - unfold ExtractMain.main_text. rewrite H. reflexivity.
  - intros db Hread. apply load_mapping_output_text. exact Hread.
Qed.

Lemma extraction_records_paired_witness :
  ExtractPy.extract_strings 10 (Examples.chunk_of Examples.odd_terminator) latin1
  = Ok [ExtractPy.mk_line ExtractPy.White 0 Examples.hello_text;
        ExtractPy.mk_line ExtractPy.Black 0 Examples.hello_text]
  /\ exists strings : list (list byte),
       [ExtractPy.mk_line ExtractPy.White 0 Examples.hello_text;
        ExtractPy.mk_line ExtractPy.Black 0 Examples.hello_text]
       = lines_of latin1 (number_from (-1) strings).
Proof.
  assert (H : ExtractPy.extract_strings 10 (Examples.chunk_of Examples.odd_terminator)
                latin1
              = Ok [ExtractPy.mk_line ExtractPy.White 0 Examples.hello_text;
                    ExtractPy.mk_line ExtractPy.Black 0 Examples.hello_text])
    by (vm_compute; reflexivity).
  split; [exact H|].
  destruct (extraction_records_paired 10 _ latin1 _ H) as (strings & E & _).
  exists strings. exact E.
Defined.
